(* ===== verification/_CoqProject ===== *)
-Q . S2P
Prelude.v
RustStr.v
Utf8.v
Json.v
JsonMaps.v
Pointer.v
Ext.v
Samples.v
Config.v
Upstream.v
ImageIo.v
RequestScan.v
Interleave.v
Inside.v
Locked.v
BlobRuntime.v
BlobSteps.v
BlobLogic.v
BlobShared.v
RequestEncode.v
MemoryCache.v
DiskCache.v
DiskShared.v
FetchService.v
FetchOrigin.v
SingleFlight.v
RequestMaterialize.v
ImageBlob.v
RequestRewrite.v
RequestSteps.v
RequestLogic.v
OpenaiImage.v
Http.v
Admin.v
AdminShared.v
Upload.v
ResponseRewrite.v
ResponseMaterialize.v
Query.v
UpstreamClient.v
UpstreamResponse.v
Aiapidev.v
Tracking.v
Router.v
Forwarding.v
RouterSteps.v
ActionSteps.v
PageSteps.v
RouterLogic.v
Handling.v
Server.v
PageReads.v
ServerLogic.v
ServerShared.v
Hosted.v
Main.v
