(* ===== verification/Prelude.v ===== *)
(** * A verification development of the Rust proxy (src/rust-sync-proxy)

    The program is an HTTP proxy in front of image-generation models. A client posts a Gemini
    request whose [inlineData] parts may hold image URLs; the proxy downloads each URL once, keeps the
    images as blobs in memory or on disk, and streams a body upstream in which every URL is replaced
    by base64 data. The answer is normalized (one image per candidate, no thought signatures) and its
    images are, on request, uploaded to an image host and replaced by URLs. A second upstream, AI API
    Dev, takes a translated request and answers with a task that is polled; a third action takes OpenAI
    image requests. An admin log keeps the last hundred requests with redacted bodies, and counters.

    ** Conventions

    Strings and byte buffers are byte strings ([bytes]); integers are [Z] with the wrap-around of their
    width written out ([u64_wrap], [i64_wrap]); [serde_json::Value] is [Json.Value], an inductive type
    whose objects are association lists in insertion order. Fallible code returns [Result]
    ([let? x := r in ..] is Rust's [?]); code with effects is a state-passing function ([St], and [StE]
    when it may fail: [x <-! m ;; k] and [x <-? m ;; k]) over the component's record, whose field
    [world] stands for the process's surroundings. Third-party crates, the file system, the network,
    the clock and the scheduler are classes of operations on that world (Ext.v and the sections
    "Interfaces" of the components); the documented behaviour that theorems rely on are separate classes of
    laws ([FileSystemLaws], [Base64Laws], [JsonCompact], [FormLaws], [LruLaws], [FetchLaws],
    [RouterFrames], [BodyLaws], [MonotonicTime], [DirectoryLaws], [MetaCodec]). Samples.v and the end of each component have concrete
    instances, on which the witnesses evaluate.

    ** Files

    - Prelude.v, RustStr.v, Utf8.v, Json.v, JsonMaps.v, Pointer.v, Ext.v, Samples.v: the monads and
      tactics, the [str] and UTF-8 functions, JSON documents and pointers, the interfaces of the
      crates, and their concrete instances.
    - Config.v (config.rs, test_config of lib.rs): [from_env_map], its parsers and validation.
    - Upstream.v (upstream.rs): the base URL and key of a request, from headers and tokens.
    - ImageIo.v (image_io.rs): the guard on fetch targets, the bounded download, re-encoding.
    - RequestScan.v (request_scan.rs): the scanner of image URLs and its reference collector.
    - Interleave.v, Inside.v, Locked.v: programs as sequences of atomic accesses ([Prog]), the pool of
      tasks that interleave them, and may be dropped at an await ([pool_step]), a rely-guarantee logic
      ([wp]) with its soundness, programs on a part of the state, and operations under a lock.
    - BlobRuntime.v (blob_runtime.rs): the store of bodies. [BlobRuntimeInner] is its state, [rep s L]
      says that it holds exactly the live blobs [L]; [store_*], [open_reader], [read_bytes] and
      [remove] are its operations. BlobSteps.v has the same operations access by access ([*_steps],
      with the compare-and-swap loop of the reservation), BlobLogic.v the invariant [store_inv] and
      the rules for them, BlobShared.v the pool of tasks that are single operations.
    - RequestEncode.v (request_encode.rs): the streaming encoder, proved to write the compact JSON of
      [encoded_document], the patched request.
    - MemoryCache.v, DiskCache.v, FetchService.v, SingleFlight.v (cache.rs): the two caches; the fetch
      service followed one request at a time; and [flight_step], the interleavings of any number of
      requests, shared downloads, downloads of their own for requests that find the table full, and
      cancellations as a step relation. FetchOrigin.v: where every answer of the
      service comes from, whatever it was asked before. DiskShared.v: the disk cache access by
      access, one service under its lock and two services on one directory.
    - RequestMaterialize.v (request_materialize.rs), RequestRewrite.v (request_rewrite.rs),
      OpenaiImage.v (openai_image.rs): images stored for a request; the request for AI API Dev;
      the OpenAI request and response payloads. ImageBlob.v: an image from its URL to its blob.
      RequestSteps.v, RequestLogic.v: a request's use of the blob store access by access, and what it
      owns of the store meanwhile.
    - Upload.v (upload.rs): the image hosts, R2 with its signature, and the reader that decodes base64
      while it is sent.
    - ResponseRewrite.v (response_rewrite.rs), ResponseMaterialize.v (response_materialize.rs):
      normalization of answers; the images of an answer uploaded or re-encoded, each once.
    - Http.v, Admin.v (admin.rs): replies; the log, the counters, authentication, redaction.
      AdminShared.v: the counters and the log shared by requests in flight, [log_step] being one
      [fetch_add] or one push under the lock.
    - Query.v, UpstreamClient.v, UpstreamResponse.v, Aiapidev.v, Tracking.v, Router.v (http/router.rs):
      the query without [output]; classification and annotation of failures; the answers of the
      Gemini and OpenAI upstreams; the task loop; the observer of cache hits; the handlers, the
      routing table ([serve]) and the initial state ([build_app_state]).
    - Forwarding.v, Handling.v, Server.v: theorems about the handlers, composed from the theorems of
      the components: what a forwarded request sends and leaves behind, what each action replies
      and logs, and the server as a state machine ([reachable]).
    - RouterSteps.v, ActionSteps.v, PageSteps.v: the handlers access by access, down to the additions to
      the counters and the push to the log, the admin pages that read them, and the router
      ([serve_steps]). PageReads.v: what the admin pages show of the states they look at. RouterLogic.v,
      ServerLogic.v: what a request does to the server, and to the log, among others, and what its log
      entry says ([logs_reply]). ServerShared.v: the pool of requests that a server handles at once. Hosted.v:
      this server in a world whose images are fetched by the two services that [build_router] makes
      (it discharges [UrlFetcher] and [ResponseFetcher] with FetchService.v).
    - Main.v (main.rs, allocator.rs, from_process_env of config.rs): the start of the process from its
      environment ([start]), the signals it waits for ([shutdown_signal]), and that the requests in
      flight can be answered when no more come.

    A component's client is proved against a class: [UrlFetcher] (the fetch service, for request and
    response images), [InlineUploader] (the uploader), [CacheObserver] (the closure of Tracking.v),
    [JoinOrder] (the order in which downloads finish), [UpstreamClient]. The observer writes to the
    statistics while images are fetched: Tracking.v makes both part of the world ([Tracked]), where all
    laws hold again, and [Router.materialize_tracked] runs the component in that world.

    ** What the theorems show

    - Requests: the scanner equals its reference and its pointers are distinct and resolve; the encoder
      writes the patched document whatever the chunking of the pipe, announces its length, and does not
      fail in memory; materializing stores one blob per distinct URL and nothing else; forwarding
      sends that document to the request's URL without the [output] option and leaves no blob
      (Server.forward_gemini_request_correct, exchange_releases_blobs).
    - The blob store: every run keeps [rep]; storing refines insertion of all that the stream gave up to
      its end, and fails when the stream does; removing refines deletion, of the spill file too. Under
      every interleaving of the accesses of any number of tasks, dropped ones included, the budget
      holds, identifiers are distinct, contents stay intact, and at rest exactly the live blobs are
      counted (BlobShared.concurrent_blobs_correct).
    - Requests at once, to any route: however their accesses interleave, every reply is right for its own
      request, one that was forwarded has sent its own document; at every moment the log has an entry
      for each request that was answered, with this request's fields and its reply's status and
      body, and the counters count them; an admin page is refused or shows the log, or the
      counters, as they were while the page was asked for; when all are done the log and the
      counters are exact, and unless one has failed or was dropped nothing is left in the store
      (ServerShared.concurrent_server_correct). Left alone, the steps are the sequential router
      ([serve_alone]). When no more requests come, all in flight can be answered
      (Main.requests_drain).
    - The whole server: with its fetch services and their caches in place of the interface, what is sent
      upstream for an image URL is an answer of that very URL, from a permitted address and within
      the limit, or its smaller encoding, or what the disk cache kept for it
      (Hosted.server_sends_genuine_images).
    - Caches: the byte bounds are exact, hits are what was stored, an answer always
      is one of its own URL (FetchOrigin.fetch_answers_are_genuine), expired files are never served, and a
      lookup changes no file unless it deletes an expired entry; with the background bridge at most one
      shared download per URL is under way in every interleaving, and at most [max_inflight] in all;
      the disk cache of one service is serializable.
    - Answers: no thought signature is left and nothing else is lost, the largest image is kept, images
      are re-encoded as configured, every distinct image is uploaded once and replaced by a URL; the
      document sent to the client is exactly what these stages make of the upstream's; uploads deliver the image they were given, to the configured
      hosts only; streamed decoding equals decoding at once; errors of the upstream are annotated.
    - AI API Dev: translated requests are clean; polling ends within 451 turns, and a task is handed on
      only when the upstream said it is finished.
    - Server: each action's reply on every branch, with exactly one log entry of the same status; after
      any number of requests the store is consistent, every request is counted and the log holds the
      last hundred; under any interleaving the counters end up as if the requests had been counted
      one after another, and the identifiers in the log are distinct; who does not know the password
      sees the same from any two servers.
    - Configuration and security: accepted configurations are well formed; a resolved upstream has a key
      and a validated URL; a fetched URL has passed the checks. Some theorems state defects
      ([no_bridge_waiter_can_be_lost], [no_bridge_double_flight], [materialize_failure_leaks],
      [forbidden_never_on_bracketed_host], [two_services_mix_disk_entry], [dropped_request_leaks],
      [dropped_request_is_not_logged], [unparsable_upstream_leaks_the_body], [listen_failures]).

    ** Bounds and fuel

    Loops that are not structural carry fuel, and each has enough: [Aiapidev.MAX_POLL_TURNS] is 451,
    since every turn but the last sleeps a second before a deadline of 450; the eviction loop of the
    memory cache and [Admin.pop_excess] take the number of entries, as each turn removes one; UTF-8
    decoding, base64 reading and chunking take the length of their input, as each call consumes at least
    a byte. Theorems about the blob store assume that the 64-bit identifiers are not used up
    ([has_room], [ids_left]: a request takes at most eight), those about the log alone that fewer than
    [2 ^ 63] requests were served. Counters wrap where the code's do.

    ** Not modelled

    - Tracing and what is traced; the accept loop of axum, its connections and its graceful shutdown
      ([run_server]): a request begins in one step of the pool. [bind] is a parameter. The targets
      other than Unix, where there is no SIGTERM.
    - The construction of the HTTP clients (timeouts and TLS options), the matching and decoding of
      paths in axum, serde's derived parsers, digests and image codecs: parameters.
    - The text of the admin page (ADMIN_LOGS_HTML).
    - Requests are served one after another in Server.v. What they share in flight is modelled under
      interleaving in BlobShared.v, DiskShared.v, SingleFlight.v, AdminShared.v and ServerShared.v.
      There an operation of the world (a download with the fetch service behind it, the exchange
      with the upstream, an upload) is one access; SingleFlight.v has the interleavings inside the
      fetch service. The tasks that one request spawns for its downloads do not interleave with each other,
      though they do with other requests: their images are stored one after another, in the order
      in which the downloads finish; the writer of a body and the task that stores it take turns
      only at its end, so that a dropped request leaves at most the access it awaited. In Hosted.v
      the directory of the disk cache is not the directory of the blobs.
    - A file that cannot be removed stays on disk: [rep] speaks of live blobs only.
    - The Go programs, the workers and the scripts of the repository. *)

From stdpp Require Export base tactics option list gmap strings pretty.
From stdpp Require Import options.
From Stdlib Require Export ZArith Lia.
From Stdlib Require Export Ascii.

Declare Scope proxy_scope.
Delimit Scope proxy_scope with proxy.
Open Scope proxy_scope.

(** Rust [&str], [String], [Bytes] and [Vec<u8>] are byte strings here: an [ascii] is one byte and
    [String.length] is the byte length that [str::len] returns. *)
Abbreviation bytes := string (only parsing).

(** * Rust results *)

(** The third-party [reqwest::Error], through the predicates the program calls on it. *)
Record ReqwestError := mkReqwestError {
  is_timeout : bool;
  is_connect : bool;
  is_body : bool;
  is_request : bool;
  is_decode : bool;
  reqwest_display : string;
}.

(** [anyhow::Error]: a message, or a typed error that [downcast_ref] recovers. *)
Inductive Error :=
| Anyhow (message : string)
| ImageFetchStatusError (status : Z)
| ReqwestErr (e : ReqwestError)
| BackgroundFetchWaitTimeoutError (wait_timeout total_timeout : Z)
| StructuredProxyError (message stage kind detail : string)
| ExternalError (display : string).

Inductive Result (E A : Type) :=
| Ok (a : A)
| Err (e : E).
Arguments Ok {E A} a.
Arguments Err {E A} e.

Definition and_then {E A B} (r : Result E A) (f : A -> Result E B) : Result E B :=
  match r with Ok a => f a | Err e => Err e end.

Definition map_err {E F A} (f : E -> F) (r : Result E A) : Result F A :=
  match r with Ok a => Ok a | Err e => Err (f e) end.

Definition result_ok {E A} (r : Result E A) : option A :=
  match r with Ok a => Some a | Err _ => None end.

Definition ok_or {E A} (o : option A) (e : E) : Result E A :=
  match o with Some a => Ok a | None => Err e end.

(** [r?]: early return of the error. *)
Notation "'let?' x ':=' r 'in' k" := (and_then r (fun x => k))
  (at level 10, x name, r at level 100, k at level 200) : proxy_scope.
Notation "'let?' ' p ':=' r 'in' k" := (and_then r (fun p => k))
  (at level 10, p pattern, r at level 100, k at level 200) : proxy_scope.

(** A [for] loop whose body may return early with [?], and the same over [iter().enumerate()]. *)
Definition try_fold {E A B} (f : A -> B -> Result E A) : A -> list B -> Result E A :=
  fix go acc l :=
    match l with
    | [] => Ok acc
    | x :: l' => and_then (f acc x) (fun acc => go acc l')
    end.

Definition try_foldi {E A B} (f : nat -> A -> B -> Result E A) : nat -> A -> list B -> Result E A :=
  fix go i acc l :=
    match l with
    | [] => Ok acc
    | x :: l' => and_then (f i acc x) (fun acc => go (S i) acc l')
    end.

(** * A state monad with errors

    Stateful code runs over a state [S]; an early return by [?] keeps the state reached so far. *)
Definition St (S A : Type) := S -> A * S.
Definition StE (S A : Type) := S -> Result Error A * S.

Definition st_ret {S A} (a : A) : St S A := fun s => (a, s).
Definition st_bind {S A B} (m : St S A) (f : A -> St S B) : St S B :=
  fun s => let '(a, s') := m s in f a s'.
Definition ste_bind {S A B} (m : StE S A) (f : A -> StE S B) : StE S B :=
  fun s => match m s with
           | (Ok a, s') => f a s'
           | (Err e, s') => (Err e, s')
           end.
Definition ste_ok {S A} (a : A) : StE S A := fun s => (Ok a, s).
Definition ste_err {S A} (e : Error) : StE S A := fun s => (Err e, s).
Definition ste_lift {S A} (r : Result Error A) : StE S A := fun s => (r, s).

(** A [for] loop of stateful turns, and the same over [iter().enumerate()]. *)
Definition ste_for {S A B} (f : A -> B -> StE S A) : A -> list B -> StE S A :=
  fix go acc l :=
    match l with
    | [] => ste_ok acc
    | x :: l' => ste_bind (f acc x) (fun acc => go acc l')
    end.

Definition ste_fori {S B} (f : nat -> B -> StE S unit) : nat -> list B -> StE S unit :=
  fix go i l :=
    match l with
    | [] => ste_ok tt
    | x :: l' => ste_bind (f i x) (fun _ => go (Datatypes.S i) l')
    end.

Notation "x '<-?' m ';;' k" := (ste_bind m (fun x => k))
  (at level 100, m at next level, right associativity) : proxy_scope.
Notation "x '<-!' m ';;' k" := (st_bind m (fun x => k))
  (at level 100, m at next level, right associativity) : proxy_scope.

(** * Machine integers *)

Definition u8_max : Z := 255.
Definition u16_max : Z := 65535.
Definition u64_max : Z := 18446744073709551615.
Definition u64_modulus : Z := 18446744073709551616.
Definition i64_max : Z := 9223372036854775807.
Definition i64_min : Z := -9223372036854775808.

(** [fetch_add]/[fetch_sub] on an [AtomicU64] wrap around. *)
Definition u64_wrap (z : Z) : Z := z mod u64_modulus.
(** [u64::saturating_sub] *)
Definition u64_saturating_sub (a b : Z) : Z := Z.max 0 (a - b).
(** [u64::checked_add] *)
Definition u64_checked_add (a b : Z) : option Z :=
  if (u64_max <? a + b)%Z then None else Some (a + b)%Z.
(** [i64] wrap-around of [AtomicI64::fetch_add] *)
Definition i64_wrap (z : Z) : Z := (z - i64_min) mod u64_modulus + i64_min.

Definition in_u64 (z : Z) : Prop := (0 <= z <= u64_max)%Z.

Definition blen (s : bytes) : Z := Z.of_nat (String.length s).

(** Rust's [format!("{}")] of an unsigned integer. *)
Definition fmt_nat (n : nat) : string := pretty n.
Definition fmt_Z (z : Z) : string := pretty z.

(** The double quote, which a string literal here cannot hold. *)
Definition dquote : string := String "034" EmptyString.

(** * Automation *)

Create HintDb proxy.
Create Rewrite HintDb proxy_rw.

Ltac simp_result :=
  repeat match goal with
  | H : Ok _ = Ok _ |- _ => injection H as H
  | H : Err _ = Err _ |- _ => injection H as H
  | H : Ok _ = Err _ |- _ => discriminate H
  | H : Err _ = Ok _ |- _ => discriminate H
  | H : and_then ?r _ = Ok _ |- _ =>
      let E := fresh "E" in destruct r eqn:E; cbn [and_then] in H; [|discriminate H]
  | H : and_then (Ok _) _ = _ |- _ => cbn [and_then] in H
  | H : and_then (Err _) _ = _ |- _ => cbn [and_then] in H
  end.

(** Case analysis on the innermost test of the goal. *)
Ltac case_goal := repeat (case_match; simplify_eq/=).

(** * Generic lemmas *)

Lemma and_then_ok_inv {E A B} (r : Result E A) (f : A -> Result E B) b :
  and_then r f = Ok b -> exists a, r = Ok a /\ f a = Ok b.
Proof. destruct r; cbn; naive_solver. Qed.

Lemma and_then_assoc {E A B C} (r : Result E A) (f : A -> Result E B) (g : B -> Result E C) :
  and_then (and_then r f) g = and_then r (fun a => and_then (f a) g).
Proof. by destruct r. Qed.

Lemma ste_bind_Ok {S A B} (m : StE S A) (f : A -> StE S B) s b s' :
  ste_bind m f s = (Ok b, s') -> exists a s1, m s = (Ok a, s1) /\ f a s1 = (Ok b, s').
Proof. unfold ste_bind. destruct (m s) as [[a|e] s1]; [eauto|done]. Qed.

Lemma st_bind_Ok {S A B} (m : St S A) (f : A -> StE S B) s r s' :
  st_bind m f s = (r, s') -> exists a s1, m s = (a, s1) /\ f a s1 = (r, s').
Proof. unfold st_bind. destruct (m s) as [a s1]. eauto. Qed.

Lemma ste_lift_Ok {S A} (r : Result Error A) (s s' : S) a :
  ste_lift r s = (Ok a, s') -> r = Ok a /\ s' = s.
Proof. by intros [= -> ->]. Qed.

Lemma map_err_Ok {E F A} (f : E -> F) (r : Result E A) a : map_err f r = Ok a -> r = Ok a.
Proof. destruct r; [by intros [= ->]|done]. Qed.

Lemma try_fold_cons {E A B} (f : A -> B -> Result E A) acc x l :
  try_fold f acc (x :: l) = and_then (f acc x) (fun acc => try_fold f acc l).
Proof. done. Qed.

Lemma try_fold_ext {E A B} (f g : A -> B -> Result E A) acc l :
  Forall (fun x => forall acc, f acc x = g acc x) l -> try_fold f acc l = try_fold g acc l.
Proof.
  intros H. revert acc. induction H as [|x l Hx _ IH]; intros acc; [done|].
  rewrite !try_fold_cons, Hx. destruct (g acc x); simpl; [apply IH|done].
Qed.

Lemma try_foldi_imap {E A B C} (f : nat -> A -> B -> Result E A) (g : A -> C -> Result E A)
    (h : nat -> B -> C) i acc l :
  (forall i acc x, f i acc x = g acc (h i x)) ->
  try_foldi f i acc l = try_fold g acc (imap (fun j x => h (i + j)%nat x) l).
Proof.
  intros Hfg. revert i acc. induction l as [|x l IH]; intros i acc; [done|].
  simpl. rewrite Nat.add_0_r, Hfg. destruct (g acc (h i x)); simpl; [|done].
  rewrite (IH (S i)). f_equal. apply imap_ext. intros j y _. simpl. f_equal. lia.
Qed.

Lemma u64_wrap_small z : in_u64 z -> u64_wrap z = z.
Proof. intros H. unfold in_u64, u64_max in H. apply Z.mod_small. unfold u64_modulus. lia. Qed.

Lemma u64_wrap_range z : in_u64 (u64_wrap z).
Proof.
  unfold in_u64, u64_wrap, u64_max.
  pose proof (Z.mod_pos_bound z u64_modulus eq_refl). unfold u64_modulus in *. lia.
Qed.

Lemma i64_wrap_small z : (i64_min <= z <= i64_max)%Z -> i64_wrap z = z.
Proof.
  unfold i64_wrap, i64_min, i64_max, u64_modulus. intros H. rewrite Z.mod_small; lia.
Qed.

Lemma blen_nonneg s : (0 <= blen s)%Z.
Proof. unfold blen. lia. Qed.

Lemma string_length_app (s t : string) :
  String.length (s +:+ t) = (String.length s + String.length t)%nat.
Proof.
  induction s as [|a s IH]; [done|].
  change (String a s +:+ t) with (String a (s +:+ t)). simpl. by rewrite IH.
Qed.

Lemma blen_app s t : blen (s +:+ t) = (blen s + blen t)%Z.
Proof. unfold blen. rewrite string_length_app. lia. Qed.

Lemma string_cons_app a (s t : string) : String a s +:+ t = String a (s +:+ t).
Proof. done. Qed.

Lemma string_app_nil_l (s : string) : EmptyString +:+ s = s.
Proof. done. Qed.

Lemma string_app_nil_r (s : string) : s +:+ EmptyString = s.
Proof. induction s as [|a s IH]; [done|]. by rewrite string_cons_app, IH. Qed.

Lemma string_app_assoc (s t u : string) : (s +:+ t) +:+ u = s +:+ (t +:+ u).
Proof. induction s as [|a s IH]; [done|]. by rewrite !string_cons_app, IH. Qed.

Lemma string_app_inj_l (s t u : string) : s +:+ t = s +:+ u -> t = u.
Proof.
  induction s as [|a s IH]; [done|]. rewrite !string_cons_app. intros [= H]. by apply IH.
Qed.

#[export] Hint Rewrite @blen_app string_app_nil_l string_app_nil_r string_app_assoc : proxy_rw.
#[export] Hint Resolve blen_nonneg u64_wrap_range : proxy.

Lemma fmt_nat_inj n m : fmt_nat n = fmt_nat m -> n = m.
Proof. apply (inj pretty). Qed.

(** Sum of a list of integers. *)
Definition sumZ (l : list Z) : Z := foldr Z.add 0%Z l.

Lemma sumZ_app l1 l2 : sumZ (l1 ++ l2) = (sumZ l1 + sumZ l2)%Z.
Proof. induction l1 as [|x l1 IH]; simpl; [done|]. unfold sumZ in *. simpl. lia. Qed.

Lemma sumZ_cons x l : sumZ (x :: l) = (x + sumZ l)%Z.
Proof. done. Qed.

Lemma sumZ_nonneg l : Forall (fun x => 0 <= x)%Z l -> (0 <= sumZ l)%Z.
Proof. induction 1; unfold sumZ in *; simpl; lia. Qed.

Lemma sumZ_Permutation l1 l2 : l1 ≡ₚ l2 -> sumZ l1 = sumZ l2.
Proof. induction 1; unfold sumZ in *; simpl; lia. Qed.

Lemma filter_id {A} (P : A -> Prop) `{forall x, Decision (P x)} (l : list A) :
  Forall P l -> filter P l = l.
Proof. induction 1; [done|]. rewrite filter_cons_True by done. by f_equal. Qed.

Lemma Forall_filter_sub {A} (P Q : A -> Prop) `{forall x, Decision (P x)} (l : list A) :
  Forall Q l -> Forall Q (filter P l).
Proof. rewrite !Forall_forall. intros Hall x [_ Hin]%list_elem_of_filter. by apply Hall. Qed.

Lemma list_elem_of_concat {A} (x : A) (ls : list (list A)) :
  x ∈ concat ls <-> exists l, x ∈ l /\ l ∈ ls.
Proof.
  induction ls as [|l ls IH]; simpl.
  - split; [by intros ?%elem_of_nil|]. by intros (l & _ & ?%elem_of_nil).
  - rewrite elem_of_app, IH. setoid_rewrite elem_of_cons. naive_solver.
Qed.
