(* ===== verification/RustStr.v ===== *)
(** The [str] methods of the Rust standard library that the program calls, on byte strings: prefix
    tests, searching, splitting, Unicode [trim], ASCII case folding and integer parsing, with the
    lemmas the components share. *)

From S2P Require Import Prelude.
From stdpp Require Import options.

(** * Prefixes and suffixes *)

(** [str::strip_prefix] *)
Fixpoint strip_prefix (p s : string) : option string :=
  match p, s with
  | EmptyString, _ => Some s
  | String a p', String b s' => if Ascii.eqb a b then strip_prefix p' s' else None
  | String _ _, EmptyString => None
  end.

(** [str::starts_with] *)
Definition starts_with (s p : string) : bool :=
  match strip_prefix p s with Some _ => true | None => false end.

Fixpoint string_rev_app (s acc : string) : string :=
  match s with EmptyString => acc | String a s' => string_rev_app s' (String a acc) end.
Definition string_rev (s : string) : string := string_rev_app s EmptyString.

(** [str::ends_with] *)
Definition ends_with (s p : string) : bool := starts_with (string_rev s) (string_rev p).

(** * Searching and splitting *)

(** [str::split_once]: the text before and after the first occurrence of the pattern. *)
Fixpoint split_once (pat s : string) : option (string * string) :=
  match strip_prefix pat s with
  | Some rest => Some (EmptyString, rest)
  | None =>
      match s with
      | EmptyString => None
      | String a s' =>
          match split_once pat s' with
          | Some (l, r) => Some (String a l, r)
          | None => None
          end
      end
  end.

(** [str::contains] of one character *)
Fixpoint contains_char (c : ascii) (s : string) : bool :=
  match s with
  | EmptyString => false
  | String a s' => Ascii.eqb a c || contains_char c s'
  end.

(** [str::split] on one character; never the empty list. *)
Fixpoint split_char (c : ascii) (s : string) : list string :=
  match s with
  | EmptyString => [EmptyString]
  | String a s' =>
      if Ascii.eqb a c then EmptyString :: split_char c s'
      else match split_char c s' with
           | part :: parts => String a part :: parts
           | [] => [String a EmptyString]
           end
  end.

(** [str::replace] of one character *)
Fixpoint replace_char (c : ascii) (by_ s : string) : string :=
  match s with
  | EmptyString => EmptyString
  | String a s' => (if Ascii.eqb a c then by_ else String a EmptyString) +:+ replace_char c by_ s'
  end.

(** [[String]::join] *)
Fixpoint join (sep : string) (l : list string) : string :=
  match l with
  | [] => EmptyString
  | [s] => s
  | s :: l' => s +:+ sep +:+ join sep l'
  end.

(** [&s[..n]] and [&s[n..]] of bytes *)
Fixpoint str_take (n : nat) (s : bytes) : bytes :=
  match n, s with
  | S n', String a s' => String a (str_take n' s')
  | _, _ => EmptyString
  end.

Fixpoint str_drop (n : nat) (s : bytes) : bytes :=
  match n, s with
  | S n', String _ s' => str_drop n' s'
  | _, _ => s
  end.

(** * Trimming

    [str::trim] removes the characters with the Unicode property White_Space.  On UTF-8 bytes
    they are the one-byte characters U+0009-U+000D and U+0020, the two-byte U+0085 and U+00A0,
    and the three-byte U+1680, U+2000-U+200A, U+2028, U+2029, U+202F, U+205F and U+3000. *)
Definition byte_is (a : ascii) (n : N) : bool := (N_of_ascii a =? n)%N.
Definition byte_between (a : ascii) (lo hi : N) : bool :=
  ((lo <=? N_of_ascii a) && (N_of_ascii a <=? hi))%N.

Definition ws1 (a : ascii) : bool := byte_between a 9 13 || byte_is a 32.
Definition ws2 (a b : ascii) : bool := byte_is a 194 && (byte_is b 133 || byte_is b 160).
Definition ws3 (a b c : ascii) : bool :=
  (byte_is a 225 && byte_is b 154 && byte_is c 128)
  || (byte_is a 226 && byte_is b 128
      && (byte_between c 128 138 || byte_is c 168 || byte_is c 169 || byte_is c 175))
  || (byte_is a 226 && byte_is b 129 && byte_is c 159)
  || (byte_is a 227 && byte_is b 128 && byte_is c 128).

Fixpoint trim_start (s : string) : string :=
  match s with
  | EmptyString => EmptyString
  | String a s1 =>
      if ws1 a then trim_start s1 else
      match s1 with
      | EmptyString => s
      | String b s2 =>
          if ws2 a b then trim_start s2 else
          match s2 with
          | EmptyString => s
          | String c s3 => if ws3 a b c then trim_start s3 else s
          end
      end
  end.

(** [trim_start] of the reversed string, which sees each character's bytes last first. *)
Fixpoint trim_end_rev (s : string) : string :=
  match s with
  | EmptyString => EmptyString
  | String a s1 =>
      if ws1 a then trim_end_rev s1 else
      match s1 with
      | EmptyString => s
      | String b s2 =>
          if ws2 b a then trim_end_rev s2 else
          match s2 with
          | EmptyString => s
          | String c s3 => if ws3 c b a then trim_end_rev s3 else s
          end
      end
  end.

Definition trim_end (s : string) : string := string_rev (trim_end_rev (string_rev s)).
Definition trim (s : string) : string := trim_end (trim_start s).

(** [str::trim_start_matches], [trim_end_matches] and [trim_matches] of one character *)
Fixpoint trim_start_matches (c : ascii) (s : string) : string :=
  match s with
  | EmptyString => EmptyString
  | String a s' => if Ascii.eqb a c then trim_start_matches c s' else s
  end.
Definition trim_end_matches (c : ascii) (s : string) : string :=
  string_rev (trim_start_matches c (string_rev s)).
Definition trim_matches (c : ascii) (s : string) : string :=
  trim_end_matches c (trim_start_matches c s).

(** [str::is_empty] *)
Definition is_empty (s : string) : bool :=
  match s with EmptyString => true | String _ _ => false end.

(** * ASCII case *)

Definition ascii_lower (a : ascii) : ascii :=
  if byte_between a 65 90 then ascii_of_N (N_of_ascii a + 32) else a.

(** [str::to_ascii_lowercase] *)
Fixpoint to_ascii_lowercase (s : string) : string :=
  match s with
  | EmptyString => EmptyString
  | String a s' => String (ascii_lower a) (to_ascii_lowercase s')
  end.

(** [str::eq_ignore_ascii_case] *)
Definition eq_ignore_ascii_case (s t : string) : bool :=
  String.eqb (to_ascii_lowercase s) (to_ascii_lowercase t).

(** * Unsigned integer parsing

    [str::parse::<uN>]: an optional [+], at least one ASCII digit, the value at most [max]. *)
Definition digit_value (a : ascii) : option Z :=
  if byte_between a 48 57 then Some (Z.of_N (N_of_ascii a) - 48)%Z else None.

Fixpoint parse_digits (max acc : Z) (s : string) : option Z :=
  match s with
  | EmptyString => Some acc
  | String a s' =>
      match digit_value a with
      | None => None
      | Some d => let acc' := (acc * 10 + d)%Z in
                  if (max <? acc')%Z then None else parse_digits max acc' s'
      end
  end.

Definition parse_unsigned (max : Z) (s : string) : option Z :=
  let digits := match strip_prefix "+" s with Some rest => rest | None => s end in
  if is_empty digits then None else parse_digits max 0 digits.

(** * Lemmas *)

Lemma strip_prefix_Some p s rest : strip_prefix p s = Some rest <-> s = p +:+ rest.
Proof.
  revert s. induction p as [|a p IH]; intros s; simpl.
  - rewrite string_app_nil_l. naive_solver.
  - rewrite string_cons_app. destruct s as [|b s]; [naive_solver|].
    destruct (Ascii.eqb_spec a b) as [->|Hne].
    + rewrite IH. split; [by intros ->|by intros [= ->]].
    + split; [done|]. by intros [= ->].
Qed.

Lemma strip_prefix_cons a p b s :
  strip_prefix (String a p) (String b s) = if Ascii.eqb a b then strip_prefix p s else None.
Proof. done. Qed.

Lemma strip_prefix_app p s : strip_prefix p (p +:+ s) = Some s.
Proof. by apply strip_prefix_Some. Qed.

Lemma starts_with_spec s p : starts_with s p = true <-> exists rest, s = p +:+ rest.
Proof.
  unfold starts_with. destruct (strip_prefix p s) as [rest|] eqn:E.
  - apply strip_prefix_Some in E. naive_solver.
  - split; [done|]. intros [rest ->]. by rewrite strip_prefix_app in E.
Qed.

Lemma starts_with_app p s : starts_with (p +:+ s) p = true.
Proof. apply starts_with_spec. by exists s. Qed.

Lemma split_once_Some pat s l r : split_once pat s = Some (l, r) -> s = l +:+ pat +:+ r.
Proof.
  revert l r. induction s as [|a s IH]; intros l r; simpl;
    destruct (strip_prefix _ _) as [rest|] eqn:E.
  - apply strip_prefix_Some in E. intros [= <- <-]. by rewrite string_app_nil_l.
  - done.
  - apply strip_prefix_Some in E. intros [= <- <-]. by rewrite string_app_nil_l.
  - destruct (split_once pat s) as [[l' r']|]; [|done]. intros [= <- <-].
    by rewrite string_cons_app, <- (IH l' r').
Qed.

Lemma contains_char_split_once c s :
  contains_char c s = true <-> exists l r, split_once (String c EmptyString) s = Some (l, r).
Proof.
  induction s as [|a s IH]; simpl; [naive_solver|].
  rewrite orb_true_iff. destruct (Ascii.eqb_spec c a) as [->|Hne].
  - rewrite Ascii.eqb_refl. naive_solver.
  - assert (Ascii.eqb a c = false) as -> by (apply Ascii.eqb_neq; congruence).
    rewrite IH. split.
    + intros [?|(l & r & ->)]; [done|]. by eexists _, _.
    + intros (l & r & H). destruct (split_once _ s) as [[l' r']|]; [|done].
      right. by eexists _, _.
Qed.

Lemma split_char_nonempty c s : split_char c s <> [].
Proof. induction s; simpl; [done|]. case_match; [done|]. by case_match. Qed.

Lemma join_cons sep s l : l <> [] -> join sep (s :: l) = s +:+ sep +:+ join sep l.
Proof. by destruct l. Qed.

(** Splitting on a character and joining with it give the string back. *)
Lemma join_split_char c s : join (String c EmptyString) (split_char c s) = s.
Proof.
  induction s as [|a s IH]; [done|]. simpl.
  destruct (Ascii.eqb_spec a c) as [->|Hne].
  - rewrite join_cons by apply split_char_nonempty. by rewrite IH.
  - destruct (split_char c s) as [|part parts] eqn:E.
    + by apply split_char_nonempty in E.
    + rewrite <- IH. by destruct parts.
Qed.

Lemma string_rev_app_spec s acc : string_rev_app s acc = string_rev s +:+ acc.
Proof.
  revert acc. induction s as [|a s IH]; intros acc; [done|].
  unfold string_rev. simpl. rewrite (IH (String a acc)), (IH (String a EmptyString)).
  by rewrite string_app_assoc, string_cons_app, string_app_nil_l.
Qed.

Lemma string_rev_cons a s : string_rev (String a s) = string_rev s +:+ String a EmptyString.
Proof. exact (string_rev_app_spec s (String a EmptyString)). Qed.

Lemma string_rev_append s t : string_rev (s +:+ t) = string_rev t +:+ string_rev s.
Proof.
  induction s as [|a s IH]; [by rewrite string_app_nil_l, string_app_nil_r|].
  by rewrite string_cons_app, !string_rev_cons, IH, string_app_assoc.
Qed.

Lemma string_rev_involutive s : string_rev (string_rev s) = s.
Proof. induction s as [|a s IH]; [done|]. by rewrite string_rev_cons, string_rev_append, IH. Qed.

Lemma string_rev_length s : String.length (string_rev s) = String.length s.
Proof.
  induction s as [|a s IH]; [done|].
  rewrite string_rev_cons, string_length_app, IH. simpl. lia.
Qed.

Lemma ends_with_spec s p : ends_with s p = true <-> exists front, s = front +:+ p.
Proof.
  unfold ends_with. rewrite starts_with_spec. split; intros [r H].
  - exists (string_rev r). by rewrite <- (string_rev_involutive s), H, string_rev_append,
      string_rev_involutive.
  - exists (string_rev r). by rewrite H, string_rev_append.
Qed.

Lemma ascii_lower_idemp a : ascii_lower (ascii_lower a) = ascii_lower a.
Proof. by destruct a as [[] [] [] [] [] [] [] []]. Qed.

Lemma to_ascii_lowercase_idemp s :
  to_ascii_lowercase (to_ascii_lowercase s) = to_ascii_lowercase s.
Proof. induction s as [|a s IH]; simpl; [done|]. by rewrite ascii_lower_idemp, IH. Qed.

Lemma to_ascii_lowercase_app s t :
  to_ascii_lowercase (s +:+ t) = to_ascii_lowercase s +:+ to_ascii_lowercase t.
Proof.
  induction s as [|a s IH]; [done|]. rewrite string_cons_app. simpl. by rewrite IH.
Qed.

Lemma str_take_drop n s : str_take n s +:+ str_drop n s = s.
Proof.
  revert n. induction s as [|a s IH]; intros [|n]; simpl; try done.
  by rewrite string_cons_app, IH.
Qed.

Lemma str_take_length n s : String.length (str_take n s) = Nat.min n (String.length s).
Proof. revert n. induction s as [|a s IH]; intros [|n]; simpl; try done. by rewrite IH. Qed.

Lemma str_drop_length n s : String.length (str_drop n s) = (String.length s - n)%nat.
Proof. revert n. induction s as [|a s IH]; intros [|n]; simpl; try done. Qed.

Lemma str_drop_0 s : str_drop 0 s = s.
Proof. by destruct s. Qed.

Lemma str_take_0 s : str_take 0 s = EmptyString.
Proof. by destruct s. Qed.

Lemma str_take_all n s : (String.length s <= n)%nat -> str_take n s = s.
Proof.
  revert n. induction s as [|a s IH]; intros [|n] Hn; simpl in *; try done; [lia|].
  rewrite IH by lia. done.
Qed.

Lemma str_drop_all n s : (String.length s <= n)%nat -> str_drop n s = EmptyString.
Proof.
  revert n. induction s as [|a s IH]; intros [|n] Hn; simpl in *; try done; [lia|]. apply IH. lia.
Qed.

Lemma str_take_app n s t :
  str_take n (s +:+ t) = str_take n s +:+ str_take (n - String.length s) t.
Proof.
  revert n. induction s as [|a s IH]; intros n.
  - rewrite string_app_nil_l, (str_take_all n EmptyString) by (simpl; lia).
    rewrite string_app_nil_l. f_equal. simpl. lia.
  - destruct n as [|n]; [by rewrite !str_take_0|]. rewrite string_cons_app. simpl.
    rewrite IH. by rewrite string_cons_app.
Qed.

Lemma str_drop_app n s t :
  str_drop n (s +:+ t) = str_drop n s +:+ str_drop (n - String.length s) t.
Proof.
  revert n. induction s as [|a s IH]; intros n.
  - rewrite string_app_nil_l, (str_drop_all n EmptyString) by (simpl; lia).
    rewrite string_app_nil_l. f_equal. simpl. lia.
  - destruct n as [|n]; [by rewrite !str_drop_0|]. rewrite string_cons_app. simpl. apply IH.
Qed.

Lemma str_drop_drop n m s : str_drop n (str_drop m s) = str_drop (m + n) s.
Proof.
  revert m. induction s as [|a s IH]; intros m.
  - by rewrite !str_drop_all by (rewrite ?str_drop_length; simpl; lia).
  - destruct m as [|m]; [by rewrite str_drop_0|]. simpl. apply IH.
Qed.

Lemma string_length_zero (s : string) : String.length s = 0%nat -> s = EmptyString.
Proof. by destruct s. Qed.

Lemma eq_ignore_ascii_case_refl s : eq_ignore_ascii_case s s = true.
Proof. apply String.eqb_refl. Qed.

Lemma eq_ignore_ascii_case_spec s t :
  eq_ignore_ascii_case s t = true <-> to_ascii_lowercase s = to_ascii_lowercase t.
Proof. apply String.eqb_eq. Qed.

Lemma digit_value_range a d : digit_value a = Some d -> (0 <= d <= 9)%Z.
Proof.
  unfold digit_value, byte_between. case_match; [|done]. intros [= <-].
  apply andb_true_iff in H as [H1%N.leb_le H2%N.leb_le]. lia.
Qed.

(** A parsed integer never exceeds the width it is parsed at. *)
Lemma parse_digits_bounds max acc s n :
  (0 <= acc <= max)%Z -> parse_digits max acc s = Some n -> (0 <= n <= max)%Z.
Proof.
  revert acc. induction s as [|a s IH]; intros acc Hacc; simpl.
  - by intros [= <-].
  - destruct (digit_value a) as [d|] eqn:Hd; [|done].
    apply digit_value_range in Hd.
    destruct (Z.ltb_spec max (acc * 10 + d)); [done|]. apply IH. lia.
Qed.

Lemma parse_unsigned_bounds max s n :
  (0 <= max)%Z -> parse_unsigned max s = Some n -> (0 <= n <= max)%Z.
Proof.
  intros Hm. unfold parse_unsigned. case_match; [done|]. apply parse_digits_bounds. lia.
Qed.

Lemma trim_end_rev_suffix s : exists p, s = p +:+ trim_end_rev s.
Proof.
  remember (String.length s) as n eqn:Hn. revert s Hn.
  induction (lt_wf n) as [n _ IH]. intros s ->.
  assert (Hsub : forall t u, s = t +:+ u -> (String.length u < String.length s)%nat ->
    trim_end_rev s = trim_end_rev u -> exists p, s = p +:+ trim_end_rev s).
  { intros t u Hs Hlt Ht. destruct (IH _ Hlt u eq_refl) as [p Hp].
    exists (t +:+ p). rewrite Ht, string_app_assoc, <- Hp. done. }
  assert (Hrefl : trim_end_rev s = s -> exists p, s = p +:+ trim_end_rev s).
  { intros E. exists EmptyString. by rewrite string_app_nil_l, E. }
  destruct s as [|a [|b [|c s]]]; [by apply Hrefl|..]; simpl in *.
  - destruct (ws1 a); [|by apply Hrefl].
    eapply (Hsub (String a EmptyString) EmptyString); [done|simpl; lia|done].
  - destruct (ws1 a).
    + eapply (Hsub (String a EmptyString)); [done|simpl; lia|done].
    + destruct (ws2 b a); [|by apply Hrefl].
      eapply (Hsub (String a (String b EmptyString)) EmptyString); [done|simpl; lia|done].
  - destruct (ws1 a).
    + eapply (Hsub (String a EmptyString)); [done|simpl; lia|done].
    + destruct (ws2 b a).
      * eapply (Hsub (String a (String b EmptyString))); [done|simpl; lia|done].
      * destruct (ws3 c b a); [|by apply Hrefl].
        eapply (Hsub (String a (String b (String c EmptyString)))); [done|simpl; lia|done].
Qed.

Example trim_ascii : trim " a b  " = "a b".
Proof. reflexivity. Qed.

Example trim_unicode :
  trim (String "194" (String "160" "x")) = "x" /\
  trim ("x" +:+ String "227" (String "128" (String "128" EmptyString))) = "x".
Proof. split; reflexivity. Qed.

(** Proofs about literals go through the lemmas, not by unfolding a pattern byte by byte. *)
#[global] Arguments strip_prefix : simpl never.
#[global] Arguments starts_with : simpl never.
#[global] Arguments ends_with : simpl never.
#[global] Arguments split_once : simpl never.
#[global] Arguments split_char : simpl never.
#[global] Arguments trim : simpl never.
#[global] Arguments to_ascii_lowercase : simpl never.
#[global] Arguments eq_ignore_ascii_case : simpl never.
#[global] Arguments parse_unsigned : simpl never.
