(* ===== verification/Utf8.v ===== *)
(** The UTF-8 functions of Rust's standard library that the program calls on bytes:
    [String::from_utf8], [String::from_utf8_lossy] and [str::char_indices]. *)

From S2P Require Import Prelude RustStr.
From stdpp Require Import options.

(** A byte that does not start a character. *)
Definition is_continuation (a : ascii) : bool := byte_between a 128 191.

(** The range of the second byte after a first byte of a character of three or four bytes. *)
Definition second_ok (first second : ascii) : bool :=
  if byte_is first 224 then byte_between second 160 191
  else if byte_is first 237 then byte_between second 128 159
  else if byte_is first 240 then byte_between second 144 191
  else if byte_is first 244 then byte_between second 128 143
  else is_continuation second.

(** The number of bytes after the first one, by the first byte; [None] when it starts nothing. *)
Definition tail_length (first : ascii) : option nat :=
  if byte_between first 0 127 then Some 0%nat
  else if byte_between first 194 223 then Some 1%nat
  else if byte_between first 224 239 then Some 2%nat
  else if byte_between first 240 244 then Some 3%nat
  else None.

(** Whether [rest] goes on with [n] continuation bytes, and how many of them there are. *)
Fixpoint continuations (n : nat) (rest : bytes) : bool * nat :=
  match n with
  | O => (true, 0%nat)
  | S n =>
      match rest with
      | String b rest =>
          if is_continuation b then let '(ok, k) := continuations n rest in (ok, S k)
          else (false, 0%nat)
      | EmptyString => (false, 0%nat)
      end
  end.

(** The first character of [String first rest]: whether it is valid, and the number of bytes of it,
    or of the invalid sequence that the lossy decoder replaces as one. *)
Definition next_char (first : ascii) (rest : bytes) : bool * nat :=
  match tail_length first with
  | None => (false, 1%nat)
  | Some O => (true, 1%nat)
  | Some (S n) =>
      match rest with
      | EmptyString => (false, 1%nat)
      | String second rest =>
          if second_ok first second
          then let '(ok, k) := continuations n rest in (ok, S (S k))
          else (false, 1%nat)
      end
  end.

(** Every call drops at least one byte: the length is enough fuel. *)
Fixpoint utf8_loop (fuel : nat) (s : bytes) : list (bool * bytes) :=
  match fuel, s with
  | S fuel, String first rest =>
      let '(ok, n) := next_char first rest in
      (ok, str_take n s) :: utf8_loop fuel (str_drop n s)
  | _, _ => []
  end.

(** The characters and the invalid sequences of a byte string. *)
Definition utf8_chunks (s : bytes) : list (bool * bytes) := utf8_loop (String.length s) s.

Definition valid_utf8 (s : bytes) : bool := forallb fst (utf8_chunks s).

(** [String::from_utf8] *)
Definition from_utf8 (s : bytes) : option string := if valid_utf8 s then Some s else None.

(** U+FFFD *)
Definition replacement_char : string :=
  String "239" (String "191" (String "189" EmptyString)).

Definition from_utf8_lossy (s : bytes) : string :=
  foldr String.append EmptyString
    ((fun c : bool * bytes => if c.1 then c.2 else replacement_char) <$> utf8_chunks s).

(** * Lemmas *)

Lemma next_char_pos first rest : (0 < (next_char first rest).2)%nat.
Proof.
  unfold next_char. destruct (tail_length first) as [[|n]|]; simpl; [lia| |lia].
  destruct rest as [|b rest]; simpl; [lia|]. destruct (second_ok first b); [|simpl; lia].
  destruct (continuations n rest). simpl. lia.
Qed.

Lemma utf8_loop_joined fuel s :
  (String.length s <= fuel)%nat -> foldr String.append EmptyString (utf8_loop fuel s).*2 = s.
Proof.
  revert s. induction fuel as [|fuel IH]; intros s Hs; [by rewrite (string_length_zero s) by lia|].
  destruct s as [|first rest]; [done|]. cbn [utf8_loop].
  assert (Hpos := next_char_pos first rest). destruct (next_char first rest) as [ok n].
  cbn [snd] in Hpos. rewrite fmap_cons. cbn [foldr snd].
  rewrite IH; [apply str_take_drop|]. rewrite str_drop_length. lia.
Qed.

(** Nothing is lost or replaced in valid text. *)
Lemma from_utf8_lossy_valid s : valid_utf8 s = true -> from_utf8_lossy s = s.
Proof.
  unfold valid_utf8, from_utf8_lossy, utf8_chunks. intros Hv.
  rewrite <- (utf8_loop_joined (String.length s) s) at 3 by lia. f_equal.
  induction (utf8_loop (String.length s) s) as [|[ok c] l IH]; [done|].
  simpl in Hv. apply andb_true_iff in Hv as [-> Hv]. rewrite !fmap_cons. simpl. by rewrite IH.
Qed.
