(* ===== verification/Json.v ===== *)
(** The JSON data the program computes on: [serde_json::Value] with the [preserve_order] map that
    Cargo.toml selects (insertion order; [insert] keeps the place of a key it replaces; [remove]
    is [swap_remove]), JSON pointers, and the well-formedness of documents (unique keys). *)

From S2P Require Import Prelude RustStr.
From stdpp Require Import options.

(** * Values *)

Inductive Number :=
| PosInt (n : Z)
| NegInt (n : Z)
| Float (bits : Z).

Inductive Value :=
| Null
| Bool (b : bool)
| Num (n : Number)
| Str (s : string)
| Array (items : list Value)
| Object (map : list (string * Value)).

Abbreviation Map := (list (string * Value)).

#[global] Instance Value_inhabited : Inhabited Value := populate Null.

(** [Value::as_str], [as_array], [as_object], [as_i64] *)
Definition as_str (v : Value) : option string := match v with Str s => Some s | _ => None end.
Definition as_array (v : Value) : option (list Value) :=
  match v with Array l => Some l | _ => None end.
Definition as_object (v : Value) : option Map := match v with Object m => Some m | _ => None end.
Definition as_i64 (v : Value) : option Z :=
  match v with
  | Num (PosInt n) => if (n <=? i64_max)%Z then Some n else None
  | Num (NegInt n) => Some n
  | _ => None
  end.

(** * Maps *)

Fixpoint map_get (k : string) (m : Map) : option Value :=
  match m with
  | [] => None
  | (k', v) :: m' => if String.eqb k' k then Some v else map_get k m'
  end.

Definition map_contains_key (k : string) (m : Map) : bool :=
  match map_get k m with Some _ => true | None => false end.

Fixpoint map_insert (k : string) (v : Value) (m : Map) : Map :=
  match m with
  | [] => [(k, v)]
  | (k', v') :: m' => if String.eqb k' k then (k', v) :: m' else (k', v') :: map_insert k v m'
  end.

(** [map.entry(k).or_insert_with(|| v)] *)
Definition map_or_insert (k : string) (v : Value) (m : Map) : Map :=
  if map_contains_key k m then m else m ++ [(k, v)].

(** The last entry moves into the place of the removed one. *)
Fixpoint map_remove (k : string) (m : Map) : Map :=
  match m with
  | [] => []
  | (k', v') :: m' =>
      if String.eqb k' k
      then match last m' with Some e => e :: removelast m' | None => [] end
      else (k', v') :: map_remove k m'
  end.

(** [get_mut] of a key and an update of the value found *)
Fixpoint map_alter (f : Value -> Value) (k : string) (m : Map) : Map :=
  match m with
  | [] => []
  | (k', v) :: m' => if String.eqb k' k then (k', f v) :: m' else (k', v) :: map_alter f k m'
  end.

(** [Value::get] of a key *)
Definition value_get (k : string) (v : Value) : option Value := as_object v ≫= map_get k.

Definition obj_str (k : string) (m : Map) : option string := map_get k m ≫= as_str.

(** * JSON pointers (RFC 6901) *)

Fixpoint replace2 (c1 c2 : ascii) (by_ : ascii) (s : string) : string :=
  match s with
  | EmptyString => EmptyString
  | String a s1 =>
      match s1 with
      | String b s2 =>
          if Ascii.eqb a c1 && Ascii.eqb b c2 then String by_ (replace2 c1 c2 by_ s2)
          else String a (replace2 c1 c2 by_ s1)
      | EmptyString => s
      end
  end.

Definition unescape_token (s : string) : string :=
  replace2 "~" "0" "~" (replace2 "~" "1" "/" s).

(** An array index has no sign and no leading zero. *)
Definition parse_index (s : string) : option nat :=
  if starts_with s "+" || (starts_with s "0" && negb (String.length s =? 1)%nat) then None
  else Z.to_nat <$> parse_unsigned u64_max s.

Definition pointer_step (v : Value) (tok : string) : option Value :=
  match v with
  | Object m => map_get tok m
  | Array l => parse_index tok ≫= fun i => l !! i
  | _ => None
  end.

Fixpoint pointer_walk (v : Value) (toks : list string) : option Value :=
  match toks with
  | [] => Some v
  | tok :: toks' => pointer_step v tok ≫= fun v' => pointer_walk v' toks'
  end.

Definition pointer_tokens (ptr : string) : option (list string) :=
  match ptr with
  | EmptyString => Some []
  | String a rest =>
      if Ascii.eqb a "/" then Some (unescape_token <$> split_char "/" rest) else None
  end.

(** [Value::pointer] *)
Definition pointer (ptr : string) (v : Value) : option Value :=
  pointer_tokens ptr ≫= pointer_walk v.

Fixpoint walk_update (f : Value -> Value) (toks : list string) (v : Value) : Value :=
  match toks with
  | [] => f v
  | tok :: toks' =>
      match v with
      | Object m => Object (map_alter (walk_update f toks') tok m)
      | Array l =>
          match parse_index tok with
          | Some i => Array (alter (walk_update f toks') i l)
          | None => v
          end
      | _ => v
      end
  end.

(** An update through [v.pointer_mut(ptr)]; no change when the pointer resolves to nothing. *)
Definition pointer_update (f : Value -> Value) (ptr : string) (v : Value) : Value :=
  match pointer_tokens ptr with Some toks => walk_update f toks v | None => v end.

(** [if let Some(map) = v.as_object_mut() { map.remove(k) }] *)
Definition remove_key (k : string) (v : Value) : Value :=
  match v with Object m => Object (map_remove k m) | _ => v end.

(** * Well-formed documents

    Keys of an object are unique (they are a map's) and an array's length fits in [usize]. *)
Fixpoint wf_value (v : Value) : Prop :=
  match v with
  | Array l => (Z.of_nat (length l) <= u64_max)%Z /\ foldr (fun x P => wf_value x /\ P) True l
  | Object m =>
      NoDup (m.*1) /\ foldr (fun kv P => wf_value (snd kv) /\ P) True m
  | _ => True
  end.

Fixpoint wf_valueb (v : Value) : bool :=
  match v with
  | Array l => (Z.of_nat (length l) <=? u64_max)%Z && forallb wf_valueb l
  | Object m => bool_decide (NoDup (m.*1)) && forallb (fun kv => wf_valueb (snd kv)) m
  | _ => true
  end.

Definition wf_map (m : Map) : Prop := NoDup (m.*1) /\ Forall (fun kv => wf_value kv.2) m.

(** * Induction on documents *)

Section Value_induction.
  Variable P : Value -> Prop.
  Hypothesis HNull : P Null.
  Hypothesis HBool : forall b, P (Bool b).
  Hypothesis HNum : forall n, P (Num n).
  Hypothesis HStr : forall s, P (Str s).
  Hypothesis HArray : forall l, Forall P l -> P (Array l).
  Hypothesis HObject : forall m, Forall (fun kv => P kv.2) m -> P (Object m).

Fixpoint Value_ind' (v : Value) : P v :=
  match v with
  | Null => HNull
  | Bool b => HBool b
  | Num n => HNum n
  | Str s => HStr s
  | Array l =>
      HArray l ((fix go l := match l return Forall P l with
                             | [] => Forall_nil_2 _
                             | x :: l' => Forall_cons_2 _ _ _ (Value_ind' x) (go l')
                             end) l)
  | Object m =>
      HObject m ((fix go m := match m return Forall (fun kv => P kv.2) m with
                              | [] => Forall_nil_2 _
                              | kv :: m' =>
                                  Forall_cons_2 (fun kv : string * Value => P kv.2) kv m'
                                    (Value_ind' kv.2) (go m')
                              end) m)
  end.
End Value_induction.

(** * Lemmas on maps *)

Lemma wf_object m : wf_value (Object m) <-> wf_map m.
Proof.
  unfold wf_map. simpl. apply and_iff_compat_l.
  induction m as [|kv m IH]; simpl; [by split|]. by rewrite Forall_cons, IH.
Qed.

Lemma wf_array l :
  wf_value (Array l) <-> (Z.of_nat (length l) <= u64_max)%Z /\ Forall wf_value l.
Proof.
  simpl. apply and_iff_compat_l.
  induction l as [|x l IH]; simpl; [by split|]. by rewrite Forall_cons, IH.
Qed.

Lemma wf_valueb_true v : wf_valueb v = true -> wf_value v.
Proof.
  induction v as [| | | |l IH|m IH] using Value_ind'; try done; cbn [wf_valueb].
  - intros [Hlen Hall]%andb_true_iff. apply wf_array. split; [by apply Z.leb_le|].
    clear Hlen. induction IH as [|x l Hx _ IHl]; [constructor|].
    cbn in Hall. apply andb_true_iff in Hall as [? ?]. constructor; auto.
  - intros [Hnd Hall]%andb_true_iff. apply wf_object. split; [by apply bool_decide_eq_true in Hnd|].
    clear Hnd. induction IH as [|x m Hx _ IHl]; [constructor|].
    cbn in Hall. apply andb_true_iff in Hall as [? ?]. constructor; auto.
Qed.

Lemma map_get_Some_in k v m : map_get k m = Some v -> (k, v) ∈ m.
Proof.
  induction m as [|[k' v'] m IH]; simpl; [done|].
  destruct (String.eqb_spec k' k) as [->|Hne].
  - intros [= ->]. left.
  - intros H. right. by apply IH.
Qed.

Lemma map_get_None k m : map_get k m = None <-> k ∉ m.*1.
Proof.
  induction m as [|[k' v'] m IH]; simpl.
  - split; [intros _; apply not_elem_of_nil|done].
  - rewrite not_elem_of_cons. destruct (String.eqb_spec k' k) as [->|Hne]; naive_solver.
Qed.

Lemma map_get_in k v m : NoDup (m.*1) -> (k, v) ∈ m -> map_get k m = Some v.
Proof.
  induction m as [|[k' v'] m IH]; simpl; intros Hnd Hin; [by apply elem_of_nil in Hin|].
  apply NoDup_cons in Hnd as [Hni Hnd].
  apply elem_of_cons in Hin as [[= -> ->]|Hin]; [by rewrite String.eqb_refl|].
  destruct (String.eqb_spec k' k) as [->|Hne]; [|by apply IH].
  exfalso. apply Hni. apply list_elem_of_fmap. by exists (k, v).
Qed.

Lemma map_get_insert_eq k v m : map_get k (map_insert k v m) = Some v.
Proof.
  induction m as [|[k' v'] m IH]; simpl; [by rewrite String.eqb_refl|].
  destruct (String.eqb_spec k' k) as [->|Hne]; simpl; [by rewrite String.eqb_refl|].
  by apply String.eqb_neq in Hne as ->.
Qed.

Lemma map_get_insert_ne k k' v m : k <> k' -> map_get k' (map_insert k v m) = map_get k' m.
Proof.
  intros Hne. induction m as [|[k2 v2] m IH]; simpl.
  - by apply String.eqb_neq in Hne as ->.
  - destruct (String.eqb_spec k2 k) as [->|]; simpl.
    + by apply String.eqb_neq in Hne as ->.
    + by rewrite IH.
Qed.

Lemma map_insert_keys k v m :
  (map_insert k v m).*1 = if map_contains_key k m then m.*1 else m.*1 ++ [k].
Proof.
  unfold map_contains_key. induction m as [|[k' v'] m IH]; csimpl; [done|].
  destruct (String.eqb k' k); csimpl; [done|]. rewrite IH. by destruct (map_get k m).
Qed.

Lemma map_insert_in k v m kv : kv ∈ map_insert k v m -> kv = (k, v) \/ kv ∈ m.
Proof.
  induction m as [|[k' v'] m IH]; simpl.
  - rewrite list_elem_of_singleton. by left.
  - destruct (String.eqb_spec k' k) as [->|]; rewrite !elem_of_cons; naive_solver.
Qed.

Lemma wf_map_insert k v m : wf_value v -> wf_map m -> wf_map (map_insert k v m).
Proof.
  intros Hv [Hnd Hall]. split.
  - rewrite map_insert_keys. unfold map_contains_key.
    destruct (map_get k m) eqn:E; [done|]. apply map_get_None in E.
    apply NoDup_app. split; [done|]. split; [|apply NoDup_singleton].
    intros x Hx Hx'. apply list_elem_of_singleton in Hx' as ->. done.
  - apply Forall_forall. intros kv [->|Hin]%map_insert_in; [done|].
    by eapply Forall_forall in Hall.
Qed.

Lemma last_removelast {A} (l : list A) x : last l = Some x -> l = removelast l ++ [x].
Proof.
  destruct l as [|a l] using rev_ind; [done|].
  rewrite last_snoc, removelast_last. by intros [= ->].
Qed.

(** [swap_remove] permutes the rest: nothing but the removed key is lost. *)
Lemma map_remove_perm k m :
  NoDup (m.*1) -> map_remove k m ≡ₚ filter (fun kv => kv.1 <> k) m.
Proof.
  induction m as [|[k' v'] m IH]; simpl; intros Hnd; [done|].
  apply NoDup_cons in Hnd as [Hni Hnd].
  rewrite filter_cons. simpl. destruct (String.eqb_spec k' k) as [->|Hne].
  - rewrite decide_False by naive_solver.
    assert (filter (λ kv : string * Value, kv.1 ≠ k) m = m) as ->.
    { apply filter_id. apply Forall_forall. intros [k2 v2] Hin Heq. simpl in Heq. subst.
      apply Hni. apply list_elem_of_fmap. by exists (k, v2). }
    destruct (last m) as [e|] eqn:E.
    + rewrite (last_removelast _ _ E) at 2. by rewrite Permutation_cons_append.
    + by apply last_None in E as ->.
  - rewrite decide_True by done. by rewrite IH.
Qed.

Lemma map_get_remove_eq k m : NoDup (m.*1) -> map_get k (map_remove k m) = None.
Proof.
  intros Hnd. apply map_get_None. rewrite (map_remove_perm k m Hnd).
  rewrite list_elem_of_fmap. intros ([k' v] & -> & Hin).
  apply list_elem_of_filter in Hin as [Hne _]. done.
Qed.

Lemma NoDup_fst_filter (P : string * Value -> Prop) `{forall x, Decision (P x)} (m : Map) :
  NoDup (m.*1) -> NoDup ((filter P m).*1).
Proof.
  induction m as [|kv m IH]; simpl; intros Hnd; [done|].
  apply NoDup_cons in Hnd as [Hni Hnd].
  rewrite filter_cons. case_decide; simpl; [|by apply IH].
  apply NoDup_cons. split; [|by apply IH].
  rewrite list_elem_of_fmap. intros (kv' & Heq & Hin). apply Hni.
  apply list_elem_of_filter in Hin as [_ Hin]. rewrite Heq.
  apply list_elem_of_fmap. by exists kv'.
Qed.

Lemma map_remove_keys_NoDup k m : NoDup (m.*1) -> NoDup ((map_remove k m).*1).
Proof.
  intros Hnd. rewrite (map_remove_perm k m Hnd). by apply NoDup_fst_filter.
Qed.

Lemma map_get_remove_ne k k' m :
  NoDup (m.*1) -> k <> k' -> map_get k' (map_remove k m) = map_get k' m.
Proof.
  intros Hnd Hne. destruct (map_get k' m) as [v|] eqn:E.
  - apply map_get_Some_in in E. apply map_get_in; [by apply map_remove_keys_NoDup|].
    rewrite (map_remove_perm k m Hnd). apply list_elem_of_filter. by split.
  - apply map_get_None in E. apply map_get_None.
    rewrite (map_remove_perm k m Hnd). intros ([k2 v2] & -> & Hin)%list_elem_of_fmap.
    apply list_elem_of_filter in Hin as [_ Hin]. apply E.
    apply list_elem_of_fmap. by exists (k2, v2).
Qed.

Lemma wf_map_remove k m : wf_map m -> wf_map (map_remove k m).
Proof.
  intros [Hnd Hall]. split; [by apply map_remove_keys_NoDup|].
  rewrite (map_remove_perm k m Hnd). by apply Forall_filter_sub.
Qed.

Lemma map_get_wf k v m : wf_map m -> map_get k m = Some v -> wf_value v.
Proof.
  intros [_ Hall] Hin%map_get_Some_in. exact (proj1 (Forall_forall _ _) Hall _ Hin).
Qed.

Lemma map_alter_keys f k m : (map_alter f k m).*1 = m.*1.
Proof.
  induction m as [|[k' v] m IH]; csimpl; [done|].
  destruct (String.eqb k' k); csimpl; [done|]. by rewrite IH.
Qed.

Lemma wf_map_alter f k m :
  (forall v, wf_value v -> wf_value (f v)) -> wf_map m -> wf_map (map_alter f k m).
Proof.
  intros Hf [Hnd Hall]. split; [by rewrite map_alter_keys|].
  clear Hnd. induction m as [|[k' v] m IH]; simpl; [done|].
  apply Forall_cons in Hall as [Hv Hall]. simpl in Hv.
  destruct (String.eqb k' k); constructor; simpl; auto.
Qed.

Lemma walk_update_wf f toks v :
  (forall v, wf_value v -> wf_value (f v)) -> wf_value v -> wf_value (walk_update f toks v).
Proof.
  intros Hf. revert v. induction toks as [|tok toks IH]; intros v Hv; [by apply Hf|].
  destruct v as [| | | |l|m]; simpl; try done.
  - destruct (parse_index tok) as [i|]; [|done].
    apply wf_array. apply wf_array in Hv as [Hlen Hall].
    split; [by rewrite length_alter|].
    apply Forall_lookup. intros j x Hj.
    destruct (decide (i = j)) as [<-|Hne].
    + rewrite list_lookup_alter_eq in Hj. apply fmap_Some in Hj as (y & Hy & ->).
      apply IH. by eapply Forall_lookup in Hall.
    + rewrite list_lookup_alter_ne in Hj by done. by eapply Forall_lookup in Hall.
  - apply wf_object. apply wf_object in Hv. by apply wf_map_alter.
Qed.

Lemma pointer_update_wf f ptr v :
  (forall v, wf_value v -> wf_value (f v)) -> wf_value v -> wf_value (pointer_update f ptr v).
Proof. intros Hf Hv. unfold pointer_update. case_match; [by apply walk_update_wf|done]. Qed.

Lemma remove_key_wf k v : wf_value v -> wf_value (remove_key k v).
Proof.
  destruct v as [| | | | |m]; simpl remove_key; try done.
  rewrite !wf_object. apply wf_map_remove.
Qed.

#[export] Hint Resolve wf_map_insert wf_map_remove map_get_wf remove_key_wf : proxy.
