(* ===== verification/JsonMaps.v ===== *)
(** Lemmas on the entries of JSON objects that several rewriting components share: updates at a
    key, their order, and functions applied to every value of an object. *)

From S2P Require Import Prelude RustStr Json.
From stdpp Require Import options.

(** * Removal *)

Lemma map_remove_fmap (f : Value -> Value) k m :
  map_remove k ((fun kv => (kv.1, f kv.2)) <$> m) = (fun kv => (kv.1, f kv.2)) <$> map_remove k m.
Proof.
  induction m as [|[k' v] m IH]; [done|]. rewrite fmap_cons. cbn [map_remove fst snd].
  destruct (k' =? k)%string.
  - rewrite fmap_last. destruct (last m) as [e|] eqn:El; [|done]. simpl. f_equal.
    apply last_Some in El as [m' ->]. rewrite fmap_app. simpl. by rewrite !removelast_last.
  - by rewrite fmap_cons, IH.
Qed.

Lemma map_remove_in k m kv : NoDup (m.*1) -> kv ∈ map_remove k m -> kv.1 <> k /\ kv ∈ m.
Proof.
  intros Hnd. rewrite (map_remove_perm k m Hnd), list_elem_of_filter. tauto.
Qed.

(** * Insertion and update *)

Lemma map_alter_Forall (P : string * Value -> Prop) f k m :
  Forall P m -> (forall v, P (k, v) -> P (k, f v)) -> Forall P (map_alter f k m).
Proof.
  intros Hall Hf. induction Hall as [|[k' v] m Hv Hall IH]; simpl; [constructor|].
  destruct (String.eqb_spec k' k) as [->|]; constructor; auto.
Qed.

Lemma map_insert_insert k v v' m : map_insert k v (map_insert k v' m) = map_insert k v m.
Proof.
  induction m as [|[k' x] m IH]; simpl; [by rewrite String.eqb_refl|].
  destruct (k' =? k)%string eqn:E; simpl; rewrite E; [done|by rewrite IH].
Qed.

Lemma map_insert_same k v m : map_get k m = Some v -> map_insert k v m = m.
Proof.
  induction m as [|[k' x] m IH]; simpl; [done|].
  destruct (k' =? k)%string eqn:E; [by intros [= ->]|]. intros Hg. by rewrite IH.
Qed.

(** Insertions at keys that are there commute. *)
Lemma map_insert_comm k k' v v' m :
  k <> k' -> is_Some (map_get k m) ->
  map_insert k v (map_insert k' v' m) = map_insert k' v' (map_insert k v m).
Proof.
  intros Hne. induction m as [|[k0 x] m IH]; simpl; [by intros [? ?]|].
  destruct (String.eqb_spec k0 k) as [->|E1]; intros Hs.
  - destruct (String.eqb_spec k k') as [|E2]; [done|]. simpl.
    rewrite String.eqb_refl. destruct (String.eqb_spec k k'); done.
  - destruct (String.eqb_spec k0 k') as [->|E2]; simpl.
    + destruct (String.eqb_spec k' k); [done|]. by rewrite String.eqb_refl.
    + destruct (String.eqb_spec k0 k), (String.eqb_spec k0 k'); try done. by rewrite IH.
Qed.

Lemma map_alter_insert_ne f k k' v m :
  k <> k' -> map_alter f k (map_insert k' v m) = map_insert k' v (map_alter f k m).
Proof.
  intros Hne. induction m as [|[k0 x] m IH]; simpl.
  - destruct (String.eqb_spec k' k); [done|done].
  - destruct (String.eqb_spec k0 k') as [->|E1]; simpl.
    + destruct (String.eqb_spec k' k) as [->|]; [done|]. simpl. by rewrite String.eqb_refl.
    + destruct (String.eqb_spec k0 k) as [->|E2]; simpl.
      * destruct (String.eqb_spec k k'); [done|done].
      * destruct (String.eqb_spec k0 k'); [done|]. by rewrite IH.
Qed.

Lemma map_alter_alter f g k m : map_alter g k (map_alter f k m) = map_alter (fun v => g (f v)) k m.
Proof.
  induction m as [|[k' v] m IH]; simpl; [done|].
  destruct (k' =? k)%string eqn:E; simpl; rewrite E; [done|by rewrite IH].
Qed.

Lemma map_alter_id k m : map_alter (fun v => v) k m = m.
Proof. induction m as [|[k' v] m IH]; simpl; [done|]. destruct (String.eqb k' k); congruence. Qed.

Lemma map_alter_ext f g k m : (forall v, f v = g v) -> map_alter f k m = map_alter g k m.
Proof.
  intros Hfg. induction m as [|[k' v] m IH]; simpl; [done|]. by rewrite IH, Hfg.
Qed.

(** * A function on every value *)

Abbreviation on_values f := (fmap (fun kv : string * Value => (kv.1, f kv.2))).

Lemma on_values_alter f h k m :
  (forall v, f (h v) = h (f v)) ->
  on_values f (map_alter h k m) = map_alter h k (on_values f m).
Proof.
  intros Hc. induction m as [|[k' v] m IH]; [done|]. cbn [map_alter]. rewrite fmap_cons.
  cbn [map_alter fst snd]. destruct (k' =? k)%string; rewrite fmap_cons; cbn [fst snd];
    [by rewrite Hc|by rewrite IH].
Qed.

Lemma on_values_insert f k v m :
  on_values f (map_insert k v m) = map_insert k (f v) (on_values f m).
Proof.
  induction m as [|[k' x] m IH]; [done|]. cbn [map_insert]. rewrite fmap_cons.
  cbn [map_insert fst snd]. destruct (k' =? k)%string; rewrite fmap_cons; cbn [fst snd];
    [done|by rewrite IH].
Qed.

Lemma on_values_get f k m : map_get k (on_values f m) = f <$> map_get k m.
Proof.
  induction m as [|[k' x] m IH]; [done|]. rewrite fmap_cons. cbn [map_get fst snd].
  by destruct (k' =? k)%string.
Qed.

Lemma on_values_ext (f g : Value -> Value) (m : Map) :
  Forall (fun kv : string * Value => f kv.2 = g kv.2) m -> on_values f m = on_values g m.
Proof. induction 1 as [|kv m Hkv _ IH]; [done|]. by rewrite !fmap_cons, IH, Hkv. Qed.

Lemma list_map_ext (f g : Value -> Value) l : Forall (fun x => f x = g x) l -> f <$> l = g <$> l.
Proof. induction 1 as [|x l Hx _ IH]; [done|]. by rewrite !fmap_cons, IH, Hx. Qed.
