(* ===== verification/Pointer.v ===== *)
(** JSON pointers built while walking a document, as the scanners and the encoder build them
    ([format!("{path}/{}", escape(key))] and [format!("{path}/{index}")]), and why [Value::pointer]
    resolves them to the node they were built for. *)

From S2P Require Import Prelude RustStr Json.
From stdpp Require Import options.

(** * Building *)

(** [token.replace('~', "~0").replace('/', "~1")] *)
Definition escape_token (token : string) : string :=
  replace_char "/" "~1" (replace_char "~" "~0" token).

Definition path_of (toks : list string) : string :=
  foldl (fun p t => p +:+ "/" +:+ escape_token t) EmptyString toks.

(** * Decimal numbers *)

Fixpoint all_digits (s : string) : bool :=
  match s with
  | EmptyString => true
  | String a s' => byte_between a 48 57 && all_digits s'
  end.

Lemma pretty_digit x :
  (x < 10)%N ->
  digit_value (pretty_N_char x) = Some (Z.of_N x) /\ byte_between (pretty_N_char x) 48 57 = true
  /\ (x <> 0%N -> pretty_N_char x <> "0"%char).
Proof.
  intros H.
  assert (x = 0 \/ x = 1 \/ x = 2 \/ x = 3 \/ x = 4 \/ x = 5 \/ x = 6 \/ x = 7 \/ x = 8 \/ x = 9)%N
    as Hx by lia.
  repeat destruct Hx as [->|Hx]; try (subst x); by repeat split.
Qed.

Lemma pretty_go_ind (P : N -> string -> string -> Prop) :
  (forall s, P 0%N s s) ->
  (forall x s r, (0 < x)%N ->
     P (x `div` 10)%N (String (pretty_N_char (x `mod` 10)) s) r -> P x s r) ->
  forall x s, P x s (pretty_N_go x s).
Proof.
  intros H0 HS x. induction (N.lt_wf_0 x) as [x _ IH]; intros s.
  destruct (decide (x = 0%N)) as [->|Hx]; [rewrite pretty_N_go_0; apply H0|].
  rewrite pretty_N_go_step by lia. apply HS; [lia|]. apply IH. apply N.div_lt; lia.
Qed.

Lemma pretty_go_digits x s : all_digits s = true -> all_digits (pretty_N_go x s) = true.
Proof.
  revert x s. apply (pretty_go_ind (fun _ s r => all_digits s = true -> all_digits r = true)); [done|].
  intros x s r Hx IH Hs. apply IH. simpl.
  destruct (pretty_digit (x `mod` 10)) as (_ & -> & _); [by apply N.mod_lt|done].
Qed.

Lemma pretty_go_head x s :
  (0 < x)%N -> exists a t, pretty_N_go x s = String a t /\ a <> "0"%char.
Proof.
  revert s. induction (N.lt_wf_0 x) as [x _ IH]; intros s Hx.
  rewrite pretty_N_go_step by done.
  destruct (decide (x < 10)%N) as [Hlt|Hge].
  - rewrite N.div_small, pretty_N_go_0, N.mod_small by done.
    eexists _, _. split; [done|]. apply pretty_digit; lia.
  - apply IH; [apply N.div_lt; lia|]. apply N.div_str_pos. lia.
Qed.

Lemma pretty_go_parse max x s :
  (Z.of_N x <= max)%Z -> parse_digits max 0 (pretty_N_go x s) = parse_digits max (Z.of_N x) s.
Proof.
  revert x s. apply (pretty_go_ind (fun x s r =>
    (Z.of_N x <= max)%Z -> parse_digits max 0 r = parse_digits max (Z.of_N x) s)); [done|].
  intros x s r Hx IH Hle. rewrite IH.
  2:{ rewrite N2Z.inj_div. pose proof (Z.div_le_upper_bound (Z.of_N x) 10 (Z.of_N x)). lia. }
  simpl.
  destruct (pretty_digit (x `mod` 10)) as (-> & _ & _); [by apply N.mod_lt|].
  replace (Z.of_N (x `div` 10) * 10 + Z.of_N (x `mod` 10))%Z with (Z.of_N x).
  - by destruct (Z.ltb_spec max (Z.of_N x)); [lia|].
  - rewrite N2Z.inj_div, N2Z.inj_mod. pose proof (Z.div_mod (Z.of_N x) 10). lia.
Qed.

Lemma fmt_nat_unfold n :
  fmt_nat n = if decide (n = 0%nat) then "0" else pretty_N_go (N.of_nat n) EmptyString.
Proof.
  change (pretty_N (N.of_nat n) = if decide (n = 0%nat) then "0" else pretty_N_go (N.of_nat n) EmptyString).
  unfold pretty_N. repeat case_decide; try done; lia.
Qed.

Lemma fmt_nat_digits n : all_digits (fmt_nat n) = true.
Proof. rewrite fmt_nat_unfold. case_decide; [done|]. by apply pretty_go_digits. Qed.

(** Printing a [usize] and parsing it back gives it. *)
Lemma parse_unsigned_fmt max n :
  (Z.of_nat n <= max)%Z -> parse_unsigned max (fmt_nat n) = Some (Z.of_nat n).
Proof.
  intros Hle. rewrite fmt_nat_unfold. unfold parse_unsigned.
  destruct (decide (n = 0%nat)) as [->|Hn].
  - change ((if (max <? 0)%Z then None else Some 0%Z) = Some 0%Z).
    by destruct (Z.ltb_spec max 0); [lia|].
  - destruct (pretty_go_head (N.of_nat n) EmptyString) as (a & t & E & _); [lia|].
    assert (Hd := pretty_go_digits (N.of_nat n) EmptyString eq_refl).
    rewrite E in Hd. simpl in Hd. apply andb_true_iff in Hd as [Ha _].
    assert (strip_prefix "+" (pretty_N_go (N.of_nat n) EmptyString) = None) as ->.
    { rewrite E. rewrite strip_prefix_cons. destruct (Ascii.eqb_spec "+" a) as [<-|]; [discriminate Ha|done]. }
    rewrite E. simpl is_empty. cbv iota. rewrite <- E.
    rewrite pretty_go_parse by lia. simpl. f_equal. lia.
Qed.

Lemma parse_index_fmt i : (Z.of_nat i <= u64_max)%Z -> parse_index (fmt_nat i) = Some i.
Proof.
  intros Hle. unfold parse_index. rewrite parse_unsigned_fmt by done. simpl.
  rewrite Nat2Z.id. rewrite fmt_nat_unfold. destruct (decide (i = 0%nat)) as [->|Hi]; [done|].
  destruct (pretty_go_head (N.of_nat i) EmptyString) as (a & t & E & Hne); [lia|].
  assert (Hd := pretty_go_digits (N.of_nat i) EmptyString eq_refl).
  rewrite E in Hd |- *. simpl in Hd. apply andb_true_iff in Hd as [Ha _].
  unfold starts_with. rewrite !strip_prefix_cons.
  destruct (Ascii.eqb_spec "+" a) as [<-|]; [discriminate Ha|].
  by destruct (Ascii.eqb_spec "0" a) as [<-|].
Qed.

(** * Escaping *)

(** The two replacements, one character at a time. *)
Fixpoint esc (s : string) : string :=
  match s with
  | EmptyString => EmptyString
  | String a s' =>
      if Ascii.eqb a "~" then String "~" (String "0" (esc s'))
      else if Ascii.eqb a "/" then String "~" (String "1" (esc s'))
      else String a (esc s')
  end.

Lemma replace_char_app c b s t :
  replace_char c b (s +:+ t) = replace_char c b s +:+ replace_char c b t.
Proof.
  induction s as [|a s IH]; [done|]. rewrite string_cons_app. simpl.
  by rewrite IH, string_app_assoc.
Qed.

Lemma escape_token_esc s : escape_token s = esc s.
Proof.
  unfold escape_token. induction s as [|a s IH]; [done|]. simpl.
  destruct (Ascii.eqb_spec a "~") as [->|Ht].
  - rewrite replace_char_app, IH. done.
  - rewrite string_cons_app, string_app_nil_l. simpl.
    destruct (Ascii.eqb_spec a "/") as [->|Hs]; by rewrite IH.
Qed.

Lemma replace2_cons_ne c1 c2 b a s :
  a <> c1 -> replace2 c1 c2 b (String a s) = String a (replace2 c1 c2 b s).
Proof.
  intros Hne. destruct s as [|a' s]; [done|]. simpl.
  destruct (Ascii.eqb_spec a c1); done.
Qed.

Lemma replace2_cons2_ne c1 c2 b a a' s :
  a' <> c2 -> replace2 c1 c2 b (String a (String a' s)) = String a (replace2 c1 c2 b (String a' s)).
Proof.
  intros Hne. simpl. destruct (Ascii.eqb_spec a' c2); [done|]. by rewrite andb_false_r.
Qed.

(** [esc] with its slashes back. *)
Lemma unescape_slashes s :
  replace2 "~" "1" "/" (esc s) = replace_char "~" "~0" s.
Proof.
  induction s as [|a s IH]; [done|]. simpl esc.
  destruct (Ascii.eqb_spec a "~") as [->|Ht].
  - rewrite replace2_cons2_ne, replace2_cons_ne, IH by done. done.
  - destruct (Ascii.eqb_spec a "/") as [->|Hs].
    + change (replace2 "~" "1" "/" (String "~" (String "1" (esc s))))
        with (String "/" (replace2 "~" "1" "/" (esc s))). by rewrite IH.
    + rewrite replace2_cons_ne, IH by done. simpl.
      apply Ascii.eqb_neq in Ht as ->. done.
Qed.

Lemma unescape_tildes s : replace2 "~" "0" "~" (replace_char "~" "~0" s) = s.
Proof.
  induction s as [|a s IH]; [done|]. simpl replace_char.
  destruct (Ascii.eqb_spec a "~") as [->|Ht].
  - rewrite !string_cons_app, string_app_nil_l.
    change (replace2 "~" "0" "~" (String "~" (String "0" (replace_char "~" "~0" s))))
      with (String "~" (replace2 "~" "0" "~" (replace_char "~" "~0" s))). by rewrite IH.
  - rewrite string_cons_app, string_app_nil_l, replace2_cons_ne, IH by done. done.
Qed.

(** The pointer syntax's [unescape] inverts the escape. *)
Lemma unescape_escape_token s : unescape_token (escape_token s) = s.
Proof.
  unfold unescape_token. rewrite escape_token_esc, unescape_slashes. apply unescape_tildes.
Qed.

Lemma esc_no_slash s : contains_char "/" (esc s) = false.
Proof.
  induction s as [|a s IH]; [done|]. simpl.
  destruct (Ascii.eqb_spec a "~"); [simpl; by rewrite IH|].
  destruct (Ascii.eqb_spec a "/") as [->|Hs]; [simpl; by rewrite IH|].
  simpl. apply Ascii.eqb_neq in Hs as ->. by rewrite IH.
Qed.

Lemma split_char_app c s t :
  contains_char c s = false ->
  split_char c (s +:+ String c t) = s :: split_char c t /\ split_char c s = [s].
Proof.
  induction s as [|a s IH]; simpl.
  - intros _. rewrite string_app_nil_l. unfold split_char; fold split_char.
    by rewrite Ascii.eqb_refl.
  - intros [Ha Hs]%orb_false_iff. destruct (IH Hs) as [IH1 IH2].
    rewrite string_cons_app. unfold split_char; fold split_char.
    rewrite Ha, IH1, IH2. done.
Qed.

(** * Resolving *)

Fixpoint path_tail (toks : list string) : string :=
  match toks with
  | [] => EmptyString
  | t :: toks' => "/" +:+ escape_token t +:+ path_tail toks'
  end.

Lemma path_of_acc p toks :
  foldl (fun p t => p +:+ "/" +:+ escape_token t) p toks = p +:+ path_tail toks.
Proof.
  revert p. induction toks as [|t toks IH]; intros p; simpl; [by rewrite string_app_nil_r|].
  by rewrite IH, !string_app_assoc.
Qed.

Lemma path_of_tail toks : path_of toks = path_tail toks.
Proof. unfold path_of. by rewrite path_of_acc. Qed.

Lemma path_of_snoc toks t : path_of (toks ++ [t]) = path_of toks +:+ "/" +:+ escape_token t.
Proof. unfold path_of. by rewrite foldl_snoc. Qed.

Lemma split_path_tail t toks :
  split_char "/" (escape_token t +:+ path_tail toks) = escape_token <$> (t :: toks).
Proof.
  revert t. induction toks as [|t' toks IH]; intros t; simpl path_tail.
  - rewrite string_app_nil_r, escape_token_esc.
    rewrite (proj2 (split_char_app "/" (esc t) EmptyString (esc_no_slash t))).
    simpl. by rewrite escape_token_esc.
  - change ("/" +:+ escape_token t' +:+ path_tail toks)
      with (String "/" (escape_token t' +:+ path_tail toks)).
    rewrite (escape_token_esc t) at 1.
    rewrite (proj1 (split_char_app "/" (esc t) _ (esc_no_slash t))), IH.
    csimpl. by rewrite <- (escape_token_esc t).
Qed.

(** A built path is read back as the tokens it was built from. *)
Lemma pointer_tokens_path toks : pointer_tokens (path_of toks) = Some toks.
Proof.
  rewrite path_of_tail. destruct toks as [|t toks]; [done|]. simpl path_tail.
  change (pointer_tokens (String "/" (escape_token t +:+ path_tail toks)) = Some (t :: toks)).
  simpl pointer_tokens. rewrite split_path_tail. f_equal.
  rewrite <- list_fmap_compose. rewrite <- (list_fmap_id (t :: toks)) at 2.
  apply list_fmap_ext. intros _ x _. apply unescape_escape_token.
Qed.

Lemma pointer_path toks v : pointer (path_of toks) v = pointer_walk v toks.
Proof. unfold pointer. by rewrite pointer_tokens_path. Qed.

Lemma path_of_inj toks1 toks2 : path_of toks1 = path_of toks2 -> toks1 = toks2.
Proof.
  intros H. assert (H' := pointer_tokens_path toks1). rewrite H, pointer_tokens_path in H'.
  by injection H' as ->.
Qed.

Lemma all_digits_esc s : all_digits s = true -> esc s = s.
Proof.
  induction s as [|a s IH]; [done|]. simpl. intros [Ha Hs]%andb_true_iff.
  destruct (Ascii.eqb_spec a "~") as [->|]; [done|].
  destruct (Ascii.eqb_spec a "/") as [->|]; [done|]. by rewrite IH.
Qed.

Lemma escape_fmt_nat n : escape_token (fmt_nat n) = fmt_nat n.
Proof. rewrite escape_token_esc. apply all_digits_esc, fmt_nat_digits. Qed.

Lemma pointer_walk_app v toks1 toks2 :
  pointer_walk v (toks1 ++ toks2) = pointer_walk v toks1 ≫= fun v' => pointer_walk v' toks2.
Proof.
  revert v. induction toks1 as [|t toks1 IH]; intros v; simpl; [done|].
  destruct (pointer_step v t); simpl; [apply IH|done].
Qed.

(** * Updates through pointers *)

Lemma map_get_alter_eq f k m : map_get k (map_alter f k m) = f <$> map_get k m.
Proof.
  induction m as [|[k' v] m IH]; simpl; [done|].
  destruct (String.eqb k' k) eqn:E; simpl; by rewrite E.
Qed.

Lemma map_get_alter_ne f k k' m : k <> k' -> map_get k' (map_alter f k m) = map_get k' m.
Proof.
  intros Hne. induction m as [|[k2 v] m IH]; simpl; [done|].
  destruct (String.eqb_spec k2 k) as [->|]; simpl.
  - by apply String.eqb_neq in Hne as ->.
  - by rewrite IH.
Qed.

(** An update acts on what its own pointer selects. *)
Lemma pointer_walk_update f toks v : pointer_walk (walk_update f toks v) toks = f <$> pointer_walk v toks.
Proof.
  revert v. induction toks as [|t toks IH]; intros v; [done|].
  destruct v as [| | | |l|m]; try done; simpl.
  - destruct (parse_index t) as [i|] eqn:E; simpl; rewrite E; [|done]. simpl.
    rewrite list_lookup_alter_eq. destruct (l !! i); simpl; [apply IH|done].
  - rewrite map_get_alter_eq. destruct (map_get t m); simpl; [apply IH|done].
Qed.

(** Under another key nothing changes. *)
Lemma pointer_walk_update_ne f t toks t' toks' v :
  t <> t' -> parse_index t = None ->
  pointer_walk (walk_update f (t :: toks) v) (t' :: toks') = pointer_walk v (t' :: toks').
Proof.
  intros Hne Hp. destruct v as [| | | |l|m]; try done; simpl.
  - by rewrite Hp.
  - by rewrite map_get_alter_ne.
Qed.

Lemma pointer_walk_wf toks v v' : wf_value v -> pointer_walk v toks = Some v' -> wf_value v'.
Proof.
  revert v. induction toks as [|t toks IH]; intros v Hwf; simpl; [by intros [= <-]|].
  destruct (pointer_step v t) as [c|] eqn:E; [|done]. apply IH.
  destruct v as [| | | |l|m]; try done; simpl in E.
  - destruct (parse_index t) as [i|]; [|done]. simpl in E.
    apply wf_array in Hwf as [_ Hwf]. by eapply Forall_lookup in Hwf.
  - apply wf_object in Hwf. by eapply map_get_wf.
Qed.

(** * The children of a node, with the token that names each *)

Definition children (v : Value) : list (string * Value) :=
  match v with
  | Object m => m
  | Array l => imap (fun i x => (fmt_nat i, x)) l
  | _ => []
  end.

Lemma children_ind (P : Value -> Prop) :
  (forall v, Forall (fun kv => P kv.2) (children v) -> P v) -> forall v, P v.
Proof.
  intros HP v. induction v as [| | | |l IH|m IH] using Value_ind'; apply HP; simpl; try done.
  apply Forall_lookup. intros i kv Hi. rewrite list_lookup_imap in Hi.
  apply fmap_Some in Hi as (x & Hx & ->). simpl. by eapply Forall_lookup in IH.
Qed.

Lemma children_wf v : wf_value v -> Forall (fun kv => wf_value kv.2) (children v).
Proof.
  destruct v as [| | | |l|m]; try done; intros Hv.
  - apply wf_array in Hv as [_ Hv]. apply Forall_lookup. intros i kv Hi. simpl in Hi.
    rewrite list_lookup_imap in Hi. apply fmap_Some in Hi as (x & Hx & ->). simpl.
    by eapply Forall_lookup in Hv.
  - apply wf_object in Hv as [_ Hv]. done.
Qed.

Lemma children_NoDup v : wf_value v -> NoDup ((children v).*1).
Proof.
  destruct v as [| | | |l|m]; try (intros _; constructor); intros Hv.
  - clear Hv. simpl. rewrite fmap_imap. apply NoDup_alt. intros i j k Hi Hj.
    rewrite list_lookup_imap in Hi, Hj.
    apply fmap_Some in Hi as (x & _ & Hi), Hj as (y & _ & Hj). simpl in Hi, Hj.
    apply fmt_nat_inj. by rewrite <- Hi.
  - by apply wf_object in Hv as [Hv _].
Qed.

(** Each child is what its token selects. *)
Lemma children_step v k c : wf_value v -> (k, c) ∈ children v -> pointer_step v k = Some c.
Proof.
  destruct v as [| | | |l|m]; simpl children; try (intros _ H; by apply elem_of_nil in H).
  - intros [Hlen _]%wf_array (i & Hi)%list_elem_of_lookup. rewrite list_lookup_imap in Hi.
    apply fmap_Some in Hi as (x & Hx & [= -> ->]). simpl.
    rewrite parse_index_fmt; [done|]. apply lookup_lt_Some in Hx. lia.
  - intros [Hnd _]%wf_object Hin. by apply map_get_in.
Qed.

#[global] Arguments fmt_nat : simpl never.
#[global] Arguments escape_token : simpl never.
