(* ===== verification/Ext.v ===== *)
(** Interfaces to the third-party crates: [url], [serde_json]'s codec, [base64] and the image
    codecs.  The program only calls them, so each is a class of operations; the documented
    behaviour a theorem relies on is a separate class of laws. *)

From S2P Require Import Prelude RustStr Json.
From stdpp Require Import options.

(** The [url] crate: [Url] and [form_urlencoded]. *)
Class UrlLib := {
  Url : Type;
  url_parse : string -> Result string Url;
  url_scheme : Url -> string;
  url_host_str : Url -> option string;
  url_path : Url -> string;
  url_set_path : string -> Url -> Url;
  url_set_query : option string -> Url -> Url;
  url_set_fragment : option string -> Url -> Url;
  url_to_string : Url -> string;
  (** [form_urlencoded::byte_serialize], collected *)
  byte_serialize : bytes -> string;
  (** [form_urlencoded::parse] *)
  form_parse : bytes -> list (string * string);
  (** [form_urlencoded::Serializer]: the pairs appended, then [finish] *)
  form_serialize : list (string * string) -> string;
}.

(** [url.host_str().unwrap_or_default()] *)
Definition url_host `{UrlLib} (u : Url) : string := default EmptyString (url_host_str u).

(** [matches!(url.scheme(), "http" | "https")] *)
Definition scheme_is_http `{UrlLib} (u : Url) : bool :=
  String.eqb (url_scheme u) "http" || String.eqb (url_scheme u) "https".

(** The [http] crate: a header value reads as text when its bytes are visible ASCII
    ([HeaderValue::to_str]). *)
Class HttpLib := {
  header_to_str : bytes -> option string;
}.

(** A [HeaderMap], in iteration order; names are lower case. *)
Abbreviation HeaderMap := (list (string * bytes)).

Fixpoint header_get (name : string) (headers : HeaderMap) : option bytes :=
  match headers with
  | [] => None
  | (n, v) :: headers' => if String.eqb n name then Some v else header_get name headers'
  end.

(** The codec of [serde_json]. *)
Class JsonCodec := {
  from_slice : bytes -> Result string Value;
  to_vec : Value -> Result string bytes;
  to_string_pretty : Value -> Result string string;
}.

(** The [base64] crate's STANDARD engine. *)
Class Base64 := {
  b64_encode : bytes -> string;
  b64_decode : string -> Result string bytes;
}.

(** Printable ASCII without the double quote and the backslash. *)
Fixpoint is_plain (s : string) : bool :=
  match s with
  | EmptyString => true
  | String a s' => byte_between a 32 126 && negb (byte_is a 34) && negb (byte_is a 92) && is_plain s'
  end.

(** What the documentation of the STANDARD engine promises: [decode] inverts [encode], the output
    uses four characters of the base64 alphabet per started group of three bytes, and the encoding of a whole number of
    groups is a prefix of the encoding of any extension; an incomplete last group is padded with one
    or two equals signs, a complete one not at all. *)
Class Base64Laws `{Base64} : Prop := {
  b64_decode_encode : forall bs, b64_decode (b64_encode bs) = Ok bs;
  b64_encode_length : forall bs,
    String.length (b64_encode bs) = (4 * ((String.length bs + 2) / 3))%nat;
  b64_encode_app : forall a b,
    (String.length a mod 3 = 0)%nat -> b64_encode (a +:+ b) = b64_encode a +:+ b64_encode b;
  b64_encode_plain : forall bs, is_plain (b64_encode bs) = true;
  b64_encode_padding : forall bs,
    ends_with (b64_encode bs) "==" = (String.length bs mod 3 =? 1)%nat /\
    ends_with (b64_encode bs) "=" = negb (String.length bs mod 3 =? 0)%nat;
}.

(** What the documentation of [serde_json::to_vec] promises about compact output: objects and
    arrays are written with no white space, in the order of their entries, and a string without
    characters that need an escape stands between double quotes as it is. *)
Class JsonCompact `{JsonCodec} := {
  to_vec_scalar : Value -> bytes;
  to_vec_key : string -> bytes;
  to_vec_str : forall s, to_vec (Str s) = Ok (to_vec_key s);
  to_vec_plain : forall s, is_plain s = true -> to_vec_key s = dquote +:+ s +:+ dquote;
  to_vec_leaf : forall v, match v with Array _ | Object _ => False | _ => True end ->
    to_vec v = Ok (to_vec_scalar v);
  to_vec_array : forall l bs, Forall2 (fun v b => to_vec v = Ok b) l bs ->
    to_vec (Array l) = Ok ("[" +:+ join "," bs +:+ "]");
  to_vec_object : forall (m : list (string * Value)) bs,
    Forall2 (fun kv b => exists c, to_vec kv.2 = Ok c /\ b = to_vec_key kv.1 +:+ ":" +:+ c) m bs ->
    to_vec (Object m) = Ok ("{" +:+ join "," bs +:+ "}");
}.

(** * The network and the runtime

    Calls that leave the process are operations on a world [W], so a sequence of calls may see
    different answers. *)

(** A response whose head has arrived; the body comes in chunks and may end in an error. *)
Record HttpResponse := mkHttpResponse {
  resp_status : Z;
  resp_headers : HeaderMap;
  resp_content_length : option Z;
  resp_chunks : list bytes;
  resp_stream_error : option ReqwestError;
}.

(** [StatusCode::is_success] *)
Definition is_success (status : Z) : bool := (200 <=? status)%Z && (status <? 300)%Z.

(** [response.bytes()]: the whole body, or the error that ended the stream. *)
Definition resp_bytes (r : HttpResponse) : Result ReqwestError bytes :=
  match resp_stream_error r with
  | Some e => Err e
  | None => Ok (foldr String.append EmptyString (resp_chunks r))
  end.

Class HttpClient `{UrlLib} (W : Type) := {
  (** [client.get(url).send()] of the image client *)
  http_get : Url -> St W (Result ReqwestError HttpResponse);
}.

Class Runtime (W : Type) := {
  (** whether the deadline of [tokio::time::timeout] passes before its future completes *)
  timeout_elapses : Z -> St W bool;
  (** the [JoinError] of a spawned task, if it panics *)
  join_error : St W (option string);
}.

(** The [image] and [jpeg_encoder] crates. *)
Class ImageCodec := {
  Pixels : Type;
  (** [image::load_from_memory_with_format(_, Png)] *)
  load_png : bytes -> Result Error Pixels;
  pixels_width : Pixels -> Z;
  pixels_height : Pixels -> Z;
  (** 4:4:4 JPEG of the RGB pixels at a quality *)
  jpeg_encode : Pixels -> Z -> Result Error bytes;
  (** lossless WebP of the RGBA pixels *)
  webp_encode_lossless : Pixels -> Result Error bytes;
}.

(** * The file system ([tokio::fs])

    A file that the program has open is named by its path: every path it opens is its own. *)

Record IoError := mkIoError {
  (** [err.kind() == ErrorKind::NotFound] *)
  io_not_found : bool;
  io_display : string;
}.

(** The results of the successive [read] calls on a stream, with a buffer of a given length: the
    chunks until the end of the stream, or until the error that ended it. *)
Record ReadStream := mkReadStream {
  read_chunks_of : list bytes;
  read_error : option IoError;
}.

Class FileSystem (W : Type) := {
  fs_create_dir_all : string -> St W (Result IoError unit);
  fs_write : string -> bytes -> St W (Result IoError unit);
  (** [File::create] *)
  file_create : string -> St W (Result IoError unit);
  (** [write_all] and [flush] on the file created at a path *)
  file_write_all : string -> bytes -> St W (Result IoError unit);
  file_flush : string -> St W (Result IoError unit);
  (** [fs::metadata(path)], its [len] *)
  fs_metadata_len : string -> St W (Result IoError Z);
  fs_read : string -> St W (Result IoError bytes);
  (** [File::open] and the reads into a buffer of the given length up to the end *)
  file_open_read : string -> nat -> St W (Result IoError ReadStream);
  fs_remove_file : string -> St W (Result IoError unit);
}.

(** The documented effect of the operations, on the contents of files: a call that succeeds has
    the effect its name says, any call (also a failed one) leaves every other path alone, and
    reading changes nothing. *)
Class FileSystemLaws (W : Type) `{FileSystem W} := {
  fs_content : W -> string -> option bytes;
  fs_create_dir_all_frame : forall d w r w',
    fs_create_dir_all d w = (r, w') -> forall p, fs_content w' p = fs_content w p;
  fs_write_ok : forall p bs w w', fs_write p bs w = (Ok tt, w') -> fs_content w' p = Some bs;
  fs_write_frame : forall p bs w r w',
    fs_write p bs w = (r, w') -> forall q, q <> p -> fs_content w' q = fs_content w q;
  file_create_ok : forall p w w', file_create p w = (Ok tt, w') -> fs_content w' p = Some EmptyString;
  file_create_frame : forall p w r w',
    file_create p w = (r, w') -> forall q, q <> p -> fs_content w' q = fs_content w q;
  file_write_all_ok : forall p bs w w' c, file_write_all p bs w = (Ok tt, w') ->
    fs_content w p = Some c -> fs_content w' p = Some (c +:+ bs);
  file_write_all_frame : forall p bs w r w',
    file_write_all p bs w = (r, w') -> forall q, q <> p -> fs_content w' q = fs_content w q;
  file_flush_frame : forall p w r w',
    file_flush p w = (r, w') -> forall q, fs_content w' q = fs_content w q;
  fs_metadata_len_ok : forall p w n w', fs_metadata_len p w = (Ok n, w') ->
    exists c, fs_content w p = Some c /\ n = blen c;
  fs_metadata_len_frame : forall p w r w',
    fs_metadata_len p w = (r, w') -> forall q, fs_content w' q = fs_content w q;
  fs_read_ok : forall p w c w', fs_read p w = (Ok c, w') -> fs_content w p = Some c;
  fs_read_frame : forall p w r w',
    fs_read p w = (r, w') -> forall q, fs_content w' q = fs_content w q;
  file_open_read_ok : forall p n w s w', file_open_read p n w = (Ok s, w') ->
    (0 < n)%nat -> read_error s = None ->
    fs_content w p = Some (foldr String.append EmptyString (read_chunks_of s));
  file_open_read_len : forall p n w s w', file_open_read p n w = (Ok s, w') ->
    (0 < n)%nat -> Forall (fun c => (0 < String.length c <= n)%nat) (read_chunks_of s);
  file_open_read_frame : forall p n w r w',
    file_open_read p n w = (r, w') -> forall q, fs_content w' q = fs_content w q;
  fs_remove_file_frame : forall p w r w',
    fs_remove_file p w = (r, w') -> forall q, q <> p -> fs_content w' q = fs_content w q;
  fs_remove_file_ok : forall p w w', fs_remove_file p w = (Ok tt, w') -> fs_content w' p = None;
  fs_remove_file_missing : forall p w e w',
    fs_remove_file p w = (Err e, w') -> io_not_found e = true -> fs_content w' p = None;
}.

(** [tokio::io::duplex]: how the bytes written at one end arrive at the reader of the other, and how
    far a spawned reader has come when it is aborted ([None]: it never ran). *)
Class DuplexPipe (W : Type) := {
  duplex_chunks : bytes -> St W (list bytes);
  abort_progress : bytes -> St W (option (list bytes));
}.

(** The pipe delivers what was written, and does nothing else. *)
Class DuplexLaws (W : Type) `{DuplexPipe W} : Prop := {
  duplex_chunks_ok : forall bs w cs w',
    duplex_chunks bs w = (cs, w') -> foldr String.append EmptyString cs = bs /\ w' = w;
}.

(** The scheduler and the pipe do not touch files. *)
Class SchedulerLaws (W : Type) `{FileSystemLaws W} `{Runtime W} `{DuplexPipe W} : Prop := {
  timeout_elapses_frame : forall d w b w',
    timeout_elapses d w = (b, w') -> forall p, fs_content w' p = fs_content w p;
  join_error_frame : forall w e w',
    join_error w = (e, w') -> forall p, fs_content w' p = fs_content w p;
  abort_progress_frame : forall bs w c w',
    abort_progress bs w = (c, w') -> forall p, fs_content w' p = fs_content w p;
}.

(** * The [lru] crate, with string keys

    [lru_get], [lru_pop] and [lru_pop_lru] return what was found and the cache after the call. *)
Class LruLib (V : Type) := {
  LruCache : Type;
  lru_unbounded : LruCache;
  lru_len : LruCache -> nat;
  lru_get : string -> LruCache -> option V * LruCache;
  lru_pop : string -> LruCache -> option V * LruCache;
  lru_pop_lru : LruCache -> option (string * V) * LruCache;
  lru_put : string -> V -> LruCache -> LruCache;
}.

(** The value of a key in a list of entries. *)
Fixpoint entry_of {V} (k : string) (l : list (string * V)) : option V :=
  match l with
  | [] => None
  | (k', v) :: l' => if String.eqb k' k then Some v else entry_of k l'
  end.

Definition without {V} (k : string) (l : list (string * V)) : list (string * V) :=
  filter (fun e => e.1 <> k) l.

(** What the documentation of [lru] promises, on the entries from the most to the least recently
    used. *)
Class LruLaws (V : Type) `{LruLib V} := {
  lru_entries : LruCache -> list (string * V);
  lru_entries_NoDup : forall c, NoDup ((lru_entries c).*1);
  lru_unbounded_entries : lru_entries lru_unbounded = [];
  lru_len_entries : forall c, lru_len c = length (lru_entries c);
  lru_get_spec : forall k c, (lru_get k c).1 = entry_of k (lru_entries c) /\
    lru_entries (lru_get k c).2 =
      match entry_of k (lru_entries c) with
      | Some v => (k, v) :: without k (lru_entries c)
      | None => lru_entries c
      end;
  lru_pop_spec : forall k c, (lru_pop k c).1 = entry_of k (lru_entries c) /\
    lru_entries (lru_pop k c).2 = without k (lru_entries c);
  lru_pop_lru_spec : forall c, (lru_pop_lru c).1 = last (lru_entries c) /\
    lru_entries (lru_pop_lru c).2 = removelast (lru_entries c);
  lru_put_spec : forall k v c, lru_entries (lru_put k v c) = (k, v) :: without k (lru_entries c);
}.

(** * Time *)

Class Clock (W : Type) := {
  (** [SystemTime::now()] since the epoch, in milliseconds; 0 before the epoch *)
  now_unix_ms : St W Z;
  (** [tokio::time::sleep] of some milliseconds *)
  sleep : Z -> St W unit;
}.

(** * Hashes ([sha2], [hmac], [hex]) *)

Class Digests := {
  sha256 : bytes -> bytes;
  hmac_sha256 : bytes -> bytes -> bytes;
  hex_encode : bytes -> string;
}.

(** * Directories *)

Record DirEntry := mkDirEntry {
  entry_path : string;
  (** the modification time, if it can be read *)
  entry_modified : option Z;
}.

Class Directories (W : Type) := {
  (** [Path::exists] *)
  fs_exists : string -> St W bool;
  (** [std::fs::read_dir], its entries in the order of the iterator; a failing entry ends it *)
  fs_read_dir : string -> St W (Result IoError (list (Result IoError DirEntry)));
}.

(** How [StatusCode] and [Duration] print. *)
Class Displays := {
  status_display : Z -> string;
  duration_debug : Z -> string;
}.

(** [err.to_string()] *)
Definition error_to_string `{Displays} (e : Error) : string :=
  match e with
  | Anyhow m => m
  | ImageFetchStatusError status => "image fetch failed with status " +:+ status_display status
  | ReqwestErr e => reqwest_display e
  | BackgroundFetchWaitTimeoutError wait total =>
      "inlineData 图片抓取超时（已转后台继续下载）: wait=" +:+ duration_debug wait
      +:+ " total=" +:+ duration_debug total
  | StructuredProxyError _ _ _ detail => detail
  | ExternalError d => d
  end.

(** * Steps that leave the files alone *)

Section frames.
#[local] Set Default Proof Using "All".
Context {W : Type} `{FileSystemLaws W}.

Definition frames {A} (m : St W A) : Prop := forall w a w',
  m w = (a, w') -> forall p, fs_content w' p = fs_content w p.

Lemma frames_ret {A} (a : A) : frames (fun w => (a, w)).
Proof. by intros w a' w' [= <- <-]. Qed.

Lemma frames_st_bind {A B} (m : St W A) (f : A -> St W B) :
  frames m -> (forall a, frames (f a)) -> frames (st_bind m f).
Proof.
  intros Hm Hf w b w'. unfold st_bind. destruct (m w) as [a w1] eqn:E. intros Hb p.
  rewrite (Hf _ _ _ _ Hb). by eapply Hm.
Qed.

Lemma frames_ste_bind {A B} (m : StE W A) (f : A -> StE W B) :
  frames m -> (forall a, frames (f a)) -> frames (ste_bind m f).
Proof.
  intros Hm Hf w b w'. unfold ste_bind. destruct (m w) as [[a|e] w1] eqn:E.
  - intros Hb p. rewrite (Hf _ _ _ _ Hb). by eapply Hm.
  - intros [= <- <-]. by eapply Hm.
Qed.

Lemma frames_for {A B} (f : A -> B -> StE W A) acc l :
  (forall acc x, frames (f acc x)) -> frames (ste_for f acc l).
Proof.
  intros Hf. revert acc. induction l as [|x l IH]; intros acc; cbn [ste_for]; [apply frames_ret|].
  apply frames_ste_bind; [apply Hf|apply IH].
Qed.
End frames.
