(* ===== verification/Samples.v ===== *)
(** Concrete instances of the interfaces of Ext.v: a small URL parser, RFC 4648 base64 with its
    laws proved, and a JSON printer.  The components never mention them; the witnesses of the
    theorems evaluate on them. *)

From S2P Require Import Prelude RustStr Json Ext.
From stdpp Require Import options.

(** * URLs: scheme, host (with port), path, query and fragment of an absolute URL *)

Record SampleUrl := mkSampleUrl {
  su_scheme : string;
  su_host : string;
  su_path : string;
  su_query : option string;
  su_fragment : option string;
}.

Definition sample_parse (raw : string) : Result string SampleUrl :=
  match split_once "://" raw with
  | None => Err "relative URL without a base"
  | Some (scheme, rest) =>
      let '(rest, fragment) :=
        match split_once "#" rest with Some (l, r) => (l, Some r) | None => (rest, None) end in
      let '(rest, query) :=
        match split_once "?" rest with Some (l, r) => (l, Some r) | None => (rest, None) end in
      let '(host, path) :=
        match split_once "/" rest with Some (l, r) => (l, "/" +:+ r) | None => (rest, "/") end in
      Ok (mkSampleUrl (to_ascii_lowercase scheme) (to_ascii_lowercase host) path query fragment)
  end.

Definition sample_to_string (u : SampleUrl) : string :=
  su_scheme u +:+ "://" +:+ su_host u +:+ su_path u
  +:+ match su_query u with Some q => "?" +:+ q | None => EmptyString end
  +:+ match su_fragment u with Some f => "#" +:+ f | None => EmptyString end.

Definition hex_digit (n : N) : ascii := ascii_of_N (if (n <? 10)%N then 48 + n else 55 + n).

Definition unreserved (a : ascii) : bool :=
  byte_between a 48 57 || byte_between a 65 90 || byte_between a 97 122
  || byte_is a 42 || byte_is a 45 || byte_is a 46 || byte_is a 95.

Fixpoint sample_byte_serialize (s : bytes) : string :=
  match s with
  | EmptyString => EmptyString
  | String a s' =>
      let rest := sample_byte_serialize s' in
      if unreserved a then String a rest
      else if byte_is a 32 then String "+" rest
      else String "%" (String (hex_digit (N_of_ascii a / 16))
                         (String (hex_digit (N_of_ascii a mod 16)) rest))
  end.

Definition hex_value (a : ascii) : option N :=
  if byte_between a 48 57 then Some (N_of_ascii a - 48)%N
  else if byte_between a 65 70 then Some (N_of_ascii a - 55)%N else None.

Fixpoint sample_percent_decode (s : bytes) : string :=
  match s with
  | EmptyString => EmptyString
  | String a s' =>
      if byte_is a 43 then String " " (sample_percent_decode s')
      else if byte_is a 37 then
        match s' with
        | String h (String l s'') =>
            match hex_value h, hex_value l with
            | Some x, Some y => String (ascii_of_N (x * 16 + y)) (sample_percent_decode s'')
            | _, _ => String a (sample_percent_decode s')
            end
        | _ => String a (sample_percent_decode s')
        end
      else String a (sample_percent_decode s')
  end.

(** Pairs of a query string; the sample leaves bytes that are not text as they are. *)
Definition sample_form_parse (s : bytes) : list (string * string) :=
  (fun kv => let '(k, v) := match split_once "=" kv with Some p => p | None => (kv, EmptyString) end in
             (sample_percent_decode k, sample_percent_decode v))
  <$> filter (fun kv => is_empty kv = false) (split_char "&" s).

Definition sample_form_serialize (l : list (string * string)) : string :=
  join "&" ((fun kv => sample_byte_serialize kv.1 +:+ "=" +:+ sample_byte_serialize kv.2) <$> l).

#[export] Instance sample_url : UrlLib := {|
  Url := SampleUrl;
  url_parse := sample_parse;
  url_scheme := su_scheme;
  url_host_str u := if is_empty (su_host u) then None else Some (su_host u);
  url_path := su_path;
  url_set_path p u := mkSampleUrl (su_scheme u) (su_host u) p (su_query u) (su_fragment u);
  url_set_query q u := mkSampleUrl (su_scheme u) (su_host u) (su_path u) q (su_fragment u);
  url_set_fragment f u := mkSampleUrl (su_scheme u) (su_host u) (su_path u) (su_query u) f;
  url_to_string := sample_to_string;
  byte_serialize := sample_byte_serialize;
  form_parse := sample_form_parse;
  form_serialize := sample_form_serialize;
|}.

(** Visible ASCII and tab. *)
Fixpoint sample_visible (s : bytes) : bool :=
  match s with
  | EmptyString => true
  | String a s' => (byte_between a 32 126 || byte_is a 9) && sample_visible s'
  end.

#[export] Instance sample_http : HttpLib :=
  {| header_to_str v := if sample_visible v then Some v else None |}.

(** * Base64 (RFC 4648, with padding) *)

(** Six bits, most significant first, and their character. *)
Definition sextet (b5 b4 b3 b2 b1 b0 : bool) : N :=
  (32 * N.b2n b5 + 16 * N.b2n b4 + 8 * N.b2n b3 + 4 * N.b2n b2 + 2 * N.b2n b1 + N.b2n b0)%N.

Definition sextet_char (n : N) : ascii :=
  ascii_of_N (if (n <? 26)%N then 65 + n
              else if (n <? 52)%N then 71 + n
              else if (n <? 62)%N then n - 4
              else if (n =? 62)%N then 43 else 47).

Definition char_sextet (a : ascii) : option N :=
  let n := N_of_ascii a in
  if byte_between a 65 90 then Some (n - 65)%N
  else if byte_between a 97 122 then Some (n - 71)%N
  else if byte_between a 48 57 then Some (n + 4)%N
  else if byte_is a 43 then Some 62%N
  else if byte_is a 47 then Some 63%N
  else None.

Definition hi6 (a : ascii) : N :=
  match a with Ascii _ _ b2 b3 b4 b5 b6 b7 => sextet b7 b6 b5 b4 b3 b2 end.
Definition lo2hi4 (a b : ascii) : N :=
  match a, b with Ascii a0 a1 _ _ _ _ _ _, Ascii _ _ _ _ b4 b5 b6 b7 =>
    sextet a1 a0 b7 b6 b5 b4 end.
Definition lo4hi2 (b c : ascii) : N :=
  match b, c with Ascii b0 b1 b2 b3 _ _ _ _, Ascii _ _ _ _ _ _ c6 c7 =>
    sextet b3 b2 b1 b0 c7 c6 end.
Definition lo6 (c : ascii) : N :=
  match c with Ascii c0 c1 c2 c3 c4 c5 _ _ => sextet c5 c4 c3 c2 c1 c0 end.

Definition zero_byte : ascii := ascii_of_N 0.
Definition pad_char : ascii := "=".

Fixpoint sample_b64_encode (s : bytes) : string :=
  match s with
  | EmptyString => EmptyString
  | String a EmptyString =>
      String (sextet_char (hi6 a)) (String (sextet_char (lo2hi4 a zero_byte))
        (String pad_char (String pad_char EmptyString)))
  | String a (String b EmptyString) =>
      String (sextet_char (hi6 a)) (String (sextet_char (lo2hi4 a b))
        (String (sextet_char (lo4hi2 b zero_byte)) (String pad_char EmptyString)))
  | String a (String b (String c s')) =>
      String (sextet_char (hi6 a)) (String (sextet_char (lo2hi4 a b))
        (String (sextet_char (lo4hi2 b c)) (String (sextet_char (lo6 c)) (sample_b64_encode s'))))
  end.

Definition byte_of_sextets1 (x y : N) : ascii := ascii_of_N ((x * 4 + y / 16) mod 256)%N.
Definition byte_of_sextets2 (y z : N) : ascii := ascii_of_N ((y * 16 + z / 4) mod 256)%N.
Definition byte_of_sextets3 (z w : N) : ascii := ascii_of_N ((z * 64 + w) mod 256)%N.

Definition decode_last (a b c d : ascii) : Result string bytes :=
  match char_sextet a, char_sextet b with
  | Some x, Some y =>
      if Ascii.eqb d pad_char then
        if Ascii.eqb c pad_char then
          if (y mod 16 =? 0)%N then Ok (String (byte_of_sextets1 x y) EmptyString)
          else Err "Invalid last symbol"
        else match char_sextet c with
             | Some z => if (z mod 4 =? 0)%N
                         then Ok (String (byte_of_sextets1 x y)
                                    (String (byte_of_sextets2 y z) EmptyString))
                         else Err "Invalid last symbol"
             | None => Err "Invalid symbol"
             end
      else match char_sextet c, char_sextet d with
           | Some z, Some w =>
               Ok (String (byte_of_sextets1 x y) (String (byte_of_sextets2 y z)
                     (String (byte_of_sextets3 z w) EmptyString)))
           | _, _ => Err "Invalid symbol"
           end
  | _, _ => Err "Invalid symbol"
  end.

Fixpoint sample_b64_decode (s : string) : Result string bytes :=
  match s with
  | EmptyString => Ok EmptyString
  | String a (String b (String c (String d s'))) =>
      match s' with
      | EmptyString => decode_last a b c d
      | _ =>
          match char_sextet a, char_sextet b, char_sextet c, char_sextet d with
          | Some x, Some y, Some z, Some w =>
              let? rest := sample_b64_decode s' in
              Ok (String (byte_of_sextets1 x y) (String (byte_of_sextets2 y z)
                    (String (byte_of_sextets3 z w) rest)))
          | _, _, _, _ => Err "Invalid symbol"
          end
      end
  | _ => Err "Invalid padding"
  end.

#[export] Instance sample_base64 : Base64 :=
  {| b64_encode := sample_b64_encode; b64_decode := sample_b64_decode |}.

(** * JSON printing; parsing is a table the witnesses do not need *)

Definition sample_key (s : string) : bytes := dquote +:+ s +:+ dquote.

Definition sample_scalar (v : Value) : bytes :=
  match v with
  | Null => "null"
  | Bool true => "true"
  | Bool false => "false"
  | Num (PosInt n) | Num (NegInt n) => pretty n
  | Num (Float b) => pretty b
  | Str s => sample_key s
  | Array _ | Object _ => EmptyString
  end.

Fixpoint sample_print (v : Value) : bytes :=
  match v with
  | Array l => "[" +:+ join "," (map sample_print l) +:+ "]"
  | Object m =>
      "{" +:+ join "," (map (fun kv => sample_key (fst kv) +:+ ":" +:+ sample_print (snd kv)) m)
      +:+ "}"
  | _ => sample_scalar v
  end.

#[export] Instance sample_json : JsonCodec := {|
  from_slice bs := if String.eqb bs "{}" then Ok (Object []) else Err "expected value";
  to_vec v := Ok (sample_print v);
  to_string_pretty v := Ok (sample_print v);
|}.

(** * The laws hold of the instances *)

Lemma char_sextet_char b5 b4 b3 b2 b1 b0 :
  char_sextet (sextet_char (sextet b5 b4 b3 b2 b1 b0)) = Some (sextet b5 b4 b3 b2 b1 b0).
Proof. by destruct b5, b4, b3, b2, b1, b0. Qed.

Lemma sextet_char_not_pad b5 b4 b3 b2 b1 b0 :
  Ascii.eqb (sextet_char (sextet b5 b4 b3 b2 b1 b0)) pad_char = false.
Proof. by destruct b5, b4, b3, b2, b1, b0. Qed.

Lemma hi6_sextet a : exists b5 b4 b3 b2 b1 b0, hi6 a = sextet b5 b4 b3 b2 b1 b0.
Proof. destruct a. simpl. eauto 10. Qed.

Lemma byte1_ok a b : byte_of_sextets1 (hi6 a) (lo2hi4 a b) = a.
Proof.
  destruct a as [a0 a1 a2 a3 a4 a5 a6 a7], b as [b0 b1 b2 b3 b4 b5 b6 b7].
  unfold byte_of_sextets1, hi6, lo2hi4.
  by destruct a0, a1, a2, a3, a4, a5, a6, a7, b4, b5, b6, b7.
Qed.

Lemma byte2_ok a b c : byte_of_sextets2 (lo2hi4 a b) (lo4hi2 b c) = b.
Proof.
  destruct a as [a0 a1 a2 a3 a4 a5 a6 a7], b as [b0 b1 b2 b3 b4 b5 b6 b7],
    c as [c0 c1 c2 c3 c4 c5 c6 c7].
  unfold byte_of_sextets2, lo2hi4, lo4hi2.
  by destruct a0, a1, b0, b1, b2, b3, b4, b5, b6, b7, c6, c7.
Qed.

Lemma byte3_ok b c : byte_of_sextets3 (lo4hi2 b c) (lo6 c) = c.
Proof.
  destruct b as [b0 b1 b2 b3 b4 b5 b6 b7], c as [c0 c1 c2 c3 c4 c5 c6 c7].
  unfold byte_of_sextets3, lo4hi2, lo6.
  by destruct b0, b1, b2, b3, c0, c1, c2, c3, c4, c5, c6, c7.
Qed.

Lemma cs_hi6 a : char_sextet (sextet_char (hi6 a)) = Some (hi6 a).
Proof. destruct a. apply char_sextet_char. Qed.
Lemma cs_lo2hi4 a b : char_sextet (sextet_char (lo2hi4 a b)) = Some (lo2hi4 a b).
Proof. destruct a, b. apply char_sextet_char. Qed.
Lemma cs_lo4hi2 a b : char_sextet (sextet_char (lo4hi2 a b)) = Some (lo4hi2 a b).
Proof. destruct a, b. apply char_sextet_char. Qed.
Lemma cs_lo6 a : char_sextet (sextet_char (lo6 a)) = Some (lo6 a).
Proof. destruct a. apply char_sextet_char. Qed.
Lemma sextet_char_plain b5 b4 b3 b2 b1 b0 s :
  is_plain (String (sextet_char (sextet b5 b4 b3 b2 b1 b0)) s) = is_plain s.
Proof. by destruct b5, b4, b3, b2, b1, b0. Qed.

Lemma pl_hi6 a s : is_plain (String (sextet_char (hi6 a)) s) = is_plain s.
Proof. destruct a. apply sextet_char_plain. Qed.
Lemma pl_lo2hi4 a b s : is_plain (String (sextet_char (lo2hi4 a b)) s) = is_plain s.
Proof. destruct a, b. apply sextet_char_plain. Qed.
Lemma pl_lo4hi2 a b s : is_plain (String (sextet_char (lo4hi2 a b)) s) = is_plain s.
Proof. destruct a, b. apply sextet_char_plain. Qed.
Lemma pl_lo6 a s : is_plain (String (sextet_char (lo6 a)) s) = is_plain s.
Proof. destruct a. apply sextet_char_plain. Qed.

Lemma np_lo4hi2 a b : Ascii.eqb (sextet_char (lo4hi2 a b)) pad_char = false.
Proof. destruct a, b. apply sextet_char_not_pad. Qed.
Lemma np_lo6 a : Ascii.eqb (sextet_char (lo6 a)) pad_char = false.
Proof. destruct a. apply sextet_char_not_pad. Qed.
Lemma lo2hi4_zero a : (lo2hi4 a zero_byte mod 16)%N = 0%N.
Proof. destruct a as [[] [] b2 b3 b4 b5 b6 b7]; done. Qed.
Lemma lo4hi2_zero a : (lo4hi2 a zero_byte mod 4)%N = 0%N.
Proof. destruct a as [[] [] [] [] b4 b5 b6 b7]; done. Qed.

(** Induction three bytes at a time. *)
Lemma string_ind3 (P : string -> Prop) :
  P EmptyString -> (forall a, P (String a EmptyString)) ->
  (forall a b, P (String a (String b EmptyString))) ->
  (forall a b c s, P s -> P (String a (String b (String c s)))) -> forall s, P s.
Proof.
  intros H0 H1 H2 H3. fix IH 1. intros [|a [|b [|c s]]]; [done..|]. apply H3, IH.
Qed.

Opaque sextet_char char_sextet hi6 lo2hi4 lo4hi2 lo6 pad_char zero_byte
  byte_of_sextets1 byte_of_sextets2 byte_of_sextets3.

Lemma sample_decode_encode bs : sample_b64_decode (sample_b64_encode bs) = Ok bs.
Proof.
  induction bs as [|a|a b|a b c s IH] using string_ind3.
  - done.
  - simpl. unfold decode_last.
    by rewrite cs_hi6, cs_lo2hi4, Ascii.eqb_refl, lo2hi4_zero, byte1_ok.
  - simpl. unfold decode_last.
    by rewrite cs_hi6, cs_lo2hi4, Ascii.eqb_refl, np_lo4hi2, cs_lo4hi2, lo4hi2_zero,
      byte1_ok, byte2_ok.
  - cbn [sample_b64_encode sample_b64_decode]. destruct s as [|d s].
    + cbn [sample_b64_encode]. unfold decode_last.
      by rewrite cs_hi6, cs_lo2hi4, np_lo6, cs_lo4hi2, cs_lo6, byte1_ok, byte2_ok, byte3_ok.
    + remember (sample_b64_encode (String d s)) as enc eqn:Henc.
      assert (exists x y, enc = String x y) as (x & y & ->).
      { rewrite Henc. destruct s as [|e [|f s]]; eauto. }
      by rewrite cs_hi6, cs_lo2hi4, cs_lo4hi2, cs_lo6, IH, byte1_ok, byte2_ok, byte3_ok.
Qed.

Lemma sample_encode_length bs :
  String.length (sample_b64_encode bs) = (4 * ((String.length bs + 2) / 3))%nat.
Proof.
  induction bs as [|a|a b|a b c s IH] using string_ind3; [done..|].
  cbn [sample_b64_encode String.length]. rewrite IH.
  replace (S (S (S (String.length s))) + 2)%nat with (String.length s + 2 + 1 * 3)%nat by lia.
  rewrite Nat.div_add by lia. lia.
Qed.

Lemma sample_encode_app a b :
  (String.length a mod 3 = 0)%nat ->
  sample_b64_encode (a +:+ b) = sample_b64_encode a +:+ sample_b64_encode b.
Proof.
  induction a as [|x|x y|x y z s IH] using string_ind3; intros Hlen; try done.
  rewrite !string_cons_app. cbn [sample_b64_encode]. rewrite !string_cons_app, IH; [done|].
  cbn [String.length] in Hlen.
  replace (S (S (S (String.length s)))) with (String.length s + 1 * 3)%nat in Hlen by lia.
  by rewrite Nat.Div0.mod_add in Hlen.
Qed.

Lemma sample_encode_plain bs : is_plain (sample_b64_encode bs) = true.
Proof.
  induction bs as [|x|x y|x y z s IH] using string_ind3; [done|..];
    cbn [sample_b64_encode]; rewrite ?pl_hi6, ?pl_lo2hi4, ?pl_lo4hi2, ?pl_lo6; done.
Qed.

Transparent sextet_char char_sextet hi6 lo2hi4 lo4hi2 lo6 pad_char zero_byte
  byte_of_sextets1 byte_of_sextets2 byte_of_sextets3.

(** The end of a text is the end of its last characters. *)
Lemma ends_with_app_long p s t :
  (String.length p <= String.length t)%nat -> ends_with (s +:+ t) p = ends_with t p.
Proof.
  intros Hlen. apply eq_true_iff_eq. rewrite !ends_with_spec. split.
  - intros [front Heq]. exists (str_drop (String.length s) front).
    revert front Heq. induction s as [|a s IH]; intros front Heq; [by destruct front|].
    destruct front as [|b front].
    + exfalso. apply (f_equal String.length) in Heq. rewrite string_app_nil_l in Heq.
      rewrite string_length_app in Heq. simpl in Heq. lia.
    + rewrite !string_cons_app in Heq. injection Heq as _ Heq. by apply IH.
  - intros [front ->]. exists (s +:+ front). by rewrite string_app_assoc.
Qed.

Lemma sextet_char_no_pad b5 b4 b3 b2 b1 b0 :
  Ascii.eqb (sextet_char (sextet b5 b4 b3 b2 b1 b0)) pad_char = false.
Proof. by destruct b5, b4, b3, b2, b1, b0. Qed.

Lemma lo6_no_pad c : Ascii.eqb (sextet_char (lo6 c)) pad_char = false.
Proof. destruct c. apply sextet_char_no_pad. Qed.
Lemma lo4hi2_no_pad b c : Ascii.eqb (sextet_char (lo4hi2 b c)) pad_char = false.
Proof. destruct b, c. apply sextet_char_no_pad. Qed.

Lemma group_app a b c d s :
  String a (String b (String c (String d EmptyString))) +:+ s =
  String a (String b (String c (String d s))).
Proof. done. Qed.

(** The pads of a group of four. *)
Lemma ends_with_group a b c d :
  ends_with (String a (String b (String c (String d EmptyString)))) "==" =
    Ascii.eqb d pad_char && Ascii.eqb c pad_char /\
  ends_with (String a (String b (String c (String d EmptyString)))) "=" = Ascii.eqb d pad_char.
Proof.
  unfold ends_with, starts_with, pad_char. cbn -[Ascii.eqb].
  rewrite (Ascii.eqb_sym d), (Ascii.eqb_sym c).
  rewrite !strip_prefix_cons. by destruct (Ascii.eqb "=" d), (Ascii.eqb "=" c).
Qed.

Lemma sample_encode_padding bs :
  ends_with (sample_b64_encode bs) "==" = (String.length bs mod 3 =? 1)%nat /\
  ends_with (sample_b64_encode bs) "=" = negb (String.length bs mod 3 =? 0)%nat.
Proof.
  induction bs as [|x|x y|x y z s IH] using string_ind3.
  - done.
  - cbn [sample_b64_encode]. destruct (ends_with_group (sextet_char (hi6 x)) (sextet_char (lo2hi4 x zero_byte))
      pad_char pad_char) as [-> ->].
    done.
  - cbn [sample_b64_encode].
    destruct (ends_with_group (sextet_char (hi6 x)) (sextet_char (lo2hi4 x y))
      (sextet_char (lo4hi2 y zero_byte)) pad_char) as [-> ->].
    by rewrite lo4hi2_no_pad, andb_false_r.
  - cbn [sample_b64_encode String.length].
    replace (S (S (S (String.length s)))) with (String.length s + 1 * 3)%nat by lia.
    rewrite Nat.Div0.mod_add.
    destruct (ends_with_group (sextet_char (hi6 x)) (sextet_char (lo2hi4 x y))
      (sextet_char (lo4hi2 y z)) (sextet_char (lo6 z))) as [E2 E1].
    destruct s as [|a s].
    + cbn [sample_b64_encode] in *. rewrite E2, E1. by rewrite lo6_no_pad.
    + assert (Hlen : (4 <= String.length (sample_b64_encode (String a s)))%nat).
      { rewrite sample_encode_length. cbn [String.length].
        assert (1 <= (S (String.length s) + 2) / 3)%nat by (apply Nat.div_le_lower_bound; lia). lia. }
      set (enc := sample_b64_encode (String a s)) in *.
      rewrite <- (group_app _ _ _ _ enc).
      rewrite !ends_with_app_long by (simpl; lia). exact IH.
Qed.

#[export] Instance sample_base64_laws : Base64Laws.
Proof.
  split; [apply sample_decode_encode|apply sample_encode_length|apply sample_encode_app|
    apply sample_encode_plain|apply sample_encode_padding].
Qed.

#[export] Program Instance sample_json_compact : JsonCompact := {|
  to_vec_scalar := sample_scalar;
  to_vec_key := sample_key;
|}.
Next Obligation. done. Qed.
Next Obligation. done. Qed.
Next Obligation. intros [] H; try done. Qed.
Next Obligation.
  intros l bs Hall. simpl. do 4 f_equal. induction Hall as [|v b l bs Hv Hall IH]; [done|].
  simpl. rewrite IH. by injection Hv as ->.
Qed.
Next Obligation.
  intros m bs Hall. simpl. do 4 f_equal.
  induction Hall as [|kv b m bs (c & Hc & ->) Hall IH]; [done|].
  simpl. rewrite IH. by injection Hc as ->.
Qed.

(** * An in-memory file system without faults; directories are implicit *)

Abbreviation SampleFs := (gmap string string).

Definition not_found : IoError := mkIoError true "No such file or directory (os error 2)".

Definition sample_read (p : string) (w : SampleFs) : Result IoError bytes :=
  match w !! p with Some c => Ok c | None => Err not_found end.

(** The successive reads of at most [n] bytes. *)
Fixpoint sample_chunks (fuel n : nat) (s : bytes) : list bytes :=
  match fuel with
  | O => []
  | S fuel =>
      if is_empty s then []
      else str_take n s :: sample_chunks fuel n (str_drop n s)
  end.

#[export] Instance sample_fs : FileSystem SampleFs := {|
  fs_create_dir_all _ w := (Ok tt, w);
  fs_write p bs w := (Ok tt, <[p := bs]> w);
  file_create p w := (Ok tt, <[p := EmptyString]> w);
  file_write_all p bs w :=
    match w !! p with Some c => (Ok tt, <[p := c +:+ bs]> w) | None => (Err not_found, w) end;
  file_flush _ w := (Ok tt, w);
  fs_metadata_len p w := (match w !! p with Some c => Ok (blen c) | None => Err not_found end, w);
  fs_read p w := (sample_read p w, w);
  file_open_read p n w :=
    (match w !! p with
     | Some c => Ok (mkReadStream (sample_chunks (String.length c) (Nat.max n 1) c) None)
     | None => Err not_found
     end, w);
  fs_remove_file p w :=
    (match w !! p with Some _ => Ok tt | None => Err not_found end, delete p w);
|}.

Lemma sample_chunks_spec fuel n s :
  (0 < n)%nat -> (String.length s <= fuel)%nat ->
  foldr String.append EmptyString (sample_chunks fuel n s) = s /\
  Forall (fun c => (0 < String.length c <= n)%nat) (sample_chunks fuel n s).
Proof.
  intros Hn. revert s. induction fuel as [|fuel IH]; intros s Hs; simpl.
  { destruct s; simpl in *; [done|lia]. }
  destruct s as [|a s]; [done|]. simpl is_empty. cbv iota.
  assert (Hdrop := str_drop_length n (String a s)).
  destruct (IH (str_drop n (String a s))) as [IH1 IH2].
  { rewrite Hdrop. simpl String.length in *. lia. }
  split; [cbn [foldr]; rewrite IH1; apply str_take_drop|]. constructor; [|done].
  rewrite str_take_length. simpl String.length. lia.
Qed.

#[local] Obligation Tactic := idtac.

#[export] Program Instance sample_fs_laws : FileSystemLaws SampleFs :=
  {| fs_content (w : SampleFs) p := w !! p |}.
Solve All Obligations with
  (simpl; intros; repeat case_match; simplify_eq;
   by rewrite ?lookup_insert_eq, ?lookup_insert_ne, ?lookup_delete_eq, ?lookup_delete_ne by congruence).
Next Obligation.
  simpl. intros p w n w' Hr. destruct (w !! p) as [c|]; [|done]. injection Hr as <- <-. by exists c.
Qed.
Next Obligation.
  simpl. unfold sample_read. intros p w c w' Hr. destruct (w !! p); [|done]. by injection Hr as -> ->.
Qed.
Next Obligation.
  simpl. intros p n w s w' Hr Hn _. destruct (w !! p) as [c|]; [|done]. injection Hr as <- <-. simpl.
  rewrite (Nat.max_l n 1) by lia.
  by destruct (sample_chunks_spec (String.length c) n c) as [-> _]; [lia..|].
Qed.
Next Obligation.
  simpl. intros p n w s w' Hr Hn. destruct (w !! p) as [c|]; [|done]. injection Hr as <- <-. simpl.
  rewrite (Nat.max_l n 1) by lia. by apply sample_chunks_spec; [lia..|].
Qed.

(** * A scheduler that never times out or panics, and a pipe that delivers two chunks *)

#[export] Instance sample_scheduler : Runtime SampleFs := {|
  timeout_elapses _ w := (false, w);
  join_error w := (None, w);
|}.

#[export] Instance sample_pipe : DuplexPipe SampleFs := {|
  duplex_chunks bs w := ([str_take 5 bs; str_drop 5 bs], w);
  abort_progress _ w := (None, w);
|}.

#[export] Instance sample_duplex_laws : DuplexLaws SampleFs.
Proof.
  split. intros bs w cs w' E. injection E as <- <-. split; [|done]. cbn [foldr].
  rewrite string_app_nil_r. exact (str_take_drop 5 bs).
Qed.

#[export] Instance sample_scheduler_laws : SchedulerLaws SampleFs.
Proof. split; simpl; intros; by simplify_eq. Qed.

(** * A clock that stands still, directories by prefix, and stand-ins for the digests *)

#[export] Instance sample_clock : Clock SampleFs := {|
  now_unix_ms w := (1000%Z, w);
  sleep _ w := (tt, w);
|}.

#[export] Instance sample_directories : Directories SampleFs := {|
  fs_exists p w := (bool_decide (is_Some (w !! p)), w);
  fs_read_dir d w :=
    (Ok ((fun p => Ok (mkDirEntry p (Some 0%Z)))
         <$> filter (fun p => starts_with p d = true) (map_to_list w).*1), w);
|}.

#[export] Instance sample_digests : Digests := {|
  sha256 bs := bs;
  hmac_sha256 key bs := key +:+ bs;
  hex_encode bs := bs;
|}.

#[export] Instance sample_displays : Displays := {|
  status_display n := pretty n;
  duration_debug n := pretty n +:+ "ms";
|}.

(** ** The form codec: what is serialized is parsed back *)

Lemma decode_serialize_byte a s :
  sample_percent_decode (sample_byte_serialize (String a EmptyString) +:+ s) =
  String a (sample_percent_decode s).
Proof. destruct a as [[] [] [] [] [] [] [] []]; reflexivity. Qed.

Lemma serialize_cons a s :
  sample_byte_serialize (String a s) =
  sample_byte_serialize (String a EmptyString) +:+ sample_byte_serialize s.
Proof. cbn [sample_byte_serialize]. destruct (unreserved a); [done|]. by destruct (byte_is a 32). Qed.

Lemma sample_decode_serialize s : sample_percent_decode (sample_byte_serialize s) = s.
Proof.
  induction s as [|a s IH]; [done|]. by rewrite serialize_cons, decode_serialize_byte, IH.
Qed.

(** No separator is left in what is serialized. *)
Definition form_char (a : ascii) : bool := unreserved a || byte_is a 43 || byte_is a 37.

Fixpoint all_form_chars (s : string) : bool :=
  match s with EmptyString => true | String a s => form_char a && all_form_chars s end.

Lemma all_form_chars_app s t : all_form_chars (s +:+ t) = all_form_chars s && all_form_chars t.
Proof.
  induction s as [|a s IH]; [done|]. rewrite string_cons_app. simpl. by rewrite IH, andb_assoc.
Qed.

Lemma serialize_form_chars s : all_form_chars (sample_byte_serialize s) = true.
Proof.
  induction s as [|a s IH]; [done|]. rewrite serialize_cons, all_form_chars_app, IH, andb_true_r.
  clear IH. destruct a as [[] [] [] [] [] [] [] []]; reflexivity.
Qed.

Lemma form_chars_no_separator c s :
  form_char c = false -> all_form_chars s = true -> contains_char c s = false.
Proof.
  intros Hc. induction s as [|a s IH]; simpl; [done|]. intros [Ha Hs]%andb_true_iff.
  rewrite IH by done. rewrite orb_false_r. apply Ascii.eqb_neq. congruence.
Qed.
