(* ===== verification/Config.v ===== *)
(** Process configuration (src/rust-sync-proxy/src/config.rs): the defaults, the parsing of each
    environment variable with its fallback, [Config::from_env_map] and its validation, and the
    defaults of the blob budgets by instance memory. *)

From S2P Require Import Prelude RustStr Json Ext Samples.
From stdpp Require Import options.

(** * Data *)

Definition DEFAULT_UPSTREAM_BASE_URL : string := "https://magic666.top".
Definition DEFAULT_PORT : Z := 8787.
Definition DEFAULT_UPSTREAM_TIMEOUT_MS : Z := 600000.
Definition DEFAULT_UPSTREAM_CONNECT_TIMEOUT_MS : Z := 10000.
Definition DEFAULT_UPSTREAM_TCP_KEEPALIVE_MS : Z := 30000.
Definition DEFAULT_UPSTREAM_POOL_IDLE_TIMEOUT_MS : Z := 15000.
Definition DEFAULT_SLOW_LOG_THRESHOLD_MS : Z := 100000.
Definition DEFAULT_IMAGE_FETCH_TIMEOUT_MS : Z := 20000.
Definition DEFAULT_UPLOAD_TIMEOUT_MS : Z := 20000.
Definition DEFAULT_IMAGE_TLS_HANDSHAKE_TIMEOUT_MS : Z := 15000.
Definition DEFAULT_UPLOAD_TLS_HANDSHAKE_TIMEOUT_MS : Z := 10000.
Definition DEFAULT_INSTANCE_MEMORY_BYTES : Z := 2 * 1024 * 1024 * 1024.
Definition DEFAULT_INLINE_DATA_URL_CACHE_TTL_MS : Z := 3600000.
Definition DEFAULT_INLINE_DATA_URL_CACHE_MAX_BYTES : Z := Z.shiftl 1 30.
Definition DEFAULT_INLINE_DATA_URL_MEMORY_CACHE_MAX_BYTES : Z := 100 * 1024 * 1024.
Definition DEFAULT_INLINE_DATA_URL_BACKGROUND_FETCH_TOTAL_TIMEOUT_MS : Z := 90000.
Definition DEFAULT_INLINE_DATA_URL_BACKGROUND_FETCH_MAX_INFLIGHT : Z := 128.
Definition DEFAULT_BLOB_INLINE_MAX_BYTES : Z := 8 * 1024 * 1024.
Definition DEFAULT_BLOB_REQUEST_HOT_BUDGET_BYTES : Z := 24 * 1024 * 1024.
Definition DEFAULT_BLOB_GLOBAL_HOT_BUDGET_BYTES : Z := 384 * 1024 * 1024.
Definition DEFAULT_BLOB_SPILL_DIR : string := "/tmp/rust-sync-proxy-blobs".
Definition DEFAULT_LEGACY_UGUU_UPLOAD_URL : string := "https://uguu.se/upload".
Definition DEFAULT_LEGACY_KEFAN_UPLOAD_URL : string := "https://ai.kefan.cn/api/upload/local".
Definition DEFAULT_IMAGE_COMPRESSION_JPEG_QUALITY : Z := 97.

Record BlobBudgetDefaults := mkBlobBudgetDefaults {
  inline_max_bytes : Z;
  request_hot_budget_bytes : Z;
  global_hot_budget_bytes : Z;
}.

(** Durations are in milliseconds. *)
Record Config := mkConfig {
  port : Z;
  upstream_base_url : string;
  upstream_api_key : string;
  upstream_timeout : Z;
  upstream_connect_timeout : Z;
  upstream_tcp_keepalive : Z;
  upstream_pool_idle_timeout : Z;
  image_host_mode : string;
  allowed_proxy_domains : list string;
  public_base_url : string;
  external_image_proxy_prefix : string;
  slow_log_threshold : Z;
  proxy_standard_output_urls : bool;
  proxy_special_upstream_urls : bool;
  enable_image_compression : bool;
  enable_request_image_webp_optimization : bool;
  image_compression_jpeg_quality : Z;
  admin_password : string;
  image_fetch_timeout : Z;
  image_tls_handshake_timeout : Z;
  image_fetch_insecure_skip_verify : bool;
  image_fetch_external_proxy_domains : list string;
  inline_data_url_cache_dir : string;
  inline_data_url_cache_ttl : Z;
  inline_data_url_cache_max_bytes : Z;
  inline_data_url_memory_cache_max_bytes : Z;
  inline_data_url_background_fetch_wait_timeout : Z;
  inline_data_url_background_fetch_total_timeout : Z;
  inline_data_url_background_fetch_max_inflight : Z;
  blob_inline_max_bytes : Z;
  blob_request_hot_budget_bytes : Z;
  blob_global_hot_budget_bytes : Z;
  blob_spill_dir : string;
  upload_timeout : Z;
  upload_tls_handshake_timeout : Z;
  upload_insecure_skip_verify : bool;
  legacy_uguu_upload_url : string;
  legacy_kefan_upload_url : string;
  r2_endpoint : string;
  r2_bucket : string;
  r2_access_key_id : string;
  r2_secret_access_key : string;
  r2_public_base_url : string;
  r2_object_prefix : string;
}.

(** * Parsing of single variables *)

Definition blob_budget_defaults_for_memory (memory_bytes : Z) : BlobBudgetDefaults :=
  let GIB := (1024 * 1024 * 1024)%Z in
  if (8 * GIB <=? memory_bytes)%Z then
    {| inline_max_bytes := 16 * 1024 * 1024;
       request_hot_budget_bytes := 64 * 1024 * 1024;
       global_hot_budget_bytes := 1536 * 1024 * 1024 |}
  else if (4 * GIB <=? memory_bytes)%Z then
    {| inline_max_bytes := 12 * 1024 * 1024;
       request_hot_budget_bytes := 40 * 1024 * 1024;
       global_hot_budget_bytes := 768 * 1024 * 1024 |}
  else
    {| inline_max_bytes := DEFAULT_BLOB_INLINE_MAX_BYTES;
       request_hot_budget_bytes := DEFAULT_BLOB_REQUEST_HOT_BUDGET_BYTES;
       global_hot_budget_bytes := DEFAULT_BLOB_GLOBAL_HOT_BUDGET_BYTES |}.

Definition parse_port (raw : string) : option Z :=
  let trimmed := trim raw in
  if is_empty trimmed then None else parse_unsigned u16_max trimmed.

(** [value.and_then(|raw| raw.trim().parse::<u64>().ok())] *)
Definition parse_u64_opt (value : option string) : option Z :=
  value ≫= fun raw => parse_unsigned u64_max (trim raw).

Definition parse_positive_u64_with_default (value : option string) (default_value : Z) : Z :=
  match parse_u64_opt value with
  | Some parsed => if (0 <? parsed)%Z then parsed else default_value
  | None => default_value
  end.

Definition parse_non_negative_u64_with_default (value : option string) (default_value : Z) : Z :=
  match parse_u64_opt value with Some parsed => parsed | None => default_value end.

(** [usize] is 64 bits wide on the targets the program is built for. *)
Definition parse_non_negative_usize_with_default (value : option string) (default_value : Z) : Z :=
  match parse_u64_opt value with Some parsed => parsed | None => default_value end.

Definition parse_jpeg_quality (value : option string) (default_value : Z) : Z :=
  match value ≫= fun raw => parse_unsigned u8_max (trim raw) with
  | Some parsed => if ((1 <=? parsed) && (parsed <=? 100))%Z then parsed else default_value
  | None => default_value
  end.

Definition str_in (s : string) (l : list string) : bool := existsb (String.eqb s) l.

Definition is_disabled_value (raw : string) : bool :=
  str_in (to_ascii_lowercase (trim raw))
    [EmptyString; "0"; "false"; "no"; "n"; "off"; "disable"; "disabled"; "none"].

Definition parse_cache_bytes (value : option string) (default_value : Z) : Z :=
  match trim <$> value with
  | Some raw =>
      if is_disabled_value raw then 0%Z
      else default default_value (parse_unsigned u64_max raw)
  | None => default_value
  end.

Definition parse_wait_timeout_ms (value : option string) (default_value : Z) : Z :=
  match parse_u64_opt value with Some parsed => parsed | None => default_value end.

Definition parse_csv (raw : string) : list string :=
  filter (fun part => is_empty part = false) (trim <$> split_char "," raw).

Definition parse_optional_string_with_disabled (raw : string) : string :=
  if is_disabled_value raw then EmptyString else trim raw.

Definition parse_bool (value : option string) (default_value : bool) : bool :=
  match (fun v => to_ascii_lowercase (trim v)) <$> value with
  | Some v =>
      if str_in v ["1"; "true"; "yes"; "y"; "on"; "enable"; "enabled"] then true
      else if str_in v ["0"; "false"; "no"; "n"; "off"; "disable"; "disabled"; "none"] then false
      else default_value
  | None => default_value
  end.

Definition default_allowed_proxy_domains : list string :=
  ["ai.kefan.cn"; "uguu.se"; ".uguu.se"; ".aitohumanize.com"].

(** [opt.map(|v| v.trim()).filter(|v| !v.is_empty()).unwrap_or(d)] *)
Definition trimmed_or (value : option string) (d : string) : string :=
  match trim <$> value with
  | Some v => if is_empty v then d else v
  | None => d
  end.

(** [opt.map(|v| v.trim().to_string()).unwrap_or_default()] *)
Definition trimmed_or_empty (value : option string) : string :=
  default EmptyString (trim <$> value).

Section with_url.
Context `{UrlLib}.

Definition parse_http_base_url (raw env_name : string) : Result Error string :=
  let trimmed := trim raw in
  if is_empty trimmed then Err (Anyhow (env_name +:+ " is empty")) else
  let? parsed := map_err (fun err => Anyhow ("parse " +:+ env_name +:+ ": " +:+ err))
                   (url_parse trimmed) in
  if negb (scheme_is_http parsed) then
    Err (Anyhow (env_name +:+ " must use http or https"))
  else if is_empty (trim (url_host parsed)) then Err (Anyhow (env_name +:+ " host is empty"))
  else
    let parsed := url_set_fragment None parsed in
    Ok (trim_end_matches "/" (url_to_string parsed)).

Definition normalize_optional_http_base_url (raw : string) : string :=
  if is_disabled_value raw then EmptyString
  else default EmptyString (result_ok (parse_http_base_url raw "PUBLIC_BASE_URL")).

(** The text that [{err}] prints for the errors of [parse_http_base_url]. *)
Definition error_message (e : Error) : string :=
  match e with Anyhow m => m | ExternalError m => m | _ => EmptyString end.

Fixpoint first_blank (fields : list (string * string)) : option string :=
  match fields with
  | [] => None
  | (name, value) :: fields' =>
      if is_empty (trim value) then Some name else first_blank fields'
  end.

(** The fields that the R2 host modes require, with the variables that set them. *)
Definition r2_required (config : Config) : list (string * string) :=
  [("R2_ENDPOINT", r2_endpoint config); ("R2_BUCKET", r2_bucket config);
   ("R2_ACCESS_KEY_ID", r2_access_key_id config);
   ("R2_SECRET_ACCESS_KEY", r2_secret_access_key config);
   ("R2_PUBLIC_BASE_URL", r2_public_base_url config)].

Definition validate (config : Config) : Result Error unit :=
  let mode := image_host_mode config in
  if negb (str_in mode [EmptyString; "legacy"; "r2"; "r2_then_legacy"]) then
    Err (Anyhow ("IMAGE_HOST_MODE must be one of legacy, r2, r2_then_legacy, got " +:+ mode))
  else if str_in mode ["r2"; "r2_then_legacy"] then
    match first_blank (r2_required config) with
    | Some name =>
        Err (Anyhow (name +:+ " is required when IMAGE_HOST_MODE is r2 or r2_then_legacy"))
    | None =>
        let? _ := map_err (fun err => Anyhow ("R2_ENDPOINT is invalid: " +:+ error_message err))
                    (parse_http_base_url (r2_endpoint config) "R2_ENDPOINT") in
        let? _ := parse_http_base_url (r2_public_base_url config) "R2_PUBLIC_BASE_URL" in
        Ok tt
    end
  else Ok tt.

(** The record literal of [from_env_map], from the values the function computes first. *)
Definition config_of_env (env_map : gmap string string) (budgets : BlobBudgetDefaults)
    (port_ : Z) (upstream_base_url_ : string) (upstream_timeout_ms_raw : Z)
    (image_host_mode_ : string) (allowed_proxy_domains_ : list string)
    (image_fetch_timeout_ms_raw : Z) : Config := {|
  port := port_;
  upstream_base_url := upstream_base_url_;
  upstream_api_key := default EmptyString (env_map !! "UPSTREAM_API_KEY");
  upstream_timeout := upstream_timeout_ms_raw;
  upstream_connect_timeout := parse_positive_u64_with_default
    (env_map !! "UPSTREAM_CONNECT_TIMEOUT_MS") DEFAULT_UPSTREAM_CONNECT_TIMEOUT_MS;
  upstream_tcp_keepalive := parse_positive_u64_with_default
    (env_map !! "UPSTREAM_TCP_KEEPALIVE_MS") DEFAULT_UPSTREAM_TCP_KEEPALIVE_MS;
  upstream_pool_idle_timeout := parse_positive_u64_with_default
    (env_map !! "UPSTREAM_POOL_IDLE_TIMEOUT_MS") DEFAULT_UPSTREAM_POOL_IDLE_TIMEOUT_MS;
  image_host_mode := image_host_mode_;
  allowed_proxy_domains := allowed_proxy_domains_;
  public_base_url :=
    default EmptyString (normalize_optional_http_base_url <$> env_map !! "PUBLIC_BASE_URL");
  external_image_proxy_prefix := default EmptyString
    (parse_optional_string_with_disabled <$> env_map !! "EXTERNAL_IMAGE_PROXY_PREFIX");
  slow_log_threshold := parse_non_negative_u64_with_default
    (env_map !! "SLOW_LOG_THRESHOLD_MS") DEFAULT_SLOW_LOG_THRESHOLD_MS;
  proxy_standard_output_urls := parse_bool (env_map !! "PROXY_STANDARD_OUTPUT_URLS") true;
  proxy_special_upstream_urls := parse_bool (env_map !! "PROXY_SPECIAL_UPSTREAM_URLS") true;
  enable_image_compression := parse_bool (env_map !! "ENABLE_IMAGE_COMPRESSION") false;
  enable_request_image_webp_optimization :=
    parse_bool (env_map !! "ENABLE_REQUEST_IMAGE_WEBP_OPTIMIZATION") false;
  image_compression_jpeg_quality := parse_jpeg_quality
    (env_map !! "IMAGE_COMPRESSION_JPEG_QUALITY") DEFAULT_IMAGE_COMPRESSION_JPEG_QUALITY;
  admin_password := default EmptyString
    (parse_optional_string_with_disabled <$> env_map !! "ADMIN_PASSWORD");
  image_fetch_timeout := image_fetch_timeout_ms_raw;
  image_tls_handshake_timeout := parse_positive_u64_with_default
    (env_map !! "IMAGE_TLS_HANDSHAKE_TIMEOUT_MS") DEFAULT_IMAGE_TLS_HANDSHAKE_TIMEOUT_MS;
  image_fetch_insecure_skip_verify :=
    parse_bool (env_map !! "IMAGE_FETCH_INSECURE_SKIP_VERIFY") false;
  image_fetch_external_proxy_domains :=
    default [] (parse_csv <$> env_map !! "IMAGE_FETCH_EXTERNAL_PROXY_DOMAINS");
  inline_data_url_cache_dir := default EmptyString
    (parse_optional_string_with_disabled <$> env_map !! "INLINE_DATA_URL_CACHE_DIR");
  inline_data_url_cache_ttl := parse_non_negative_u64_with_default
    (env_map !! "INLINE_DATA_URL_CACHE_TTL_MS") DEFAULT_INLINE_DATA_URL_CACHE_TTL_MS;
  inline_data_url_cache_max_bytes := parse_non_negative_u64_with_default
    (env_map !! "INLINE_DATA_URL_CACHE_MAX_BYTES") DEFAULT_INLINE_DATA_URL_CACHE_MAX_BYTES;
  inline_data_url_memory_cache_max_bytes := parse_cache_bytes
    (env_map !! "INLINE_DATA_URL_MEMORY_CACHE_MAX_BYTES")
    DEFAULT_INLINE_DATA_URL_MEMORY_CACHE_MAX_BYTES;
  inline_data_url_background_fetch_wait_timeout := parse_wait_timeout_ms
    (env_map !! "INLINE_DATA_URL_BACKGROUND_FETCH_WAIT_TIMEOUT_MS") image_fetch_timeout_ms_raw;
  inline_data_url_background_fetch_total_timeout := parse_non_negative_u64_with_default
    (env_map !! "INLINE_DATA_URL_BACKGROUND_FETCH_TOTAL_TIMEOUT_MS")
    DEFAULT_INLINE_DATA_URL_BACKGROUND_FETCH_TOTAL_TIMEOUT_MS;
  inline_data_url_background_fetch_max_inflight := parse_non_negative_usize_with_default
    (env_map !! "INLINE_DATA_URL_BACKGROUND_FETCH_MAX_INFLIGHT")
    DEFAULT_INLINE_DATA_URL_BACKGROUND_FETCH_MAX_INFLIGHT;
  blob_inline_max_bytes := parse_non_negative_u64_with_default
    (env_map !! "BLOB_INLINE_MAX_BYTES") (inline_max_bytes budgets);
  blob_request_hot_budget_bytes := parse_non_negative_u64_with_default
    (env_map !! "BLOB_REQUEST_HOT_BUDGET_BYTES") (request_hot_budget_bytes budgets);
  blob_global_hot_budget_bytes := parse_non_negative_u64_with_default
    (env_map !! "BLOB_GLOBAL_HOT_BUDGET_BYTES") (global_hot_budget_bytes budgets);
  blob_spill_dir :=
    match parse_optional_string_with_disabled <$> env_map !! "BLOB_SPILL_DIR" with
    | Some value => if is_empty value then DEFAULT_BLOB_SPILL_DIR else value
    | None => DEFAULT_BLOB_SPILL_DIR
    end;
  upload_timeout := parse_positive_u64_with_default
    (env_map !! "UPLOAD_TIMEOUT_MS") DEFAULT_UPLOAD_TIMEOUT_MS;
  upload_tls_handshake_timeout := parse_positive_u64_with_default
    (env_map !! "UPLOAD_TLS_HANDSHAKE_TIMEOUT_MS") DEFAULT_UPLOAD_TLS_HANDSHAKE_TIMEOUT_MS;
  upload_insecure_skip_verify := parse_bool (env_map !! "UPLOAD_INSECURE_SKIP_VERIFY") false;
  legacy_uguu_upload_url := DEFAULT_LEGACY_UGUU_UPLOAD_URL;
  legacy_kefan_upload_url := DEFAULT_LEGACY_KEFAN_UPLOAD_URL;
  r2_endpoint := trimmed_or_empty (env_map !! "R2_ENDPOINT");
  r2_bucket := trimmed_or_empty (env_map !! "R2_BUCKET");
  r2_access_key_id := trimmed_or_empty (env_map !! "R2_ACCESS_KEY_ID");
  r2_secret_access_key := trimmed_or_empty (env_map !! "R2_SECRET_ACCESS_KEY");
  r2_public_base_url := trimmed_or_empty (env_map !! "R2_PUBLIC_BASE_URL");
  r2_object_prefix :=
    match (fun v => trim_matches "/" (trim v)) <$> env_map !! "R2_OBJECT_PREFIX" with
    | Some v => if is_empty v then "images" else v
    | None => "images"
    end;
|}.

Definition from_env_map (env_map : gmap string string) : Result Error Config :=
  let blob_budget_defaults :=
    blob_budget_defaults_for_memory
      (parse_non_negative_u64_with_default (env_map !! "INSTANCE_MEMORY_BYTES")
         DEFAULT_INSTANCE_MEMORY_BYTES) in
  let port_ := default DEFAULT_PORT (env_map !! "PORT" ≫= parse_port) in
  let upstream_base_url_ :=
    trimmed_or (env_map !! "UPSTREAM_BASE_URL") DEFAULT_UPSTREAM_BASE_URL in
  let upstream_timeout_ms_raw :=
    parse_positive_u64_with_default (env_map !! "UPSTREAM_TIMEOUT_MS")
      DEFAULT_UPSTREAM_TIMEOUT_MS in
  let image_host_mode_ :=
    to_ascii_lowercase (trimmed_or (env_map !! "IMAGE_HOST_MODE") "legacy") in
  let allowed_proxy_domains_ :=
    match parse_csv <$> env_map !! "ALLOWED_PROXY_DOMAINS" with
    | Some (d :: ds) => d :: ds
    | _ => default_allowed_proxy_domains
    end in
  let image_fetch_timeout_ms_raw :=
    parse_positive_u64_with_default (env_map !! "IMAGE_FETCH_TIMEOUT_MS")
      DEFAULT_IMAGE_FETCH_TIMEOUT_MS in
  let config :=
    config_of_env env_map blob_budget_defaults port_ upstream_base_url_ upstream_timeout_ms_raw
      image_host_mode_ allowed_proxy_domains_ image_fetch_timeout_ms_raw in
  let? _ := validate config in
  Ok config.

Definition resolved_external_image_proxy_prefix (self : Config) : string :=
  let external_prefix := trim (external_image_proxy_prefix self) in
  if negb (is_empty external_prefix) then external_prefix else
  let public_base_url_ := trim_end_matches "/" (trim (public_base_url self)) in
  if is_empty public_base_url_ then EmptyString
  else public_base_url_ +:+ "/proxy/image?url=".
End with_url.

(** The configuration of the program's own tests (src/rust-sync-proxy/src/lib.rs). *)
Definition test_config : Config := {|
  port := 8787;
  upstream_base_url := "https://magic666.top";
  upstream_api_key := "test-upstream-key";
  upstream_timeout := 600000;
  upstream_connect_timeout := 10000;
  upstream_tcp_keepalive := 30000;
  upstream_pool_idle_timeout := 15000;
  image_host_mode := "legacy";
  allowed_proxy_domains := ["ai.kefan.cn"; "uguu.se"; ".uguu.se"; ".aitohumanize.com"];
  public_base_url := EmptyString;
  external_image_proxy_prefix := EmptyString;
  slow_log_threshold := 100000;
  proxy_standard_output_urls := true;
  proxy_special_upstream_urls := true;
  enable_image_compression := false;
  enable_request_image_webp_optimization := false;
  image_compression_jpeg_quality := 97;
  admin_password := EmptyString;
  image_fetch_timeout := 20000;
  image_tls_handshake_timeout := 15000;
  image_fetch_insecure_skip_verify := false;
  image_fetch_external_proxy_domains := [];
  inline_data_url_cache_dir := EmptyString;
  inline_data_url_cache_ttl := 3600000;
  inline_data_url_cache_max_bytes := Z.shiftl 1 30;
  inline_data_url_memory_cache_max_bytes := 100 * 1024 * 1024;
  inline_data_url_background_fetch_wait_timeout := 20000;
  inline_data_url_background_fetch_total_timeout := 90000;
  inline_data_url_background_fetch_max_inflight := 128;
  blob_inline_max_bytes := 8 * 1024 * 1024;
  blob_request_hot_budget_bytes := 24 * 1024 * 1024;
  blob_global_hot_budget_bytes := 384 * 1024 * 1024;
  blob_spill_dir := "/tmp/rust-sync-proxy-blobs";
  upload_timeout := 10000;
  upload_tls_handshake_timeout := 10000;
  upload_insecure_skip_verify := false;
  legacy_uguu_upload_url := "https://uguu.se/upload";
  legacy_kefan_upload_url := "https://ai.kefan.cn/api/upload/local";
  r2_endpoint := EmptyString;
  r2_bucket := EmptyString;
  r2_access_key_id := EmptyString;
  r2_secret_access_key := EmptyString;
  r2_public_base_url := EmptyString;
  r2_object_prefix := "images";
|}.

(** * Well-formed configurations *)

Definition positive_u64 (z : Z) : Prop := (0 < z <= u64_max)%Z.

(** The upload settings are complete for the host mode. *)
Definition host_mode_ok `{UrlLib} (c : Config) : Prop :=
  image_host_mode c = "legacy" \/
  (image_host_mode c = "r2" \/ image_host_mode c = "r2_then_legacy") /\
  Forall (fun f => is_empty (trim f.2) = false) (r2_required c) /\
  (exists u, parse_http_base_url (r2_endpoint c) "R2_ENDPOINT" = Ok u) /\
  (exists u, parse_http_base_url (r2_public_base_url c) "R2_PUBLIC_BASE_URL" = Ok u).

Record config_ok `{UrlLib} (c : Config) : Prop := {
  ok_port : (0 <= port c <= u16_max)%Z;
  ok_base_url : upstream_base_url c <> EmptyString;
  ok_positive : Forall positive_u64
    [upstream_timeout c; upstream_connect_timeout c; upstream_tcp_keepalive c;
     upstream_pool_idle_timeout c; image_fetch_timeout c; image_tls_handshake_timeout c;
     upload_timeout c; upload_tls_handshake_timeout c];
  ok_u64 : Forall in_u64
    [slow_log_threshold c; inline_data_url_cache_ttl c; inline_data_url_cache_max_bytes c;
     inline_data_url_memory_cache_max_bytes c; inline_data_url_background_fetch_wait_timeout c;
     inline_data_url_background_fetch_total_timeout c;
     inline_data_url_background_fetch_max_inflight c; blob_inline_max_bytes c;
     blob_request_hot_budget_bytes c; blob_global_hot_budget_bytes c];
  ok_quality : (1 <= image_compression_jpeg_quality c <= 100)%Z;
  ok_domains : allowed_proxy_domains c <> [];
  ok_spill_dir : blob_spill_dir c <> EmptyString;
  ok_object_prefix : r2_object_prefix c <> EmptyString;
  ok_host_mode : host_mode_ok c;
}.

(** * Lemmas *)

Lemma parse_u64_opt_range v z : parse_u64_opt v = Some z -> in_u64 z.
Proof.
  destruct v as [raw|]; [|done]. apply parse_unsigned_bounds. unfold u64_max. lia.
Qed.

Lemma parse_positive_range v d : positive_u64 d -> positive_u64 (parse_positive_u64_with_default v d).
Proof.
  intros Hd. unfold parse_positive_u64_with_default.
  destruct (parse_u64_opt v) as [z|] eqn:E; [|done].
  apply parse_u64_opt_range in E. destruct (Z.ltb_spec 0 z); [|done].
  unfold positive_u64, in_u64 in *. lia.
Qed.

Lemma parse_positive_in_u64 v d : positive_u64 d -> in_u64 (parse_positive_u64_with_default v d).
Proof.
  intros Hd. pose proof (parse_positive_range v d Hd). unfold positive_u64, in_u64 in *. lia.
Qed.

Lemma blob_budget_defaults_range m :
  let b := blob_budget_defaults_for_memory m in
  in_u64 (inline_max_bytes b) /\ in_u64 (request_hot_budget_bytes b) /\
  in_u64 (global_hot_budget_bytes b).
Proof. simpl. unfold blob_budget_defaults_for_memory. repeat case_match; by vm_compute. Qed.

Lemma parse_non_negative_range v d : in_u64 d -> in_u64 (parse_non_negative_u64_with_default v d).
Proof.
  intros Hd. unfold parse_non_negative_u64_with_default.
  destruct (parse_u64_opt v) eqn:E; [by eapply parse_u64_opt_range|done].
Qed.

Lemma parse_cache_bytes_range v d : in_u64 d -> in_u64 (parse_cache_bytes v d).
Proof.
  intros Hd. unfold parse_cache_bytes. destruct (trim <$> v) as [raw|]; [|done].
  case_match; [by vm_compute|].
  destruct (parse_unsigned u64_max raw) eqn:E; [|done].
  eapply parse_unsigned_bounds; [|done]. by unfold u64_max.
Qed.

Lemma parse_jpeg_quality_range v d :
  (1 <= d <= 100)%Z -> (1 <= parse_jpeg_quality v d <= 100)%Z.
Proof.
  intros Hd. unfold parse_jpeg_quality. case_match; [|done].
  case_match eqn:E; [|done]. apply andb_true_iff in E. lia.
Qed.

Lemma parse_port_range v : (0 <= default DEFAULT_PORT (v ≫= parse_port) <= u16_max)%Z.
Proof.
  destruct v as [raw|]; [|by vm_compute]. simpl. unfold parse_port.
  case_match; [by vm_compute|]. destruct (parse_unsigned u16_max (trim raw)) eqn:E.
  - eapply parse_unsigned_bounds; [|done]. by unfold u16_max.
  - by vm_compute.
Qed.

Lemma is_empty_false s : is_empty s = false <-> s <> EmptyString.
Proof. by destruct s. Qed.

Lemma trimmed_or_nonempty v d : d <> EmptyString -> trimmed_or v d <> EmptyString.
Proof.
  intros Hd. unfold trimmed_or. case_match; [|done]. case_match eqn:E; [done|].
  by apply is_empty_false.
Qed.

Lemma str_in_true s l : str_in s l = true <-> s ∈ l.
Proof.
  unfold str_in. rewrite existsb_exists. setoid_rewrite String.eqb_eq.
  setoid_rewrite <- list_elem_of_In. naive_solver.
Qed.

Section with_url.
Context `{UrlLib}.

Lemma first_blank_None fields :
  first_blank fields = None <-> Forall (fun f => is_empty (trim f.2) = false) fields.
Proof.
  induction fields as [|[name value] fields IH]; simpl; [by split|].
  rewrite Forall_cons. simpl. destruct (is_empty (trim value)); naive_solver.
Qed.

(** Validation accepts a configuration exactly when its host mode is complete. *)
Lemma validate_spec c :
  image_host_mode c <> EmptyString -> (validate c = Ok tt <-> host_mode_ok c).
Proof.
  intros Hne. unfold validate, host_mode_ok.
  set (mode := image_host_mode c) in *.
  destruct (str_in mode [EmptyString; "legacy"; "r2"; "r2_then_legacy"]) eqn:E1; cbn [negb].
  2:{ split; [done|]. intros Hm. exfalso.
      assert (str_in mode [EmptyString; "legacy"; "r2"; "r2_then_legacy"] = true); [|congruence].
      apply str_in_true. set_solver. }
  apply str_in_true in E1.
  destruct (str_in mode ["r2"; "r2_then_legacy"]) eqn:E2.
  - apply str_in_true in E2.
    assert (mode <> "legacy") by (intros ->; set_solver).
    destruct (first_blank _) as [name|] eqn:Hb.
    + split; [done|]. intros [?|(_ & Hall%first_blank_None & _)]; congruence.
    + apply first_blank_None in Hb.
      destruct (parse_http_base_url (r2_endpoint c) _) as [u|e]; cbn [map_err and_then].
      * destruct (parse_http_base_url (r2_public_base_url c) _); cbn [and_then]; set_solver.
      * naive_solver.
  - assert (mode = "legacy") as ->; [|naive_solver].
    assert (Hn : mode ∉ ["r2"; "r2_then_legacy"]).
    { rewrite <- str_in_true. congruence. }
    set_solver.
Qed.

Lemma validate_unit c u : validate c = Ok u -> validate c = Ok tt.
Proof. by destruct u. Qed.
End with_url.

Lemma to_ascii_lowercase_nonempty s : s <> EmptyString -> to_ascii_lowercase s <> EmptyString.
Proof. by destruct s. Qed.

#[export] Hint Resolve parse_positive_range parse_non_negative_range parse_cache_bytes_range
  parse_jpeg_quality_range trimmed_or_nonempty to_ascii_lowercase_nonempty : proxy.

(** Closes a range goal about a constant. *)
Ltac solve_const := by vm_compute.

(** What is accepted has passed the validation, and the parsers keep the ranges. *)
Lemma from_env_map_run `{UrlLib} (env_map : gmap string string) (c : Config) :
  from_env_map env_map = Ok c -> config_ok c.
Proof.
  unfold from_env_map. intros Hok. apply and_then_ok_inv in Hok as (u & Hv & [= <-]).
  apply validate_unit, validate_spec in Hv; [|simpl; auto with proxy].
  split; try exact Hv; simpl.
  - apply parse_port_range.
  - auto with proxy.
  - repeat constructor; apply parse_positive_range; solve_const.
  - destruct (blob_budget_defaults_range (parse_non_negative_u64_with_default
      (env_map !! "INSTANCE_MEMORY_BYTES") DEFAULT_INSTANCE_MEMORY_BYTES)) as (Hb1 & Hb2 & Hb3).
    repeat (apply Forall_cons; split); [| | | | | | | | | |apply Forall_nil_2];
      [apply parse_non_negative_range|apply parse_non_negative_range|apply parse_non_negative_range
      |apply parse_cache_bytes_range|apply parse_non_negative_range..];
      [solve_const|solve_const|solve_const|solve_const| | | | | |].
    + apply parse_positive_in_u64. solve_const.
    + solve_const.
    + solve_const.
    + exact Hb1.
    + exact Hb2.
    + exact Hb3.
  - apply parse_jpeg_quality_range. solve_const.
  - by repeat case_match.
  - repeat case_match; try done; by apply is_empty_false.
  - repeat case_match; try done; by apply is_empty_false.
Qed.

(** * Theorems *)

(** C35: every configuration that [from_env_map] accepts is well formed, whatever the environment
    holds: the port fits 16 bits, the timeouts that must be positive are and all sizes fit 64 bits,
    the JPEG quality lies in 1..100, the domain list, spill directory and object prefix are never
    empty, and an R2 host mode comes with complete, parseable R2 settings. *)
Theorem from_env_map_wf `{UrlLib} (env_map : gmap string string) (c : Config) :
  from_env_map env_map = Ok c -> config_ok c.
Proof. apply from_env_map_run. Qed.

Lemma from_env_map_wf_witness :
  exists c, from_env_map
    {[ "PORT" := " 9000 "; "IMAGE_HOST_MODE" := "LEGACY" ]} = Ok c /\ config_ok c.
Proof.
  eexists. split; [vm_compute; reflexivity|].
  eapply (from_env_map_wf {[ "PORT" := " 9000 "; "IMAGE_HOST_MODE" := "LEGACY" ]}).
  vm_compute. reflexivity.
Defined.

(** Start-up fails only on the upload settings: [from_env_map] succeeds exactly when the
    (trimmed, lower-cased) host mode is legacy, or is an R2 mode whose five settings are all
    present with parseable URLs; no other malformed variable can make it fail. *)
Theorem from_env_map_succeeds_iff `{UrlLib} (env_map : gmap string string) :
  let mode := to_ascii_lowercase (trimmed_or (env_map !! "IMAGE_HOST_MODE") "legacy") in
  let required := (fun name => trimmed_or_empty (env_map !! name)) <$>
    ["R2_ENDPOINT"; "R2_BUCKET"; "R2_ACCESS_KEY_ID"; "R2_SECRET_ACCESS_KEY";
     "R2_PUBLIC_BASE_URL"] in
  (exists c, from_env_map env_map = Ok c) <->
  mode = "legacy" \/
  (mode = "r2" \/ mode = "r2_then_legacy") /\
  Forall (fun v => is_empty (trim v) = false) required /\
  (exists u, parse_http_base_url (trimmed_or_empty (env_map !! "R2_ENDPOINT")) "R2_ENDPOINT"
     = Ok u) /\
  (exists u, parse_http_base_url (trimmed_or_empty (env_map !! "R2_PUBLIC_BASE_URL"))
     "R2_PUBLIC_BASE_URL" = Ok u).
Proof.
  intros mode required.
  assert (Hr : forall P : string -> Prop, Forall P required <->
    Forall (fun f : string * string => P f.2)
      (zip ["R2_ENDPOINT"; "R2_BUCKET"; "R2_ACCESS_KEY_ID"; "R2_SECRET_ACCESS_KEY";
            "R2_PUBLIC_BASE_URL"] required)).
  { intros P. unfold required. simpl. by rewrite !Forall_cons, !Forall_nil. }
  rewrite Hr. unfold from_env_map. cbv zeta.
  match goal with |- context [validate ?c] => pose proof (validate_spec c) as Hs end.
  etransitivity; [|apply Hs; simpl; auto with proxy].
  destruct (validate _) as [[]|e]; cbn [and_then]; [naive_solver|].
  split; [intros [? [=]]|done].
Qed.

(** The default blob budgets grow with the instance's memory and are always ordered: one inline
    blob fits the request budget, which fits the global budget. *)
Theorem blob_budget_defaults_ordered (m1 m2 : Z) :
  let b1 := blob_budget_defaults_for_memory m1 in
  let b2 := blob_budget_defaults_for_memory m2 in
  (0 < inline_max_bytes b1 <= request_hot_budget_bytes b1)%Z /\
  (request_hot_budget_bytes b1 <= global_hot_budget_bytes b1)%Z /\
  ((m1 <= m2)%Z ->
   (inline_max_bytes b1 <= inline_max_bytes b2)%Z /\
   (request_hot_budget_bytes b1 <= request_hot_budget_bytes b2)%Z /\
   (global_hot_budget_bytes b1 <= global_hot_budget_bytes b2)%Z).
Proof.
  unfold blob_budget_defaults_for_memory, DEFAULT_BLOB_INLINE_MAX_BYTES,
    DEFAULT_BLOB_REQUEST_HOT_BUDGET_BYTES, DEFAULT_BLOB_GLOBAL_HOT_BUDGET_BYTES.
  destruct (Z.leb_spec (8 * (1024 * 1024 * 1024)) m1), (Z.leb_spec (4 * (1024 * 1024 * 1024)) m1),
    (Z.leb_spec (8 * (1024 * 1024 * 1024)) m2), (Z.leb_spec (4 * (1024 * 1024 * 1024)) m2);
    cbn [inline_max_bytes request_hot_budget_bytes global_hot_budget_bytes]; lia.
Qed.

Lemma blob_budget_defaults_ordered_witness :
  (inline_max_bytes (blob_budget_defaults_for_memory 0) <=
   inline_max_bytes (blob_budget_defaults_for_memory (16 * 1024 * 1024 * 1024)))%Z.
Proof.
  destruct (blob_budget_defaults_ordered 0 (16 * 1024 * 1024 * 1024)) as (_ & _ & Hm).
  apply Hm. lia.
Defined.
