(* ===== verification/Upstream.v ===== *)
(** Choice of the upstream (src/rust-sync-proxy/src/upstream.rs): the credentials and base URL a
    request carries in its headers, the two-upstream token selected by image size, and the model
    path of the aiapidev upstream. *)

From S2P Require Import Prelude RustStr Json Ext Samples.
From stdpp Require Import options.

(** * Data *)

Record ResolvedUpstream := mkResolvedUpstream {
  base_url : string;
  api_key : string;
}.

Inductive ResolveUpstreamErrorKind :=
| MissingApiKey
| InvalidOverride.

Record ResolveUpstreamError := mkResolveUpstreamError {
  kind : ResolveUpstreamErrorKind;
  message : string;
}.

Definition missing_api_key : ResolveUpstreamError :=
  mkResolveUpstreamError MissingApiKey "Missing upstream apiKey".

Definition invalid_override (message : string) : ResolveUpstreamError :=
  mkResolveUpstreamError InvalidOverride message.

Definition status_code (e : ResolveUpstreamError) : Z :=
  match kind e with MissingApiKey => 401 | InvalidOverride => 400 end.

Record UpstreamOverride := mkUpstreamOverride {
  override_base_url : option string;
  override_api_key : option string;
}.

(** * Operations *)

(** One step of the loop over the headers: a later header of the same name wins. *)
Definition scan_header (acc : option string * option string) (header : string * string)
    : option string * option string :=
  let '(x_goog_api_key, authorization) := acc in
  let '(key, value) := header in
  let value := trim value in
  if eq_ignore_ascii_case key "x-goog-api-key" && negb (is_empty value) then
    (Some value, authorization)
  else if eq_ignore_ascii_case key "authorization" && negb (is_empty value) then
    (x_goog_api_key, Some value)
  else (x_goog_api_key, authorization).

(** [x_goog_api_key.or_else(|| authorization.and_then(strip "Bearer "))] *)
Definition request_token (headers : list (string * string)) : option string :=
  let '(x_goog_api_key, authorization) := foldl scan_header (None, None) headers in
  match x_goog_api_key with
  | Some key => Some key
  | None => authorization ≫= strip_prefix "Bearer "
  end.

Definition request_targets_4k (request_body : Value) : bool :=
  let target :=
    match pointer "/generationConfig/imageConfig/imageSize" request_body with
    | Some v => Some v
    | None => pointer "/generation_config/image_config/image_size" request_body
    end in
  match target ≫= as_str with
  | Some value => eq_ignore_ascii_case (trim value) "4k"
  | None => false
  end.

Section with_url.
Context `{UrlLib}.

Definition validate_http_base_url (raw : string) : Result ResolveUpstreamError unit :=
  let? parsed := map_err invalid_override (url_parse raw) in
  if negb (scheme_is_http parsed) then
    Err (invalid_override "custom baseUrl must use http or https")
  else if is_empty (url_host parsed) then Err (invalid_override "custom baseUrl host is empty")
  else Ok tt.

Definition parse_single_upstream_token (token : string)
    : Result ResolveUpstreamError UpstreamOverride :=
  match split_once "|" token with
  | Some (custom_base, custom_key) =>
      let custom_base := trim custom_base in
      let custom_key := trim custom_key in
      let? base :=
        if is_empty custom_base then Ok None
        else let? _ := validate_http_base_url custom_base in Ok (Some custom_base) in
      Ok (mkUpstreamOverride base (if is_empty custom_key then None else Some custom_key))
  | None => Ok (mkUpstreamOverride None (Some (trim token)))
  end.

Definition parse_strict_upstream_pair (token : string)
    : Result ResolveUpstreamError UpstreamOverride :=
  match split_once "|" token with
  | None =>
      Err (invalid_override "invalid dual upstream token: each group must be <baseUrl>|<apiKey>")
  | Some (custom_base, custom_key) =>
      let custom_base := trim custom_base in
      let custom_key := trim custom_key in
      if is_empty custom_base || is_empty custom_key then
        Err (invalid_override
               "invalid dual upstream token: baseUrl and apiKey must both be non-empty")
      else
        let? _ := validate_http_base_url custom_base in
        Ok (mkUpstreamOverride (Some custom_base) (Some custom_key))
  end.

Definition parse_dual_upstream_token (token : string) (request_body : Value)
    : Result ResolveUpstreamError UpstreamOverride :=
  let parts := filter (fun part => is_empty part = false) (trim <$> split_char "," token) in
  match parts with
  | [part0; part1] =>
      let? first := parse_strict_upstream_pair part0 in
      let? second := parse_strict_upstream_pair part1 in
      if request_targets_4k request_body then Ok second else Ok first
  | _ =>
      Err (invalid_override
             "invalid dual upstream token: expected exactly two <baseUrl>|<apiKey> groups")
  end.

Definition resolve_upstream_for_request (headers : list (string * string)) (request_body : Value)
    (default_base_url default_api_key : string)
    : Result ResolveUpstreamError ResolvedUpstream :=
  let token := request_token headers in
  let base_url0 := trim default_base_url in
  let api_key0 := trim default_api_key in
  let? '(base_url, api_key) :=
    match token with
    | Some token =>
        let? override_upstream :=
          if contains_char "," token then parse_dual_upstream_token token request_body
          else parse_single_upstream_token token in
        Ok (default base_url0 (override_base_url override_upstream),
            default api_key0 (override_api_key override_upstream))
    | None => Ok (base_url0, api_key0)
    end in
  if is_empty api_key then Err missing_api_key
  else Ok (mkResolvedUpstream base_url api_key).

Definition resolve_upstream (headers : list (string * string))
    (default_base_url default_api_key : string)
    : Result ResolveUpstreamError ResolvedUpstream :=
  resolve_upstream_for_request headers Null default_base_url default_api_key.

(** Headers whose value is not text are skipped. *)
Definition header_pairs `{HttpLib} (headers : HeaderMap) : list (string * string) :=
  omap (fun h : string * bytes => (fun text => (h.1, text)) <$> header_to_str h.2) headers.

Definition resolve_upstream_from_header_map `{HttpLib} (headers : HeaderMap)
    (default_base_url default_api_key : string)
    : Result ResolveUpstreamError ResolvedUpstream :=
  resolve_upstream (header_pairs headers) default_base_url default_api_key.

Definition resolve_upstream_for_request_from_header_map `{HttpLib} (headers : HeaderMap)
    (request_body : Value) (default_base_url default_api_key : string)
    : Result ResolveUpstreamError ResolvedUpstream :=
  resolve_upstream_for_request (header_pairs headers) request_body
    default_base_url default_api_key.

Definition is_aiapidev_base_url (raw : string) : bool :=
  match url_parse raw with
  | Err _ => false
  | Ok parsed =>
      match url_host_str parsed with
      | Some host => String.eqb host "www.aiapidev.com" || String.eqb host "aiapidev.com"
      | None => false
      end
  end.
End with_url.

Definition mapped_model (model : string) : string :=
  if String.eqb model "gemini-3-pro-image-preview" then "nanobananapro"
  else if String.eqb model "gemini-3.1-flash-image-preview" then "nanobanana2"
  else model.

Definition rewrite_aiapidev_model_path (path : string) : string :=
  match strip_prefix "/v1beta/models/" path with
  | None => path
  | Some model_part =>
      match split_once ":generateContent" model_part with
      | None => path
      | Some (model, suffix) =>
          "/v1beta/models/" +:+ mapped_model model +:+ ":generateContent" +:+ suffix
      end
  end.

(** * Lemmas *)

Section lemmas.
Context `{UrlLib}.

Lemma parse_single_base token o b :
  parse_single_upstream_token token = Ok o -> override_base_url o = Some b ->
  validate_http_base_url b = Ok tt.
Proof.
  unfold parse_single_upstream_token. destruct (split_once _ token) as [[l r]|].
  - intros (base & Hb & [= <-])%and_then_ok_inv. simpl. intros ->.
    destruct (is_empty (trim l)); [done|].
    apply and_then_ok_inv in Hb as ([] & Hv & [= <-]). done.
  - by intros [= <-].
Qed.

Lemma parse_strict_pair token o :
  parse_strict_upstream_pair token = Ok o ->
  exists b k, o = mkUpstreamOverride (Some b) (Some k) /\
    b <> EmptyString /\ k <> EmptyString /\ validate_http_base_url b = Ok tt.
Proof.
  unfold parse_strict_upstream_pair. destruct (split_once _ token) as [[l r]|]; [|done].
  destruct (trim l) as [|bc bs] eqn:Eb; [done|].
  destruct (trim r) as [|kc ks] eqn:Ek; [done|].
  intros ([] & Hv & [= <-])%and_then_ok_inv. by eexists _, _.
Qed.

Lemma parse_dual_strict token body o :
  parse_dual_upstream_token token body = Ok o ->
  exists part, parse_strict_upstream_pair part = Ok o.
Proof.
  unfold parse_dual_upstream_token.
  destruct (filter _ _) as [|p0 [|p1 [|]]]; try done.
  intros (first & H1 & (second & H2 & Hsel)%and_then_ok_inv)%and_then_ok_inv.
  destruct (request_targets_4k body); injection Hsel as <-; eauto.
Qed.

Lemma scan_header_blank acc key value :
  trim value = EmptyString -> scan_header acc (key, value) = acc.
Proof. destruct acc. simpl. intros ->. by rewrite !andb_false_r. Qed.
End lemmas.

(** * Theorems *)

(** C34: whatever the headers say, a resolved upstream has a non-empty API key, and its base URL is
    the (trimmed) configured one or a URL the caller supplied that parses, uses http or https and
    has a host. *)
Theorem resolve_upstream_safe `{UrlLib} headers body dbase dkey r :
  resolve_upstream_for_request headers body dbase dkey = Ok r ->
  api_key r <> EmptyString /\
  (base_url r = trim dbase \/ validate_http_base_url (base_url r) = Ok tt).
Proof.
  unfold resolve_upstream_for_request. intros ([b k] & Ht & Hk)%and_then_ok_inv.
  destruct (is_empty k) eqn:Ek; [done|]. injection Hk as <-. simpl.
  split; [by destruct k|].
  destruct (request_token headers) as [token|]; [|injection Ht as <- <-; by left].
  apply and_then_ok_inv in Ht as (o & Ho & [= <- <-]).
  destruct (override_base_url o) as [b|] eqn:Eb; simpl; [right|by left].
  destruct (contains_char "," token).
  - apply parse_dual_strict in Ho as [part Ho].
    apply parse_strict_pair in Ho as (b' & k' & -> & _ & _ & Hv).
    by injection Eb as ->.
  - by eapply parse_single_base.
Qed.

Lemma resolve_upstream_safe_witness :
  let r := mkResolvedUpstream "https://gw.example.com" "k2" in
  resolve_upstream_for_request [("Authorization", " Bearer https://gw.example.com|k2 ")] Null
    "https://magic666.top" "env" = Ok r /\ api_key r <> EmptyString.
Proof.
  intros r. split; [reflexivity|].
  apply (resolve_upstream_safe [("Authorization", " Bearer https://gw.example.com|k2 ")]
    Null "https://magic666.top" "env" r). reflexivity.
Defined.

(** C?: resolution without any credential: when no header carries a usable token, the configured
    base URL and key are used, and a blank configured key is a 401. *)
Theorem resolve_upstream_default `{UrlLib} headers body dbase dkey :
  request_token headers = None ->
  resolve_upstream_for_request headers body dbase dkey =
  (if is_empty (trim dkey) then Err missing_api_key
   else Ok (mkResolvedUpstream (trim dbase) (trim dkey))) /\
  (is_empty (trim dkey) = true -> exists e,
     resolve_upstream_for_request headers body dbase dkey = Err e /\ status_code e = 401%Z).
Proof.
  intros Ht. unfold resolve_upstream_for_request. rewrite Ht. cbn [and_then].
  split; [done|]. intros ->. by eexists.
Qed.

Lemma resolve_upstream_default_witness :
  resolve_upstream_for_request [("x-goog-api-key", "   "); ("authorization", "Basic abc")] Null
    " https://magic666.top " " env " = Ok (mkResolvedUpstream "https://magic666.top" "env").
Proof.
  exact (proj1 (resolve_upstream_default [("x-goog-api-key", "   "); ("authorization", "Basic abc")]
    Null " https://magic666.top " " env " eq_refl)).
Defined.

(** A token with a comma is accepted only as exactly two complete groups, both validated, and
    selects the second group when the body asks for a 4k image and the first otherwise. *)
Theorem dual_upstream_selects `{UrlLib} token body o :
  parse_dual_upstream_token token body = Ok o <->
  exists part0 part1 o0 o1,
    filter (fun part => is_empty part = false) (trim <$> split_char "," token) = [part0; part1] /\
    parse_strict_upstream_pair part0 = Ok o0 /\ parse_strict_upstream_pair part1 = Ok o1 /\
    o = if request_targets_4k body then o1 else o0.
Proof.
  unfold parse_dual_upstream_token. split.
  - destruct (filter _ _) as [|p0 [|p1 [|]]]; try done.
    intros (o0 & H0 & (o1 & H1 & Hsel)%and_then_ok_inv)%and_then_ok_inv.
    eexists p0, p1, o0, o1. repeat split; try done.
    by destruct (request_targets_4k body); injection Hsel as <-.
  - intros (p0 & p1 & o0 & o1 & -> & -> & -> & ->). cbn [and_then].
    by destruct (request_targets_4k body).
Qed.

(** The aiapidev path rewrite maps the model segment of a generateContent path, keeps the rest
    of the path, is the identity on every other path, and is idempotent. *)
Theorem rewrite_aiapidev_model_path_spec path :
  (forall model suffix,
     strip_prefix "/v1beta/models/" path ≫= split_once ":generateContent" = Some (model, suffix) ->
     path = "/v1beta/models/" +:+ model +:+ ":generateContent" +:+ suffix /\
     rewrite_aiapidev_model_path path =
       "/v1beta/models/" +:+ mapped_model model +:+ ":generateContent" +:+ suffix) /\
  (strip_prefix "/v1beta/models/" path ≫= split_once ":generateContent" = None ->
   rewrite_aiapidev_model_path path = path) /\
  rewrite_aiapidev_model_path (rewrite_aiapidev_model_path path) =
  rewrite_aiapidev_model_path path.
Proof.
  unfold rewrite_aiapidev_model_path.
  destruct (strip_prefix "/v1beta/models/" path) as [part|] eqn:Es; simpl.
  2:{ by rewrite Es. }
  destruct (split_once ":generateContent" part) as [[model suffix]|] eqn:Eo.
  2:{ by rewrite Es, Eo. }
  apply strip_prefix_Some in Es as ->. pose proof (split_once_Some _ _ _ _ Eo) as ->.
  split; [by intros ? ? [= -> ->]|]. split; [done|].
  rewrite strip_prefix_app. unfold mapped_model.
  destruct (String.eqb_spec model "gemini-3-pro-image-preview") as [->|H1]; [done|].
  destruct (String.eqb_spec model "gemini-3.1-flash-image-preview") as [->|H2]; [done|].
  rewrite Eo. apply String.eqb_neq in H1 as ->. by apply String.eqb_neq in H2 as ->.
Qed.

Lemma rewrite_aiapidev_model_path_witness :
  rewrite_aiapidev_model_path "/v1beta/models/gemini-3-pro-image-preview:generateContent"
  = "/v1beta/models/nanobananapro:generateContent".
Proof.
  exact (proj2 (proj1 (rewrite_aiapidev_model_path_spec
    "/v1beta/models/gemini-3-pro-image-preview:generateContent")
    "gemini-3-pro-image-preview" EmptyString eq_refl)).
Defined.
