(* ===== verification/ImageIo.v ===== *)
(** Images (src/rust-sync-proxy/src/image_io.rs): the download with its size and target checks,
    the SSRF guard over IP literals, MIME types, and the two re-encodings that are kept only when
    they shrink the image. *)

From S2P Require Import Prelude RustStr Json Ext Samples.
From stdpp Require Import options.

(** * Data *)

Definition DEFAULT_MAX_IMAGE_BYTES : Z := 35 * 1024 * 1024.
Definition REQUEST_MAX_IMAGE_BYTES : Z := 20 * 1024 * 1024.
Definition REQUEST_PNG_WEBP_THRESHOLD_BYTES : Z := 10 * 1024 * 1024.
Definition REQUEST_PNG_WEBP_OPTIMIZATION_TIMEOUT : Z := 15000.
Definition PNG_COMPRESSION_THRESHOLD_BYTES : Z := 15 * 1024 * 1024.
Definition DEFAULT_JPEG_QUALITY : Z := 97.

Record FetchedInlineData := mkFetchedInlineData {
  fetched_mime_type : string;
  fetched_bytes : bytes;
}.

Record OptimizedImage := mkOptimizedImage {
  opt_mime_type : string;
  opt_bytes : bytes;
}.

Definition enforce_max_size (actual limit : Z) : Result Error unit :=
  if (limit <? actual)%Z
  then Err (Anyhow ("image too large: " +:+ fmt_Z actual +:+ " > " +:+ fmt_Z limit))
  else Ok tt.

Definition enforce_max_size_u64 (actual limit : Z) : Result Error unit :=
  if (limit <? actual)%Z
  then Err (Anyhow ("image too large: " +:+ fmt_Z actual +:+ " > " +:+ fmt_Z limit))
  else Ok tt.

(** * Host names *)

Definition hostname_matches_domain_patterns (hostname : string) (patterns : list string) : bool :=
  let hostname := to_ascii_lowercase (trim hostname) in
  if is_empty hostname then false else
  existsb (fun pattern =>
    let pattern := to_ascii_lowercase (trim pattern) in
    if is_empty pattern then false else
    match strip_prefix "." pattern with
    | Some suffix => String.eqb hostname suffix || ends_with hostname pattern
    | None => String.eqb hostname pattern
    end) patterns.

(** * [str::parse::<IpAddr>] of the standard library

    A reader takes a prefix of the text and returns the rest. *)
Definition Reader (A : Type) := string -> option (A * string).

Definition digit_in_radix (radix : Z) (a : ascii) : option Z :=
  let n := Z.of_N (N_of_ascii a) in
  if byte_between a 48 57 then
    (if (n - 48 <? radix)%Z then Some (n - 48)%Z else None)
  else if (radix =? 16)%Z && byte_between a 97 102 then Some (n - 87)%Z
  else if (radix =? 16)%Z && byte_between a 65 70 then Some (n - 55)%Z
  else None.

(** The digits at the start of the text: their value, their number and the rest. *)
Fixpoint read_digits (radix acc : Z) (count : nat) (s : string) : Z * nat * string :=
  match s with
  | String a s' =>
      match digit_in_radix radix a with
      | Some d => read_digits radix (acc * radix + d)%Z (S count) s'
      | None => (acc, count, s)
      end
  | EmptyString => (acc, count, s)
  end.

(** [Parser::read_number]: at most [max_digits] digits, no leading zero unless allowed, and a
    value that fits the type. *)
Definition read_number (radix : Z) (max_digits : nat) (allow_zero_prefix : bool) (max : Z)
    : Reader Z := fun s =>
  let '(value, count, rest) := read_digits radix 0 0 s in
  if (max_digits <? count)%nat then None
  else if (count =? 0)%nat then None
  else if negb allow_zero_prefix && starts_with s "0" && (1 <? count)%nat then None
  else if (max <? value)%Z then None
  else Some (value, rest).

(** [Parser::read_separator]: the separator before every item but the first. *)
Definition read_separator {A} (sep : ascii) (index : nat) (inner : Reader A) : Reader A := fun s =>
  match index with
  | O => inner s
  | S _ => match s with
           | String a s' => if Ascii.eqb a sep then inner s' else None
           | EmptyString => None
           end
  end.

Definition Ipv4 := (Z * Z * Z * Z)%type.

Definition read_octet (index : nat) : Reader Z :=
  read_separator "." index (read_number 10 3 false 255).

Definition read_ipv4_addr : Reader Ipv4 := fun s =>
  match read_octet 0 s with
  | Some (a, s) =>
      match read_octet 1 s with
      | Some (b, s) =>
          match read_octet 2 s with
          | Some (c, s) =>
              match read_octet 3 s with
              | Some (d, s) => Some ((a, b, c, d), s)
              | None => None
              end
          | None => None
          end
      | None => None
      end
  | None => None
  end.

(** [read_groups] of the IPv6 parser: up to [left] more groups from index [i], an IPv4 address in
    the place of the last two; whether one was read, and the rest of the text. *)
Fixpoint read_groups (left i : nat) (s : string) : list Z * bool * string :=
  match left with
  | O => ([], false, s)
  | S left' =>
      let v4 := match left' with
                | O => None
                | S _ => read_separator ":" i read_ipv4_addr s
                end in
      match v4 with
      | Some ((a, b, c, d), s') => ([a * 256 + b; c * 256 + d]%Z, true, s')
      | None =>
          match read_separator ":" i (read_number 16 4 true 65535) s with
          | Some (g, s') =>
              let '(gs, v4, rest) := read_groups left' (S i) s' in (g :: gs, v4, rest)
          | None => ([], false, s)
          end
      end
  end.

Definition read_ipv6_addr : Reader (list Z) := fun s =>
  let '(head, head_ipv4, rest) := read_groups 8 0 s in
  if (length head =? 8)%nat then Some (head, rest)
  else if head_ipv4 then None
  else match strip_prefix "::" rest with
       | None => None
       | Some rest' =>
           let '(tail, _, rest'') := read_groups (8 - (length head + 1)) 0 rest' in
           Some (head ++ replicate (8 - length head - length tail) 0%Z ++ tail, rest'')
       end.

Inductive IpAddr :=
| V4 (ip : Ipv4)
| V6 (groups : list Z).

Definition parse_ip_addr (s : string) : option IpAddr :=
  let parsed :=
    match read_ipv4_addr s with
    | Some (ip, rest) => Some (V4 ip, rest)
    | None => match read_ipv6_addr s with
              | Some (gs, rest) => Some (V6 gs, rest)
              | None => None
              end
    end in
  match parsed with
  | Some (ip, EmptyString) => Some ip
  | _ => None
  end.

(** [Ipv4Addr::is_private || is_loopback || is_link_local || is_unspecified] *)
Definition ipv4_forbidden (ip : Ipv4) : bool :=
  let '(a, b, c, d) := ip in
  ((a =? 10) || (a =? 172) && (16 <=? b) && (b <=? 31) || (a =? 192) && (b =? 168)
   || (a =? 127)
   || (a =? 169) && (b =? 254)
   || (a =? 0) && (b =? 0) && (c =? 0) && (d =? 0))%Z.

(** [Ipv6Addr::is_loopback || is_unspecified || is_unique_local || is_unicast_link_local] *)
Definition ipv6_forbidden (groups : list Z) : bool :=
  match groups with
  | [a; b; c; d; e; f; g; h] =>
      let high_zero := ((a =? 0) && (b =? 0) && (c =? 0) && (d =? 0) && (e =? 0) && (f =? 0)
                        && (g =? 0))%Z in
      high_zero && ((h =? 1) || (h =? 0))%Z
      || (Z.land a 65024 =? 64512)%Z
      || (Z.land a 65472 =? 65152)%Z
  | _ => false
  end.

Section with_url.
Context `{UrlLib}.

Definition is_forbidden_fetch_target (url : Url) : bool :=
  let hostname := trim (url_host url) in
  if eq_ignore_ascii_case hostname "localhost" then true else
  match parse_ip_addr hostname with
  | Some (V4 ip) => ipv4_forbidden ip
  | Some (V6 groups) => ipv6_forbidden groups
  | None => false
  end.
End with_url.

(** * MIME types *)

Definition guess_image_mime_type_from_url (raw_url : string) : string :=
  let lower := to_ascii_lowercase raw_url in
  if ends_with lower ".jpg" || ends_with lower ".jpeg" then "image/jpeg"
  else if ends_with lower ".webp" then "image/webp"
  else if ends_with lower ".gif" then "image/gif"
  else "image/png".

Definition normalize_image_mime_type (content_type : option string) (raw_url : string) : string :=
  let normalized :=
    to_ascii_lowercase (trim
      (default "image/png" (head (split_char ";" (default "image/png" content_type))))) in
  if String.eqb normalized "application/octet-stream" || is_empty normalized
  then guess_image_mime_type_from_url raw_url
  else normalized.

Fixpoint bytes_of (l : list N) : bytes :=
  match l with [] => EmptyString | n :: l' => String (ascii_of_N n) (bytes_of l') end.

(** [&bytes[from..to]] *)
Definition slice (from to : nat) (s : bytes) : bytes := String.substring from (to - from) s.

Definition sniff_image_mime_type (bs : bytes) : option string :=
  if starts_with bs (bytes_of [137; 80; 78; 71; 13; 10; 26; 10]%N) then Some "image/png"
  else if starts_with bs (bytes_of [255; 216; 255]%N) then Some "image/jpeg"
  else if (12 <=? String.length bs)%nat && String.eqb (slice 0 4 bs) "RIFF"
          && String.eqb (slice 8 12 bs) "WEBP" then Some "image/webp"
  else if starts_with bs "GIF87a" || starts_with bs "GIF89a" then Some "image/gif"
  else None.

(** * Re-encoding *)

Section with_codec.
Context `{ImageCodec}.

Definition maybe_compress_png_bytes_with_options (bs : bytes) (mime_type : string)
    (enabled : bool) (threshold_bytes jpeg_quality : Z) : Result Error OptimizedImage :=
  let normalized_mime := to_ascii_lowercase (trim mime_type) in
  if negb enabled || negb (String.eqb normalized_mime "image/png")
     || (blen bs <=? threshold_bytes)%Z then
    Ok (mkOptimizedImage normalized_mime bs)
  else
    let? rgb := load_png bs in
    if (u16_max <? pixels_width rgb)%Z then Err (Anyhow "image width too large")
    else if (u16_max <? pixels_height rgb)%Z then Err (Anyhow "image height too large")
    else
      let? encoded := jpeg_encode rgb jpeg_quality in
      if (blen bs <=? blen encoded)%Z then Ok (mkOptimizedImage normalized_mime bs)
      else Ok (mkOptimizedImage "image/jpeg" encoded).

Definition maybe_compress_png_bytes_with_threshold (bs : bytes) (mime_type : string)
    (enabled : bool) (threshold_bytes : Z) : Result Error OptimizedImage :=
  maybe_compress_png_bytes_with_options bs mime_type enabled threshold_bytes DEFAULT_JPEG_QUALITY.

Definition maybe_compress_png_bytes (bs : bytes) (mime_type : string) (enabled : bool)
    : Result Error OptimizedImage :=
  maybe_compress_png_bytes_with_options bs mime_type enabled PNG_COMPRESSION_THRESHOLD_BYTES
    DEFAULT_JPEG_QUALITY.

Definition maybe_convert_png_bytes_to_lossless_webp_with_threshold (bs : bytes)
    (mime_type : string) (threshold_bytes : Z) : Result Error OptimizedImage :=
  let normalized_mime := to_ascii_lowercase (trim mime_type) in
  if negb (String.eqb normalized_mime "image/png") || (blen bs <=? threshold_bytes)%Z then
    Ok (mkOptimizedImage normalized_mime bs)
  else
    let? rgba := load_png bs in
    let? encoded := webp_encode_lossless rgba in
    if (blen bs <=? blen encoded)%Z then Ok (mkOptimizedImage normalized_mime bs)
    else Ok (mkOptimizedImage "image/webp" encoded).

Definition maybe_convert_large_png_to_lossless_webp_sync (fetched : FetchedInlineData)
    : Result Error FetchedInlineData :=
  let? optimized :=
    maybe_convert_png_bytes_to_lossless_webp_with_threshold (fetched_bytes fetched)
      (fetched_mime_type fetched) REQUEST_PNG_WEBP_THRESHOLD_BYTES in
  Ok (mkFetchedInlineData (opt_mime_type optimized) (opt_bytes optimized)).

(** The conversion runs on a blocking task; a failed conversion keeps the original. *)
Definition maybe_convert_large_png_to_lossless_webp {W} `{Runtime W} (fetched : FetchedInlineData)
    : StE W FetchedInlineData := fun w =>
  let '(joined, w') := join_error w in
  match joined with
  | Some err => (Err (Anyhow ("request image optimization task failed: " +:+ err)), w')
  | None =>
      (Ok (default fetched (result_ok (maybe_convert_large_png_to_lossless_webp_sync fetched))), w')
  end.

Definition maybe_convert_large_png_to_lossless_webp_with_timeout {W} `{Runtime W}
    (fetched : FetchedInlineData) (timeout : Z) : StE W FetchedInlineData := fun w =>
  if (timeout =? 0)%Z then maybe_convert_large_png_to_lossless_webp fetched w
  else
    let '(elapsed, w') := timeout_elapses timeout w in
    if (elapsed : bool) then (Ok fetched, w')
    else maybe_convert_large_png_to_lossless_webp fetched w'.
End with_codec.

(** * Download *)

Section with_client.
Context `{UrlLib} `{HttpLib} {W : Type} `{!HttpClient W}.

(** The loop over [response.chunk()]: the running total is checked before a chunk is kept. *)
Fixpoint read_chunks (max_image_bytes total_bytes : Z) (acc : bytes) (chunks : list bytes)
    (stream_error : option ReqwestError) : Result Error bytes :=
  match chunks with
  | [] => match stream_error with Some e => Err (ReqwestErr e) | None => Ok acc end
  | chunk :: chunks' =>
      let total_bytes := (total_bytes + blen chunk)%Z in
      let? _ := enforce_max_size total_bytes max_image_bytes in
      read_chunks max_image_bytes total_bytes (acc +:+ chunk) chunks' stream_error
  end.

(** What is checked before anything is sent. *)
Definition check_fetch_target (raw_url : string) (allow_private_networks : bool)
    : Result Error Url :=
  let? parsed := map_err ExternalError (url_parse raw_url) in
  if negb (scheme_is_http parsed) || is_empty (url_host parsed) then
    Err (Anyhow "invalid image url")
  else if negb allow_private_networks && is_forbidden_fetch_target parsed then
    Err (Anyhow ("forbidden target: " +:+ url_host parsed))
  else Ok parsed.

Definition fetch_image_as_inline_data_with_options (raw_url : string) (max_image_bytes : Z)
    (allow_private_networks : bool) : StE W FetchedInlineData :=
  parsed <-? ste_lift (check_fetch_target raw_url allow_private_networks) ;;
  response <-? (fun w => let '(r, w') := http_get parsed w in (map_err ReqwestErr r, w')) ;;
  ste_lift (
    if negb (is_success (resp_status response)) then
      Err (ImageFetchStatusError (resp_status response))
    else
      let? _ := match resp_content_length response with
                | Some content_length => enforce_max_size_u64 content_length max_image_bytes
                | None => Ok tt
                end in
      let content_type := header_get "content-type" (resp_headers response) ≫= header_to_str in
      let? bs := read_chunks max_image_bytes 0 EmptyString (resp_chunks response)
                   (resp_stream_error response) in
      Ok (mkFetchedInlineData (normalize_image_mime_type content_type raw_url) bs)).

Definition fetch_image_as_inline_data (raw_url : string) (max_image_bytes : Z)
    : StE W FetchedInlineData :=
  fetch_image_as_inline_data_with_options raw_url max_image_bytes false.
End with_client.

(** * Lemmas *)

Definition dotted (ip : Ipv4) : string :=
  let '(a, b, c, d) := ip in
  fmt_Z a +:+ "." +:+ fmt_Z b +:+ "." +:+ fmt_Z c +:+ "." +:+ fmt_Z d.

Definition octet (z : Z) : Prop := (0 <= z <= 255)%Z.

Lemma octet_elem z : octet z -> z ∈ seqZ 0 256.
Proof. unfold octet. rewrite elem_of_seqZ. lia. Qed.

Lemma read_octet_dot_all :
  Forall (fun a => forall r, read_number 10 3 false 255 (fmt_Z a +:+ String "." r)
                             = Some (a, String "." r)) (seqZ 0 256).
Proof. vm_compute seqZ. repeat (constructor; [intros r; vm_compute; reflexivity|]). constructor. Qed.

Lemma read_octet_end_all :
  Forall (fun a => read_number 10 3 false 255 (fmt_Z a) = Some (a, EmptyString)) (seqZ 0 256).
Proof. vm_compute seqZ. repeat (constructor; [vm_compute; reflexivity|]). constructor. Qed.

Lemma octet_not_localhost_all :
  Forall (fun a => forall r, eq_ignore_ascii_case (fmt_Z a +:+ r) "localhost" = false)
    (seqZ 0 256).
Proof. vm_compute seqZ. repeat (constructor; [intros r; vm_compute; reflexivity|]). constructor. Qed.

(** The standard library's parser reads a dotted quad back. *)
Lemma read_ipv4_dotted a b c d :
  octet a -> octet b -> octet c -> octet d ->
  read_ipv4_addr (dotted (a, b, c, d)) = Some ((a, b, c, d), EmptyString).
Proof.
  intros Ha%octet_elem Hb%octet_elem Hc%octet_elem Hd%octet_elem.
  pose proof (proj1 (Forall_forall _ _) read_octet_dot_all) as Hdot.
  pose proof (proj1 (Forall_forall _ _) read_octet_end_all) as Hend.
  unfold read_ipv4_addr, read_octet, read_separator, dotted.
  change ("." +:+ ?r) with (String "." r).
  rewrite (Hdot a Ha). change (Ascii.eqb "." ".") with true. cbv iota.
  change ("." +:+ fmt_Z c +:+ "." +:+ fmt_Z d) with (String "." (fmt_Z c +:+ "." +:+ fmt_Z d)).
  rewrite (Hdot b Hb). change (Ascii.eqb "." ".") with true. cbv iota.
  change ("." +:+ fmt_Z d) with (String "." (fmt_Z d)).
  rewrite (Hdot c Hc). change (Ascii.eqb "." ".") with true. cbv iota.
  by rewrite (Hend d Hd).
Qed.

Lemma parse_ip_addr_dotted a b c d :
  octet a -> octet b -> octet c -> octet d ->
  parse_ip_addr (dotted (a, b, c, d)) = Some (V4 (a, b, c, d)).
Proof. intros. unfold parse_ip_addr. by rewrite read_ipv4_dotted. Qed.

Lemma parse_ip_addr_bracket s : parse_ip_addr (String "[" s) = None.
Proof. vm_compute. reflexivity. Qed.

Lemma enforce_max_size_ok actual limit u : enforce_max_size actual limit = Ok u -> (actual <= limit)%Z.
Proof. unfold enforce_max_size. destruct (Z.ltb_spec limit actual); [done|]. lia. Qed.

(** The accumulated body never outgrows the limit. *)
Lemma read_chunks_ok max total acc chunks err bs :
  total = blen acc -> (blen acc <= max)%Z ->
  read_chunks max total acc chunks err = Ok bs ->
  err = None /\ bs = acc +:+ foldr String.append EmptyString chunks /\ (blen bs <= max)%Z.
Proof.
  revert total acc. induction chunks as [|c chunks IH]; intros total acc Ht Hacc; simpl.
  - destruct err; [done|]. intros [= <-]. by rewrite string_app_nil_r.
  - intros (u & He%enforce_max_size_ok & Hr)%and_then_ok_inv.
    assert (Hlen : (total + blen c)%Z = blen (acc +:+ c)) by (rewrite blen_app; lia).
    apply IH in Hr as (-> & -> & Hle); [|done|by rewrite <- Hlen].
    by rewrite string_app_assoc in Hle |- *.
Qed.

Section with_client.
Context `{UrlLib} `{HttpLib} {W : Type} `{!HttpClient W}.

Lemma check_fetch_target_ok raw_url allow u :
  check_fetch_target raw_url allow = Ok u ->
  url_parse raw_url = Ok u /\ scheme_is_http u = true /\ url_host u <> EmptyString /\
  (allow = false -> is_forbidden_fetch_target u = false).
Proof.
  unfold check_fetch_target. intros (p & Hp & Hc)%and_then_ok_inv.
  destruct (url_parse raw_url) as [p'|]; [|done]. injection Hp as ->.
  destruct (scheme_is_http p) eqn:Es; [|done]. cbn [negb orb] in Hc.
  destruct (is_empty (url_host p)) eqn:Eh; [done|].
  destruct (negb allow && is_forbidden_fetch_target p) eqn:Ef; [done|].
  injection Hc as <-. repeat split; try done.
  - intros Hn. by rewrite Hn in Eh.
  - by intros ->.
Qed.
End with_client.

(** * Theorems *)

(** What a successful download went through. *)
(** What an optimized image is: the one that was fetched, or a smaller one in its place. *)
Definition optimized_from (fetched optimized : FetchedInlineData) : Prop :=
  fetched_bytes optimized = fetched_bytes fetched \/
  (REQUEST_PNG_WEBP_THRESHOLD_BYTES < blen (fetched_bytes fetched))%Z /\
  fetched_mime_type optimized = "image/webp" /\
  (blen (fetched_bytes optimized) < blen (fetched_bytes fetched))%Z.

Lemma convert_sync_optimizes `{HttpLib} `{ImageCodec} f f' :
  maybe_convert_large_png_to_lossless_webp_sync f = Ok f' -> optimized_from f f'.
Proof.
  unfold maybe_convert_large_png_to_lossless_webp_sync.
  intros (o & Ho & [= <-])%and_then_ok_inv. revert Ho. unfold optimized_from. simpl.
  unfold maybe_convert_png_bytes_to_lossless_webp_with_threshold.
  destruct (negb _); cbn [orb]; [intros [= <-]; by left|].
  destruct (Z.leb_spec (blen (fetched_bytes f)) REQUEST_PNG_WEBP_THRESHOLD_BYTES); [intros [= <-]; by left|].
  intros (rgba & _ & (enc & _ & He)%and_then_ok_inv)%and_then_ok_inv. revert He.
  destruct (Z.leb_spec (blen (fetched_bytes f)) (blen enc)); intros [= <-]; [by left|by right].
Qed.

Lemma convert_optimizes `{HttpLib} `{ImageCodec} {W} `{Runtime W} f timeout (w w' : W) f' :
  maybe_convert_large_png_to_lossless_webp_with_timeout f timeout w = (Ok f', w') -> optimized_from f f'.
Proof.
  assert (Hrun : forall w, maybe_convert_large_png_to_lossless_webp f w = (Ok f', w') -> optimized_from f f').
  { clear w. intros w. unfold maybe_convert_large_png_to_lossless_webp.
    destruct (join_error w) as [[e|] w1]; [done|]. intros [= <- _].
    destruct (maybe_convert_large_png_to_lossless_webp_sync f) eqn:Es; simpl;
      [by apply convert_sync_optimizes|by left]. }
  unfold maybe_convert_large_png_to_lossless_webp_with_timeout.
  destruct (timeout =? 0)%Z; [apply Hrun|].
  destruct (timeout_elapses timeout w) as [[|] w1]; [intros [= <- _]; by left|apply Hrun].
Qed.

Lemma fetch_image_run `{UrlLib} `{HttpLib} {W} `{!HttpClient W} raw_url max allow (w w' : W) f :
  (0 <= max)%Z ->
  fetch_image_as_inline_data_with_options raw_url max allow w = (Ok f, w') ->
  exists u resp,
    url_parse raw_url = Ok u /\ scheme_is_http u = true /\ url_host u <> EmptyString /\
    (allow = false -> is_forbidden_fetch_target u = false) /\
    http_get u w = (Ok resp, w') /\ is_success (resp_status resp) = true /\
    resp_bytes resp = Ok (fetched_bytes f) /\ (blen (fetched_bytes f) <= max)%Z.
Proof.
  intros Hmax. unfold fetch_image_as_inline_data_with_options, ste_bind, ste_lift.
  destruct (check_fetch_target raw_url allow) as [u|e] eqn:Ec; [|by intros [=]].
  destruct (check_fetch_target_ok _ _ _ Ec) as (Hp & Hs & Hh & Hf).
  destruct (http_get u w) as [[resp|e] w1] eqn:Eg; simpl; [|by intros [=]].
  destruct (is_success (resp_status resp)) eqn:Est; simpl; [|by intros [=]].
  intros [= Hr <-]. apply and_then_ok_inv in Hr as (u1 & _ & Hr).
  apply and_then_ok_inv in Hr as (bs & Hbs & [= <-]).
  apply read_chunks_ok in Hbs as (Herr & -> & Hle); [|done|by unfold blen].
  exists u, resp. repeat split; try done. unfold resp_bytes. by rewrite Herr.
Qed.

(** C33: a successful download respected every check: the URL parsed with an http(s) scheme and a
    host, its target was not forbidden unless private networks are allowed, the answer was a 2xx,
    and the bytes are exactly the body and no longer than the limit. *)
Theorem fetch_image_ok `{UrlLib} `{HttpLib} {W} `{!HttpClient W} raw_url max allow (w w' : W) f :
  (0 <= max)%Z ->
  fetch_image_as_inline_data_with_options raw_url max allow w = (Ok f, w') ->
  exists u resp,
    url_parse raw_url = Ok u /\ scheme_is_http u = true /\ url_host u <> EmptyString /\
    (allow = false -> is_forbidden_fetch_target u = false) /\
    http_get u w = (Ok resp, w') /\ is_success (resp_status resp) = true /\
    resp_bytes resp = Ok (fetched_bytes f) /\ (blen (fetched_bytes f) <= max)%Z.
Proof. apply fetch_image_run. Qed.

Definition sample_get_png : HttpClient unit := {|
  http_get u w :=
    (Ok (mkHttpResponse 200 [("content-type", "image/png; x=1")] (Some 4%Z) ["ab"; "cd"] None), w)
|}.

Lemma fetch_image_ok_witness :
  let f := mkFetchedInlineData "image/png" "abcd" in
  fetch_image_as_inline_data_with_options (HttpClient0 := sample_get_png)
    "https://img.example.com/a.png" 4 false tt = (Ok f, tt) /\ (blen (fetched_bytes f) <= 4)%Z.
Proof.
  intros f. split; [reflexivity|].
  destruct (fetch_image_ok (H0 := sample_http) (HttpClient0 := sample_get_png) "https://img.example.com/a.png" 4 false
    tt tt f ltac:(lia) eq_refl) as (u & r & _ & _ & _ & _ & _ & _ & _ & Hle).
  exact Hle.
Defined.

(** C?: nothing is sent to a rejected target: when the URL check fails (unparseable, not http(s),
    no host, or a forbidden address), the download fails with that error and the world is
    untouched. *)
Theorem fetch_image_rejected_sends_nothing `{UrlLib} `{HttpLib} {W} `{!HttpClient W}
    raw_url max allow (w : W) e :
  check_fetch_target raw_url allow = Err e ->
  fetch_image_as_inline_data_with_options raw_url max allow w = (Err e, w).
Proof.
  intros He. unfold fetch_image_as_inline_data_with_options, ste_bind, ste_lift. by rewrite He.
Qed.

Lemma fetch_image_rejected_witness :
  fetch_image_as_inline_data_with_options (HttpClient0 := sample_get_png)
    "http://127.0.0.1/a.png" 4 false tt = (Err (Anyhow "forbidden target: 127.0.0.1"), tt).
Proof.
  apply (fetch_image_rejected_sends_nothing (HttpClient0 := sample_get_png)). reflexivity.
Defined.

(** The SSRF guard on IPv4 literals: a host that is the dotted quad a.b.c.d is forbidden exactly
    when the address is private, loopback, link-local or unspecified. *)
Theorem forbidden_ipv4_exact `{UrlLib} (u : Url) a b c d :
  octet a -> octet b -> octet c -> octet d ->
  trim (url_host u) = dotted (a, b, c, d) ->
  (is_forbidden_fetch_target u = true <->
   a = 10%Z \/ (a = 172%Z /\ (16 <= b <= 31)%Z) \/ (a = 192%Z /\ b = 168%Z) \/ a = 127%Z \/
   (a = 169%Z /\ b = 254%Z) \/ (a = 0%Z /\ b = 0%Z /\ c = 0%Z /\ d = 0%Z)).
Proof.
  intros Ha Hb Hc Hd Hhost. unfold is_forbidden_fetch_target. rewrite Hhost.
  assert (eq_ignore_ascii_case (dotted (a, b, c, d)) "localhost" = false) as ->.
  { apply (proj1 (Forall_forall _ _) octet_not_localhost_all a (octet_elem a Ha)). }
  rewrite parse_ip_addr_dotted by done. unfold ipv4_forbidden. lia.
Qed.

Lemma forbidden_ipv4_exact_witness :
  is_forbidden_fetch_target (H := sample_url) (mkSampleUrl "http" "192.168.0.7" "/" None None) = true /\
  is_forbidden_fetch_target (H := sample_url) (mkSampleUrl "http" "8.8.8.8" "/" None None) = false.
Proof.
  split.
  - refine (proj2 (forbidden_ipv4_exact (H := sample_url)
      (mkSampleUrl "http" "192.168.0.7" "/" None None) 192 168 0 7 _ _ _ _ eq_refl) _);
      unfold octet; lia.
  - apply not_true_iff_false. intros Hf.
    apply (forbidden_ipv4_exact (H := sample_url)
      (mkSampleUrl "http" "8.8.8.8" "/" None None) 8 8 8 8) in Hf; unfold octet; try lia.
    reflexivity.
Defined.

(** C40: a bracketed host is never forbidden.  The [url] crate gives the host of an IPv6 URL in
    brackets, and no text that starts with a bracket parses as an address, so the guard's IPv6
    branch is unreachable and every IPv6 literal (the loopback [::1] included) passes. *)
Theorem forbidden_never_on_bracketed_host `{UrlLib} (u : Url) s :
  trim (url_host u) = String "[" s -> is_forbidden_fetch_target u = false.
Proof.
  intros Hhost. unfold is_forbidden_fetch_target. rewrite Hhost, parse_ip_addr_bracket.
  assert (eq_ignore_ascii_case (String "[" s) "localhost" = false) as -> by (vm_compute; reflexivity).
  done.
Qed.

Lemma forbidden_never_on_bracketed_host_witness :
  is_forbidden_fetch_target (H := sample_url) (mkSampleUrl "http" "[::1]" "/" None None) = false /\
  parse_ip_addr "::1" = Some (V6 [0; 0; 0; 0; 0; 0; 0; 1]%Z) /\
  ipv6_forbidden [0; 0; 0; 0; 0; 0; 0; 1]%Z = true.
Proof.
  split; [|split; reflexivity].
  apply (forbidden_never_on_bracketed_host (H := sample_url) (mkSampleUrl "http" "[::1]" "/" None None) "::1]").
  reflexivity.
Defined.

(** Domain patterns: a host matches exactly when some non-blank pattern, ignoring ASCII case and
    surrounding white space, equals it, or starts with a dot and its remainder is the host or a
    dot-separated suffix of it. *)
Theorem hostname_matches_spec hostname patterns :
  hostname_matches_domain_patterns hostname patterns = true <->
  let h := to_ascii_lowercase (trim hostname) in
  h <> EmptyString /\
  exists p, p ∈ patterns /\
    let p := to_ascii_lowercase (trim p) in
    p <> EmptyString /\
    match strip_prefix "." p with
    | Some suffix => h = suffix \/ exists front, h = front +:+ "." +:+ suffix
    | None => h = p
    end.
Proof.
  unfold hostname_matches_domain_patterns. cbv zeta.
  destruct (to_ascii_lowercase (trim hostname)) as [|hc hs] eqn:Eh; simpl is_empty; cbv iota.
  { split; [done|]. intros [? _]; done. }
  rewrite existsb_exists. setoid_rewrite <- list_elem_of_In.
  split.
  - intros (p & Hp & Hm). split; [done|]. exists p. split; [done|].
    destruct (to_ascii_lowercase (trim p)) as [|pc ps] eqn:Ep; [done|]. simpl is_empty in Hm.
    split; [done|]. cbv iota in Hm.
    destruct (strip_prefix "." (String pc ps)) as [suffix|] eqn:Es.
    + apply strip_prefix_Some in Es. rewrite Es in Hm.
      apply orb_true_iff in Hm as [Hm%String.eqb_eq|Hm%ends_with_spec]; [by left|by right].
    + by apply String.eqb_eq.
  - intros (_ & p & Hp & Hne & Hm). exists p. split; [done|].
    destruct (to_ascii_lowercase (trim p)) as [|pc ps] eqn:Ep; [done|]. simpl is_empty. cbv iota.
    destruct (strip_prefix "." (String pc ps)) as [suffix|] eqn:Es.
    + apply strip_prefix_Some in Es. rewrite Es. apply orb_true_iff.
      destruct Hm as [Hm|Hm]; [left; by apply String.eqb_eq|right; by apply ends_with_spec].
    + by apply String.eqb_eq.
Qed.

(** Re-encoding never grows an image: both optimisations return either the original bytes under
    the normalized MIME type, or a strictly shorter JPEG (WebP) of a PNG above the threshold. *)
Theorem reencoding_never_grows `{ImageCodec} bs mime enabled threshold quality o1 o2 :
  maybe_compress_png_bytes_with_options bs mime enabled threshold quality = Ok o1 ->
  maybe_convert_png_bytes_to_lossless_webp_with_threshold bs mime threshold = Ok o2 ->
  let normalized := to_ascii_lowercase (trim mime) in
  (o1 = mkOptimizedImage normalized bs \/
   enabled = true /\ normalized = "image/png" /\ (threshold < blen bs)%Z /\
   opt_mime_type o1 = "image/jpeg" /\ (blen (opt_bytes o1) < blen bs)%Z) /\
  (o2 = mkOptimizedImage normalized bs \/
   normalized = "image/png" /\ (threshold < blen bs)%Z /\
   opt_mime_type o2 = "image/webp" /\ (blen (opt_bytes o2) < blen bs)%Z).
Proof.
  unfold maybe_compress_png_bytes_with_options,
    maybe_convert_png_bytes_to_lossless_webp_with_threshold.
  set (normalized := to_ascii_lowercase (trim mime)).
  destruct (String.eqb_spec normalized "image/png") as [Hn|Hn]; cbn [negb].
  2:{ rewrite orb_true_r. cbn [orb]. intros [= <-] [= <-]. split; by left. }
  rewrite orb_false_r. cbn [orb].
  destruct (Z.leb_spec (blen bs) threshold).
  { rewrite orb_true_r. intros [= <-] [= <-]. split; by left. }
  rewrite orb_false_r. intros H1 H2. split.
  - destruct enabled; cbn [negb] in H1; [|injection H1 as <-; by left].
    apply and_then_ok_inv in H1 as (rgb & _ & H1).
    destruct (u16_max <? pixels_width rgb)%Z; [done|].
    destruct (u16_max <? pixels_height rgb)%Z; [done|].
    apply and_then_ok_inv in H1 as (enc & _ & H1).
    destruct (Z.leb_spec (blen bs) (blen enc)); injection H1 as <-; [by left|].
    right. repeat split; done.
  - apply and_then_ok_inv in H2 as (rgba & _ & H2).
    apply and_then_ok_inv in H2 as (enc & _ & H2).
    destruct (Z.leb_spec (blen bs) (blen enc)); injection H2 as <-; [by left|].
    right. repeat split; done.
Qed.

Definition sample_codec : ImageCodec := {|
  Pixels := unit;
  load_png _ := Ok tt;
  pixels_width _ := 1%Z;
  pixels_height _ := 1%Z;
  jpeg_encode _ _ := Ok "J";
  webp_encode_lossless _ := Ok "WEBPWEBP";
|}.

Lemma reencoding_never_grows_witness :
  maybe_compress_png_bytes_with_options (H := sample_codec) "PNGDATA" " image/PNG " true 3 97
  = Ok (mkOptimizedImage "image/jpeg" "J") /\
  (mkOptimizedImage "image/png" "PNGDATA" = mkOptimizedImage (to_ascii_lowercase (trim " image/PNG ")) "PNGDATA" \/
   to_ascii_lowercase (trim " image/PNG ") = "image/png" /\ (3 < blen "PNGDATA")%Z /\
   opt_mime_type (mkOptimizedImage "image/png" "PNGDATA") = "image/webp" /\
   (blen (opt_bytes (mkOptimizedImage "image/png" "PNGDATA")) < blen "PNGDATA")%Z).
Proof.
  split; [reflexivity|].
  apply (reencoding_never_grows (H := sample_codec) "PNGDATA" " image/PNG " true 3 97
    (mkOptimizedImage "image/jpeg" "J") (mkOptimizedImage "image/png" "PNGDATA")); reflexivity.
Defined.
