(* ===== verification/RequestScan.v ===== *)
(** request_scan.rs: finding the image URLs of a request document.  The scanner is proved equal to
    a reference collector, and the pointers it reports are distinct and resolve to the objects
    they were found in. *)

From S2P Require Import Prelude RustStr Json Pointer.
From stdpp Require Import options.

(** * The code *)

Definition MAX_INLINE_DATA_URLS : nat := 7.

Record RequestImageRef := mkRequestImageRef {
  json_pointer : string;
  url : string;
}.

Definition escape_json_pointer_token (token : string) : string :=
  replace_char "/" "~1" (replace_char "~" "~0" token).

Definition is_http_url (value : string) : bool :=
  starts_with value "http://" || starts_with value "https://".

Fixpoint walk (node : Value) (path : string) (matches : list RequestImageRef)
    : Result Error (list RequestImageRef) :=
  match node with
  | Object map =>
      let? matches :=
        match map_get "inlineData" map with
        | Some (Object inline_data) =>
            match map_get "data" inline_data with
            | Some (Str data) =>
                if is_http_url data then
                  let matches := matches ++ [mkRequestImageRef (path +:+ "/inlineData") data] in
                  if (MAX_INLINE_DATA_URLS <? length matches)%nat
                  then Err (Anyhow "too many inlineData URLs") else Ok matches
                else Ok matches
            | _ => Ok matches
            end
        | _ => Ok matches
        end in
      try_fold (fun matches kv =>
        walk kv.2 (path +:+ "/" +:+ escape_json_pointer_token kv.1) matches) matches map
  | Array items =>
      try_foldi (fun index matches child => walk child (path +:+ "/" +:+ fmt_nat index) matches)
        0 matches items
  | _ => Ok matches
  end.

Definition scan_request_image_urls (body : Value) : Result Error (list RequestImageRef) :=
  walk body EmptyString [].

(** * Reference: the URLs of a document in document order, with the tokens that lead to them *)

Definition own_ref (node : Value) : list (list string * string) :=
  match node with
  | Object map =>
      match map_get "inlineData" map with
      | Some (Object inline_data) =>
          match map_get "data" inline_data with
          | Some (Str data) => if is_http_url data then [(["inlineData"], data)] else []
          | _ => []
          end
      | _ => []
      end
  | _ => []
  end.

Definition under (tok : string) (refs : list (list string * string))
    : list (list string * string) :=
  (fun r => (tok :: r.1, r.2)) <$> refs.

Fixpoint image_refs (node : Value) : list (list string * string) :=
  own_ref node ++
  match node with
  | Object map => concat ((fun kv => under kv.1 (image_refs kv.2)) <$> map)
  | Array items =>
      (fix go i items :=
         match items with
         | [] => []
         | x :: items' => under (fmt_nat i) (image_refs x) ++ go (S i) items'
         end) 0%nat items
  | _ => []
  end.

(** The reference at an absolute position. *)
Definition ref_at (toks : list string) (r : list string * string) : RequestImageRef :=
  mkRequestImageRef (path_of (toks ++ r.1)) r.2.

(** A reference names an object whose [data] is its http(s) URL. *)
Definition ref_resolves (body : Value) (r : RequestImageRef) : Prop :=
  exists inline_data,
    pointer (json_pointer r) body = Some (Object inline_data) /\
    map_get "data" inline_data = Some (Str (url r)) /\ is_http_url (url r) = true.

(** * Lemmas *)

Definition too_many : Result Error (list RequestImageRef) :=
  Err (Anyhow "too many inlineData URLs").

(** The outcome once [refs] are all the references seen. *)
Definition capped (refs : list RequestImageRef) : Result Error (list RequestImageRef) :=
  if (MAX_INLINE_DATA_URLS <? length refs)%nat then too_many else Ok refs.

Lemma capped_app l1 l2 :
  (and_then (capped l1) (fun acc => capped (acc ++ l2))) = capped (l1 ++ l2).
Proof.
  unfold capped at 1. destruct (Nat.ltb_spec MAX_INLINE_DATA_URLS (length l1)); [|done].
  unfold capped. rewrite length_app.
  by destruct (Nat.ltb_spec MAX_INLINE_DATA_URLS (length l1 + length l2)); [|lia].
Qed.

Lemma capped_small l : (length l <= MAX_INLINE_DATA_URLS)%nat -> capped l = Ok l.
Proof. unfold capped. by destruct (Nat.ltb_spec MAX_INLINE_DATA_URLS (length l)); [lia|]. Qed.

Lemma capped_Ok l l' : capped l = Ok l' -> l' = l /\ (length l <= MAX_INLINE_DATA_URLS)%nat.
Proof.
  unfold capped, too_many. destruct (Nat.ltb_spec MAX_INLINE_DATA_URLS (length l)); [done|].
  by intros [= ->].
Qed.

Lemma image_refs_children v :
  image_refs v = own_ref v ++ concat ((fun kv => under kv.1 (image_refs kv.2)) <$> children v).
Proof.
  destruct v as [| | | |l|m]; try done. simpl. rewrite fmap_imap.
  rewrite (imap_ext _ (fun i x => under (fmt_nat (0 + i)) (image_refs x))) by done.
  generalize 0%nat. induction l as [|x l IH]; intros i; [done|]. simpl.
  rewrite Nat.add_0_r, IH. do 2 f_equal. apply imap_ext. intros j y _. simpl.
  by rewrite Nat.add_succ_r.
Qed.

(** The first step of [walk] at a node. *)
Definition walk_own (node : Value) (path : string) (matches : list RequestImageRef) :=
  match node with
  | Object map =>
      match map_get "inlineData" map with
      | Some (Object inline_data) =>
          match map_get "data" inline_data with
          | Some (Str data) =>
              if is_http_url data then
                let matches := matches ++ [mkRequestImageRef (path +:+ "/inlineData") data] in
                if (MAX_INLINE_DATA_URLS <? length matches)%nat
                then Err (Anyhow "too many inlineData URLs") else Ok matches
              else Ok matches
          | _ => Ok matches
          end
      | _ => Ok matches
      end
  | _ => Ok matches
  end.

Lemma walk_children v path acc :
  walk v path acc =
  and_then (walk_own v path acc)
    (fun acc => try_fold (fun acc kv => walk kv.2 (path +:+ "/" +:+ escape_token kv.1) acc)
                  acc (children v)).
Proof.
  destruct v as [| | | |l|m]; try done. simpl.
  rewrite (try_foldi_imap _
    (fun acc kv => walk kv.2 (path +:+ "/" +:+ escape_token kv.1) acc)
    (fun i x => (fmt_nat i, x))); [done|].
  intros i acc' x. simpl. by rewrite escape_fmt_nat.
Qed.

Lemma under_fst k refs : (under k refs).*1 = cons k <$> refs.*1.
Proof. unfold under. by rewrite <- !list_fmap_compose. Qed.

Lemma walk_own_spec v toks acc :
  (length acc <= MAX_INLINE_DATA_URLS)%nat ->
  walk_own v (path_of toks) acc = capped (acc ++ (ref_at toks <$> own_ref v)).
Proof.
  intros Hacc. unfold walk_own, own_ref.
  assert (Hnil : Ok acc = capped (acc ++ (ref_at toks <$> []))).
  { simpl. by rewrite app_nil_r, capped_small. }
  destruct v as [| | | | |m]; try done.
  destruct (map_get "inlineData" m) as [[| | | | |inl]|]; try done.
  destruct (map_get "data" inl) as [[| | |u| |]|]; try done.
  destruct (is_http_url u); [|done]. simpl. unfold ref_at. simpl. by rewrite path_of_snoc.
Qed.

Lemma ref_at_under toks k refs : ref_at toks <$> under k refs = ref_at (toks ++ [k]) <$> refs.
Proof.
  unfold under. rewrite <- list_fmap_compose. apply list_fmap_ext. intros _ r _.
  unfold ref_at. simpl. by rewrite <- app_assoc.
Qed.

(** Continuing after a prefix of the references. *)
Lemma capped_bind l (f : list RequestImageRef -> Result Error (list RequestImageRef)) l2 :
  (forall acc, (length acc <= MAX_INLINE_DATA_URLS)%nat -> f acc = capped (acc ++ l2)) ->
  and_then (capped l) f = capped (l ++ l2).
Proof.
  intros Hf. rewrite <- capped_app. destruct (capped l) as [acc|] eqn:E; [|done]. simpl.
  apply capped_Ok in E as [-> Hlen]. by apply Hf.
Qed.

Definition walks_to_refs (v : Value) : Prop := forall toks acc,
  (length acc <= MAX_INLINE_DATA_URLS)%nat ->
  walk v (path_of toks) acc = capped (acc ++ (ref_at toks <$> image_refs v)).

Lemma walk_loop l toks acc :
  Forall (fun kv => walks_to_refs kv.2) l -> (length acc <= MAX_INLINE_DATA_URLS)%nat ->
  try_fold (fun acc kv => walk kv.2 (path_of toks +:+ "/" +:+ escape_token kv.1) acc) acc l =
  capped (acc ++ (ref_at toks <$> concat ((fun kv => under kv.1 (image_refs kv.2)) <$> l))).
Proof.
  intros H. revert acc. induction H as [|[k c] l Hc _ IHl]; intros acc Hacc.
  - simpl. by rewrite app_nil_r, capped_small.
  - rewrite try_fold_cons. simpl fst. simpl snd. simpl in Hc.
    rewrite <- path_of_snoc, Hc by done. csimpl.
    rewrite fmap_app, ref_at_under, app_assoc. by apply capped_bind.
Qed.

Lemma walk_spec v : walks_to_refs v.
Proof.
  induction v as [v IH] using children_ind. intros toks acc Hacc.
  rewrite walk_children, walk_own_spec, image_refs_children, fmap_app, app_assoc by done.
  apply capped_bind. intros acc' Hacc'. by apply walk_loop.
Qed.

Lemma own_ref_inv v toks u :
  (toks, u) ∈ own_ref v ->
  toks = ["inlineData"] /\ is_http_url u = true /\
  exists inline_data, pointer_step v "inlineData" = Some (Object inline_data) /\
    map_get "data" inline_data = Some (Str u).
Proof.
  unfold own_ref.
  repeat case_match; intros Hin; try (by apply elem_of_nil in Hin).
  apply list_elem_of_singleton in Hin as [= -> ->]. repeat split; [done|]. by eexists.
Qed.

Lemma image_refs_inv v toks u :
  wf_value v -> (toks, u) ∈ image_refs v ->
  toks <> [] /\ is_http_url u = true /\
  exists inline_data, pointer_walk v toks = Some (Object inline_data) /\
    map_get "data" inline_data = Some (Str u).
Proof.
  revert toks. induction v as [v IH] using children_ind. intros toks Hwf.
  rewrite image_refs_children, elem_of_app.
  intros [(-> & Hu & inl & Hi & Hd)%own_ref_inv|Hin].
  - repeat split; [done..|]. exists inl. simpl. by rewrite Hi.
  - apply list_elem_of_concat in Hin as (refs & Hin & Hrefs).
    apply list_elem_of_fmap in Hrefs as ([k c] & -> & Hk).
    apply list_elem_of_fmap in Hin as ([toks' u'] & [= -> ->] & Hin).
    eapply Forall_forall in IH; [|exact Hk].
    apply IH in Hin as (_ & Hu & inl & Hw & Hd).
    2:{ apply children_wf in Hwf. by eapply Forall_forall in Hwf; [|exact Hk]. }
    repeat split; [done..|]. exists inl. split; [|done]. simpl.
    by rewrite (children_step v k c).
Qed.

(** Distinct positions: no two references share their tokens. *)
Lemma image_refs_NoDup v : wf_value v -> NoDup ((image_refs v).*1).
Proof.
  induction v as [v IH] using children_ind. intros Hwf.
  assert (Hck := children_NoDup v Hwf). assert (Hcw := children_wf v Hwf).
  rewrite image_refs_children, fmap_app. apply NoDup_app. split; [|split].
  - unfold own_ref. repeat case_match; simpl; apply NoDup_nil_2 || apply NoDup_singleton.
  - intros toks Hown Hin.
    apply list_elem_of_fmap in Hown as ([toks' u] & -> & (-> & _)%own_ref_inv).
    apply list_elem_of_fmap in Hin as ([toks'' u''] & Heq & Hin). simpl in Heq. subst toks''.
    apply list_elem_of_concat in Hin as (refs & Hin & Hrefs).
    apply list_elem_of_fmap in Hrefs as ([k c] & -> & Hk).
    apply list_elem_of_fmap in Hin as ([toks2 u2] & Heq & Hin). simpl in Heq.
    injection Heq as <- <- ->.
    eapply Forall_forall in Hcw; [|exact Hk].
    by apply image_refs_inv in Hin as [? _].
  - clear Hwf. induction (children v) as [|[k c] l IHl]; simpl; [constructor|].
    apply Forall_cons in IH as [Hc IH], Hcw as [Hcwf Hcw]. csimpl in Hck.
    apply NoDup_cons in Hck as [Hk Hck]. simpl in *.
    rewrite fmap_app. apply NoDup_app. split; [|split; [|by apply IHl]].
    + rewrite under_fst. apply NoDup_fmap_2_strong; [|by apply Hc].
      by intros x y _ _ [= ->].
    + intros toks H1 H2.
      apply list_elem_of_fmap in H1 as ([t1 u1] & -> & H1).
      apply list_elem_of_fmap in H1 as ([t2 u2] & [= -> ->] & _).
      apply list_elem_of_fmap in H2 as ([t3 u3] & Heq & H2).
      apply list_elem_of_concat in H2 as (refs & H2 & Hrefs).
      apply list_elem_of_fmap in Hrefs as ([k' c'] & -> & Hk').
      apply list_elem_of_fmap in H2 as ([t4 u4] & [= -> ->] & _). simpl in Heq.
      injection Heq as <- _. apply Hk. apply list_elem_of_fmap. by exists (k, c').
Qed.

Lemma scan_spec body :
  scan_request_image_urls body = capped (ref_at [] <$> image_refs body).
Proof. unfold scan_request_image_urls. apply (walk_spec body [] []). simpl. lia. Qed.

Lemma scan_refs body refs :
  scan_request_image_urls body = Ok refs -> refs = ref_at [] <$> image_refs body.
Proof. rewrite scan_spec. by intros [-> _]%capped_Ok. Qed.

Lemma scan_refs_NoDup body refs :
  wf_value body -> scan_request_image_urls body = Ok refs -> NoDup (json_pointer <$> refs).
Proof.
  intros Hwf ->%scan_refs.
  replace (json_pointer <$> (ref_at [] <$> image_refs body))
    with (path_of <$> (image_refs body).*1).
  2:{ rewrite <- !list_fmap_compose. by apply list_fmap_ext. }
  apply NoDup_fmap_2_strong; [intros x y _ _; apply path_of_inj|]. by apply image_refs_NoDup.
Qed.

Lemma scan_refs_resolve body refs :
  wf_value body -> scan_request_image_urls body = Ok refs -> Forall (ref_resolves body) refs.
Proof.
  intros Hwf ->%scan_refs. apply Forall_forall. intros r Hr.
  apply list_elem_of_fmap in Hr as ([toks u] & -> & Hr).
  apply image_refs_inv in Hr as (_ & Hu & inl & Hw & Hd); [|done].
  exists inl. simpl. by rewrite pointer_path.
Qed.

(** * Theorems *)

(** The scanner computes the reference: with at most seven image URLs in the document it
    returns, in document order, a pointer and URL for each of them; with more it fails. *)
Theorem scan_request_image_urls_spec body :
  scan_request_image_urls body =
  let refs := (fun r => mkRequestImageRef (path_of r.1) r.2) <$> image_refs body in
  if (7 <? length (image_refs body))%nat then Err (Anyhow "too many inlineData URLs") else Ok refs.
Proof.
  rewrite scan_spec. unfold capped. rewrite length_fmap. done.
Qed.

(** C10: what the scan of a well-formed document reports is usable: at most seven references, their
    pointers pairwise distinct, and each pointer resolves (keys with [~] and [/] and array indexes
    included) to an object whose [data] is the reported http(s) URL. *)
Theorem scan_request_image_refs_sound body refs :
  wf_value body -> scan_request_image_urls body = Ok refs ->
  (length refs <= 7)%nat /\ NoDup (json_pointer <$> refs) /\
  Forall (fun r => exists inline_data,
    pointer (json_pointer r) body = Some (Object inline_data) /\
    map_get "data" inline_data = Some (Str (url r)) /\ is_http_url (url r) = true) refs.
Proof.
  intros Hwf Hscan. repeat split.
  - rewrite scan_spec in Hscan. by apply capped_Ok in Hscan as [-> ?].
  - by eapply scan_refs_NoDup.
  - by apply scan_refs_resolve.
Qed.

Lemma scan_request_image_refs_sound_witness :
  let body := Object [("a/b~c", Array [Null; Object
                [("inlineData", Object [("data", Str "https://h/x.png")])]])] in
  let refs := [mkRequestImageRef "/a~1b~0c/1/inlineData" "https://h/x.png"] in
  scan_request_image_urls body = Ok refs /\
  Forall (fun r => exists inline_data,
    pointer (json_pointer r) body = Some (Object inline_data) /\
    map_get "data" inline_data = Some (Str (url r)) /\ is_http_url (url r) = true) refs.
Proof.
  intros body refs. split; [reflexivity|].
  refine (proj2 (proj2 (scan_request_image_refs_sound body refs _ _))); [|reflexivity].
  apply wf_valueb_true. reflexivity.
Defined.
