(* ===== verification/Interleave.v ===== *)
(** Operations of several tasks on a state they share, interleaved at their atomic accesses: programs
    as sequences of accesses, the pool of tasks that run them, and a rely-guarantee logic by which an
    invariant of the shared state is proved for every interleaving.  Nothing here is specific to a
    component. *)

From S2P Require Import Prelude.
From stdpp Require Import relations options.

(** * Programs *)

(** A program on a state [S].  [Act aw m k] makes the atomic access [m]; [aw] says that the code
    awaits it, so that a task may be dropped while it is under way.  [Iter cur body k] is a loop whose
    turn under way is [cur]: a turn that returns [inl x] is followed by the turn [body x]. *)
Inductive Prog (S : Type) : Type -> Type :=
| Ret {A} (a : A) : Prog S A
| Act {A B} (aw : bool) (m : St S B) (k : B -> Prog S A) : Prog S A
| Iter {A B X} (cur : Prog S (X + B)) (body : X -> Prog S (X + B)) (k : B -> Prog S A) : Prog S A.
Arguments Ret {S A} a.
Arguments Act {S A B} aw m k.
Arguments Iter {S A B X} cur body k.

Definition atomic {S A} (m : St S A) : Prog S A := Act false m Ret.
Definition awaited {S A} (m : St S A) : Prog S A := Act true m Ret.
(** An await that touches nothing: of a lock, or of the client. *)
Definition pause {S} : Prog S unit := awaited (fun s => (tt, s)).
Definition loop {S A} (body : Prog S (unit + A)) : Prog S A := Iter body (fun _ => body) Ret.

(** What a turn of a [loop] says. *)
Abbreviation again := (inl tt).
Abbreviation leave b := (inr b).

Fixpoint bind {S A C} (p : Prog S A) : (A -> Prog S C) -> Prog S C :=
  match p in Prog _ A return (A -> Prog S C) -> Prog S C with
  | Ret a => fun f => f a
  | Act aw m k => fun f => Act aw m (fun b => bind (k b) f)
  | Iter cur body k => fun f => Iter cur body (fun b => bind (k b) f)
  end.

Notation "x '<~' p ';;' q" := (bind p (fun x => q))
  (at level 100, p at next level, right associativity) : proxy_scope.

(** The same on results, as [?] does. *)
Definition bind_ok {S E A C} (p : Prog S (Result E A)) (f : A -> Prog S (Result E C)) :
    Prog S (Result E C) :=
  bind p (fun r => match r with Ok a => f a | Err e => Ret (Err e) end).

Notation "x '<~?' p ';;' q" := (bind_ok p (fun x => q))
  (at level 100, p at next level, right associativity) : proxy_scope.

(** The next step of a program: its result, or its rest and the state after one access. *)
Fixpoint step {S A} (p : Prog S A) (s : S) : A + Prog S A * S :=
  match p with
  | Ret a => inl a
  | Act _ m k => let '(b, s') := m s in inr (k b, s')
  | Iter cur body k =>
      match step cur s with
      | inl (inl x) => inr (Iter (body x) body k, s)
      | inl (inr b) => inr (k b, s)
      | inr (cur', s') => inr (Iter cur' body k, s')
      end
  end.

(** The access a task is waiting for. *)
Fixpoint pending {S A} (p : Prog S A) : option (St S unit) :=
  match p with
  | Ret _ => None
  | Act aw m _ => if aw then Some (fun s => (tt, (m s).2)) else None
  | Iter cur _ _ => pending cur
  end.

(** ** Runs without interference *)

Inductive solo {S A} : Prog S A -> S -> A -> S -> Prop :=
| solo_done p s a : step p s = inl a -> solo p s a s
| solo_more p p' s s1 a s' : step p s = inr (p', s1) -> solo p' s1 a s' -> solo p s a s'.

(** Every loop ends when it is left alone at the start of a turn. *)
Fixpoint ends {S A} (p : Prog S A) : Prop :=
  match p with
  | Ret _ => True
  | Act _ _ k => forall b, ends (k b)
  | Iter cur body k =>
      ends cur /\ (forall x, ends (body x)) /\ (forall x s, exists b s', solo (body x) s (inr b) s') /\
      forall b, ends (k b)
  end.

Section solo.
Context {S : Type}.

Lemma solo_ret {A} (a : A) (s : S) : solo (Ret a) s a s.
Proof. by apply solo_done. Qed.

Lemma solo_act {A B} aw (m : St S B) (k : B -> Prog S A) s b s1 a s' :
  m s = (b, s1) -> solo (k b) s1 a s' -> solo (Act aw m k) s a s'.
Proof. intros Hm. apply solo_more. simpl. by rewrite Hm. Qed.

Lemma step_bind {A C} (p p' : Prog S A) (f : A -> Prog S C) s s' :
  step p s = inr (p', s') -> step (bind p f) s = inr (bind p' f, s').
Proof.
  destruct p as [A a|A B aw m k|A B X cur body k]; simpl; [done| |].
  - destruct (m s). by intros [= <- <-].
  - destruct (step cur s) as [[x|b]|[cur' s1]]; by intros [= <- <-].
Qed.

Lemma step_inl {A} (p : Prog S A) s a : step p s = inl a -> p = Ret a.
Proof.
  destruct p as [A a'|A B aw m k|A B X cur body k]; simpl; [by intros [= ->]| |].
  - by destruct (m s).
  - by destruct (step cur s) as [[x|b]|[cur' s1]].
Qed.

Lemma solo_bind {A C} (p : Prog S A) (f : A -> Prog S C) s b s1 a s' :
  solo p s b s1 -> solo (f b) s1 a s' -> solo (bind p f) s a s'.
Proof.
  induction 1 as [p s b Hs|p p' s s2 b s1 Hs _ IH]; intros Hf.
  - by apply step_inl in Hs as ->.
  - eapply solo_more; [by apply step_bind|]. by apply IH.
Qed.

(** The turn under way ends, and then the loop does. *)
Lemma solo_iter {A B X} (cur : Prog S (X + B)) (body : X -> Prog S (X + B)) (k : B -> Prog S A) s o s1 a s' :
  solo cur s o s1 ->
  match o with inr b => solo (k b) s1 a s' | inl x => solo (Iter (body x) body k) s1 a s' end ->
  solo (Iter cur body k) s a s'.
Proof.
  induction 1 as [p s o Hs|p p' s s2 o s1 Hs _ IH]; intros Hk.
  - destruct o; eapply solo_more; [|exact Hk| |exact Hk]; simpl; by rewrite Hs.
  - eapply solo_more; [|by apply IH]. simpl. by rewrite Hs.
Qed.

Lemma ends_solo {A} (p : Prog S A) s : ends p -> exists a s', solo p s a s'.
Proof.
  revert s. induction p as [A a|A B aw m k IH|A B X cur IHc body _ k IHk]; intros s; simpl.
  - intros _. exists a, s. apply solo_ret.
  - intros Hk. destruct (m s) as [b s1] eqn:Hm. destruct (IH b s1 (Hk b)) as (a & s' & Hr).
    exists a, s'. by eapply solo_act.
  - intros (Hc & _ & Hbody & Hk).
    assert (Hagain : forall x s, exists a s', solo (Iter (body x) body k) s a s').
    { intros x s2. destruct (Hbody x s2) as (b & s3 & Hb). destruct (IHk b s3 (Hk b)) as (a & s' & Hr).
      exists a, s'. by apply (solo_iter _ _ _ _ (inr b) s3). }
    destruct (IHc s Hc) as (o & s1 & Ho). destruct o as [x|b].
    + destruct (Hagain x s1) as (a & s' & Hr). exists a, s'. by apply (solo_iter _ _ _ _ (inl x) s1).
    + destruct (IHk b s1 (Hk b)) as (a & s' & Hr). exists a, s'. by apply (solo_iter _ _ _ _ (inr b) s1).
Qed.

Lemma ends_step {A} (p p' : Prog S A) s s' : ends p -> step p s = inr (p', s') -> ends p'.
Proof.
  revert p' s s'. induction p as [A a|A B aw m k IH|A B X cur IHc body _ k IHk]; intros p' s s'; simpl.
  - done.
  - intros Hk. destruct (m s). intros [= <- _]. apply Hk.
  - intros (Hc & Hb & Hbody & Hk). destruct (step cur s) as [[x|b]|[cur' s1]] eqn:Es; intros [= <- _].
    + done.
    + apply Hk.
    + split; [by eapply IHc|done].
Qed.

Lemma ends_bind {A C} (p : Prog S A) (f : A -> Prog S C) :
  ends p -> (forall a, ends (f a)) -> ends (bind p f).
Proof.
  intros Hp Hf. induction p as [A a|A B aw m k IH|A B X cur _ body _ k IHk]; simpl in *; [done|auto|].
  naive_solver.
Qed.

Lemma ends_bind_ok {E A B} (p : Prog S (Result E A)) (f : A -> Prog S (Result E B)) :
  ends p -> (forall a, ends (f a)) -> ends (bind_ok p f).
Proof. intros Hp Hf. apply ends_bind; [done|]. by intros [a|e]. Qed.
End solo.

(** ** Programs that refine operations

    Run alone from a state with [P], the program does what the operation does, and keeps [P]. *)
Definition does {S A} (P : S -> Prop) (p : Prog S A) (m : St S A) : Prop :=
  forall s, P s -> solo p s (m s).1 (m s).2 /\ P (m s).2.

Section does.
Context {S : Type} (P : S -> Prop).

Lemma does_ret {A} (a : A) : does P (Ret a) (st_ret a).
Proof. intros s Hs. split; [apply solo_ret|done]. Qed.

Lemma does_act {A} aw (m : St S A) : (forall s, P s -> P (m s).2) -> does P (Act aw m Ret) m.
Proof.
  intros Hm s Hs. split; [|by apply Hm].
  destruct (m s) as [a s'] eqn:E. eapply solo_act; [done|]. apply solo_ret.
Qed.

Lemma does_bind {A B} (p : Prog S A) (f : A -> Prog S B) m g :
  does P p m -> (forall a, does P (f a) (g a)) -> does P (bind p f) (st_bind m g).
Proof.
  intros Hp Hf s Hs. destruct (Hp s Hs) as [Hsolo Hc]. unfold st_bind.
  destruct (m s) as [a s1]. destruct (Hf a s1 Hc) as [Hsolo2 Hc2]. split; [|done].
  by eapply solo_bind.
Qed.

Lemma does_bind_ok {A B} (p : Prog S (Result Error A)) (f : A -> Prog S (Result Error B)) m g :
  does P p m -> (forall a, does P (f a) (g a)) -> does P (bind_ok p f) (ste_bind m g).
Proof.
  intros Hp Hf s Hs. destruct (Hp s Hs) as [Hsolo Hc]. unfold ste_bind, bind_ok.
  destruct (m s) as [[a|e] s1].
  - destruct (Hf a s1 Hc) as [Hsolo2 Hc2]. split; [|done]. by eapply solo_bind.
  - split; [|done]. eapply solo_bind; [done|]. apply solo_ret.
Qed.

Lemma does_ext {A} (p : Prog S A) m m' :
  (forall s, P s -> m s = m' s) -> does P p m' -> does P p m.
Proof. intros Hm Hp s Hs. rewrite Hm by done. by apply Hp. Qed.
End does.

(** ** What a program reads

    [reads ok p seen Q]: whatever states with [ok] a program without loops finds at its accesses, it
    returns a result that has [Q] with all the states it has found, latest first; [seen] are those it
    has found so far. *)
Fixpoint reads {S A} (ok : S -> Prop) (p : Prog S A) (seen : list S) : (list S -> A -> Prop) -> Prop :=
  match p in Prog _ A return (list S -> A -> Prop) -> Prop with
  | Ret a => fun Q => Q seen a
  | Act _ m k => fun Q => forall s, ok s -> reads ok (k (m s).1) (s :: seen) Q
  | Iter _ _ _ => fun _ => False
  end.

Lemma reads_step {S A} (ok : S -> Prop) (p : Prog S A) seen s Q :
  reads ok p seen Q -> ok s ->
  match step p s with inl a => Q seen a | inr (p', _) => reads ok p' (s :: seen) Q end.
Proof.
  destruct p as [A a|A B aw m k|A B X cur body k]; simpl; [done| |done].
  intros Hp Hs. specialize (Hp s Hs). by destruct (m s).
Qed.

Lemma reads_bind {S A B} (ok : S -> Prop) (p : Prog S A) (f : A -> Prog S B) seen Q :
  reads ok p seen (fun seen a => reads ok (f a) seen Q) -> reads ok (bind p f) seen Q.
Proof.
  revert seen. induction p as [A a|A C aw m k IH|A C X cur _ body _ k IHk]; intros seen; simpl; [done| |done].
  intros Hp s Hs. apply IH. by apply Hp.
Qed.

(** * The logic

    [inv g s held] is the invariant: of the shared state [s], the ghost state [g], and what each of
    the tasks holds.  A task's proof assumes it of what it finds and of whatever the others hold,
    and establishes it again after each access; [ext] says how both states may evolve, so that what a
    task has learnt stays true. *)

Section logic.
#[local] Set Default Proof Using "All".
Context {S G T : Type}.
Context (inv : G -> S -> list T -> Prop) (ext : relation (G * S)) (lost : T -> Prop).

Fixpoint wp {A} (p : Prog S A) (w : G * S) (r : T) : (G * S -> A -> T -> Prop) -> Prop :=
  match p in Prog _ A return (G * S -> A -> T -> Prop) -> Prop with
  | Ret a => fun Q => Q w a r
  | Act aw m k => fun Q =>
      forall g s others, ext w (g, s) -> inv g s (r :: others) ->
      let '(b, s') := m s in
      ext (g, s) (g, s') /\
      exists r', inv g s' (r' :: others) /\ wp (k b) (g, s') r' Q /\ (aw = true -> lost r')
  | Iter cur body k => fun Q =>
      exists I,
        let post w' o r' :=
          match o with inr b => wp (k b) w' r' Q | inl x => I x r' end in
        wp cur w r post /\ forall w' x r', ext w w' -> I x r' -> wp (body x) w' r' post
  end.

Context `{!PreOrder ext}.

Lemma wp_weaken {A} (p : Prog S A) w w' r (Q Q' : G * S -> A -> T -> Prop) :
  wp p w r Q -> ext w w' ->
  (forall w1 w2 a r, ext w1 w2 -> Q w1 a r -> Q' w2 a r) ->
  wp p w' r Q'.
Proof.
  revert w w' r. induction p as [A a|A B aw m k IH|A B X cur IHc body IHb k IHk]; intros w w' r Hp He HQ.
  - simpl in *. by eapply HQ.
  - simpl in *. intros g s others He' Hi. specialize (Hp g s others ltac:(by etrans) Hi).
    destruct (m s) as [b s']. destruct Hp as (Hext & r' & Hi' & Hk & Hl). split; [done|].
    exists r'. split; [done|]. split; [|done]. by eapply IH.
  - simpl in *. destruct Hp as (I & Hc & Hb).
    assert (Hpost : forall w1 w2 o r, ext w1 w2 ->
      match o with inr b => wp (k b) w1 r Q | inl x => I x r end ->
      match o with inr b => wp (k b) w2 r Q' | inl x => I x r end).
    { intros w1 w2 [x|b] r1 He1; [done|]. intros Hk. by eapply IHk. }
    exists I. split; [by eapply IHc|]. intros w1 x r1 He1 Hx.
    eapply IHb; [apply Hb; [by etrans|exact Hx]|done|done].
Qed.

Lemma wp_conseq {A} (p : Prog S A) w r (Q Q' : G * S -> A -> T -> Prop) :
  (forall w a r, Q w a r -> Q' w a r) -> wp p w r Q -> wp p w r Q'.
Proof.
  revert w r. induction p as [A a|A B aw m k IH|A B X cur IHc body IHb k IHk]; intros w r HQ Hp.
  - simpl in *. by apply HQ.
  - simpl in *. intros g s others He Hi. specialize (Hp g s others He Hi).
    destruct (m s) as [b s']. destruct Hp as (Hext & r' & Hi' & Hk & Hl). split; [done|].
    exists r'. split; [done|]. split; [|done]. by eapply IH.
  - simpl in *. destruct Hp as (I & Hc & Hb). exists I. split.
    + eapply IHc; [|exact Hc]. intros w1 [x|b] r1; [done|]. by apply IHk.
    + intros w1 x r1 He1 Hx. eapply IHb; [|by apply (Hb w1 x)]. intros w2 [y|b] r2; [done|]. by apply IHk.
Qed.

Lemma wp_bind {A C} (p : Prog S A) (f : A -> Prog S C) w r Q :
  wp p w r (fun w' a r' => wp (f a) w' r' Q) -> wp (bind p f) w r Q.
Proof.
  revert w r. induction p as [A a|A B aw m k IH|A B X cur _ body _ k IHk]; intros w r Hp.
  - done.
  - simpl in *. intros g s others He Hi. specialize (Hp g s others He Hi).
    destruct (m s) as [b s']. destruct Hp as (Hext & r' & Hi' & Hk & Hl). split; [done|].
    exists r'. split; [done|]. split; [|done]. by apply IH.
  - simpl in *. destruct Hp as (I & Hc & Hb). exists I.
    split; [|intros w1 x r1 He1 Hx; specialize (Hb w1 x r1 He1 Hx); revert Hb]; [revert Hc|];
      apply wp_conseq; intros w2 [y|b] r2; try done; apply IHk.
Qed.

(** What has been learnt at the start is still true at the end. *)
Lemma wp_ext {A} (p : Prog S A) w0 w r (Q : G * S -> A -> T -> Prop) :
  ext w0 w -> wp p w r Q -> wp p w r (fun w' a r' => ext w0 w' /\ Q w' a r').
Proof.
  revert w r. induction p as [A a|A B aw m k IH|A B X cur IHc body IHb k IHk]; intros w r H0 Hp.
  - done.
  - simpl in *. intros g s others He Hi. specialize (Hp g s others He Hi).
    destruct (m s) as [b s']. destruct Hp as (Hext & r' & Hi' & Hk & Hl). split; [done|].
    exists r'. split; [done|]. split; [|done]. apply IH; [|done]. etrans; [exact H0|by etrans].
  - simpl in *. destruct Hp as (I & Hc & Hb). exists I. split.
    + eapply wp_conseq; [|by apply IHc]. intros w1 [x|b] r1 [He1 Hk]; [done|by apply IHk].
    + intros w1 x r1 He1 Hx. eapply wp_conseq; [|apply IHb; [by etrans|by apply (Hb w1 x)]].
      intros w2 [y|b] r2 [He2 Hk]; [done|by apply IHk].
Qed.

(** One step of a program that has been proved. *)
Lemma wp_step {A} (p : Prog S A) g s r others Q :
  wp p (g, s) r Q -> inv g s (r :: others) ->
  match step p s with
  | inl a => Q (g, s) a r
  | inr (p', s') =>
      ext (g, s) (g, s') /\ exists r', inv g s' (r' :: others) /\ wp p' (g, s') r' Q
  end.
Proof.
  revert r. induction p as [A a|A B aw m k IH|A B X cur IHc body IHb k IHk]; intros r Hp Hi.
  - done.
  - simpl in *. specialize (Hp g s others ltac:(done) Hi). destruct (m s) as [b s'].
    destruct Hp as (Hext & r' & Hi' & Hk & _). split; [done|]. by exists r'.
  - simpl in *. destruct Hp as (I & Hc & Hb).
    specialize (IHc _ _ Hc Hi). destruct (step cur s) as [[x|b]|[cur' s']].
    + split; [done|]. exists r. split; [done|]. exists I. split; [by apply Hb|done].
    + split; [done|]. by exists r.
    + destruct IHc as (Hext & r' & Hi' & Hc'). split; [done|]. exists r'. split; [done|].
      exists I. split; [done|]. intros w' x r1 He. apply Hb. by etrans.
Qed.

(** The access of a task that is dropped while it awaits it. *)
Definition detached (m : St S unit) (w : G * S) (r : T) : Prop :=
  forall g s others, ext w (g, s) -> inv g s (r :: others) ->
  let s' := (m s).2 in
  ext (g, s) (g, s') /\ exists r', inv g s' (r' :: others) /\ lost r'.

Lemma wp_pending {A} (p : Prog S A) w r Q m : wp p w r Q -> pending p = Some m -> detached m w r.
Proof.
  revert r. induction p as [A a|A B aw m' k IH|A B X cur IHc body IHb k IHk]; intros r; simpl; [done| |].
  - intros Hp. destruct aw; [|done]. intros [= <-] g s others He Hi.
    specialize (Hp g s others He Hi). simpl. destruct (m' s) as [b s'].
    destruct Hp as (Hext & r' & Hi' & _ & Hl). split; [done|]. exists r'. auto.
  - intros (I & Hc & _). by eapply IHc.
Qed.
End logic.

(** * The pool of tasks *)

(** A task runs the program of a call, or is what is left of one that was dropped. *)
Inductive Task (S C A : Type) :=
| Running (c : C) (p : Prog S A)
| Detached (m : St S unit).
Arguments Running {S C A} c p.
Arguments Detached {S C A} m.

Record Pool (S G C A : Type) := mkPool {
  shared : S;
  ghost : G;
  tasks : gmap nat (Task S C A);
}.
Arguments mkPool {S G C A} shared ghost tasks.
Arguments shared {S G C A}.
Arguments ghost {S G C A}.
Arguments tasks {S G C A}.

Section pool.
#[local] Set Default Proof Using "All".
Context {S G C A : Type}.
Context (program : C -> Prog S A) (allowed : G -> C -> Prop).
Context (arrive : C -> G -> G) (publish : C -> A -> G -> G) (abandon : C -> G -> G).
Context (env : relation S).

(** A call comes, a task makes a step, a call returns, a task is dropped at an await, the access it
    was waiting for is carried out all the same, or the state changes from outside. *)
Inductive pool_step : Pool S G C A -> Pool S G C A -> Prop :=
| pool_call s g ts t c :
    ts !! t = None -> allowed g c ->
    pool_step (mkPool s g ts) (mkPool s (arrive c g) (<[t := Running c (program c)]> ts))
| pool_run s g ts t c p p' s' :
    ts !! t = Some (Running c p) -> step p s = inr (p', s') ->
    pool_step (mkPool s g ts) (mkPool s' g (<[t := Running c p']> ts))
| pool_return s g ts t c p a :
    ts !! t = Some (Running c p) -> step p s = inl a ->
    pool_step (mkPool s g ts) (mkPool s (publish c a g) (delete t ts))
| pool_drop s g ts t c p m :
    ts !! t = Some (Running c p) -> pending p = Some m ->
    pool_step (mkPool s g ts) (mkPool s (abandon c g) (<[t := Detached m]> ts))
| pool_late s g ts t m :
    ts !! t = Some (Detached m) ->
    pool_step (mkPool s g ts) (mkPool (m s).2 g (delete t ts))
| pool_env s g ts s' :
    env s s' -> pool_step (mkPool s g ts) (mkPool s' g ts).

Definition at_rest (s : S) (g : G) : Pool S G C A := mkPool s g ∅.

(** Schedules, executed. *)
Inductive Move :=
| Begin (t : nat) (c : C)
| Turn (t : nat)
| Drop (t : nat)
| Late (t : nat).

Definition move `{!forall g c, Decision (allowed g c)} (x : Pool S G C A) (m : Move) :
    option (Pool S G C A) :=
  match m with
  | Begin t c =>
      if decide (tasks x !! t = None /\ allowed (ghost x) c)
      then Some (mkPool (shared x) (arrive c (ghost x)) (<[t := Running c (program c)]> (tasks x)))
      else None
  | Turn t =>
      match tasks x !! t with
      | Some (Running c p) =>
          match step p (shared x) with
          | inl a => Some (mkPool (shared x) (publish c a (ghost x)) (delete t (tasks x)))
          | inr (p', s') => Some (mkPool s' (ghost x) (<[t := Running c p']> (tasks x)))
          end
      | _ => None
      end
  | Drop t =>
      match tasks x !! t with
      | Some (Running c p) =>
          m ← pending p;
          Some (mkPool (shared x) (abandon c (ghost x)) (<[t := Detached m]> (tasks x)))
      | _ => None
      end
  | Late t =>
      match tasks x !! t with
      | Some (Detached m) => Some (mkPool (m (shared x)).2 (ghost x) (delete t (tasks x)))
      | _ => None
      end
  end.

Definition schedule `{!forall g c, Decision (allowed g c)} (ms : list Move) (x : Pool S G C A) :
    option (Pool S G C A) :=
  foldl (fun x m => x ← x; move x m) (Some x) ms.

Lemma move_step `{!forall g c, Decision (allowed g c)} x m x' : move x m = Some x' -> pool_step x x'.
Proof using Type.
  destruct x as [s g ts], m as [t c|t|t|t]; simpl.
  - intros Hd. destruct (decide (ts !! t = None /\ allowed g c)) as [[? ?]|]; [|done].
    injection Hd as <-. by apply pool_call.
  - destruct (ts !! t) as [[c p|m]|] eqn:Ht; [|done..]. destruct (step p s) as [a|[p' s']] eqn:Hs;
      intros [= <-]; [by eapply pool_return|by eapply pool_run].
  - destruct (ts !! t) as [[c p|m]|] eqn:Ht; [|done..]. destruct (pending p) eqn:Hp; [|done].
    intros [= <-]. by eapply pool_drop.
  - destruct (ts !! t) as [[c p|m]|] eqn:Ht; [done| |done]. intros [= <-]. by eapply pool_late.
Qed.

Lemma schedule_steps `{!forall g c, Decision (allowed g c)} ms x x' :
  schedule ms x = Some x' -> rtc pool_step x x'.
Proof using Type.
  assert (Hnone : forall ms, foldl (fun x m => x ← x; move x m) None ms = None).
  { intros l. by induction l. }
  unfold schedule. revert x. induction ms as [|m ms IH]; intros x; simpl.
  { intros [= <-]. done. }
  destruct (move x m) as [x1|] eqn:Hm; [|by rewrite Hnone]. intros Hrest.
  eapply rtc_l; [by eapply move_step|by apply IH].
Qed.

(** Where a schedule leads. *)
Definition played `{!forall g c, Decision (allowed g c)} (ms : list Move) (x : Pool S G C A) : Pool S G C A :=
  default x (schedule ms x).

Lemma played_steps `{!forall g c, Decision (allowed g c)} ms x : rtc pool_step x (played ms x).
Proof using Type. unfold played. destruct (schedule ms x) eqn:E; [by eapply schedule_steps|done]. Qed.

(** Every task that is running ends when it is left alone. *)
Definition all_end (x : Pool S G C A) : Prop :=
  forall t c p, tasks x !! t = Some (Running c p) -> ends p.

Lemma pool_all_end s0 g0 x :
  (forall c, ends (program c)) -> rtc pool_step (at_rest s0 g0) x -> all_end x.
Proof.
  intros Hprog Hrun. assert (H0 : all_end (at_rest s0 g0)) by (intros t c p; by simplify_map_eq).
  revert H0. induction Hrun as [x|x1 x2 x3 Hs _ IH]; [done|]. intros H1. apply IH.
  destruct Hs as [s g ts t c Ht Hc|s g ts t c p p' s' Ht Hs|s g ts t c p a Ht Hs|
    s g ts t c p a Ht Hp|s g ts t a Ht|s g ts s' He]; unfold all_end in *; cbn [tasks] in *;
    intros t1 c1 p1.
  - intros [[<- [= <- <-]]|[_ Hl]]%lookup_insert_Some; [done|by eapply H1].
  - intros [[<- [= <- <-]]|[_ Hl]]%lookup_insert_Some; [|by eapply H1]. eapply ends_step; [|done]. by eapply H1.
  - intros [_ Hl]%lookup_delete_Some. by eapply H1.
  - intros [[<- ?]|[_ Hl]]%lookup_insert_Some; [done|by eapply H1].
  - intros [_ Hl]%lookup_delete_Some. by eapply H1.
  - apply H1.
Qed.

(** What a task that was not there at [x0] has found at its accesses, it has found between [x0] and
    its return. *)
Lemma pool_reads (ok : S -> Prop) (watched : C -> Prop) (Q : C -> list S -> A -> Prop) x0 x t c p a :
  (forall c, watched c -> reads ok (program c) [] (Q c)) ->
  (forall z, rtc pool_step x0 z -> rtc pool_step z x -> ok (shared z)) ->
  rtc pool_step x0 x -> tasks x0 !! t = None ->
  tasks x !! t = Some (Running c p) -> step p (shared x) = inl a -> watched c ->
  exists seen, Q c seen a /\
    forall s, s ∈ seen -> exists z, rtc pool_step x0 z /\ rtc pool_step z x /\ shared z = s.
Proof using Type.
  intros Hprog Hok Hrun H0 Ht Hs Hc.
  assert (Hinv : forall z, rtc pool_step x0 z -> rtc pool_step z x ->
    forall c p, tasks z !! t = Some (Running c p) -> watched c -> exists seen, reads ok p seen (Q c) /\
      forall s, s ∈ seen -> exists y, rtc pool_step x0 y /\ rtc pool_step y z /\ shared y = s).
  { clear c p a Ht Hs Hc. intros z Hz. revert z Hz.
    apply (rtc_ind_r (fun z => rtc pool_step z x -> forall c p, tasks z !! t = Some (Running c p) -> watched c ->
      exists seen, reads ok p seen (Q c) /\
        forall s, s ∈ seen -> exists y, rtc pool_step x0 y /\ rtc pool_step y z /\ shared y = s)).
    { intros _ c p Ht. by rewrite H0 in Ht. }
    intros y z Hy Hyz IH Hzx c p Ht Hc.
    assert (Hyx : rtc pool_step y x) by (by eapply rtc_l). specialize (IH Hyx).
    assert (Hold : forall p, tasks y !! t = Some (Running c p) -> exists seen, reads ok p seen (Q c) /\
      forall s, s ∈ seen -> exists y, rtc pool_step x0 y /\ rtc pool_step y z /\ shared y = s).
    { intros p1 Hp. destruct (IH c p1 Hp Hc) as (seen & Hreads & Hseen). exists seen. split; [done|].
      intros s Hin. destruct (Hseen s Hin) as (y' & ? & ? & ?). exists y'. split_and!; [done| |done].
      by eapply rtc_r. }
    assert (Hoky := Hok y Hy Hyx). assert (Hrefl : rtc pool_step y z) by (by apply rtc_once).
    destruct Hyz as [s g ts t1 c1 Ht1 Hc1|s g ts t1 c1 p1 p' s' Ht1 Hs1|s g ts t1 c1 p1 a1 Ht1 Hs1|
      s g ts t1 c1 p1 m Ht1 Hp1|s g ts t1 m Ht1|s g ts s' He]; cbn [tasks] in *; [| | | | |by apply Hold].
    - apply lookup_insert_Some in Ht as [[-> [= -> <-]]|[_ Ht]]; [|by apply Hold].
      exists []. split; [by apply Hprog|]. by intros s1 ?%elem_of_nil.
    - apply lookup_insert_Some in Ht as [[-> [= -> <-]]|[_ Ht]]; [|by apply Hold].
      destruct (Hold p1 Ht1) as (seen & Hreads & Hseen). exists (s :: seen). split.
      + assert (Hr := reads_step ok p1 seen s _ Hreads Hoky). by rewrite Hs1 in Hr.
      + intros s1 [->|Hin]%elem_of_cons; [|by apply Hseen]. by exists (mkPool s g ts).
    - apply lookup_delete_Some in Ht as [_ Ht]. by apply Hold.
    - apply lookup_insert_Some in Ht as [[_ ?]|[_ Ht]]; [done|by apply Hold].
    - apply lookup_delete_Some in Ht as [_ Ht]. by apply Hold. }
  destruct (Hinv x Hrun ltac:(done) c p Ht Hc) as (seen & Hreads & Hseen). exists seen. split; [|done].
  assert (Hr := reads_step ok p seen (shared x) _ Hreads (Hok x Hrun ltac:(done))). by rewrite Hs in Hr.
Qed.

(** ** Draining

    No call comes any more, and no task is dropped. *)
Inductive drain_step : Pool S G C A -> Pool S G C A -> Prop :=
| drain_run s g ts t c p p' s' :
    ts !! t = Some (Running c p) -> step p s = inr (p', s') ->
    drain_step (mkPool s g ts) (mkPool s' g (<[t := Running c p']> ts))
| drain_return s g ts t c p a :
    ts !! t = Some (Running c p) -> step p s = inl a ->
    drain_step (mkPool s g ts) (mkPool s (publish c a g) (delete t ts))
| drain_late s g ts t m :
    ts !! t = Some (Detached m) -> drain_step (mkPool s g ts) (mkPool (m s).2 g (delete t ts)).

Lemma drain_pool_step x y : drain_step x y -> pool_step x y.
Proof. destruct 1; [by eapply pool_run|by eapply pool_return|by apply pool_late]. Qed.

Lemma solo_drains s g ts t c p a s' :
  solo p s a s' ->
  rtc drain_step (mkPool s g (<[t := Running c p]> ts)) (mkPool s' (publish c a g) (delete t ts)).
Proof.
  intros Hsolo. revert ts. induction Hsolo as [p s a Hs|p p' s s1 a s' Hs _ IH]; intros ts.
  - apply rtc_once. rewrite <- (delete_insert_eq ts t (Running c p)).
    apply drain_return with (p := p); [apply lookup_insert_eq|done].
  - eapply rtc_l; [eapply drain_run; [apply lookup_insert_eq|exact Hs]|]. rewrite insert_insert_eq. apply IH.
Qed.

(** However the tasks stand, all can be brought to their end. *)
Lemma pool_drains x : all_end x -> exists y, rtc drain_step x y /\ tasks y = ∅.
Proof.
  destruct x as [s g ts]. unfold all_end. cbn [tasks]. revert s g.
  induction ts as [|t task ts Hn IH] using map_ind; intros s g Hall; [by eexists|].
  assert (Hrest : forall t c p, ts !! t = Some (Running c p) -> ends p).
  { intros t' c p Ht'. apply (Hall t' c p). rewrite lookup_insert_ne; [done|congruence]. }
  destruct task as [c p|m].
  - destruct (ends_solo p s) as (a & s' & Hsolo); [eapply Hall, lookup_insert_eq|].
    destruct (IH s' (publish c a g) Hrest) as (y & Hy & Hq). exists y. split; [|done].
    etrans; [by apply solo_drains|]. by rewrite delete_id.
  - destruct (IH (m s).2 g Hrest) as (y & Hy & Hq). exists y. split; [|done].
    eapply rtc_l; [apply drain_late, lookup_insert_eq|]. by rewrite delete_insert_id.
Qed.

(** ** Soundness *)

Context {T : Type}.
Context (inv : G -> S -> list T -> Prop) (ext : relation (G * S)) (lost : T -> Prop).
Context (post : C -> G * S -> A -> T -> Prop) (small dropped : G -> Prop).
Context `{!PreOrder ext}.
Context (inv_perm : forall g s l l', l ≡ₚ l' -> inv g s l -> inv g s l').
Context (inv_lost : forall g s r l, dropped g -> inv g s (r :: l) -> lost r -> inv g s l).
Context (post_mono : forall c w w' a r, ext w w' -> post c w a r -> post c w' a r).
Context (call_ok : forall c g s l,
  allowed g c -> small (arrive c g) -> inv g s l ->
  ext (g, s) (arrive c g, s) /\
  exists r, inv (arrive c g) s (r :: l) /\
    wp inv ext lost (program c) (arrive c g, s) r (post c)).
Context (return_ok : forall c a g s r l,
  post c (g, s) a r -> inv g s (r :: l) -> ext (g, s) (publish c a g, s) /\ inv (publish c a g) s l).
Context (drop_ok : forall c g s l, inv g s l ->
  ext (g, s) (abandon c g, s) /\ inv (abandon c g) s l /\ dropped (abandon c g)).
Context (dropped_mono : forall g s g' s', ext (g, s) (g', s') -> dropped g -> dropped g').
Context (env_ok : forall g s s' l, env s s' -> inv g s l -> ext (g, s) (g, s') /\ inv g s' l).
Context (small_arrive : forall c g, small (arrive c g) -> small g).
Context (small_publish : forall c a g, small (publish c a g) -> small g).
Context (small_abandon : forall c g, small (abandon c g) -> small g).

(** What a task is proved to do from now on, with what it holds. *)
Definition task_ok (w : G * S) (task : Task S C A) (r : T) : Prop :=
  match task with
  | Running c p => wp inv ext lost p w r (post c)
  | Detached m => dropped w.1 /\ detached inv ext lost m w r
  end.

Definition held_by (m : gmap nat (Task S C A * T)) : list T := (fun kv => kv.2.2) <$> map_to_list m.

Definition pool_ok (x : Pool S G C A) : Prop :=
  exists m : gmap nat (Task S C A * T),
    tasks x = fst <$> m /\ inv (ghost x) (shared x) (held_by m) /\
    forall t task r, m !! t = Some (task, r) -> task_ok (ghost x, shared x) task r.

Lemma task_ok_mono w w' task r : ext w w' -> task_ok w task r -> task_ok w' task r.
Proof.
  intros He. destruct task as [c p|m]; simpl.
  - intros Hp. eapply wp_weaken; [done|done|done|]. intros w1 w2 a r1 He1. by apply post_mono.
  - destruct w as [g1 s1], w' as [g2 s2]. intros [Hd Hm]. split; [by eapply dropped_mono|].
    intros g s others He' Hi. apply Hm; [by etrans|done].
Qed.

Lemma held_by_insert m t task r :
  m !! t = None -> held_by (<[t := (task, r)]> m) ≡ₚ r :: held_by m.
Proof using Type. intros Hn. unfold held_by. by rewrite map_to_list_insert. Qed.

Lemma held_by_delete m t task r :
  m !! t = Some (task, r) -> held_by m ≡ₚ r :: held_by (delete t m).
Proof using Type.
  intros Hs. rewrite <- (insert_delete_id m t (task, r) Hs) at 1.
  apply held_by_insert, lookup_delete_eq.
Qed.

Lemma held_by_update m t task r task' r' :
  m !! t = Some (task, r) ->
  held_by (<[t := (task', r')]> m) ≡ₚ r' :: held_by (delete t m).
Proof using Type.
  intros Hs. rewrite <- insert_delete_eq. apply held_by_insert, lookup_delete_eq.
Qed.

(** A task's step: it leaves [task'] and [r'] in place of what it held. *)
Lemma pool_ok_update s g ts t m task r task' r' s' g' :
  ts = fst <$> m -> m !! t = Some (task, r) ->
  (forall t task r, m !! t = Some (task, r) -> task_ok (g, s) task r) ->
  ext (g, s) (g', s') -> inv g' s' (r' :: held_by (delete t m)) -> task_ok (g', s') task' r' ->
  pool_ok (mkPool s' g' (<[t := task']> ts)).
Proof.
  intros -> Hm Hall He Hi Hok. exists (<[t := (task', r')]> m). cbn [tasks ghost shared].
  split; [by rewrite fmap_insert|].
  split; [eapply inv_perm; [symmetry; by eapply held_by_update|done]|].
  intros t1 task1 r1 [[<- [= <- <-]]|[_ Hl]]%lookup_insert_Some; [done|].
  eapply task_ok_mono; [done|]. by eapply Hall.
Qed.

(** A task's end. *)
Lemma pool_ok_delete s g ts t m s' g' :
  ts = fst <$> m ->
  (forall t task r, m !! t = Some (task, r) -> task_ok (g, s) task r) ->
  ext (g, s) (g', s') -> inv g' s' (held_by (delete t m)) ->
  pool_ok (mkPool s' g' (delete t ts)).
Proof.
  intros -> Hall He Hi. exists (delete t m). cbn [tasks ghost shared].
  split; [by rewrite fmap_delete|]. split; [done|].
  intros t1 task1 r1 [_ Hl]%lookup_delete_Some. eapply task_ok_mono; [done|]. by eapply Hall.
Qed.

Lemma fmap_task (m : gmap nat (Task S C A * T)) t task :
  (fst <$> m) !! t = Some task -> exists r, m !! t = Some (task, r).
Proof using Type. rewrite lookup_fmap. intros ([task' r] & -> & ->)%fmap_Some. by exists r. Qed.

Lemma pool_step_ok x x' : pool_step x x' -> small (ghost x') -> pool_ok x -> pool_ok x'.
Proof.
  intros Hstep Hsm (m & Hts & Hi & Hall).
  destruct Hstep as [s g ts t c Ht Hc|s g ts t c p p' s' Ht Hs|s g ts t c p a Ht Hs|
    s g ts t c p a Ht Hp|s g ts t a Ht|s g ts s' He]; cbn [tasks ghost shared] in *.
  - destruct (call_ok c g s (held_by m) Hc Hsm Hi) as (He & r & Hi' & Hwp).
    assert (Hn : m !! t = None).
    { subst ts. rewrite lookup_fmap in Ht. by destruct (m !! t). }
    exists (<[t := (Running c (program c), r)]> m). cbn [tasks ghost shared].
    split; [by rewrite Hts, fmap_insert|].
    split; [eapply inv_perm; [symmetry; by apply held_by_insert|done]|].
    intros t1 task1 r1 [[<- [= <- <-]]|[_ Hl]]%lookup_insert_Some; [done|].
    eapply task_ok_mono; [done|]. by eapply Hall.
  - rewrite Hts in Ht. apply fmap_task in Ht as [r Hr]. assert (Hwp := Hall _ _ _ Hr).
    assert (Hi' := inv_perm _ _ _ _ (held_by_delete _ _ _ _ Hr) Hi).
    assert (H1 := wp_step inv ext lost p g s r _ _ Hwp Hi'). rewrite Hs in H1.
    destruct H1 as (He & r' & Hi2 & Hwp'). by eapply (pool_ok_update s g ts t m (Running c p) r _ r').
  - rewrite Hts in Ht. apply fmap_task in Ht as [r Hr]. assert (Hwp := Hall _ _ _ Hr).
    assert (Hi' := inv_perm _ _ _ _ (held_by_delete _ _ _ _ Hr) Hi).
    assert (H1 := wp_step inv ext lost p g s r _ _ Hwp Hi'). rewrite Hs in H1.
    destruct (return_ok c a g s r _ H1 Hi') as [He Hi2]. by eapply pool_ok_delete.
  - rewrite Hts in Ht. apply fmap_task in Ht as [r Hr]. assert (Hwp := Hall _ _ _ Hr).
    assert (Hi' := inv_perm _ _ _ _ (held_by_delete _ _ _ _ Hr) Hi).
    destruct (drop_ok c g s _ Hi') as (He & Hi2 & Hd).
    eapply (pool_ok_update s g ts t m (Running c p) r _ r); try done. split; [done|].
    intros g1 s1 others He1. eapply (wp_pending inv ext lost); [exact Hwp|exact Hp|by etrans].
  - rewrite Hts in Ht. apply fmap_task in Ht as [r Hr]. destruct (Hall _ _ _ Hr) as [Hdr Hd].
    assert (Hi' := inv_perm _ _ _ _ (held_by_delete _ _ _ _ Hr) Hi).
    destruct (Hd g s _ ltac:(done) Hi') as (He & r' & Hi2 & Hl).
    eapply pool_ok_delete; [done|done|done|]. by eapply inv_lost.
  - destruct (env_ok _ _ _ _ He Hi) as [Hext Hi']. exists m. split; [done|]. split; [done|].
    intros t task r Hr. eapply task_ok_mono; [done|]. by eapply Hall.
Qed.

Lemma small_back x x' : pool_step x x' -> small (ghost x') -> small (ghost x).
Proof. destruct 1; cbn [ghost]; eauto. Qed.

(** What holds at rest holds, with the invariant, after any interleaving. *)
Lemma pool_reachable_ok s0 g0 x :
  inv g0 s0 [] -> rtc pool_step (at_rest s0 g0) x -> small (ghost x) -> pool_ok x.
Proof.
  intros Hi Hrun.
  assert (H0 : small (ghost (at_rest s0 g0)) -> pool_ok (at_rest s0 g0)).
  { intros _. exists ∅. unfold held_by. rewrite map_to_list_empty. cbn. by rewrite fmap_empty. }
  revert H0. induction Hrun as [x|x1 x2 x3 Hs _ IH]; [done|]. intros H1. apply IH. intros Hsm.
  apply (pool_step_ok _ _ Hs Hsm), H1. by eapply small_back.
Qed.

(** When no task is left, nothing is held. *)
Lemma pool_ok_quiescent x : pool_ok x -> tasks x = ∅ -> inv (ghost x) (shared x) [].
Proof using Type.
  intros (m & Hts & Hi & _) Hq. rewrite Hq in Hts. symmetry in Hts.
  apply fmap_empty_inv in Hts as ->. unfold held_by in Hi. by rewrite map_to_list_empty in Hi.
Qed.
End pool.
