(* ===== verification/Inside.v ===== *)
(** What the accesses of a program leave alone ([every]), and programs on a part of a state, run on the
    whole: [inside] turns a program on [R] into one on [S],
    where [R] is a view of [S] and of a value [X] that the task keeps to itself.  What the program does
    alone, that it ends, and what the logic proves of it carry over. *)

From S2P Require Import Prelude Interleave.
From stdpp Require Import relations options.

(** * What accesses do *)

(** Every access relates the state it finds to the one it leaves by [P]. *)
Fixpoint every {S A} (P : relation S) (p : Prog S A) : Prop :=
  match p with
  | Ret _ => True
  | Act _ m k => (forall s, P s (m s).2) /\ forall b, every P (k b)
  | Iter cur body k => every P cur /\ (forall x, every P (body x)) /\ forall b, every P (k b)
  end.

Section every.
#[local] Set Default Proof Using "Type".
Context {S : Type} (P : relation S).

Lemma every_bind {A B} (p : Prog S A) (f : A -> Prog S B) :
  every P p -> (forall a, every P (f a)) -> every P (bind p f).
Proof.
  intros Hp Hf. induction p as [A a|A C aw m k IH|A C X cur _ body _ k IHk]; cbn [every bind] in *; naive_solver.
Qed.

Lemma every_bind_ok {E A B} (p : Prog S (Result E A)) (f : A -> Prog S (Result E B)) :
  every P p -> (forall a, every P (f a)) -> every P (bind_ok p f).
Proof. intros Hp Hf. apply every_bind; [done|]. by intros [a|e]. Qed.

Lemma every_act {A} aw (m : St S A) : (forall s, P s (m s).2) -> every P (Act aw m Ret).
Proof. by intros Hm. Qed.

Lemma every_any {A} (p : Prog S A) : every (fun _ _ => True) p.
Proof. induction p as [A a|A B aw m k IH|A B X cur IHc body IHb k IHk]; cbn [every]; auto. Qed.

Lemma every_step `{!PreOrder P} {A} (p p' : Prog S A) s s' :
  every P p -> step p s = inr (p', s') -> P s s' /\ every P p'.
Proof.
  revert p' s s'. induction p as [A a|A B aw m k IH|A B X cur IHc body IHb k IHk]; intros p' s s'; simpl.
  - done.
  - intros [Hm Hk]. specialize (Hm s). destruct (m s). intros [= <- <-]. by split.
  - intros (Hc & Hb & Hk). destruct (step cur s) as [[x|b]|[cur' s1]] eqn:Es; intros [= <- <-].
    + split; [done|]. by split.
    + by split.
    + destruct (IHc _ _ _ Hc Es) as [HP Hc']. by split.
Qed.

(** A run without interference. *)
Lemma every_solo `{!PreOrder P} {A} (p : Prog S A) s a s' : every P p -> solo p s a s' -> P s s'.
Proof.
  intros Hp Hs. induction Hs as [p s a Hs|p p' s s1 a s' Hs _ IH]; [done|].
  destruct (every_step _ _ _ _ Hp Hs) as [HP Hp']. etrans; [exact HP|by apply IH].
Qed.
End every.

(** * The part and the whole *)

(** A part [R] of what is shared and of what the task has: how it is read, and put back. *)
Record View (S X R : Type) := mkView {
  get_part : S * X -> R;
  set_part : R -> S * X -> S * X;
}.
Arguments mkView {S X R} get_part set_part.
Arguments get_part {S X R}.
Arguments set_part {S X R}.

Class ViewLaws {S X R} (l : View S X R) : Prop := {
  set_part_get : forall t, set_part l (get_part l t) t = t;
  get_part_set : forall r t, get_part l (set_part l r t) = r;
  set_part_set : forall r r' t, set_part l r' (set_part l r t) = set_part l r' t;
}.

Section inside.
Context {S X R : Type} (l : View S X R).

(** An access to the part. *)
Definition through {A} (m : St R A) : St (S * X) A := fun t =>
  let '(a, r) := m (get_part l t) in (a, set_part l r t).

(** The value the task keeps goes with the result. *)
Definition keeping {A} (m : St (S * X) A) (x : X) : St S (A * X) := fun s =>
  let '(a, (s, x)) := m (s, x) in ((a, x), s).

Definition turn_of {A B} (ox : (A + B) * X) : A * X + B * X :=
  match ox.1 with inl a => inl (a, ox.2) | inr b => inr (b, ox.2) end.

Fixpoint inside {A} (p : Prog R A) (x : X) : Prog S (A * X) :=
  match p with
  | Ret a => Ret (a, x)
  | Act aw m k => Act aw (keeping (through m) x) (fun bx => inside (k bx.1) bx.2)
  | Iter cur body k =>
      Iter (o <~ inside cur x ;; Ret (turn_of o))
        (fun yx => o <~ inside (body yx.1) yx.2 ;; Ret (turn_of o))
        (fun bx => inside (k bx.1) bx.2)
  end.
End inside.

(** * Alone *)

Section alone.
#[local] Set Default Proof Using "Type*".
Context {S X R : Type} (l : View S X R) `{!ViewLaws l}.

(** The step of the part is a step of the whole. *)
Lemma step_inside {A} (p : Prog R A) s x :
  match step p (get_part l (s, x)) with
  | inl a => inside l p x = Ret (a, x)
  | inr (p', r) => step (inside l p x) s = inr (inside l p' (set_part l r (s, x)).2, (set_part l r (s, x)).1)
  end.
Proof.
  induction p as [A a|A B aw m k IH|A B Y cur IHc body _ k _]; cbn [step inside]; [done| |].
  - unfold keeping, through. destruct (m _) as [b r]. by destruct (set_part l r (s, x)).
  - destruct (step cur _) as [[y|b]|[cur' r]].
    1,2: rewrite IHc; cbn [bind]; by rewrite ?(set_part_get (s, x)).
    by rewrite (step_bind _ _ _ _ _ IHc).
Qed.

Lemma solo_inside {A} (p : Prog R A) r0 a r :
  solo p r0 a r -> forall s x, get_part l (s, x) = r0 ->
  solo (inside l p x) s (a, (set_part l r (s, x)).2) (set_part l r (s, x)).1.
Proof.
  induction 1 as [p r0 a Hs|p p' r0 r1 a r Hs _ IH]; intros s x Hl; assert (Hp := step_inside p s x).
  - rewrite Hl, Hs in Hp. rewrite Hp, <- Hl, (set_part_get (s, x)). apply solo_ret.
  - rewrite Hl, Hs in Hp. eapply solo_more; [exact Hp|].
    specialize (IH (set_part l r1 (s, x)).1 (set_part l r1 (s, x)).2).
    rewrite <- surjective_pairing, get_part_set, set_part_set in IH. by apply IH.
Qed.

Lemma ends_inside {A} (p : Prog R A) x : ends p -> ends (inside l p x).
Proof.
  revert x. induction p as [A a|A B aw m k IH|A B Y cur IHc body IHb k IHk]; intros x; cbn [ends inside].
  - done.
  - intros Hk [b x']. by apply IH.
  - intros (Hc & Hb & Hone & Hk). split; [by apply ends_bind; [apply IHc|]|].
    split; [intros [y x']; by apply ends_bind; [apply IHb|]|].
    split; [|intros [b x']; by apply IHk].
    intros [y x'] s. destruct (Hone y (get_part l (s, x'))) as (b & r & Hs).
    eexists (b, _), _. eapply solo_bind; [by apply (solo_inside _ _ _ _ Hs)|]. apply solo_ret.
Qed.

Lemma every_inside {A} (P : relation R) (P' : relation S) (p : Prog R A) x :
  (forall s x r, P (get_part l (s, x)) r -> P' s (set_part l r (s, x)).1) ->
  every P p -> every P' (inside l p x).
Proof using Type.
  intros HP. revert x. induction p as [A a|A B aw m k IH|A B Y cur IHc body IHb k IHk]; intros x;
    cbn [every inside]; [done| |].
  - intros [Hm Hk]. split; [|intros [b x']; by apply IH].
    intros s. specialize (HP s x _ (Hm _)). unfold keeping, through in *.
    destruct (m _) as [b r]. cbn [fst snd] in *. by destruct (set_part l r (s, x)).
  - intros (Hc & Hb & Hk). split; [apply every_bind; [by apply IHc|done]|].
    split; [intros [y x']; apply every_bind; [by apply IHb|done]|]. intros [b x']. by apply IHk.
Qed.

(** It does on the whole what the operation does on the part. *)
Lemma does_inside {A} (P : R -> Prop) (Q : S -> Prop) (p : Prog R A) m x :
  does P p m -> (forall s, Q s -> P (get_part l (s, x))) -> (forall r s, Q s -> P r -> Q (set_part l r (s, x)).1) ->
  does Q (inside l p x) (keeping (through l m) x).
Proof.
  intros Hp Hget Hset s Hs. destruct (Hp _ (Hget s Hs)) as [Hsolo HP].
  specialize (Hset _ s Hs HP). apply solo_inside with (s := s) (x := x) in Hsolo; [|done].
  unfold keeping, through. destruct (m _) as [a r]. cbn [fst snd] in *. by destruct (set_part l r (s, x)).
Qed.
End alone.

(** * Among others *)

Section logic.
#[local] Set Default Proof Using "All".
Context {S X R G T : Type} (l : View S X R) `{!ViewLaws l}.
Context (inv : G -> R -> list T -> Prop) (ext : relation (G * R)).
Context (whole_inv : G -> S -> list T -> Prop) (whole_ext : relation (G * S)) (lost : T -> Prop)
  `{!PreOrder whole_ext}.
Context (get_inv : forall g s x held, whole_inv g s held -> inv g (get_part l (s, x)) held).
Context (set_inv : forall g s x r held held',
  whole_inv g s held -> inv g r held' -> whole_inv g (set_part l r (s, x)).1 held').
Context (get_ext : forall g s g' s' x x',
  whole_ext (g, s) (g', s') -> ext (g, get_part l (s, x)) (g', get_part l (s', x'))).
Context (set_ext : forall g s x r, ext (g, get_part l (s, x)) (g, r) -> whole_ext (g, s) (g, (set_part l r (s, x)).1)).

(** What is proved of a program on the part holds when it is run on the whole. *)
Lemma wp_inside {A} (p : Prog R A) g s x held (Q : G * R -> A -> T -> Prop) (Q' : G * S -> A * X -> T -> Prop) :
  wp inv ext lost p (g, get_part l (s, x)) held Q ->
  (forall g s x a held, Q (g, get_part l (s, x)) a held -> Q' (g, s) (a, x) held) ->
  wp whole_inv whole_ext lost (inside l p x) (g, s) held Q'.
Proof.
  revert g s x held Q Q'. induction p as [A a|A B aw m k IH|A B Y cur IHc body IHb k IHk];
    intros g s x held Q Q' Hp HQ; cbn [wp inside] in *; [by apply HQ| |].
  - intros g' s' others He Hi.
    specialize (Hp g' (get_part l (s', x)) others (get_ext _ _ _ _ _ _ He) (get_inv _ _ _ _ Hi)).
    unfold keeping, through. destruct (m _) as [b r]. destruct Hp as (Hext & held' & Hi' & Hk & Hl).
    apply set_ext in Hext. apply (set_inv _ _ x _ _ _ Hi) in Hi'.
    assert (Eget := get_part_set r (s', x)). destruct (set_part l r (s', x)) as [s2 x2].
    split; [done|]. exists held'. split; [done|]. split; [|done].
    eapply IH; [|exact HQ]. cbn [fst snd]. by rewrite Eget.
  - destruct Hp as (I & Hc & Hb). exists (fun yx => I yx.1).
    assert (Hpost : forall g s x (o : Y + B) held,
      match o with inr b => wp inv ext lost (k b) (g, get_part l (s, x)) held Q | inl y => I y held end ->
      match turn_of (o, x) with
      | inr bx => wp whole_inv whole_ext lost (inside l (k bx.1) bx.2) (g, s) held Q'
      | inl yx => I yx.1 held
      end).
    { intros g1 s1 x1 [y|b] held1; [done|]. intros Hk. by eapply IHk. }
    split.
    + apply wp_bind; [apply _|]. eapply IHc; [exact Hc|]. intros g1 s1 x1 o held1. apply Hpost.
    + intros [g1 s1] [y x1] held1 He Hy. apply wp_bind; [apply _|].
      eapply IHb; [apply (Hb (g1, get_part l (s1, x1))); [by apply get_ext|exact Hy]|].
      intros g2 s2 x2 o held2. apply Hpost.
Qed.
End logic.

(** * A second invariant

    What every access of a program is known to do keeps a second invariant, in which the task holds
    [u] throughout; the first may be about a part of the ghost state. *)

Section also.
#[local] Set Default Proof Using "All".
Context {S G G' T U : Type} (part : G' -> G).
Context (inv : G -> S -> list T -> Prop) (ext : relation (G * S)) (lost : T -> Prop).
Context (grows : relation G') (second : G' -> S -> list U -> Prop) (P : relation S).
Context (kept : forall g s s' l, P s s' -> second g s l -> second g s' l).

Definition both_inv (g : G') (s : S) (l : list (T * U)) : Prop :=
  inv (part g) s (fst <$> l) /\ second g s (snd <$> l).

Definition both_ext (w w' : G' * S) : Prop := ext (part w.1, w.2) (part w'.1, w'.2) /\ grows w.1 w'.1.

#[export] Instance both_ext_preorder `{!PreOrder ext} `{!PreOrder grows} : PreOrder both_ext.
Proof using Type.
  split; [by intros w|]. intros w1 w2 w3 [Hx Hg] [Hx' Hg']. split; by etrans.
Qed.

Lemma wp_also `{!PreOrder grows} {A} (both_lost : T * U -> Prop) (p : Prog S A) g s r u
    (Q : G * S -> A -> T -> Prop) (Q' : G' * S -> A -> T * U -> Prop) :
  wp inv ext lost p (part g, s) r Q -> every P p -> (forall r, lost r -> both_lost (r, u)) ->
  (forall g s a r, Q (part g, s) a r -> Q' (g, s) a (r, u)) ->
  wp both_inv both_ext both_lost p (g, s) (r, u) Q'.
Proof.
  intros Hp He Hlost. revert g s r Q Q' Hp He.
  induction p as [A a|A B aw m k IH|A B X cur IHc body IHb k IHk]; intros g s r Q Q' Hp He HQ; cbn [wp every] in *.
  - by apply HQ.
  - intros g' s' others Hext [Hi Hs]. destruct He as [Hm Hk]. specialize (Hm s').
    destruct Hext as [Hext _]. specialize (Hp (part g') s' (others.*1) Hext Hi). destruct (m s') as [b s2]. cbn [snd] in Hm.
    destruct Hp as (Hext' & r' & Hi' & Hwp & Hl). split; [done|]. exists (r', u).
    split; [split; [done|by eapply kept]|]. split; [|auto]. by eapply IH.
  - destruct Hp as (I & Hc & Hb). destruct He as (Hec & Heb & Hek).
    exists (fun x ru => I x ru.1 /\ ru.2 = u).
    assert (Hpost : forall g s (o : X + B) r,
      match o with inr b => wp inv ext lost (k b) (part g, s) r Q | inl x => I x r end ->
      match o with
      | inr b => wp both_inv both_ext both_lost (k b) (g, s) (r, u) Q'
      | inl x => I x r /\ u = u
      end).
    { intros g1 s1 [x|b] r1; [done|]. intros Hwp. by eapply IHk. }
    split.
    + eapply IHc; [exact Hc|done|]. intros g1 s1 o r1. apply Hpost.
    + intros [g1 s1] x [r1 u1] [Hext _] [Hx Hu]. cbn [fst snd] in *. subst u1.
      eapply IHb; [apply (Hb (part g1, s1)); [exact Hext|exact Hx]|done|].
      intros g2 s2 o r2. apply Hpost.
Qed.
End also.
