(* ===== verification/Locked.v ===== *)
(** Operations under a mutex: programs that run between acquiring and releasing one of the locks that
    guard a state they share.  When all of them take the same lock their executions are serializable;
    DiskShared.v is the client. *)

From S2P Require Import Prelude Interleave.
From stdpp Require Import relations options.

(** * Guarded programs *)

(** The state with the locks that are held. *)
Record Locked (D : Type) := mkLocked {
  locks : gset nat;
  inside : D;
}.
Arguments mkLocked {D} locks inside.
Arguments locks {D}.
Arguments inside {D}.

Section programs.
Context {D : Type}.

Definition try_lock (l : nat) : St (Locked D) (unit + unit) := fun s =>
  if decide (l ∈ locks s) then (again, s) else (leave tt, mkLocked ({[l]} ∪ locks s) (inside s)).

Definition unlock (l : nat) : St (Locked D) unit := fun s =>
  (tt, mkLocked (locks s ∖ {[l]}) (inside s)).

Definition acquire (l : nat) : Prog (Locked D) unit := loop (Act false (try_lock l) Ret).

(** A program on the guarded state. *)
Definition on_inside {B} (m : St D B) : St (Locked D) B := fun s =>
  let '(b, d) := m (inside s) in (b, mkLocked (locks s) d).

Fixpoint lift {A} (p : Prog D A) : Prog (Locked D) A :=
  match p with
  | Ret a => Ret a
  | Act aw m k => Act aw (on_inside m) (fun b => lift (k b))
  | Iter cur body k => Iter (lift cur) (fun x => lift (body x)) (fun b => lift (k b))
  end.

(** [let _guard = lock.lock().await; body] *)
Definition guarded {A} (l : nat) (body : Prog D A) : Prog (Locked D) A :=
  _ <~ acquire l ;;
  a <~ lift body ;;
  _ <~ atomic (unlock l) ;;
  Ret a.

(** A program without loops and awaits. *)
Fixpoint straight {A} (p : Prog D A) : Prop :=
  match p with
  | Ret _ => True
  | Act aw _ k => aw = false /\ forall b, straight (k b)
  | Iter _ _ _ => False
  end.

Lemma straight_bind {A B} (p : Prog D A) (f : A -> Prog D B) :
  straight p -> (forall a, straight (f a)) -> straight (bind p f).
Proof.
  intros Hp Hf. induction p as [A a|A B' aw m k IH|A B' X cur _ body _ k _]; simpl in *; [done| |done].
  destruct Hp as [-> Hk]. auto.
Qed.

Lemma straight_bind_ok {A B} (p : Prog D (Result Error A)) (f : A -> Prog D (Result Error B)) :
  straight p -> (forall a, straight (f a)) -> straight (bind_ok p f).
Proof. intros Hp Hf. apply straight_bind; [done|]. by intros [a|e]. Qed.

Lemma straight_ends {A} (p : Prog D A) : straight p -> ends p.
Proof.
  induction p as [A a|A B aw m k IH|A B X cur _ body _ k _]; simpl; [done| |done].
  intros [_ Hk] b. by apply IH.
Qed.

(** Without interference a program has one result. *)
Lemma solo_inv {A} (p : Prog D A) s a s' :
  solo p s a s' ->
  match step p s with inl b => b = a /\ s' = s | inr (p', s1) => solo p' s1 a s' end.
Proof. by intros [? ? ? ->|? ? ? ? ? ? -> ?]. Qed.

Lemma solo_unique {A} (p : Prog D A) s a s' b s2 : solo p s a s' -> solo p s b s2 -> a = b /\ s' = s2.
Proof.
  induction 1 as [p s a Hs|p p' s s1 a s' Hs _ IH]; intros H2%solo_inv; rewrite Hs in H2;
    [by destruct H2 as [-> ->]|by apply IH].
Qed.

Lemma solo_act_inv {A B} aw (m : St D B) (k : B -> Prog D A) s a s' :
  solo (Act aw m k) s a s' -> solo (k (m s).1) (m s).2 a s'.
Proof. intros Hs%solo_inv. simpl in Hs. by destruct (m s). Qed.
End programs.

(** * Serializability *)

Section serial.
#[local] Set Default Proof Using "All".
Context {C A D : Type}.
Context (body : C -> Prog D A) (l : nat).
Context (body_straight : forall c, straight (body c)).

(** The calls of a list one after another, with their results. *)
Inductive serial (d0 : D) : list (C * A) -> D -> Prop :=
| serial_none : serial d0 [] d0
| serial_more done_ d c a d' :
    serial d0 done_ d -> solo (body c) d a d' -> serial d0 (done_ ++ [(c, a)]) d'.

(** What a task holds: nothing yet; the lock, with the result it is bound to reach and the state it
    has reached; or its result, the lock being released. *)
Inductive Guard :=
| Waiting
| Inside (c : C) (a : A) (final reached : D)
| Finished (c : C) (a : A).

Definition finished_of (r : Guard) : option (C * A) :=
  match r with Finished c a => Some (c, a) | _ => None end.

Definition out (r : Guard) : Prop :=
  match r with Inside _ _ _ _ => False | _ => True end.

(** The results returned so far, the newest first. *)
Abbreviation Returned := (list (C * A)).

Definition calls_in_order (d0 : D) (g : Returned) (rs : list Guard) (order : list (C * A)) (d : D) : Prop :=
  serial d0 order d /\ order ≡ₚ omap finished_of rs ++ g.

Definition guard_inv (d0 : D) (g : Returned) (s : Locked D) (rs : list Guard) : Prop :=
  exists order d, calls_in_order d0 g rs order d /\
    ((l ∉ locks s /\ inside s = d /\ Forall out rs) \/
     (l ∈ locks s /\ exists c a final rest,
        rs ≡ₚ Inside c a final (inside s) :: rest /\ Forall out rest /\ solo (body c) d a final)).

Definition any_ext : relation (Returned * Locked D) := fun _ _ => True.

Definition post_guard (c : C) (w : Returned * Locked D) (a : A) (r : Guard) : Prop := r = Finished c a.

Abbreviation wpg d0 := (wp (guard_inv d0) any_ext (fun _ => False)).

#[local] Instance any_ext_preorder : PreOrder any_ext.
Proof. done. Qed.

Lemma guard_inv_perm d0 g s rs rs' : rs ≡ₚ rs' -> guard_inv d0 g s rs -> guard_inv d0 g s rs'.
Proof.
  intros Hp (order & d & [Hs Ho] & Hc). exists order, d. split; [split; [done|by rewrite <- Hp]|].
  destruct Hc as [(? & ? & ?)|(? & c & a & f & rest & Hr & ?)]; [left|right].
  - by rewrite <- Hp.
  - split; [done|]. exists c, a, f, rest. by rewrite <- Hp.
Qed.

(** The task that is inside is the only one, and the state is the one it has reached. *)
Lemma guard_inv_inside d0 g s rs c a final reached :
  guard_inv d0 g s (Inside c a final reached :: rs) ->
  reached = inside s /\ l ∈ locks s /\ Forall out rs /\
  exists order d, calls_in_order d0 g rs order d /\ solo (body c) d a final.
Proof.
  intros (order & d & Hord & [(_ & _ & Hout)|(Hl & c' & a' & f' & rest & Hr & Hout & Hsolo)]).
  { by apply Forall_cons in Hout as [? _]. }
  assert (Hin : Inside c a final reached ∈ Inside c' a' f' (inside s) :: rest) by (rewrite <- Hr; by left).
  apply elem_of_cons in Hin as [[= -> -> -> ->]|Hin].
  - apply Permutation.Permutation_cons_inv in Hr. rewrite Hr. split; [done|]. split; [done|].
    split; [done|]. exists order, d. destruct Hord as [? Ho]. split; [|done]. split; [done|].
    rewrite Ho. simpl. by rewrite Hr.
  - rewrite Forall_forall in Hout. by apply Hout in Hin.
Qed.

Lemma guard_inv_move d0 g s rs c a final reached d' :
  guard_inv d0 g s (Inside c a final reached :: rs) ->
  guard_inv d0 g (mkLocked (locks s) d') (Inside c a final d' :: rs).
Proof.
  intros Hi. destruct (guard_inv_inside _ _ _ _ _ _ _ _ Hi) as (-> & Hl & Hout & order & d & Hord & Hsolo).
  exists order, d. split; [done|]. right. split; [done|]. by exists c, a, final, rs.
Qed.

Lemma guard_inv_enter d0 g s rs c :
  guard_inv d0 g s (Waiting :: rs) -> l ∉ locks s ->
  exists a final, solo (body c) (inside s) a final /\
    guard_inv d0 g (mkLocked ({[l]} ∪ locks s) (inside s)) (Inside c a final (inside s) :: rs).
Proof.
  intros (order & d & Hord & [(_ & <- & Hout)|(Hl & _)]) Hn; [|done].
  apply Forall_cons in Hout as [_ Hout].
  destruct (ends_solo (body c) (inside s) (straight_ends _ (body_straight c))) as (a & final & Hsolo).
  exists a, final. split; [done|]. exists order, (inside s). split; [done|]. right.
  split; [simpl; set_solver|]. by exists c, a, final, rs.
Qed.

Lemma guard_inv_leave d0 g s rs c a final :
  guard_inv d0 g s (Inside c a final final :: rs) ->
  guard_inv d0 g (mkLocked (locks s ∖ {[l]}) (inside s)) (Finished c a :: rs).
Proof.
  intros Hi. destruct (guard_inv_inside _ _ _ _ _ _ _ _ Hi) as (-> & Hl & Hout & order & d & [Hs Ho] & Hsolo).
  exists (order ++ [(c, a)]), (inside s). split.
  - split; [by eapply serial_more|]. simpl. rewrite Ho. by rewrite <- Permutation_cons_append.
  - left. split; [simpl; set_solver|]. split; [done|]. by constructor.
Qed.

(** The body runs as it would alone. *)
Lemma wp_body {B} (q : Prog D B) d0 w c a final reached (b : B) d' (k : B -> Prog (Locked D) A) Q :
  straight q -> solo q reached b d' ->
  (forall w', wpg d0 (k b) w' (Inside c a final d') Q) ->
  wpg d0 (bind (lift q) k) w (Inside c a final reached) Q.
Proof.
  revert w reached. induction q as [B b'|B B' aw m f IH|B B' X cur _ bd _ f _]; intros w reached Hst Hsolo Hk.
  - destruct (solo_unique _ _ _ _ _ _ Hsolo (solo_ret b' reached)) as [-> ->]. apply Hk.
  - destruct Hst as [-> Hst]. apply solo_act_inv in Hsolo. intros g s others _ Hi.
    destruct (guard_inv_inside _ _ _ _ _ _ _ _ Hi) as (-> & _). unfold on_inside.
    destruct (m (inside s)) as [b1 d1]. split; [done|]. exists (Inside c a final d1).
    split; [by eapply guard_inv_move|]. split; [|done]. eapply IH; [done|exact Hsolo|exact Hk].
  - done.
Qed.

Lemma wp_guarded d0 w c : wpg d0 (guarded l (body c)) w Waiting (post_guard c).
Proof.
  apply wp_bind; [apply _|]. exists (fun _ r => r = Waiting).
  assert (Hturn : forall w, wpg d0 (Act false (try_lock l) Ret) w Waiting
    (fun w' o r' => match o with
     | inr tt => wpg d0 (Ret tt) w' r' (fun w' a r' => wpg d0 (a0 <~ lift (body c) ;;
         _ <~ atomic (unlock l) ;; Ret a0) w' r' (post_guard c))
     | inl _ => r' = Waiting end)).
  { intros w1 g s others _ Hi. unfold try_lock. destruct (decide (l ∈ locks s)) as [|Hn].
    - split; [done|]. by exists Waiting.
    - destruct (guard_inv_enter d0 g s others c Hi Hn) as (a & final & Hsolo & Hi').
      split; [done|]. eexists. split; [exact Hi'|]. split; [|done].
      apply (wp_body (body c) d0 _ c a final (inside s) a final); [apply body_straight|exact Hsolo|].
      intros w2 g2 s2 others2 _ Hi2. split; [done|]. exists (Finished c a).
      split; [by eapply guard_inv_leave|]. split; [|done]. done. }
  split; [|intros w1 x r1 _ ->]; (eapply wp_conseq; [apply _| |apply Hturn]); by intros w2 [?|[]] r2.
Qed.

(** ** The pool of calls under one lock *)

Definition serial_step (env : relation (Locked D)) : relation (Pool (Locked D) Returned C A) :=
  pool_step (fun c => guarded l (body c)) (fun _ _ => True) (fun _ g => g) (fun c a g => (c, a) :: g)
    (fun _ g => g) env.

(** Whatever the interleaving, once all tasks are done there is an order of the calls in which, one
    after another, they give the results they gave and the state that is there. *)
Lemma guarded_serializable d0 x :
  rtc (serial_step (fun _ _ => False)) (at_rest (mkLocked ∅ d0) []) x -> tasks x = ∅ ->
  exists order, order ≡ₚ ghost x /\ serial d0 order (inside (shared x)).
Proof.
  intros Hrun Hq.
  assert (Hok : pool_ok (guard_inv d0) any_ext (fun _ => False) post_guard (fun _ => True) x).
  { apply (pool_reachable_ok (fun c => guarded l (body c)) (fun _ _ => True) (fun _ g => g)
      (fun c a g => (c, a) :: g) (fun _ g => g) (fun _ _ => False) (guard_inv d0) any_ext (fun _ => False)
      post_guard (fun _ => True) (fun _ => True)) with (s0 := mkLocked ∅ d0) (g0 := []); try done.
    - apply guard_inv_perm.
    - intros c g s rs _ _ (order & d & [Hs Ho] & Hc). split; [done|]. exists Waiting.
      split; [|apply wp_guarded]. exists order, d. split; [done|].
      destruct Hc as [(? & ? & ?)|(? & c' & a & f & rest & Hr & Hout & ?)]; [left|right].
      + split; [done|]. split; [done|]. by constructor.
      + split; [done|]. exists c', a, f, (Waiting :: rest). split; [|split; [by constructor|done]].
        rewrite Hr. constructor.
    - intros c a g s r rs -> (order & d & [Hs Ho] & Hc). split; [done|]. exists order, d.
      split; [split; [done|]|].
      + rewrite Ho. simpl. apply Permutation_middle.
      + destruct Hc as [(? & ? & Hout)|(? & c' & a' & f & rest & Hr & Hout & ?)]; [left|right].
        * by apply Forall_cons in Hout as [_ ?].
        * split; [done|].
          assert (Hin : Finished c a ∈ rest).
          { assert (Hin : Finished c a ∈ Inside c' a' f (inside s) :: rest) by (rewrite <- Hr; by left).
            by apply elem_of_cons in Hin as [?|?]. }
          apply elem_of_Permutation in Hin as [rest' Hrest]. exists c', a', f, rest'.
          split; [|split; [by rewrite Hrest in Hout; apply Forall_cons in Hout as [_ ?]|done]].
          apply (Permutation.Permutation_cons_inv (a := Finished c a)). rewrite Hr, Hrest. constructor.
    - exists [], d0. split; [split; [constructor|done]|]. left. simpl. split; [set_solver|done]. }
  destruct (pool_ok_quiescent _ _ _ _ _ _ Hok Hq) as (order & d & [Hs Ho] & Hc). exists order.
  split; [done|]. destruct Hc as [(_ & -> & _)|(_ & c & a & f & rest & Hr & _)]; [done|].
  by apply Permutation_nil_cons in Hr.
Qed.
End serial.
