(* ===== verification/BlobRuntime.v ===== *)
(** blob_runtime.rs: the store of request and response bodies, in memory while the budgets allow it
    and spilled to files otherwise.  The sequential operations are proved to implement a map from
    identifiers to contents; BlobShared.v has the same operations under interleaving. *)

From S2P Require Import Prelude RustStr Json Pointer Ext Samples.
From stdpp Require Import options.

(** * Data *)

Record BlobRuntimeConfig := mkBlobRuntimeConfig {
  inline_max_bytes : Z;
  request_hot_budget_bytes : Z;
  global_hot_budget_bytes : Z;
  spill_dir : string;
}.

Record BlobMeta := mkBlobMeta {
  mime_type : string;
  size_bytes : Z;
}.

Inductive BlobStorage :=
| Inline (bs : bytes)
| Shared (bs : bytes)
| Spilled (path : string).

(** The flag [removed] of a [BlobInner] is shared by every clone of its handle: it lives in the
    runtime's state, under the handle's identifier. *)
Record BlobHandle := mkBlobHandle {
  blob_id : Z;
  meta : BlobMeta;
  storage : BlobStorage;
}.

Record BlobRuntimeStatsSnapshot := mkBlobRuntimeStatsSnapshot {
  snapshot_spill_count : Z;
  snapshot_spill_bytes_total : Z;
}.

Record BlobRuntimeInner (W : Type) := mkBlobRuntimeInner {
  cfg : BlobRuntimeConfig;
  next_id_counter : Z;
  global_hot_bytes : Z;
  spill_count : Z;
  spill_bytes_total : Z;
  removed : gset Z;
  world : W;
}.
Arguments mkBlobRuntimeInner {W}.
Arguments cfg {W}.
Arguments next_id_counter {W}.
Arguments global_hot_bytes {W}.
Arguments spill_count {W}.
Arguments spill_bytes_total {W}.
Arguments removed {W}.
Arguments world {W}.

Definition set_hot {W} (h : Z) (s : BlobRuntimeInner W) : BlobRuntimeInner W :=
  mkBlobRuntimeInner (cfg s) (next_id_counter s) h (spill_count s) (spill_bytes_total s)
    (removed s) (world s).

Definition set_world {W} (w : W) (s : BlobRuntimeInner W) : BlobRuntimeInner W :=
  mkBlobRuntimeInner (cfg s) (next_id_counter s) (global_hot_bytes s) (spill_count s)
    (spill_bytes_total s) (removed s) w.

(** An operation on the world, from inside the runtime; an I/O error becomes an [anyhow] error. *)
Definition on_world {W A} (m : St W A) : St (BlobRuntimeInner W) A :=
  fun s => let '(a, w) := m (world s) in (a, set_world w s).

Definition io {W A} (m : St W (Result IoError A)) : StE (BlobRuntimeInner W) A :=
  fun s => let '(r, s') := on_world m s in (map_err (fun e => ExternalError (io_display e)) r, s').

(** * Paths ([std::path], separator [/]) *)

(** [dir.join(file)] *)
Definition path_join (dir file : string) : string :=
  if is_empty dir then file else if ends_with dir "/" then dir +:+ file else dir +:+ "/" +:+ file.

(** [path.parent()] of a path without a trailing or doubled separator *)
Definition path_parent (path : string) : option string :=
  if is_empty path then None else
  match split_once "/" (string_rev path) with
  | None => Some EmptyString
  | Some (_, rest) => Some (if is_empty rest then "/" else string_rev rest)
  end.

(** * The runtime *)

Definition runtime_new {W} (cfg : BlobRuntimeConfig) (w : W) : BlobRuntimeInner W :=
  mkBlobRuntimeInner cfg 1 0 0 0 ∅ w.

Definition next_id {W} : St (BlobRuntimeInner W) Z := fun s =>
  (next_id_counter s,
   mkBlobRuntimeInner (cfg s) (u64_wrap (next_id_counter s + 1)) (global_hot_bytes s)
     (spill_count s) (spill_bytes_total s) (removed s) (world s)).

(** One turn of the loop of [try_inline_reserve] before its compare-and-exchange: the value to
    install in place of [current], if the budget allows it. *)
Definition reserve_attempt (cfg : BlobRuntimeConfig) (size_bytes current : Z) : option Z :=
  match u64_checked_add current size_bytes with
  | None => None
  | Some next => if (global_hot_budget_bytes cfg <? next)%Z then None else Some next
  end.

(** The guards before the loop. *)
Definition fits_inline (cfg : BlobRuntimeConfig) (size_bytes : Z) : bool :=
  negb ((inline_max_bytes cfg <? size_bytes)%Z || (request_hot_budget_bytes cfg <? size_bytes)%Z).

(** Without interference the exchange succeeds at the first turn; the interleaved loop is in
    BlobShared.v. *)
Definition try_inline_reserve {W} (size_bytes : Z) : St (BlobRuntimeInner W) bool := fun s =>
  if negb (fits_inline (cfg s) size_bytes) then (false, s) else
  match reserve_attempt (cfg s) size_bytes (global_hot_bytes s) with
  | None => (false, s)
  | Some next => (true, set_hot next s)
  end.

Definition release_inline_bytes {W} (size_bytes : Z) : St (BlobRuntimeInner W) unit := fun s =>
  (tt, set_hot (u64_wrap (global_hot_bytes s - size_bytes)) s).

Definition record_spill {W} (size_bytes : Z) : St (BlobRuntimeInner W) unit := fun s =>
  (tt, mkBlobRuntimeInner (cfg s) (next_id_counter s) (global_hot_bytes s)
         (u64_wrap (spill_count s + 1)) (u64_wrap (spill_bytes_total s + size_bytes))
         (removed s) (world s)).

Definition spill_path (cfg : BlobRuntimeConfig) (id : Z) : string :=
  path_join (spill_dir cfg) ("blob-" +:+ fmt_Z id +:+ ".bin").

Definition build_handle (id : Z) (mime_type : string) (size_bytes : Z) (storage : BlobStorage)
    : BlobHandle :=
  mkBlobHandle id (mkBlobMeta mime_type size_bytes) storage.

Section operations.
Context {W : Type} `{FileSystem W}.
Abbreviation Rt := (BlobRuntimeInner W).

Definition ensure_parent_dir (path : string) : StE Rt unit :=
  match path_parent path with
  | Some parent => io (fs_create_dir_all parent)
  | None => ste_ok tt
  end.

Definition write_spilled_bytes (id : Z) (bs : bytes) : StE Rt string := fun s =>
  let path := spill_path (cfg s) id in
  (_ <-? ensure_parent_dir path ;;
   _ <-? io (fs_write path bs) ;;
   ste_ok path) s.

(** The storage of bytes held in memory: inline when it can be reserved, else spilled. *)
Definition choose_storage (id : Z) (bs : bytes) (size_bytes : Z) : StE Rt BlobStorage :=
  reserved <-! try_inline_reserve size_bytes ;;
  if reserved : bool then ste_ok (Inline bs) else
  spilled_path <-? write_spilled_bytes id bs ;;
  _ <-! record_spill size_bytes ;;
  ste_ok (Spilled spilled_path).

Definition store_bytes (bs : bytes) (mime_type : string) : StE Rt BlobHandle :=
  let size_bytes := blen bs in
  id <-! next_id ;;
  storage <-? choose_storage id bs size_bytes ;;
  ste_ok (build_handle id mime_type size_bytes storage).

Definition store_shared_bytes (bs : bytes) (mime_type : string) : StE Rt BlobHandle :=
  let size_bytes := blen bs in
  id <-! next_id ;;
  storage <-? choose_storage id bs size_bytes ;;
  ste_ok (build_handle id mime_type size_bytes storage).

Definition store_external_shared_bytes (bs : bytes) (mime_type : string) : StE Rt BlobHandle :=
  let size_bytes := blen bs in
  id <-! next_id ;;
  ste_ok (build_handle id mime_type size_bytes (Shared bs)).

(** The turn of [store_stream]'s loop that creates the spill file and moves the buffer there. *)
Definition start_spill (path : string) (buffer chunk : bytes) : StE Rt bytes :=
  _ <-? ensure_parent_dir path ;;
  _ <-? io (file_create path) ;;
  buffer <-? (if negb (is_empty buffer)
              then _ <-? io (file_write_all path buffer) ;; ste_ok EmptyString
              else ste_ok buffer) ;;
  _ <-? io (file_write_all path chunk) ;;
  ste_ok buffer.

(** The loop of [store_stream] over the chunks of the reader: [spilled] is the path of the file
    once there is one, [buffer] what has been read while there is none. *)
Fixpoint stream_loop (id inline_limit : Z) (chunks : list bytes) (err : option IoError)
    (buffer : bytes) (spilled : option string) : StE Rt (bytes * option string) :=
  match chunks with
  | [] =>
      match err with
      | Some e => ste_err (ExternalError (io_display e))
      | None => ste_ok (buffer, spilled)
      end
  | chunk :: chunks =>
      match spilled with
      | Some path =>
          _ <-? io (file_write_all path chunk) ;;
          stream_loop id inline_limit chunks err buffer spilled
      | None =>
          if (blen buffer + blen chunk <=? inline_limit)%Z
          then stream_loop id inline_limit chunks err (buffer +:+ chunk) None
          else fun s =>
            let path := spill_path (cfg s) id in
            (buffer <-? start_spill path buffer chunk ;;
             stream_loop id inline_limit chunks err buffer (Some path)) s
      end
  end.

Definition store_stream (reader : ReadStream) (mime_type : string) : StE Rt BlobHandle := fun s =>
  let inline_limit := Z.min (inline_max_bytes (cfg s)) (request_hot_budget_bytes (cfg s)) in
  (id <-! next_id ;;
   read <-? stream_loop id inline_limit (read_chunks_of reader) (read_error reader)
              EmptyString None ;;
   let '(buffer, spilled) := read in
   match spilled with
   | Some path =>
       _ <-? io (file_flush path) ;;
       len <-? io (fs_metadata_len path) ;;
       _ <-! record_spill len ;;
       ste_ok (build_handle id mime_type len (Spilled path))
   | None =>
       let size_bytes := blen buffer in
       storage <-? choose_storage id buffer size_bytes ;;
       ste_ok (build_handle id mime_type size_bytes storage)
   end) s.

(** The reads of a [Cursor] into a buffer of [n] bytes. *)
Fixpoint cursor_chunks (fuel n : nat) (bs : bytes) : list bytes :=
  match fuel with
  | O => []
  | S fuel =>
      if is_empty bs then [] else str_take n bs :: cursor_chunks fuel n (str_drop n bs)
  end.

Definition open_reader (handle : BlobHandle) (n : nat) : StE Rt ReadStream :=
  match storage handle with
  | Inline bs | Shared bs => ste_ok (mkReadStream (cursor_chunks (String.length bs) n bs) None)
  | Spilled path => io (file_open_read path n)
  end.

Definition read_bytes (handle : BlobHandle) : StE Rt bytes :=
  match storage handle with
  | Inline bs | Shared bs => ste_ok bs
  | Spilled path => io (fs_read path)
  end.

Definition remove (handle : BlobHandle) : StE Rt unit := fun s =>
  if decide (blob_id handle ∈ removed s) then (Ok tt, s) else
  let s := mkBlobRuntimeInner (cfg s) (next_id_counter s) (global_hot_bytes s) (spill_count s)
             (spill_bytes_total s) ({[blob_id handle]} ∪ removed s) (world s) in
  match storage handle with
  | Inline bs => (_ <-! release_inline_bytes (blen bs) ;; ste_ok tt) s
  | Shared _ => (Ok tt, s)
  | Spilled path =>
      let '(r, s') := on_world (fs_remove_file path) s in
      match r with
      | Ok _ => (Ok tt, s')
      | Err err =>
          if io_not_found err then (Ok tt, s') else (Err (ExternalError (io_display err)), s')
      end
  end.

Definition is_inline (handle : BlobHandle) : bool :=
  match storage handle with Inline _ | Shared _ => true | Spilled _ => false end.

Definition is_spilled (handle : BlobHandle) : bool :=
  match storage handle with Spilled _ => true | _ => false end.

Definition stats_snapshot (s : Rt) : BlobRuntimeStatsSnapshot :=
  mkBlobRuntimeStatsSnapshot (spill_count s) (spill_bytes_total s).
End operations.

#[export] Instance blob_meta_eq_dec : EqDecision BlobMeta.
Proof. solve_decision. Defined.
#[export] Instance blob_storage_eq_dec : EqDecision BlobStorage.
Proof. solve_decision. Defined.
#[export] Instance blob_handle_eq_dec : EqDecision BlobHandle.
Proof. solve_decision. Defined.

(** * The abstract store

    [L] maps the identifier of every live handle to the handle and the bytes it stands for. *)

Definition inline_size (h : BlobHandle) : Z :=
  match storage h with Inline bs => blen bs | _ => 0 end.

Definition hot_of (L : gmap Z (BlobHandle * bytes)) : Z :=
  sumZ ((fun e => inline_size e.2.1) <$> map_to_list L).

(** What the reads of an opened blob are, into a buffer of [n] bytes: of the content [bs], unless
    [gone]; reading from memory does not fail. *)
Record stream_reads (h : BlobHandle) (n : nat) (bs : bytes) (gone : Prop) (stream : ReadStream) : Prop := {
  sr_chunks : Forall (fun c => (0 < String.length c <= n)%nat) (read_chunks_of stream);
  sr_memory : is_spilled h = false -> read_error stream = None;
  sr_joined : read_error stream = None ->
    foldr String.append EmptyString (read_chunks_of stream) = bs \/ gone;
}.

Section abstract.
Context {W : Type} `{FileSystemLaws W}.
Abbreviation Rt := (BlobRuntimeInner W).

Definition stored (s : Rt) (id : Z) (h : BlobHandle) (bs : bytes) : Prop :=
  blob_id h = id /\ size_bytes (meta h) = blen bs /\
  match storage h with
  | Inline bs' | Shared bs' => bs' = bs
  | Spilled path => path = spill_path (cfg s) id /\ fs_content (world s) path = Some bs
  end.

Record rep (s : Rt) (L : gmap Z (BlobHandle * bytes)) : Prop := {
  rep_next : (1 <= next_id_counter s <= u64_max)%Z;
  rep_stored : forall id h bs, L !! id = Some (h, bs) -> stored s id h bs;
  rep_live : forall id, is_Some (L !! id) -> (1 <= id < next_id_counter s)%Z /\ id ∉ removed s;
  rep_removed : forall id, id ∈ removed s -> (id < next_id_counter s)%Z;
  rep_hot : global_hot_bytes s = hot_of L;
  rep_budget : (global_hot_bytes s <= global_hot_budget_bytes (cfg s) <= u64_max)%Z;
}.

(** An identifier taken and not yet given to a handle. *)
Definition fresh_id (s : Rt) (L : gmap Z (BlobHandle * bytes)) (id : Z) : Prop :=
  L !! id = None /\ id ∉ removed s /\ (1 <= id < next_id_counter s)%Z.

(** * Lemmas *)

Lemma hot_of_insert L id h bs :
  L !! id = None -> hot_of (<[id := (h, bs)]> L) = (inline_size h + hot_of L)%Z.
Proof.
  intros Hn. unfold hot_of.
  rewrite (sumZ_Permutation _ _ (fmap_Permutation _ _ _ (map_to_list_insert L id (h, bs) Hn))).
  done.
Qed.

Lemma hot_of_delete L id h bs :
  L !! id = Some (h, bs) -> hot_of (delete id L) = (hot_of L - inline_size h)%Z.
Proof.
  intros Hs. rewrite <- (insert_delete_id L id (h, bs) Hs) at 2.
  rewrite hot_of_insert by apply lookup_delete_eq. lia.
Qed.

Lemma hot_of_nonneg L : (0 <= hot_of L)%Z.
Proof.
  apply sumZ_nonneg, Forall_forall. intros x Hx.
  apply list_elem_of_fmap in Hx as ([id [h bs]] & -> & _). simpl. unfold inline_size.
  destruct (storage h); try lia. apply blen_nonneg.
Qed.

Lemma spill_path_inj c id id' : spill_path c id = spill_path c id' -> id = id'.
Proof.
  unfold spill_path, path_join.
  assert (forall a b : string, "blob-" +:+ a +:+ ".bin" = "blob-" +:+ b +:+ ".bin" -> a = b) as Hmid.
  { intros a b Hab. apply string_app_inj_l in Hab.
    apply (f_equal string_rev) in Hab. rewrite !string_rev_append in Hab.
    apply string_app_inj_l in Hab. by rewrite <- (string_rev_involutive a), Hab, string_rev_involutive. }
  assert (forall z z', fmt_Z z = fmt_Z z' -> z = z') as Hz by (intros; by apply (inj pretty)).
  repeat case_match; intros E.
  - by apply Hz, Hmid.
  - by apply string_app_inj_l, Hmid, Hz in E.
  - by do 2 apply string_app_inj_l in E; apply Hmid, Hz in E.
Qed.

Lemma io_inv {A} (m : St W (Result IoError A)) (s : Rt) r s' :
  io m s = (r, s') ->
  exists r0 w', m (world s) = (r0, w') /\ s' = set_world w' s /\
    r = map_err (fun e => ExternalError (io_display e)) r0.
Proof.
  unfold io, on_world. destruct (m (world s)) as [r0 w']. intros [= <- <-]. by exists r0, w'.
Qed.

(** Only the contents of live spill files matter to the invariant. *)
Lemma rep_set_world_at s L id w :
  rep s L -> L !! id = None ->
  (forall q, q <> spill_path (cfg s) id -> fs_content w q = fs_content (world s) q) ->
  rep (set_world w s) L.
Proof.
  intros [] Hn Hw. split; try done. simpl.
  intros id' h bs Hl. destruct (rep_stored0 id' h bs Hl) as (? & ? & Hst).
  split; [done|]. split; [done|]. destruct (storage h); [done..|]. destruct Hst as [-> Hc].
  split; [done|]. simpl. rewrite Hw; [done|]. intros ->%spill_path_inj. by rewrite Hn in Hl.
Qed.

Lemma rep_set_world s L id w :
  rep s L -> fresh_id s L id ->
  (forall q, q <> spill_path (cfg s) id -> fs_content w q = fs_content (world s) q) ->
  rep (set_world w s) L /\ fresh_id (set_world w s) L id.
Proof.
  intros Hrep Hf Hw. split; [|done]. eapply rep_set_world_at; [done| |done]. by destruct Hf.
Qed.

Lemma rep_set_world_same s L w :
  rep s L -> (forall q, fs_content w q = fs_content (world s) q) -> rep (set_world w s) L.
Proof.
  intros [] Hw. split; try done. simpl.
  intros id' h bs Hl. destruct (rep_stored0 id' h bs Hl) as (? & ? & Hst).
  split; [done|]. split; [done|]. destruct (storage h); [done..|]. by rewrite Hw.
Qed.

Lemma rep_record_spill s L n :
  rep s L -> rep (record_spill n s).2 L.
Proof. intros []. by split. Qed.

Lemma rep_next_id s L :
  rep s L -> (next_id_counter s < u64_max)%Z ->
  rep (next_id s).2 L /\ fresh_id (next_id s).2 L (next_id s).1.
Proof.
  intros [] Hlt. simpl.
  assert (u64_wrap (next_id_counter s + 1) = next_id_counter s + 1)%Z as E.
  { apply u64_wrap_small. unfold in_u64. lia. }
  split; [split; try done; simpl; rewrite E|].
  - lia.
  - intros id Hid. destruct (rep_live0 id Hid). split; [lia|done].
  - intros id Hid. specialize (rep_removed0 id Hid). lia.
  - split; [|split; simpl; [|rewrite E; lia]].
    + destruct (L !! next_id_counter s) eqn:El; [|done].
      destruct (rep_live0 (next_id_counter s)); [by eexists|lia].
    + intros Hin. specialize (rep_removed0 _ Hin). lia.
Qed.

Lemma rep_insert s L id h bs :
  rep s L -> fresh_id s L id -> stored s id h bs ->
  (global_hot_bytes s + inline_size h <= global_hot_budget_bytes (cfg s))%Z ->
  rep (set_hot (global_hot_bytes s + inline_size h) s) (<[id := (h, bs)]> L).
Proof.
  intros [] (Hn & Hr & Hid) Hst Hb. split; simpl; try done; try lia.
  - intros id' h' bs' [[<- [= <- <-]]|[Hne Hl]]%lookup_insert_Some; [done|].
    by apply rep_stored0 in Hl.
  - intros id' [e [[<- _]|[Hne Hl]]%lookup_insert_Some]; [done|]. apply rep_live0. by eexists.
  - rewrite hot_of_insert by done. lia.
Qed.

Lemma set_hot_same s : set_hot (global_hot_bytes s + 0) s = s :> Rt.
Proof. destruct s. unfold set_hot. simpl. f_equal. lia. Qed.

(** What a store with a fresh identifier may do. *)
Definition stores (s : Rt) (L : gmap Z (BlobHandle * bytes)) (id : Z) (mime : string) (bs : bytes)
    (r : Result Error BlobHandle) : Prop :=
  match r with
  | Ok h => blob_id h = id /\ mime_type (meta h) = mime /\ L !! id = None /\
            rep s (<[id := (h, bs)]> L)
  | Err _ => rep s L
  end.

Lemma write_spilled_bytes_spec s L id bs r s' :
  rep s L -> fresh_id s L id -> write_spilled_bytes id bs s = (r, s') ->
  rep s' L /\ fresh_id s' L id /\ cfg s' = cfg s /\ global_hot_bytes s' = global_hot_bytes s /\
  forall path, r = Ok path -> path = spill_path (cfg s) id /\ fs_content (world s') path = Some bs.
Proof.
  intros Hrep Hf. unfold write_spilled_bytes, ste_bind.
  assert (Hdir : forall r0 s0, ensure_parent_dir (spill_path (cfg s) id) s = (r0, s0) ->
    exists w, s0 = set_world w s /\ forall q, fs_content w q = fs_content (world s) q).
  { unfold ensure_parent_dir. intros r0 s0. destruct (path_parent _).
    - intros (r1 & w & Hm & -> & _)%io_inv. exists w. split; [done|].
      by eapply fs_create_dir_all_frame.
    - intros [= _ <-]. exists (world s). by destruct s. }
  destruct (ensure_parent_dir (spill_path (cfg s) id) s) as [r0 s0] eqn:E0.
  destruct (Hdir _ _ eq_refl) as (w0 & -> & Hw0).
  destruct (rep_set_world s L id w0 Hrep Hf) as [Hrep0 Hf0]; [done|].
  destruct r0 as [u|e]; [|by intros [= <- <-]].
  destruct (io _ (set_world w0 s)) as [r1 s1] eqn:E1.
  apply io_inv in E1 as (r2 & w1 & Hm & -> & ->).
  destruct (rep_set_world _ L id w1 Hrep0 Hf0) as [Hrep1 Hf1].
  { simpl. intros q Hq. by eapply fs_write_frame. }
  destruct r2 as [[]|e]; intros [= <- <-]; simpl; repeat (split; [done|]); [|done].
  intros path [= <-]. split; [done|]. by eapply fs_write_ok.
Qed.

Lemma choose_storage_spec s L id bs r s' mime :
  rep s L -> fresh_id s L id -> choose_storage id bs (blen bs) s = (r, s') ->
  match r with
  | Ok st => rep s' (<[id := (build_handle id mime (blen bs) st, bs)]> L)
  | Err _ => rep s' L
  end.
Proof.
  intros Hrep Hf. unfold choose_storage, st_bind, try_inline_reserve.
  assert (Hspill : (spilled_path <-? write_spilled_bytes id bs ;;
    (_ <-! record_spill (blen bs) ;; ste_ok (Spilled spilled_path))) s = (r, s') ->
    match r with
    | Ok st => rep s' (<[id := (build_handle id mime (blen bs) st, bs)]> L)
    | Err _ => rep s' L
    end).
  { unfold ste_bind, st_bind. destruct (write_spilled_bytes id bs s) as [r1 s1] eqn:E1.
    destruct (write_spilled_bytes_spec _ _ _ _ _ _ Hrep Hf E1) as (Hrep1 & Hf1 & Hc & Hh & Hp).
    destruct r1 as [path|e]; simpl; intros [= <- <-]; [|done].
    destruct (Hp path eq_refl) as [-> Hcontent].
    apply (rep_record_spill _ _ (blen bs)).
    rewrite <- (set_hot_same s1).
    apply (rep_insert s1 L id (build_handle id mime (blen bs) (Spilled (spill_path (cfg s) id))) bs);
      try done.
    - split; [done|]. split; [done|]. simpl. by rewrite Hc.
    - destruct Hrep1. unfold inline_size. simpl. lia. }
  destruct (fits_inline (cfg s) (blen bs)); [|exact Hspill]. simpl negb. cbv iota.
  destruct (reserve_attempt (cfg s) (blen bs) (global_hot_bytes s)) as [next|] eqn:Er;
    [|exact Hspill].
  intros [= <- <-]. unfold reserve_attempt, u64_checked_add in Er.
  destruct (Z.ltb_spec u64_max (global_hot_bytes s + blen bs)); [done|].
  destruct (Z.ltb_spec (global_hot_budget_bytes (cfg s)) (global_hot_bytes s + blen bs)); [done|].
  injection Er as <-.
  by apply (rep_insert s L id (build_handle id mime (blen bs) (Inline bs)) bs).
Qed.

(** An I/O step of a store under a fresh identifier that touches only its own spill file. *)
Lemma rep_io_own {A} (m : St W (Result IoError A)) s L id r s' :
  rep s L -> fresh_id s L id -> io m s = (r, s') ->
  (forall r0 w', m (world s) = (r0, w') ->
     forall q, q <> spill_path (cfg s) id -> fs_content w' q = fs_content (world s) q) ->
  rep s' L /\ fresh_id s' L id /\ cfg s' = cfg s /\
  forall a, r = Ok a -> m (world s) = (Ok a, world s').
Proof.
  intros Hrep Hf (r0 & w & Hm & -> & ->)%io_inv Hframe.
  destruct (rep_set_world s L id w Hrep Hf (Hframe _ _ Hm)) as [? ?].
  repeat (split; [done|]). destruct r0; [|done]. by intros a' [= ->].
Qed.

Definition joined (chunks : list bytes) : bytes := foldr String.append EmptyString chunks.

(** What the loop has read so far. *)
Definition stream_state (s : Rt) (id : Z) (so_far buffer : bytes) (spilled : option string) : Prop :=
  match spilled with
  | None => buffer = so_far
  | Some path => path = spill_path (cfg s) id /\ fs_content (world s) path = Some so_far
  end.

Lemma file_write_all_own id path bs so_far s L r s' :
  rep s L -> fresh_id s L id -> path = spill_path (cfg s) id ->
  fs_content (world s) path = Some so_far ->
  io (file_write_all path bs) s = (r, s') ->
  rep s' L /\ fresh_id s' L id /\ cfg s' = cfg s /\
  (r = Ok tt -> fs_content (world s') path = Some (so_far +:+ bs)).
Proof.
  intros Hrep Hf -> Hc Hio.
  destruct (rep_io_own _ _ _ _ _ _ Hrep Hf Hio) as (? & ? & ? & Hok).
  { intros r0 w' Hm q Hq. by eapply file_write_all_frame. }
  repeat (split; [done|]). intros ->. specialize (Hok tt eq_refl).
  by eapply file_write_all_ok.
Qed.

Lemma ensure_parent_dir_own path id s L r s' :
  rep s L -> fresh_id s L id -> ensure_parent_dir path s = (r, s') ->
  rep s' L /\ fresh_id s' L id /\ cfg s' = cfg s.
Proof.
  intros Hrep Hf. unfold ensure_parent_dir. destruct (path_parent path); [|by intros [= _ <-]].
  intros Hio. destruct (rep_io_own _ _ _ _ _ _ Hrep Hf Hio) as (? & ? & ? & _); [|done].
  intros r1 w' Hm q _. by eapply fs_create_dir_all_frame.
Qed.

(** Opening the spill file with what is in the buffer and the next chunk. *)
Lemma start_spill_spec id buffer chunk s L r s' :
  rep s L -> fresh_id s L id ->
  start_spill (spill_path (cfg s) id) buffer chunk s = (r, s') ->
  rep s' L /\ fresh_id s' L id /\ cfg s' = cfg s /\
  forall b, r = Ok b -> b = EmptyString /\
    fs_content (world s') (spill_path (cfg s) id) = Some (buffer +:+ chunk).
Proof.
  intros Hrep Hf. unfold start_spill, ste_bind.
  set (path := spill_path (cfg s) id).
  destruct (ensure_parent_dir path s) as [r0 s0] eqn:E0.
  destruct (ensure_parent_dir_own _ _ _ _ _ _ Hrep Hf E0) as (Hrep0 & Hf0 & Hc0).
  destruct r0 as [u|e]; [|by intros [= <- <-]].
  destruct (io (file_create path) s0) as [r1 s1] eqn:E1.
  destruct (rep_io_own _ _ _ _ _ _ Hrep0 Hf0 E1) as (Hrep1 & Hf1 & Hc1 & Hok1).
  { intros r2 w' Hm q Hq. rewrite Hc0 in Hq. by eapply file_create_frame. }
  rewrite Hc0 in Hc1. destruct r1 as [[]|e]; [|by intros [= <- <-]].
  specialize (Hok1 tt eq_refl). apply file_create_ok in Hok1.
  assert (Hp1 : path = spill_path (cfg s1) id) by (by rewrite Hc1).
  destruct (is_empty buffer) eqn:Eb; cbv [negb]; cbv iota beta.
  - destruct buffer; [|done]. simpl.
    destruct (io (file_write_all path chunk) s1) as [r2 s2] eqn:E2.
    destruct (file_write_all_own _ _ _ _ _ _ _ _ Hrep1 Hf1 Hp1 Hok1 E2) as (? & ? & Hc2 & Hok2).
    rewrite Hc1 in Hc2. destruct r2 as [[]|]; intros [= <- <-]; repeat (split; [done|]); [|done].
    intros b [= <-]. split; [done|]. by apply Hok2.
  - destruct (io (file_write_all path buffer) s1) as [r2 s2] eqn:E2.
    destruct (file_write_all_own _ _ _ _ _ _ _ _ Hrep1 Hf1 Hp1 Hok1 E2) as (Hrep2 & Hf2 & Hc2 & Hok2).
    rewrite Hc1 in Hc2. destruct r2 as [[]|]; [|by intros [= <- <-]].
    cbv iota beta.
    unfold ste_ok. cbv iota beta. specialize (Hok2 eq_refl). assert (Hp2 : path = spill_path (cfg s2) id) by (by rewrite Hc2).
    destruct (io (file_write_all path chunk) s2) as [r3 s3] eqn:E3.
    destruct (file_write_all_own _ _ _ _ _ _ _ _ Hrep2 Hf2 Hp2 Hok2 E3) as (? & ? & Hc3 & Hok3).
    rewrite Hc2 in Hc3. destruct r3 as [[]|]; intros [= <- <-]; repeat (split; [done|]); [|done].
    intros b [= <-]. split; [done|]. rewrite Hok3 by done. by rewrite string_app_nil_l.
Qed.

Lemma stream_loop_spec id limit chunks err so_far buffer spilled s L r s' :
  rep s L -> fresh_id s L id -> stream_state s id so_far buffer spilled ->
  stream_loop id limit chunks err buffer spilled s = (r, s') ->
  rep s' L /\ fresh_id s' L id /\
  forall b sp, r = Ok (b, sp) -> err = None /\ stream_state s' id (so_far +:+ joined chunks) b sp.
Proof.
  revert so_far buffer spilled s. induction chunks as [|chunk chunks IH];
    intros so_far buffer spilled s Hrep Hf Hst; simpl.
  { rewrite string_app_nil_r.
    destruct err; intros [= <- <-]; (split; [done|]; split; [done|]); intros b sp; [done|].
    by intros [= <- <-]. }
  rewrite <- string_app_assoc. destruct spilled as [path|]; simpl in Hst.
  - destruct Hst as [Hp Hc]. unfold ste_bind.
    destruct (io (file_write_all path chunk) s) as [r1 s1] eqn:E1.
    destruct (file_write_all_own _ _ _ _ _ _ _ _ Hrep Hf Hp Hc E1) as (Hrep1 & Hf1 & Hc1 & Hok).
    destruct r1 as [[]|e]; [|by intros [= <- <-]].
    apply IH; try done. split; [by rewrite Hc1|by apply Hok].
  - subst buffer. destruct (_ <=? limit)%Z; [by apply IH|].
    unfold ste_bind.
    destruct (start_spill (spill_path (cfg s) id) so_far chunk s) as [r3 s3] eqn:E3.
    destruct (start_spill_spec _ _ _ _ _ _ _ Hrep Hf E3) as (Hrep3 & Hf3 & Hc3 & Hok).
    destruct r3 as [b2|e]; [|by intros [= <- <-]].
    destruct (Hok b2 eq_refl) as [-> Hcontent].
    apply IH; [done..|]. split; [by rewrite Hc3|done].
Qed.

(** A stream that fits stays in memory and touches nothing. *)
Lemma stream_loop_fits id limit chunks buffer (s : Rt) :
  (blen buffer + blen (joined chunks) <= limit)%Z ->
  stream_loop id limit chunks None buffer None s = (Ok (buffer +:+ joined chunks, None), s).
Proof.
  revert buffer. induction chunks as [|c chunks IH]; intros buffer Hle; cbn [stream_loop].
  - by rewrite string_app_nil_r.
  - assert (Hj : joined (c :: chunks) = c +:+ joined chunks) by done.
    rewrite Hj, blen_app in Hle. pose proof (blen_nonneg (joined chunks)).
    destruct (Z.leb_spec (blen buffer + blen c) limit); [|lia].
    rewrite IH by (rewrite blen_app; lia). by rewrite Hj, string_app_assoc.
Qed.

Lemma choose_storage_fits id bs (s : Rt) :
  (blen bs <= Z.min (inline_max_bytes (cfg s)) (request_hot_budget_bytes (cfg s)))%Z ->
  (global_hot_bytes s + blen bs <= global_hot_budget_bytes (cfg s) <= u64_max)%Z ->
  choose_storage id bs (blen bs) s = (Ok (Inline bs), set_hot (global_hot_bytes s + blen bs) s).
Proof.
  intros Hfit Hb. unfold choose_storage, st_bind, try_inline_reserve, fits_inline.
  destruct (Z.ltb_spec (inline_max_bytes (cfg s)) (blen bs)); [lia|].
  destruct (Z.ltb_spec (request_hot_budget_bytes (cfg s)) (blen bs)); [lia|].
  simpl. unfold reserve_attempt, u64_checked_add.
  destruct (Z.ltb_spec u64_max (global_hot_bytes s + blen bs)); [lia|].
  destruct (Z.ltb_spec (global_hot_budget_bytes (cfg s)) (global_hot_bytes s + blen bs)); [lia|].
  done.
Qed.

(** Choosing a storage takes no identifier. *)
Lemma io_next_id {A} (m : St W (Result IoError A)) (s : Rt) r s' :
  io m s = (r, s') -> next_id_counter s' = next_id_counter s.
Proof. by intros (r0 & w & _ & -> & _)%io_inv. Qed.

Lemma choose_storage_next_id id bs n (s : Rt) :
  next_id_counter (choose_storage id bs n s).2 = next_id_counter s.
Proof.
  assert (Hspill : next_id_counter ((spilled_path <-? write_spilled_bytes id bs ;;
    (_ <-! record_spill n ;; ste_ok (Spilled spilled_path))) s).2 = next_id_counter s).
  { unfold ste_bind, st_bind, write_spilled_bytes, ensure_parent_dir, ste_bind.
    destruct (path_parent _) as [d|].
    - destruct (io (fs_create_dir_all d) s) as [r1 s1] eqn:E1. apply io_next_id in E1.
      destruct r1 as [u|]; [|done].
      destruct (io (fs_write _ bs) s1) as [r2 s2] eqn:E2. apply io_next_id in E2.
      rewrite <- E1, <- E2. by destruct r2.
    - unfold ste_ok. destruct (io (fs_write _ bs) s) as [r2 s2] eqn:E2. apply io_next_id in E2.
      rewrite <- E2. by destruct r2. }
  unfold choose_storage, st_bind at 1, try_inline_reserve.
  destruct (negb _); [exact Hspill|]. destruct (reserve_attempt _ _ _); [done|exact Hspill].
Qed.

Lemma store_with_choice_spec s L bs mime r s' :
  rep s L -> (next_id_counter s < u64_max)%Z ->
  (id <-! next_id ;;
   storage <-? choose_storage id bs (blen bs) ;;
   ste_ok (build_handle id mime (blen bs) storage)) s = (r, s') ->
  match r with
  | Ok h => mime_type (meta h) = mime /\ L !! blob_id h = None /\ rep s' (<[blob_id h := (h, bs)]> L)
  | Err _ => rep s' L
  end.
Proof.
  intros Hrep Hlt. unfold st_bind, ste_bind.
  destruct (rep_next_id s L Hrep Hlt) as [Hrep1 Hf1].
  destruct (next_id s) as [id s1]. simpl in Hrep1, Hf1.
  destruct (choose_storage id bs (blen bs) s1) as [r1 s2] eqn:E.
  assert (Hspec := choose_storage_spec s1 L id bs r1 s2 mime Hrep1 Hf1 E).
  destruct r1 as [st|e]; intros [= <- <-]; [|done].
  split; [done|]. split; [|done]. by destruct Hf1.
Qed.

Lemma store_external_spec s L bs mime r s' :
  rep s L -> (next_id_counter s < u64_max)%Z ->
  store_external_shared_bytes bs mime s = (r, s') ->
  match r with
  | Ok h => mime_type (meta h) = mime /\ L !! blob_id h = None /\ rep s' (<[blob_id h := (h, bs)]> L)
  | Err _ => rep s' L
  end.
Proof.
  intros Hrep Hlt. unfold store_external_shared_bytes, st_bind.
  destruct (rep_next_id s L Hrep Hlt) as [Hrep1 Hf1].
  destruct (next_id s) as [id s1]. simpl in Hrep1, Hf1. intros [= <- <-].
  split; [done|]. split; [by destruct Hf1|]. rewrite <- (set_hot_same s1).
  apply (rep_insert s1 L id (build_handle id mime (blen bs) (Shared bs)) bs); try done.
  destruct Hrep1. unfold inline_size. simpl. lia.
Qed.

Lemma store_stream_spec s L reader mime r s' :
  rep s L -> (next_id_counter s < u64_max)%Z ->
  store_stream reader mime s = (r, s') ->
  match r with
  | Ok h => read_error reader = None /\ mime_type (meta h) = mime /\ L !! blob_id h = None /\
            rep s' (<[blob_id h := (h, joined (read_chunks_of reader))]> L)
  | Err _ => rep s' L
  end.
Proof.
  intros Hrep Hlt. unfold store_stream, st_bind, ste_bind.
  destruct (rep_next_id s L Hrep Hlt) as [Hrep1 Hf1].
  destruct (next_id s) as [id s1]. simpl in Hrep1, Hf1.
  destruct (stream_loop id _ _ _ _ _ s1) as [r2 s2] eqn:E.
  destruct (stream_loop_spec id _ _ _ EmptyString EmptyString None s1 L _ _ Hrep1 Hf1 eq_refl E)
    as (Hrep2 & Hf2 & Hok).
  destruct r2 as [[buffer [path|]]|e]; [| |by intros [= <- <-]];
    destruct (Hok _ _ eq_refl) as [Herr Hst]; rewrite string_app_nil_l in Hst; simpl in Hst.
  - destruct Hst as [-> Hc].
    destruct (io (file_flush _) s2) as [r3 s3] eqn:E3.
    apply io_inv in E3 as (r3' & w3 & Hm3 & -> & ->).
    assert (Hw3 := file_flush_frame _ _ _ _ Hm3).
    destruct (rep_set_world s2 L id w3 Hrep2 Hf2) as [Hrep3 Hf3]; [done|].
    destruct r3' as [u|e]; simpl map_err; cbv iota; [|by intros [= <- <-]].
    destruct (io (fs_metadata_len _) (set_world w3 s2)) as [r4 s4] eqn:E4.
    apply io_inv in E4 as (r4' & w4 & Hm4 & -> & ->).
    assert (Hw4 := fs_metadata_len_frame _ _ _ _ Hm4).
    destruct (rep_set_world _ L id w4 Hrep3 Hf3) as [Hrep4 Hf4]; [done|].
    destruct r4' as [len|e]; simpl map_err; cbv iota; [|by intros [= <- <-]].
    apply fs_metadata_len_ok in Hm4 as (c & Hc' & ->). simpl in Hc', Hw4.
    rewrite Hw3, Hc in Hc'. injection Hc' as <-.
    intros [= <- <-]. split; [done|]. split; [done|]. split; [by destruct Hf2|].
    apply (rep_record_spill (set_world w4 (set_world w3 s2)) _ (blen (joined (read_chunks_of reader)))).
    rewrite <- (set_hot_same (set_world w4 (set_world w3 s2))).
    apply (rep_insert _ L id (build_handle id mime _ (Spilled (spill_path (cfg s2) id))));
      try done.
    + split; [done|]. split; [done|]. simpl. split; [done|]. by rewrite Hw4, Hw3.
    + destruct Hrep4. unfold inline_size. simpl in *. lia.
  - subst buffer.
    destruct (choose_storage id _ _ s2) as [r3 s3] eqn:E3.
    assert (Hspec := choose_storage_spec s2 L id _ r3 s3 mime Hrep2 Hf2 E3).
    destruct r3 as [st|e]; intros [= <- <-]; [|done].
    split; [done|]. split; [done|]. split; [by destruct Hf2|done].
Qed.

Lemma cursor_chunks_joined fuel n bs :
  (0 < n)%nat -> (String.length bs <= fuel)%nat -> joined (cursor_chunks fuel n bs) = bs.
Proof.
  intros Hn. revert bs. induction fuel as [|fuel IH]; intros bs Hs; simpl.
  { destruct bs; simpl in *; [done|lia]. }
  destruct bs as [|a bs]; [done|]. simpl is_empty. cbv iota. unfold joined in *. cbn [foldr].
  rewrite IH; [apply str_take_drop|]. rewrite str_drop_length. simpl String.length in *. lia.
Qed.

Lemma cursor_chunks_length fuel n bs :
  (0 < n)%nat -> Forall (fun c => (0 < String.length c <= n)%nat) (cursor_chunks fuel n bs).
Proof.
  intros Hn. revert bs. induction fuel as [|fuel IH]; intros bs; simpl; [done|].
  destruct bs as [|a bs]; [done|]. constructor; [|by apply IH].
  rewrite str_take_length. simpl String.length. lia.
Qed.

(** [b] is [a] after changes of the world only. *)
Definition same_rt (a b : Rt) : Prop := b = set_world (world b) a.

Lemma same_rt_refl (a : Rt) : same_rt a a.
Proof. by destruct a. Qed.

Lemma same_rt_trans (a b c : Rt) : same_rt a b -> same_rt b c -> same_rt a c.
Proof. unfold same_rt. intros Hb Hc. rewrite Hc, Hb. done. Qed.

(** Reading never writes, and each read fits in the buffer. *)
Lemma open_reader_reads (h : BlobHandle) n (s : Rt) r s' :
  (0 < n)%nat -> open_reader h n s = (r, s') ->
  same_rt s s' /\
  match r with
  | Ok stream =>
      Forall (fun c => (0 < String.length c <= n)%nat) (read_chunks_of stream) /\
      (is_spilled h = false -> read_error stream = None)
  | Err _ => is_spilled h = true
  end.
Proof using All.
  intros Hn. unfold open_reader, is_spilled. destruct (storage h).
  1,2: intros [= <- <-]; split; [apply same_rt_refl|]; split; [by apply cursor_chunks_length|done].
  intros (r0 & w & Hm & -> & ->)%io_inv. split; [done|].
  destruct r0 as [st|]; simpl; [|done]. split; [|done]. by eapply file_open_read_len.
Qed.

Lemma read_bytes_spec s L id h bs r s' :
  rep s L -> L !! id = Some (h, bs) -> read_bytes h s = (r, s') ->
  rep s' L /\ match r with Ok a => a = bs | Err _ => is_spilled h = true end.
Proof.
  intros Hrep Hl. destruct (rep_stored s L Hrep _ _ _ Hl) as (_ & _ & Hst).
  unfold read_bytes, is_spilled.
  destruct (storage h) as [b|b|path]; [by intros [= <- <-]..|].
  intros (r0 & w & Hm & -> & ->)%io_inv.
  assert (Hw := fs_read_frame _ _ _ _ Hm).
  split; [by apply rep_set_world_same|].
  destruct r0 as [c|]; [|done]. simpl. apply fs_read_ok in Hm.
  destruct Hst as [_ Hc]. rewrite Hc in Hm. by injection Hm as ->.
Qed.

Lemma open_reader_spec s L id h bs n r s' :
  rep s L -> L !! id = Some (h, bs) -> (0 < n)%nat -> open_reader h n s = (r, s') ->
  rep s' L /\ forall stream, r = Ok stream -> read_error stream = None ->
    joined (read_chunks_of stream) = bs.
Proof.
  intros Hrep Hl Hn. destruct (rep_stored s L Hrep _ _ _ Hl) as (_ & _ & Hst).
  unfold open_reader.
  destruct (storage h) as [b|b|path]; [subst b..|].
  1,2: intros [= <- <-]; split; [done|]; intros stream [= <-] _; by apply cursor_chunks_joined.
  intros (r0 & w & Hm & -> & ->)%io_inv.
  assert (Hw := file_open_read_frame _ _ _ _ _ Hm).
  split; [by apply rep_set_world_same|].
  destruct r0 as [c|]; [|done]. intros stream [= ->] Herr.
  assert (Hc' := file_open_read_ok _ _ _ _ _ Hm Hn Herr).
  destruct Hst as [_ Hc]. rewrite Hc in Hc'. by injection Hc'.
Qed.

Lemma open_reader_streams s L id h bs n r s' :
  rep s L -> L !! id = Some (h, bs) -> (0 < n)%nat -> open_reader h n s = (r, s') ->
  rep s' L /\ same_rt s s' /\
  match r with Ok stream => stream_reads h n bs False stream | Err _ => is_spilled h = true end.
Proof using All.
  intros Hrep Hl Hn E. destruct (open_reader_spec _ _ _ _ _ _ _ _ Hrep Hl Hn E) as [Hrep' Hj].
  destruct (open_reader_reads _ _ _ _ _ Hn E) as [Hsame Hr]. split; [done|]. split; [done|].
  destruct r as [stream|e]; [|done]. destruct Hr as [? ?]. split; [done..|].
  intros Hend. left. by apply Hj.
Qed.

Lemma rep_delete s L id h bs :
  rep s L -> L !! id = Some (h, bs) ->
  rep (mkBlobRuntimeInner (cfg s) (next_id_counter s) (global_hot_bytes s - inline_size h)
         (spill_count s) (spill_bytes_total s) ({[id]} ∪ removed s) (world s)) (delete id L).
Proof.
  intros [] Hl.
  assert (H0s : (0 <= inline_size h)%Z).
  { unfold inline_size. destruct (storage h); auto with proxy; lia. }
  split; simpl; try done; try lia.
  - intros id' h' bs' [Hne Hl']%lookup_delete_Some. by apply rep_stored0 in Hl'.
  - intros id' [e [Hne Hl']%lookup_delete_Some].
    destruct (rep_live0 id') as [? ?]; [by eexists|]. split; [done|]. set_solver.
  - intros id' [Hin|Hin]%elem_of_union; [|by apply rep_removed0].
    apply elem_of_singleton in Hin as ->. destruct (rep_live0 id); [by eexists|lia].
  - rewrite (hot_of_delete L id h bs Hl). lia.
Qed.

Lemma remove_spec s L id h bs r s' :
  rep s L -> L !! id = Some (h, bs) -> remove h s = (r, s') ->
  rep s' (delete id L) /\ id ∈ removed s' /\ (is_inline h = true -> r = Ok tt).
Proof.
  intros Hrep Hl. destruct (rep_stored s L Hrep _ _ _ Hl) as (Hid & _ & Hst).
  destruct (rep_live s L Hrep id) as [_ Hnr]; [by eexists|].
  assert (Hdel := rep_delete s L id h bs Hrep Hl).
  unfold remove, is_inline, st_bind, on_world. rewrite Hid, decide_False by done.
  assert (Hin : id ∈ {[id]} ∪ removed s) by set_solver.
  destruct (storage h) as [b|b|path] eqn:Est; unfold inline_size in Hdel; rewrite Est in Hdel.
  - intros [= <- <-]. simpl. split; [|done].
    rewrite u64_wrap_small; [exact Hdel|]. simpl.
    assert (H1 := rep_hot _ _ Hdel). assert (H2 := rep_budget _ _ Hdel). simpl in H1, H2.
    assert (H3 := hot_of_nonneg (delete id L)). unfold in_u64. lia.
  - intros [= <- <-]. rewrite Z.sub_0_r in Hdel. split; [exact Hdel|done].
  - destruct Hst as [-> _]. simpl. destruct (fs_remove_file _ (world s)) as [r0 w] eqn:Em.
    assert (Hw := fs_remove_file_frame _ _ _ _ Em). rewrite Z.sub_0_r in Hdel.
    assert (Hd := rep_set_world_at _ _ id w Hdel (lookup_delete_eq L id) Hw).
    destruct r0 as [u|e]; [|destruct (io_not_found e)]; intros [= <- <-];
      (split; [exact Hd|]; split; [exact Hin|done]).
Qed.

(** What becomes of the files. *)
Lemma remove_file s L id h bs r s' :
  rep s L -> L !! id = Some (h, bs) -> remove h s = (r, s') ->
  if is_spilled h then
    match r with
    | Ok _ => fs_content (world s') (spill_path (cfg s) id) = None
    | Err _ => exists e, (fs_remove_file (spill_path (cfg s) id) (world s)).1 = Err e /\
                         io_not_found e = false
    end
  else r = Ok tt /\ world s' = world s.
Proof.
  intros Hrep Hl. destruct (rep_stored s L Hrep _ _ _ Hl) as (Hid & _ & Hst).
  destruct (rep_live s L Hrep id) as [_ Hnr]; [by eexists|].
  unfold remove, is_spilled, st_bind, on_world. rewrite Hid, decide_False by done.
  destruct (storage h) as [b|b|path]; [by intros [= <- <-]..|]. destruct Hst as [-> _]. simpl.
  destruct (fs_remove_file _ (world s)) as [[[]|e] w] eqn:Em.
  - intros [= <- <-]. by eapply fs_remove_file_ok.
  - destruct (io_not_found e) eqn:En; intros [= <- <-]; [by eapply fs_remove_file_missing|by exists e].
Qed.

End abstract.

(** * Runs of the store *)

(** The four ways to store a blob, with the bytes each is given. *)
Inductive StoreCall :=
| CallBytes (bs : bytes)
| CallShared (bs : bytes)
| CallExternal (bs : bytes)
| CallStream (reader : ReadStream).

Definition store_content (call : StoreCall) : bytes :=
  match call with
  | CallBytes bs | CallShared bs | CallExternal bs => bs
  | CallStream reader => joined (read_chunks_of reader)
  end.

Section runs.
Context {W : Type} `{FileSystemLaws W}.
Abbreviation Rt := (BlobRuntimeInner W).

Definition run_store (call : StoreCall) (mime : string) : StE Rt BlobHandle :=
  match call with
  | CallBytes bs => store_bytes bs mime
  | CallShared bs => store_shared_bytes bs mime
  | CallExternal bs => store_external_shared_bytes bs mime
  | CallStream reader => store_stream reader mime
  end.

(** Runs from a new runtime, with the live blobs: a store that succeeds adds one, a removal of a
    live blob takes it away, whatever the file system answers. *)
Inductive blob_run (c : BlobRuntimeConfig) : Rt -> gmap Z (BlobHandle * bytes) -> Prop :=
| run_new w : blob_run c (runtime_new c w) ∅
| run_store_ok s L call mime h s' :
    blob_run c s L -> (next_id_counter s < u64_max)%Z -> run_store call mime s = (Ok h, s') ->
    blob_run c s' (<[blob_id h := (h, store_content call)]> L)
| run_store_err s L call mime e s' :
    blob_run c s L -> (next_id_counter s < u64_max)%Z -> run_store call mime s = (Err e, s') ->
    blob_run c s' L
| run_read s L id h bs r s' :
    blob_run c s L -> L !! id = Some (h, bs) -> read_bytes h s = (r, s') -> blob_run c s' L
| run_open s L id h bs n r s' :
    blob_run c s L -> L !! id = Some (h, bs) -> (0 < n)%nat -> open_reader h n s = (r, s') ->
    blob_run c s' L
| run_remove s L id h bs r s' :
    blob_run c s L -> L !! id = Some (h, bs) -> remove h s = (r, s') ->
    blob_run c s' (delete id L).

Lemma runtime_new_rep c (w : W) :
  in_u64 (global_hot_budget_bytes c) -> rep (runtime_new c w) ∅.
Proof.
  unfold in_u64. intros Hc. split; simpl; try done; try lia.
  all: intros ?; rewrite ?lookup_empty; try (by intros [? ?]); try done.
Qed.

Lemma run_store_spec s L call mime r s' :
  rep s L -> (next_id_counter s < u64_max)%Z -> run_store call mime s = (r, s') ->
  match r with
  | Ok h => mime_type (meta h) = mime /\ L !! blob_id h = None /\
            rep s' (<[blob_id h := (h, store_content call)]> L)
  | Err _ => rep s' L
  end.
Proof.
  intros Hrep Hlt. destruct call as [bs|bs|bs|reader]; simpl.
  - by apply store_with_choice_spec.
  - by apply store_with_choice_spec.
  - by apply store_external_spec.
  - intros E. assert (Hs := store_stream_spec s L reader mime r s' Hrep Hlt E).
    destruct r; naive_solver.
Qed.

(** The source of a store was read to its end; a source of bytes always is. *)
Definition read_to_end (call : StoreCall) : Prop :=
  match call with CallStream reader => read_error reader = None | _ => True end.

Lemma run_store_to_end s L call mime h s' :
  rep s L -> (next_id_counter s < u64_max)%Z -> run_store call mime s = (Ok h, s') -> read_to_end call.
Proof.
  intros Hrep Hlt. destruct call as [bs|bs|bs|reader]; simpl; [done..|].
  intros E. by destruct (store_stream_spec s L reader mime _ s' Hrep Hlt E).
Qed.

(** There is room for a blob in memory. *)
Definition has_memory (s : Rt) (size : Z) : Prop :=
  (size <= Z.min (inline_max_bytes (cfg s)) (request_hot_budget_bytes (cfg s)))%Z /\
  (global_hot_bytes s + size <= global_hot_budget_bytes (cfg s))%Z.

Lemma store_with_choice_fits s bs mime :
  has_memory s (blen bs) -> (global_hot_budget_bytes (cfg s) <= u64_max)%Z ->
  exists h s', (id <-! next_id ;;
    storage <-? choose_storage id bs (blen bs) ;;
    ste_ok (build_handle id mime (blen bs) storage)) s = (Ok h, s') /\ is_spilled h = false.
Proof.
  intros [Hfit Hhot] Hb. unfold st_bind, ste_bind. simpl.
  rewrite choose_storage_fits by (simpl; done). by eexists _, _.
Qed.

(** Then storing does not fail, and makes no file. *)
Lemma run_store_fits s call mime :
  read_to_end call -> has_memory s (blen (store_content call)) ->
  (global_hot_budget_bytes (cfg s) <= u64_max)%Z ->
  exists h s', run_store call mime s = (Ok h, s') /\ is_spilled h = false.
Proof.
  destruct call as [bs|bs|bs|reader]; simpl; intros Hend Hm Hb.
  - by apply store_with_choice_fits.
  - by apply store_with_choice_fits.
  - by eexists _, _.
  - destruct (store_with_choice_fits s (joined (read_chunks_of reader)) mime Hm Hb) as (h & s' & Hrun & Hh).
    exists h, s'. split; [|exact Hh]. rewrite <- Hrun. unfold store_stream, st_bind, ste_bind. simpl.
    destruct Hm as [Hfit _]. by rewrite Hend, stream_loop_fits.
Qed.

Lemma blob_run_rep c s L :
  in_u64 (global_hot_budget_bytes c) -> blob_run c s L -> rep s L.
Proof.
  intros Hc. induction 1 as [w|s L call mime h s' Hrun IH Hlt E|s L call mime e s' Hrun IH Hlt E|
    s L id h bs r s' Hrun IH Hl E|s L id h bs n r s' Hrun IH Hl Hn E|s L id h bs r s' Hrun IH Hl E].
  - by apply runtime_new_rep.
  - by destruct (run_store_spec _ _ _ _ _ _ IH Hlt E) as (_ & _ & ?).
  - exact (run_store_spec _ _ _ _ _ _ IH Hlt E).
  - exact (proj1 (read_bytes_spec _ _ _ _ _ _ _ IH Hl E)).
  - exact (proj1 (open_reader_spec _ _ _ _ _ _ _ _ IH Hl Hn E)).
  - exact (proj1 (remove_spec _ _ _ _ _ _ _ IH Hl E)).
Qed.
End runs.

Lemma reserve_attempt_Some cfg size current next :
  reserve_attempt cfg size current = Some next ->
  next = (current + size)%Z /\ (next <= global_hot_budget_bytes cfg)%Z.
Proof.
  unfold reserve_attempt, u64_checked_add.
  destruct (Z.ltb_spec u64_max (current + size)); [done|].
  destruct (Z.ltb_spec (global_hot_budget_bytes cfg) (current + size)); [done|].
  by intros [= <-].
Qed.

(** * A concrete runtime, for the witnesses *)

Definition sample_blob_config : BlobRuntimeConfig := mkBlobRuntimeConfig 4 8 6 "/tmp/blobs".

Definition sample_runtime : BlobRuntimeInner SampleFs := runtime_new sample_blob_config ∅.

(** One blob in memory and one spilled. *)
Definition sample_first : BlobHandle := mkBlobHandle 1 (mkBlobMeta "text/plain" 3) (Inline "abc").
Definition sample_second : BlobHandle :=
  mkBlobHandle 2 (mkBlobMeta "image/png" 7) (Spilled "/tmp/blobs/blob-2.bin").

Definition sample_after_first : BlobRuntimeInner SampleFs :=
  (store_bytes "abc" "text/plain" sample_runtime).2.
Definition sample_stream : ReadStream := mkReadStream ["de"; "fgh"; "ij"] None.
Definition sample_after_second : BlobRuntimeInner SampleFs :=
  (store_stream sample_stream "image/png" sample_after_first).2.

Example sample_stores :
  (store_bytes "abc" "text/plain" sample_runtime).1 = Ok sample_first /\
  (store_stream sample_stream "image/png" sample_after_first).1 = Ok sample_second /\
  (read_bytes sample_second sample_after_second).1 = Ok "defghij" /\
  stats_snapshot sample_after_second = mkBlobRuntimeStatsSnapshot 1 7.
Proof. repeat split; vm_compute; reflexivity. Qed.

Abbreviation sample_live1 := (<[1%Z := (sample_first, "abc")]> ∅ : gmap Z (BlobHandle * bytes)).
Abbreviation sample_live2 := (<[2%Z := (sample_second, "defghij")]> sample_live1).

Lemma sample_run1 : blob_run sample_blob_config sample_after_first sample_live1.
Proof.
  apply (run_store_ok sample_blob_config sample_runtime ∅ (CallBytes "abc") "text/plain" sample_first);
    [apply (run_new sample_blob_config ∅)|reflexivity|vm_compute; reflexivity].
Qed.

Lemma sample_run2 : blob_run sample_blob_config sample_after_second sample_live2.
Proof.
  apply (run_store_ok sample_blob_config sample_after_first sample_live1 (CallStream sample_stream)
    "image/png" sample_second); [apply sample_run1|vm_compute; reflexivity..].
Qed.

Lemma sample_rep2 : rep sample_after_second sample_live2.
Proof. apply (blob_run_rep sample_blob_config); [unfold in_u64; vm_compute; done|apply sample_run2]. Qed.

(** * Theorems *)

(** C6: in every run of the runtime, whatever the file system answers and whichever blobs are stored
    and removed in between, the counter of bytes held in memory is the total size of the live
    in-memory blobs and never exceeds the global budget; it is back to zero once every blob has
    been removed; and reading a live blob gives the bytes that were stored, or fails only because
    its spill file cannot be read. *)
Theorem blob_run_correct {W} `{FileSystemLaws W} c (s : BlobRuntimeInner W) L :
  in_u64 (global_hot_budget_bytes c) -> blob_run c s L ->
  global_hot_bytes s = hot_of L /\ (global_hot_bytes s <= global_hot_budget_bytes (cfg s))%Z /\
  (L = ∅ -> global_hot_bytes s = 0%Z) /\
  forall id h bs, L !! id = Some (h, bs) ->
    match (read_bytes h s).1 with Ok a => a = bs | Err _ => is_spilled h = true end.
Proof.
  intros Hc Hrun%(blob_run_rep c s L Hc). split; [by apply rep_hot|].
  split; [by destruct (rep_budget _ _ Hrun)|]. split.
  - intros ->. by rewrite (rep_hot _ _ Hrun).
  - intros id h bs Hl. destruct (read_bytes h s) as [r s'] eqn:E.
    by destruct (read_bytes_spec _ _ _ _ _ _ _ Hrun Hl E).
Qed.

Lemma blob_run_correct_witness :
  (global_hot_bytes sample_after_second <= 6)%Z /\ global_hot_bytes sample_after_second = 3%Z.
Proof.
  destruct (blob_run_correct sample_blob_config sample_after_second sample_live2
    ltac:(unfold in_u64; vm_compute; done) sample_run2) as (Hsum & Hle & _ & _).
  split; [exact Hle|]. rewrite Hsum. vm_compute. reflexivity.
Defined.

(** C16: storing refines insertion into the map of live blobs: each of the four store operations
    either fails and leaves every live blob as it was, or returns a handle with a new identifier
    and the given MIME type that stands for exactly the bytes given, in memory or spilled, all other
    blobs untouched. A stream whose reading fails is never stored; and whatever was read to its end
    and fits into the budgets is stored, in memory. *)
Theorem store_refines_insert {W} `{FileSystemLaws W} (s : BlobRuntimeInner W) L call mime r s' :
  rep s L -> (next_id_counter s < u64_max)%Z -> run_store call mime s = (r, s') ->
  match r with
  | Ok h => mime_type (meta h) = mime /\ size_bytes (meta h) = blen (store_content call) /\
            L !! blob_id h = None /\ read_to_end call /\
            (read_to_end call -> has_memory s (blen (store_content call)) -> is_spilled h = false) /\
            rep s' (<[blob_id h := (h, store_content call)]> L)
  | Err _ => rep s' L /\ ~ (read_to_end call /\ has_memory s (blen (store_content call)))
  end.
Proof.
  intros Hrep Hlt E. assert (Hs := run_store_spec s L call mime r s' Hrep Hlt E).
  assert (Hroom : read_to_end call -> has_memory s (blen (store_content call)) ->
    exists h, r = Ok h /\ is_spilled h = false).
  { intros Hend Hm. destruct (run_store_fits s call mime Hend Hm) as (h & s1 & Hrun & Hh).
    - by destruct (rep_budget _ _ Hrep).
    - rewrite E in Hrun. injection Hrun as -> _. by exists h. }
  destruct r as [h|e]; [|split; [exact Hs|]; intros [Hend Hm]; by destruct (Hroom Hend Hm) as (h & [=] & _)].
  destruct Hs as (Hm & Hn & Hrep').
  split; [done|]. split; [|split; [done|]; split; [exact (run_store_to_end _ _ _ _ _ _ Hrep Hlt E)|]; split; [|done];
    intros Hend Hmem; by destruct (Hroom Hend Hmem) as (h' & [= <-] & ?)].
  by destruct (rep_stored _ _ Hrep' (blob_id h) h (store_content call) (lookup_insert_eq _ _ _))
    as (_ & ? & _).
Qed.

Lemma store_refines_insert_witness :
  let r := run_store (CallStream sample_stream) "image/png" sample_after_first in
  r.1 = Ok sample_second /\ rep r.2 sample_live2.
Proof.
  intros r. split; [vm_compute; reflexivity|].
  apply (store_refines_insert sample_after_first sample_live1 (CallStream sample_stream) "image/png"
    (Ok sample_second) r.2).
  - apply (blob_run_rep sample_blob_config); [unfold in_u64; vm_compute; done|apply sample_run1].
  - vm_compute. reflexivity.
  - vm_compute. reflexivity.
Defined.

(** C20: removing refines deletion, once: the blob is no longer live, its memory is released exactly
    once, every other blob keeps its bytes; a blob in memory is removed without touching a file; a
    spilled blob's file is gone when the removal succeeds, and the removal only fails when the file
    system refuses to delete that very file; the same call repeated (through any clone of the
    handle) succeeds and changes nothing. *)
Theorem remove_refines_delete {W} `{FileSystemLaws W} (s : BlobRuntimeInner W) L id h bs r s' :
  rep s L -> L !! id = Some (h, bs) -> remove h s = (r, s') ->
  rep s' (delete id L) /\ global_hot_bytes s' = (global_hot_bytes s - inline_size h)%Z /\
  (if is_spilled h then
     match r with
     | Ok _ => fs_content (world s') (spill_path (cfg s) id) = None
     | Err _ => exists e, (fs_remove_file (spill_path (cfg s) id) (world s)).1 = Err e /\
                          io_not_found e = false
     end
   else r = Ok tt /\ world s' = world s) /\
  remove h s' = (Ok tt, s').
Proof.
  intros Hrep Hl E. destruct (remove_spec _ _ _ _ _ _ _ Hrep Hl E) as (Hrep' & Hin & _).
  split; [done|]. split; [|split; [by eapply remove_file|]].
  - by rewrite (rep_hot _ _ Hrep'), (rep_hot _ _ Hrep), (hot_of_delete L id h bs Hl).
  - destruct (rep_stored s L Hrep _ _ _ Hl) as (Hid & _). unfold remove.
    by rewrite Hid, decide_True by done.
Qed.

Lemma remove_refines_delete_witness :
  let r := remove sample_first sample_after_second in
  r.1 = Ok tt /\ global_hot_bytes r.2 = 0%Z /\ remove sample_first r.2 = (Ok tt, r.2).
Proof.
  intros r. split; [vm_compute; reflexivity|].
  destruct (remove_refines_delete sample_after_second sample_live2 1 sample_first "abc" (Ok tt) r.2
    sample_rep2 ltac:(vm_compute; reflexivity) ltac:(vm_compute; reflexivity)) as (_ & Hh & _ & Hr).
  split; [rewrite Hh; vm_compute; reflexivity|exact Hr].
Defined.

(** Streaming a blob back gives its bytes: whatever (non-zero) buffer length the reader uses,
    the chunks of a stream that ends without an error are, joined, what was stored. *)
Theorem open_reader_returns_stored {W} `{FileSystemLaws W} (s : BlobRuntimeInner W) L id h bs n stream s' :
  rep s L -> L !! id = Some (h, bs) -> (0 < n)%nat ->
  open_reader h n s = (Ok stream, s') -> read_error stream = None ->
  joined (read_chunks_of stream) = bs /\ rep s' L.
Proof.
  intros Hrep Hl Hn E Herr. destruct (open_reader_spec _ _ _ _ _ _ _ _ Hrep Hl Hn E) as [? Hok].
  split; [by apply Hok|done].
Qed.

Lemma open_reader_returns_stored_witness :
  exists stream s',
    open_reader sample_second 3 sample_after_second = (Ok stream, s') /\
    read_chunks_of stream = ["def"; "ghi"; "j"] /\ joined (read_chunks_of stream) = "defghij".
Proof.
  exists (mkReadStream ["def"; "ghi"; "j"] None), sample_after_second.
  split; [vm_compute; reflexivity|]. split; [reflexivity|].
  apply (open_reader_returns_stored sample_after_second sample_live2 2 sample_second "defghij" 3
    (mkReadStream ["def"; "ghi"; "j"] None) sample_after_second sample_rep2);
    [vm_compute; reflexivity|lia|vm_compute; reflexivity|reflexivity].
Defined.
