(* ===== verification/BlobSteps.v ===== *)
(** blob_runtime.rs, one atomic access at a time: the operations of BlobRuntime.v as sequences of the
    accesses they make ([fetch_add], the turns of the compare-and-exchange loop, one call of the file
    system).  Each is proved to do, when it is left alone, what the sequential operation does
    ([does_store] and its companions), and to end. *)

From S2P Require Import Prelude RustStr Json Pointer Ext Samples Interleave BlobRuntime.
From stdpp Require Import relations options.

(** * The operations, step by step *)

Section programs.
Context {W : Type} `{FileSystem W}.
Abbreviation Rt := (BlobRuntimeInner W).

(** [self.inner.cfg], which nothing changes *)
Context (c : BlobRuntimeConfig).

(** [global_hot_bytes.load(Ordering::Relaxed)] *)
Definition load_hot : St Rt Z := fun s => (global_hot_bytes s, s).

(** [global_hot_bytes.compare_exchange(current, next, ..).is_ok()] *)
Definition compare_exchange (current next : Z) : St Rt bool := fun s =>
  if (global_hot_bytes s =? current)%Z then (true, set_hot next s) else (false, s).

(** The two counters of [record_spill]. *)
Definition add_spill_count : St Rt unit := fun s =>
  (tt, mkBlobRuntimeInner (cfg s) (next_id_counter s) (global_hot_bytes s)
         (u64_wrap (spill_count s + 1)) (spill_bytes_total s) (removed s) (world s)).

Definition add_spill_bytes (size_bytes : Z) : St Rt unit := fun s =>
  (tt, mkBlobRuntimeInner (cfg s) (next_id_counter s) (global_hot_bytes s)
         (spill_count s) (u64_wrap (spill_bytes_total s + size_bytes)) (removed s) (world s)).

(** [handle.inner.removed.swap(true, Ordering::AcqRel)] *)
Definition swap_removed (id : Z) : St Rt bool := fun s =>
  if decide (id ∈ removed s) then (true, s) else
  (false, mkBlobRuntimeInner (cfg s) (next_id_counter s) (global_hot_bytes s) (spill_count s)
            (spill_bytes_total s) ({[id]} ∪ removed s) (world s)).

Definition file {A} (m : St W (Result IoError A)) : Prog Rt (Result Error A) := awaited (io m).

(** A turn of the loop of [try_inline_reserve]. *)
Definition reserve_turn (size_bytes : Z) : Prog Rt (unit + bool) :=
  current <~ atomic load_hot ;;
  match reserve_attempt c size_bytes current with
  | None => Ret (leave false)
  | Some next =>
      exchanged <~ atomic (compare_exchange current next) ;;
      Ret (if exchanged : bool then leave true else again)
  end.

Definition try_inline_reserve_steps (size_bytes : Z) : Prog Rt bool :=
  if negb (fits_inline c size_bytes) then Ret false else loop (reserve_turn size_bytes).

Definition record_spill_steps (size_bytes : Z) : Prog Rt unit :=
  _ <~ atomic add_spill_count ;; atomic (add_spill_bytes size_bytes).

Definition ensure_parent_dir_steps (path : string) : Prog Rt (Result Error unit) :=
  match path_parent path with
  | Some parent => file (fs_create_dir_all parent)
  | None => Ret (Ok tt)
  end.

Definition write_spilled_bytes_steps (id : Z) (bs : bytes) : Prog Rt (Result Error string) :=
  let path := spill_path c id in
  _ <~? ensure_parent_dir_steps path ;;
  _ <~? file (fs_write path bs) ;;
  Ret (Ok path).

Definition choose_storage_steps (id : Z) (bs : bytes) (size_bytes : Z) :
    Prog Rt (Result Error BlobStorage) :=
  reserved <~ try_inline_reserve_steps size_bytes ;;
  if reserved : bool then Ret (Ok (Inline bs)) else
  spilled_path <~? write_spilled_bytes_steps id bs ;;
  _ <~ record_spill_steps size_bytes ;;
  Ret (Ok (Spilled spilled_path)).

Definition store_bytes_steps (bs : bytes) (mime_type : string) : Prog Rt (Result Error BlobHandle) :=
  let size_bytes := blen bs in
  id <~ atomic next_id ;;
  storage <~? choose_storage_steps id bs size_bytes ;;
  Ret (Ok (build_handle id mime_type size_bytes storage)).

Definition store_shared_bytes_steps (bs : bytes) (mime_type : string) :
    Prog Rt (Result Error BlobHandle) :=
  let size_bytes := blen bs in
  id <~ atomic next_id ;;
  storage <~? choose_storage_steps id bs size_bytes ;;
  Ret (Ok (build_handle id mime_type size_bytes storage)).

Definition store_external_shared_bytes_steps (bs : bytes) (mime_type : string) :
    Prog Rt (Result Error BlobHandle) :=
  let size_bytes := blen bs in
  id <~ atomic next_id ;;
  Ret (Ok (build_handle id mime_type size_bytes (Shared bs))).

Definition start_spill_steps (path : string) (buffer chunk : bytes) : Prog Rt (Result Error bytes) :=
  _ <~? ensure_parent_dir_steps path ;;
  _ <~? file (file_create path) ;;
  buffer <~? (if negb (is_empty buffer)
              then _ <~? file (file_write_all path buffer) ;; Ret (Ok EmptyString)
              else Ret (Ok buffer)) ;;
  _ <~? file (file_write_all path chunk) ;;
  Ret (Ok buffer).

(** The reads of the request's or answer's own stream are no accesses to what tasks share. *)
Fixpoint stream_loop_steps (id inline_limit : Z) (chunks : list bytes) (err : option IoError)
    (buffer : bytes) (spilled : option string) : Prog Rt (Result Error (bytes * option string)) :=
  match chunks with
  | [] =>
      match err with
      | Some e => Ret (Err (ExternalError (io_display e)))
      | None => Ret (Ok (buffer, spilled))
      end
  | chunk :: chunks =>
      match spilled with
      | Some path =>
          _ <~? file (file_write_all path chunk) ;;
          stream_loop_steps id inline_limit chunks err buffer spilled
      | None =>
          if (blen buffer + blen chunk <=? inline_limit)%Z
          then stream_loop_steps id inline_limit chunks err (buffer +:+ chunk) None
          else
            let path := spill_path c id in
            buffer <~? start_spill_steps path buffer chunk ;;
            stream_loop_steps id inline_limit chunks err buffer (Some path)
      end
  end.

Definition store_stream_steps (reader : ReadStream) (mime_type : string) :
    Prog Rt (Result Error BlobHandle) :=
  let inline_limit := Z.min (inline_max_bytes c) (request_hot_budget_bytes c) in
  id <~ atomic next_id ;;
  read <~? stream_loop_steps id inline_limit (read_chunks_of reader) (read_error reader)
             EmptyString None ;;
  let '(buffer, spilled) := read in
  match spilled with
  | Some path =>
      _ <~? file (file_flush path) ;;
      len <~? file (fs_metadata_len path) ;;
      _ <~ record_spill_steps len ;;
      Ret (Ok (build_handle id mime_type len (Spilled path)))
  | None =>
      let size_bytes := blen buffer in
      storage <~? choose_storage_steps id buffer size_bytes ;;
      Ret (Ok (build_handle id mime_type size_bytes storage))
  end.

Definition open_reader_steps (handle : BlobHandle) (n : nat) : Prog Rt (Result Error ReadStream) :=
  match storage handle with
  | Inline bs | Shared bs =>
      Ret (Ok (mkReadStream (cursor_chunks (String.length bs) n bs) None))
  | Spilled path => file (file_open_read path n)
  end.

Definition read_bytes_steps (handle : BlobHandle) : Prog Rt (Result Error bytes) :=
  match storage handle with
  | Inline bs | Shared bs => Ret (Ok bs)
  | Spilled path => file (fs_read path)
  end.

Definition remove_steps (handle : BlobHandle) : Prog Rt (Result Error unit) :=
  was_removed <~ atomic (swap_removed (blob_id handle)) ;;
  if was_removed : bool then Ret (Ok tt) else
  match storage handle with
  | Inline bs => _ <~ atomic (release_inline_bytes (blen bs)) ;; Ret (Ok tt)
  | Shared _ => Ret (Ok tt)
  | Spilled path =>
      r <~ awaited (on_world (fs_remove_file path)) ;;
      Ret match r with
          | Ok _ => Ok tt
          | Err err => if io_not_found err then Ok tt else Err (ExternalError (io_display err))
          end
  end.

Definition store_steps (call : StoreCall) (mime : string) : Prog Rt (Result Error BlobHandle) :=
  match call with
  | CallBytes bs => store_bytes_steps bs mime
  | CallShared bs => store_shared_bytes_steps bs mime
  | CallExternal bs => store_external_shared_bytes_steps bs mime
  | CallStream reader => store_stream_steps reader mime
  end.
End programs.

(** * Lemmas: without interference *)

Section alone.
#[local] Set Default Proof Using "Type".
Context {W : Type} `{FileSystem W}.
Abbreviation Rt := (BlobRuntimeInner W).
Context (c : BlobRuntimeConfig).

Abbreviation does := (does (fun s : Rt => cfg s = c)).

Lemma does_file {A} (m : St W (Result IoError A)) : does (file m) (io m).
Proof. apply does_act. intros s Hs. unfold io, on_world. by destruct (m (world s)). Qed.

(** The loop needs one turn. *)
Lemma does_reserve size : does (try_inline_reserve_steps c size) (try_inline_reserve size).
Proof.
  intros s Hs. unfold try_inline_reserve_steps, try_inline_reserve. rewrite Hs.
  destruct (negb (fits_inline c size)); [by apply (does_ret (fun s => cfg s = c) false)|].
  destruct (reserve_attempt c size (global_hot_bytes s)) as [next|] eqn:Er; (split; [|done]).
  - apply (solo_iter _ _ _ _ (inr true) (set_hot next s)); [|apply solo_ret].
    eapply solo_act; [done|]. simpl. rewrite Er.
    apply (solo_act _ _ _ _ true (set_hot next s)); [|apply solo_ret].
    unfold compare_exchange. by rewrite Z.eqb_refl.
  - apply (solo_iter _ _ _ _ (inr false) s); [|apply solo_ret].
    eapply solo_act; [done|]. simpl. rewrite Er. apply solo_ret.
Qed.

Lemma does_record_spill n : does (record_spill_steps n) (record_spill n).
Proof.
  apply (does_bind _ _ _ add_spill_count (fun _ => add_spill_bytes n)).
  - by apply does_act.
  - intros []. by apply does_act.
Qed.

#[local] Hint Resolve does_ret does_bind does_bind_ok does_file does_reserve does_record_spill : alone.

Lemma does_ensure_parent_dir path : does (ensure_parent_dir_steps path) (ensure_parent_dir path).
Proof. unfold ensure_parent_dir_steps, ensure_parent_dir. destruct (path_parent path); auto with alone. Qed.
#[local] Hint Resolve does_ensure_parent_dir : alone.

Lemma does_write_spilled id bs :
  does (write_spilled_bytes_steps c id bs) (write_spilled_bytes id bs).
Proof.
  eapply does_ext; [intros s Hs; unfold write_spilled_bytes; rewrite Hs; reflexivity|].
  repeat (apply does_bind_ok; [auto with alone|intros ?]). auto with alone.
Qed.
#[local] Hint Resolve does_write_spilled : alone.

Lemma does_choose_storage id bs n :
  does (choose_storage_steps c id bs n) (choose_storage id bs n).
Proof.
  apply does_bind; [auto with alone|]. intros []; [auto with alone|].
  apply does_bind_ok; [auto with alone|]. intros path.
  apply (does_bind _ _ _ (record_spill n)); auto with alone.
Qed.
#[local] Hint Resolve does_choose_storage : alone.

Lemma does_next_id : does (atomic next_id) (@next_id W).
Proof. by apply does_act. Qed.
#[local] Hint Resolve does_next_id : alone.

Lemma does_start_spill path buffer chunk :
  does (start_spill_steps path buffer chunk) (start_spill path buffer chunk).
Proof.
  repeat (apply does_bind_ok; [|intros ?]); auto with alone.
  destruct (negb (is_empty buffer)); auto with alone.
Qed.
#[local] Hint Resolve does_start_spill : alone.

Lemma does_stream_loop id limit chunks err buffer spilled :
  does (stream_loop_steps c id limit chunks err buffer spilled)
    (stream_loop id limit chunks err buffer spilled).
Proof.
  revert buffer spilled. induction chunks as [|chunk chunks IH]; intros buffer spilled; simpl.
  { destruct err; apply does_ret. }
  destruct spilled as [path|]; [by apply does_bind_ok; auto with alone|].
  destruct (_ <=? limit)%Z; [apply IH|].
  eapply does_ext; [intros s Hs; rewrite Hs; reflexivity|].
  apply does_bind_ok; auto with alone.
Qed.
#[local] Hint Resolve does_stream_loop : alone.

Lemma does_store call mime : does (store_steps c call mime) (run_store call mime).
Proof.
  destruct call as [bs|bs|bs|reader]; simpl.
  1,2: apply does_bind; [auto with alone|]; intros id; apply does_bind_ok; auto with alone.
  - apply does_bind; auto with alone.
  - eapply does_ext; [intros s Hs; unfold store_stream; rewrite Hs; reflexivity|].
    apply does_bind; [auto with alone|]. intros id.
    apply does_bind_ok; [auto with alone|]. intros [buffer [path|]].
    + apply does_bind_ok; [auto with alone|]. intros _.
      apply does_bind_ok; [auto with alone|]. intros len.
      apply (does_bind _ _ _ (record_spill len)); auto with alone.
    + apply does_bind_ok; auto with alone.
Qed.

Lemma does_read h : does (read_bytes_steps h) (read_bytes h).
Proof. unfold read_bytes_steps, read_bytes. destruct (storage h); auto with alone. Qed.

Lemma does_open h n : does (open_reader_steps h n) (open_reader h n).
Proof. unfold open_reader_steps, open_reader. destruct (storage h); auto with alone. Qed.

Lemma does_remove h : does (remove_steps h) (BlobRuntime.remove h).
Proof.
  intros s Hs. unfold remove_steps, BlobRuntime.remove.
  assert (Hswap : solo (atomic (swap_removed (blob_id h))) s (swap_removed (blob_id h) s).1
                    (swap_removed (blob_id h) s).2).
  { eapply solo_act; [apply surjective_pairing|apply solo_ret]. }
  unfold swap_removed in Hswap at 2 3. destruct (decide (blob_id h ∈ removed s)).
  { split; [|done]. eapply solo_bind; [exact Hswap|]. apply solo_ret. }
  destruct (storage h) as [bs|bs|path].
  - split; [|done]. eapply solo_bind; [exact Hswap|]. eapply solo_act; [done|]. apply solo_ret.
  - split; [|done]. eapply solo_bind; [exact Hswap|]. apply solo_ret.
  - unfold on_world. cbn [world]. destruct (fs_remove_file path (world s)) as [r w] eqn:Ew.
    split; [|by destruct r as [|e]; [|destruct (io_not_found e)]].
    eapply solo_bind; [exact Hswap|]. eapply solo_act; [unfold on_world; cbn [snd world]; by rewrite Ew|].
    destruct r as [|e]; [|destruct (io_not_found e)]; apply solo_ret.
Qed.
End alone.

(** ** Every program ends when it is left alone *)

Section ending.
#[local] Set Default Proof Using "Type".
Context {W : Type} `{FileSystem W}.
Context (c : BlobRuntimeConfig).
Abbreviation Rt := (BlobRuntimeInner W).

Lemma ends_reserve n : ends (try_inline_reserve_steps c n : Prog Rt bool).
Proof.
  unfold try_inline_reserve_steps. destruct (negb (fits_inline c n)); [done|].
  assert (Hturn : ends (reserve_turn c n : Prog Rt _)).
  { intros current. simpl. by destruct (reserve_attempt c n current). }
  split; [done|]. split; [done|]. split; [|done]. intros _ s.
  destruct (reserve_attempt c n (global_hot_bytes s)) as [next|] eqn:Er.
  - exists true, (set_hot next s). eapply solo_act; [done|]. simpl. rewrite Er.
    apply (solo_act _ _ _ _ true (set_hot next s)); [|apply solo_ret].
    unfold compare_exchange. by rewrite Z.eqb_refl.
  - exists false, s. eapply solo_act; [done|]. simpl. rewrite Er. apply solo_ret.
Qed.

Lemma ends_ensure path : ends (ensure_parent_dir_steps path : Prog Rt _).
Proof. unfold ensure_parent_dir_steps. by destruct (path_parent path). Qed.

Lemma ends_write_spilled id bs : ends (write_spilled_bytes_steps c id bs : Prog Rt _).
Proof. by repeat (apply ends_bind_ok; [try done; try apply ends_ensure|intros ?]). Qed.

Lemma ends_choose id bs n : ends (choose_storage_steps c id bs n : Prog Rt _).
Proof.
  apply ends_bind; [apply ends_reserve|]. intros []; [done|].
  apply ends_bind_ok; [apply ends_write_spilled|]. by intros path.
Qed.

Lemma ends_start_spill path buffer chunk : ends (start_spill_steps path buffer chunk : Prog Rt _).
Proof.
  apply ends_bind_ok; [apply ends_ensure|intros _]. apply ends_bind_ok; [done|intros _].
  apply ends_bind_ok; [|intros b; by apply ends_bind_ok].
  destruct (negb (is_empty buffer)); [by apply ends_bind_ok|done].
Qed.

Lemma ends_stream_loop id limit chunks err buffer sp :
  ends (stream_loop_steps c id limit chunks err buffer sp : Prog Rt _).
Proof.
  revert buffer sp. induction chunks as [|chunk chunks IH]; intros buffer sp; simpl; [by destruct err|].
  destruct sp as [path|]; [by apply ends_bind_ok|]. destruct (_ <=? limit)%Z; [done|].
  apply ends_bind_ok; [apply ends_start_spill|done].
Qed.

Lemma ends_store call mime : ends (store_steps c call mime : Prog Rt _).
Proof.
  destruct call as [bs|bs|bs|reader]; cbn [store_steps]; (apply ends_bind; [done|intros id]).
  1,2: apply ends_bind_ok; [apply ends_choose|done].
  - done.
  - apply ends_bind_ok; [apply ends_stream_loop|]. intros [b [path|]].
    + by repeat (apply ends_bind_ok; [done|intros ?]).
    + apply ends_bind_ok; [apply ends_choose|done].
Qed.

Lemma ends_read h : ends (read_bytes_steps h : Prog Rt _).
Proof. unfold read_bytes_steps. by destruct (storage h). Qed.

Lemma ends_open h n : ends (open_reader_steps h n : Prog Rt _).
Proof. unfold open_reader_steps. by destruct (storage h). Qed.

Lemma ends_remove h : ends (remove_steps h : Prog Rt _).
Proof. apply ends_bind; [done|]. intros []; [done|]. by destruct (storage h). Qed.
End ending.

