(* ===== verification/BlobLogic.v ===== *)
(** A logic for programs on the blob store: what tasks own of it (the right to take identifiers, and the
    blobs they fill, have stored or are removing), the invariant that ties what all tasks own and
    what they have given out to the state of the runtime, and a rule for each program of
    BlobSteps.v.  The rules are used in BlobShared.v for tasks that are single operations, and in
    RequestLogic.v for whole requests. *)

From S2P Require Import Prelude RustStr Json Pointer Ext Samples Interleave BlobRuntime BlobSteps.
From stdpp Require Import relations options.

(** * What tasks share and own *)

(** The handles that were given out for anyone to use, with what they stand for; in order, the newest
    first; how many identifiers tasks were allowed to take; and whether a task may have ended or been
    dropped with blobs of its own. *)
Record BlobGhost := mkBlobGhost {
  ever : gmap Z (BlobHandle * bytes);
  handed : list BlobHandle;
  arrivals : Z;
  leaky : bool;
}.

Definition ghost_init : BlobGhost := mkBlobGhost ∅ [] 0 false.

(** [h] was given out. *)
Definition returned (g : BlobGhost) (h : BlobHandle) : Prop :=
  exists bs, ever g !! blob_id h = Some (h, bs).

(** The identifiers are not used up. *)
Definition ids_left (g : BlobGhost) : Prop := (arrivals g < u64_max)%Z.

(** A blob that belongs to a task: its identifier, unless its removal has begun; what is in its spill
    file, if that is known; the memory that is reserved for it. *)
Record Slot := mkSlot {
  slot_id : option Z;
  slot_file : option bytes;
  slot_hot : Z;
}.

(** What a task owns: how many identifiers it may still take, and its blobs. *)
Record Held := mkHeld {
  tickets : Z;
  slots : list Slot;
}.

(** The blob that [h] stands for, with the content [bs]. *)
Definition slot_of (h : BlobHandle) (bs : bytes) : Slot :=
  mkSlot (Some (blob_id h)) (if is_spilled h then Some bs else None) (inline_size h).

Section logic.
#[local] Set Default Proof Using "Type".
Context {W : Type} `{FileSystemLaws W}.
Abbreviation Rt := (BlobRuntimeInner W).
Context (c : BlobRuntimeConfig).

(** Others may change anything but the spill files. *)
Definition outside (s s' : Rt) : Prop :=
  exists w, s' = set_world w s /\
    forall id, fs_content w (spill_path c id) = fs_content (world s) (spill_path c id).

(** The handles that were given out and nobody has begun to remove. *)
Definition live (s : Rt) (g : BlobGhost) : gmap Z (BlobHandle * bytes) :=
  filter (fun e : Z * (BlobHandle * bytes) => e.1 ∉ removed s) (ever g).

(** A handle as a store makes it. *)
Definition made (id : Z) (h : BlobHandle) (bs : bytes) : Prop :=
  blob_id h = id /\ size_bytes (meta h) = blen bs /\
  match storage h with
  | Inline b | Shared b => b = bs
  | Spilled path => path = spill_path c id
  end.

(** Tasks may take [t] more identifiers together, and own the blobs [l]. *)
Record store_inv (g : BlobGhost) (t : Z) (l : list Slot) (s : Rt) : Prop := {
  si_cfg : cfg s = c;
  si_next : (1 <= next_id_counter s)%Z;
  si_tickets : (0 <= t)%Z;
  si_room : (next_id_counter s + t <= 1 + arrivals g)%Z;
  si_left : ids_left g;
  si_ids : NoDup (omap slot_id l);
  si_taken : Forall (fun id => (1 <= id < next_id_counter s)%Z /\ ever g !! id = None /\
    id ∉ removed s) (omap slot_id l);
  si_files : Forall (fun x => forall id bs, slot_id x = Some id -> slot_file x = Some bs ->
    fs_content (world s) (spill_path c id) = Some bs) l;
  si_ever : forall id h bs, ever g !! id = Some (h, bs) ->
    (1 <= id < next_id_counter s)%Z /\ made id h bs /\
    (is_spilled h = true -> id ∉ removed s -> fs_content (world s) (spill_path c id) = Some bs);
  si_removed : forall id, id ∈ removed s -> (1 <= id < next_id_counter s)%Z;
  si_memory : Forall (fun x => 0 <= slot_hot x)%Z l;
  si_hot : (hot_of (live s g) + sumZ (slot_hot <$> l) <= global_hot_bytes s)%Z;
  si_exact : leaky g = false ->
    global_hot_bytes s = (hot_of (live s g) + sumZ (slot_hot <$> l))%Z;
  si_budget : (global_hot_bytes s <= global_hot_budget_bytes c <= u64_max)%Z;
  si_handed : handed g ≡ₚ (fun e => e.2.1) <$> map_to_list (ever g);
}.

Definition blob_inv (g : BlobGhost) (s : Rt) (l : list Held) : Prop :=
  Forall (fun r => 0 <= tickets r)%Z l /\ store_inv g (sumZ (tickets <$> l)) (l ≫= slots) s.

(** What a task has learnt stays true: handles that were given out, removals that were begun. *)
Definition blob_ext (w w' : BlobGhost * Rt) : Prop :=
  ever w.1 ⊆ ever w'.1 /\ removed w.2 ⊆ removed w'.2 /\ (leaky w.1 = true -> leaky w'.1 = true).

#[export] Instance blob_ext_preorder : PreOrder blob_ext.
Proof.
  split; [by intros w|]. intros w1 w2 w3 (? & ? & ?) (? & ? & ?).
  split; [by etrans|]. split; [by etrans|auto].
Qed.

(** ** The invariant *)

Lemma inline_size_nonneg h : (0 <= inline_size h)%Z.
Proof. unfold inline_size. destruct (storage h); auto with proxy; lia. Qed.

Lemma store_inv_perm g t l l' s : l ≡ₚ l' -> store_inv g t l s -> store_inv g t l' s.
Proof.
  intros Hl []. split; try done; try (by rewrite <- Hl);
    by rewrite <- (sumZ_Permutation _ _ (fmap_Permutation slot_hot _ _ Hl)).
Qed.

Lemma blob_inv_perm g s l l' : l ≡ₚ l' -> blob_inv g s l -> blob_inv g s l'.
Proof.
  intros Hl [Ht Hi]. split; [by rewrite <- Hl|].
  rewrite <- (sumZ_Permutation _ _ (fmap_Permutation tickets _ _ Hl)).
  eapply store_inv_perm; [|exact Hi]. by apply bind_Permutation.
Qed.

Lemma blob_inv_cons g s t x l :
  blob_inv g s (mkHeld t x :: l) <->
  (0 <= t)%Z /\ Forall (fun r => 0 <= tickets r)%Z l /\
  store_inv g (t + sumZ (tickets <$> l)) (x ++ (l ≫= slots)) s.
Proof.
  unfold blob_inv. rewrite Forall_cons, fmap_cons, sumZ_cons. simpl. tauto.
Qed.

(** A step of one task, which exchanges the blobs [x] of its own for [x']. *)
Lemma blob_inv_step g g' s s' k k' x x' l others :
  (forall t rest, (0 <= t)%Z -> store_inv g (k + t) (x ++ rest) s -> store_inv g' (k' + t) (x' ++ rest) s') ->
  (0 <= k')%Z ->
  blob_inv g s (mkHeld k (x ++ l) :: others) -> blob_inv g' s' (mkHeld k' (x' ++ l) :: others).
Proof.
  intros Hstep Hk. rewrite !blob_inv_cons, <- !app_assoc. intros (_ & Ht & Hi).
  split; [done|]. split; [done|]. apply Hstep; [|done]. by apply sumZ_nonneg, Forall_fmap.
Qed.

Lemma blob_inv_slots g s k l l' others :
  l ≡ₚ l' -> blob_inv g s (mkHeld k l :: others) -> blob_inv g s (mkHeld k l' :: others).
Proof.
  intros Hl. rewrite !blob_inv_cons. intros (? & ? & Hi). split; [done|]. split; [done|].
  eapply store_inv_perm; [|exact Hi]. by rewrite Hl.
Qed.

(** An access that concerns no task's blobs. *)
Lemma blob_inv_shared g g' s s' l :
  (forall t rest, store_inv g t rest s -> store_inv g' t rest s') ->
  blob_inv g s l -> blob_inv g' s' l.
Proof. intros Hstep [? ?]. split; [done|]. by apply Hstep. Qed.

(** Forgetting an identifier, but for its memory. *)
Lemma store_inv_forget g t x l s :
  store_inv g t (x :: l) s -> slot_hot x = 0%Z -> store_inv g t l s.
Proof.
  intros [] Hx. rewrite fmap_cons, sumZ_cons, Hx in *.
  apply Forall_cons in si_files0 as [_ ?]. apply Forall_cons in si_memory0 as [_ ?].
  split; try done.
  - simpl in si_ids0. destruct (slot_id x); [by apply NoDup_cons in si_ids0 as [_ ?]|done].
  - simpl in si_taken0. destruct (slot_id x); [by apply Forall_cons in si_taken0 as [_ ?]|done].
Qed.

Lemma store_inv_forget_all g t x l s :
  store_inv g t (x ++ l) s -> Forall (fun y => slot_hot y = 0%Z) x -> store_inv g t l s.
Proof.
  induction x as [|y x IH]; [done|]. simpl. intros Hi [Hy Hx]%Forall_cons.
  apply IH; [|done]. by eapply store_inv_forget.
Qed.

(** Leaving a blob behind. *)
Lemma store_inv_leak g t x l s :
  store_inv g t (x ++ l) s -> leaky g = true -> store_inv g t l s.
Proof.
  intros [] Hl. rewrite fmap_app, sumZ_app, omap_app in *.
  apply Forall_app in si_files0 as [_ ?]. apply Forall_app in si_memory0 as [Hx ?].
  apply NoDup_app in si_ids0 as (_ & _ & ?). apply Forall_app in si_taken0 as [_ ?].
  split; try done; [|by rewrite Hl].
  assert (0 <= sumZ (slot_hot <$> x))%Z by (by apply sumZ_nonneg, Forall_fmap). lia.
Qed.

Lemma store_inv_tickets g t t' l s : store_inv g t l s -> (0 <= t' <= t)%Z -> store_inv g t' l s.
Proof. intros [] ?. split; try done; lia. Qed.

Lemma store_inv_world g t l s w :
  store_inv g t l s -> (forall id, fs_content w (spill_path c id) = fs_content (world s) (spill_path c id)) ->
  store_inv g t l (set_world w s).
Proof.
  intros [] Hw. split; try done; simpl.
  - eapply Forall_impl; [exact si_files0|]. simpl. intros r Hr id bs Hi Hb. rewrite Hw. exact (Hr id bs Hi Hb).
  - intros id h bs Hl. rewrite Hw. exact (si_ever0 id h bs Hl).
Qed.

Lemma store_inv_same g t l s s' :
  cfg s' = cfg s -> next_id_counter s' = next_id_counter s -> global_hot_bytes s' = global_hot_bytes s ->
  removed s' = removed s -> world s' = world s -> store_inv g t l s -> store_inv g t l s'.
Proof.
  intros Hc Hn Hh Hr Hw []. split; unfold live in *; rewrite ?Hc, ?Hn, ?Hh, ?Hr, ?Hw; done.
Qed.

(** An access to the spill file of an identifier of the task's own. *)
Lemma store_inv_own_file g t l s w id f f' n :
  store_inv g t (mkSlot (Some id) f n :: l) s ->
  (forall q, q <> spill_path c id -> fs_content w q = fs_content (world s) q) ->
  (forall bs, f' = Some bs -> fs_content w (spill_path c id) = Some bs) ->
  store_inv g t (mkSlot (Some id) f' n :: l) (set_world w s).
Proof.
  intros [] Hw Hf. simpl in si_ids0, si_taken0. split; try done; simpl.
  - apply Forall_cons in si_files0 as [_ Hl]. constructor.
    { simpl. intros id' bs [= <-] Hbs. by apply Hf. }
    apply Forall_forall. intros x Hin id' bs Hid' Hbs. rewrite Hw.
    + rewrite Forall_forall in Hl. exact (Hl x Hin id' bs Hid' Hbs).
    + intros ->%spill_path_inj. apply NoDup_cons in si_ids0 as [Hn _]. apply Hn.
      apply list_elem_of_omap. by exists x.
  - intros id' h bs Hl. rewrite Hw; [by apply si_ever0|]. intros ->%spill_path_inj.
    apply Forall_cons in si_taken0 as [(_ & Hn & _) _]. by rewrite Hn in Hl.
  - by apply Forall_cons in si_memory0 as [? ?]; constructor.
Qed.

(** An access to the spill file of a blob whose removal has begun. *)
Lemma store_inv_removed_file g t l s w id :
  store_inv g t l s -> id ∈ removed s ->
  (forall q, q <> spill_path c id -> fs_content w q = fs_content (world s) q) ->
  store_inv g t l (set_world w s).
Proof.
  intros [] Hid Hw. split; try done; simpl.
  - apply Forall_forall. intros x Hin id' bs Hid' Hbs. rewrite Hw.
    + rewrite Forall_forall in si_files0. exact (si_files0 x Hin id' bs Hid' Hbs).
    + intros ->%spill_path_inj. rewrite Forall_forall in si_taken0.
      destruct (si_taken0 id) as (_ & _ & Hn); [apply list_elem_of_omap; by exists x|]. done.
  - intros id' h bs Hl. destruct (si_ever0 _ _ _ Hl) as (? & ? & Hf). split; [done|]. split; [done|].
    intros Hsp Hn. rewrite Hw; [by apply Hf|]. by intros ->%spill_path_inj.
Qed.

Lemma live_none_hot s g id h bs :
  ever g !! id = Some (h, bs) -> id ∉ removed s ->
  hot_of (filter (fun e : Z * (BlobHandle * bytes) => e.1 ∉ {[id]} ∪ removed s) (ever g)) =
  (hot_of (live s g) - inline_size h)%Z.
Proof.
  intros Hl Hn. rewrite <- (hot_of_delete (live s g) id h bs).
  - f_equal. apply map_eq. intros id'. unfold live. destruct (decide (id' = id)) as [->|Hne].
    + rewrite lookup_delete_eq, map_lookup_filter_None. right. intros x _. simpl. set_solver.
    + rewrite lookup_delete_ne by done. apply option_eq. intros x.
      rewrite !map_lookup_filter_Some. simpl. set_solver.
  - unfold live. by apply map_lookup_filter_Some.
Qed.

Lemma live_same s g id :
  ever g !! id = None ->
  filter (fun e : Z * (BlobHandle * bytes) => e.1 ∉ {[id]} ∪ removed s) (ever g) = live s g.
Proof.
  intros Hn. apply map_eq. intros id'. apply option_eq. intros x. unfold live.
  rewrite !map_lookup_filter_Some. simpl. destruct (decide (id' = id)) as [->|Hne]; [|set_solver].
  split; intros [Hl _]; by rewrite Hn in Hl.
Qed.

(** Taking an identifier. *)
Lemma store_inv_next_id g t l s :
  store_inv g (1 + t) l s -> (0 <= t)%Z ->
  store_inv g t (mkSlot (Some (next_id s).1) None 0 :: l) (next_id s).2.
Proof.
  intros [] Ht. unfold ids_left in si_left0.
  assert (E : u64_wrap (next_id_counter s + 1) = (next_id_counter s + 1)%Z).
  { apply u64_wrap_small. unfold in_u64. lia. }
  assert (Hold : forall id h bs, ever g !! id = Some (h, bs) -> id <> next_id_counter s).
  { intros id h bs Hl. destruct (si_ever0 _ _ _ Hl). lia. }
  split; simpl; rewrite ?E; try done; try lia.
  - apply NoDup_cons. split; [|done]. intros Hin. rewrite Forall_forall in si_taken0.
    destruct (si_taken0 _ Hin). lia.
  - constructor.
    + split; [lia|]. split.
      * destruct (ever g !! next_id_counter s) as [[h bs]|] eqn:El; [|done]. by destruct (Hold _ _ _ El).
      * intros Hin. apply si_removed0 in Hin. lia.
    + eapply Forall_impl; [exact si_taken0|]. simpl. intros id (? & ? & ?). split; [lia|done].
  - by constructor.
  - intros id h bs Hl. destruct (si_ever0 _ _ _ Hl) as (? & ?). split; [lia|done].
  - intros id Hin. apply si_removed0 in Hin. lia.
  - by constructor.
Qed.

(** Reserving memory. *)
Lemma store_inv_reserve g t id f l s n :
  store_inv g t (mkSlot id f 0 :: l) s -> (0 <= n)%Z ->
  (global_hot_bytes s + n <= global_hot_budget_bytes c)%Z ->
  store_inv g t (mkSlot id f n :: l) (set_hot (global_hot_bytes s + n) s).
Proof.
  intros [] Hn Hb. rewrite fmap_cons, sumZ_cons in *. split; try done;
    rewrite ?fmap_cons, ?sumZ_cons; unfold live in *; simpl in *.
  - apply Forall_cons in si_files0 as [? ?]. by constructor.
  - apply Forall_cons in si_memory0 as [_ ?]. by constructor.
  - lia.
  - intros Hl. specialize (si_exact0 Hl). lia.
  - lia.
Qed.

(** Releasing it. *)
Lemma store_inv_release g t id f l s n :
  store_inv g t (mkSlot id f n :: l) s ->
  store_inv g t (mkSlot id f 0 :: l) (release_inline_bytes n s).2.
Proof.
  intros []. rewrite fmap_cons, sumZ_cons in *. simpl in *.
  apply Forall_cons in si_memory0 as [? Hl]. simpl in *.
  assert (0 <= sumZ (slot_hot <$> l))%Z by (by apply sumZ_nonneg, Forall_fmap).
  assert (Hlive := hot_of_nonneg (live s g)). unfold live in *.
  assert (E : u64_wrap (global_hot_bytes s - n) = (global_hot_bytes s - n)%Z).
  { apply u64_wrap_small. unfold in_u64. lia. }
  split; rewrite ?fmap_cons, ?sumZ_cons; unfold live in *; simpl; rewrite ?E; try done.
  - apply Forall_cons in si_files0 as [? ?]. by constructor.
  - by constructor.
  - lia.
  - intros Hk. specialize (si_exact0 Hk). lia.
  - lia.
Qed.

Definition with_removed (id : Z) (s : Rt) : Rt := (swap_removed id s).2.

(** Setting the flag of a handle that was given out: its memory is now the task's to release. *)
Lemma store_inv_swap_ever g t l s h bs :
  store_inv g t l s -> ever g !! blob_id h = Some (h, bs) -> blob_id h ∉ removed s ->
  store_inv g t (mkSlot None None (inline_size h) :: l) (with_removed (blob_id h) s).
Proof.
  intros [] He Hn. unfold with_removed, swap_removed. rewrite decide_False by done.
  split; try done; rewrite ?fmap_cons, ?sumZ_cons; simpl.
  - apply Forall_forall. intros id Hin. rewrite Forall_forall in si_taken0.
    destruct (si_taken0 id Hin) as (? & Hnone & ?). split; [done|]. split; [done|].
    apply not_elem_of_union. split; [|done]. intros ->%elem_of_singleton. by rewrite Hnone in He.
  - by constructor.
  - intros id' h' bs' Hl. destruct (si_ever0 _ _ _ Hl) as (? & ? & Hf). split; [done|].
    split; [done|]. intros Hsp Hid. apply Hf; [done|]. set_solver.
  - intros id' [->%elem_of_singleton|Hid]%elem_of_union; [by destruct (si_ever0 _ _ _ He)|by apply si_removed0].
  - constructor; [apply inline_size_nonneg|done].
  - unfold live at 1. simpl. rewrite (live_none_hot s g (blob_id h) h bs) by done. lia.
  - intros Hk. specialize (si_exact0 Hk). unfold live at 1. simpl.
    rewrite (live_none_hot s g (blob_id h) h bs) by done. lia.
Qed.

(** And of a blob of its own. *)
Lemma store_inv_swap_own g t id f n l s :
  store_inv g t (mkSlot (Some id) f n :: l) s ->
  id ∉ removed s /\ store_inv g t (mkSlot None None n :: l) (with_removed id s).
Proof.
  intros []. simpl in si_ids0, si_taken0. apply NoDup_cons in si_ids0 as [Hnin Hnd].
  apply Forall_cons in si_taken0 as [(Hr & Hnone & Hn) Htk]. split; [done|].
  unfold with_removed, swap_removed. rewrite decide_False by done.
  apply Forall_cons in si_files0 as [_ Hfl]. apply Forall_cons in si_memory0 as [Hm ?].
  split; try done; rewrite ?fmap_cons, ?sumZ_cons in *; simpl in *.
  - apply Forall_forall. intros id' Hin. rewrite Forall_forall in Htk.
    destruct (Htk id' Hin) as (? & ? & ?). split; [done|]. split; [done|].
    apply not_elem_of_union. split; [|done]. by intros ->%elem_of_singleton.
  - by constructor.
  - intros id' h' bs' Hl. destruct (si_ever0 _ _ _ Hl) as (? & ? & Hf). split; [done|].
    split; [done|]. intros Hsp Hid. apply Hf; [done|]. set_solver.
  - intros id' [->%elem_of_singleton|Hid]%elem_of_union; [done|by apply si_removed0].
  - by constructor.
  - unfold live at 1. simpl. by rewrite live_same.
  - unfold live at 1. simpl. by rewrite live_same.
Qed.

(** The access that sets the flag. *)
Lemma swap_step g s h :
  blob_id h ∉ removed s ->
  (swap_removed (blob_id h) s) = (false, with_removed (blob_id h) s) /\
  blob_ext (g, s) (g, with_removed (blob_id h) s) /\ blob_id h ∈ removed (with_removed (blob_id h) s).
Proof.
  intros Hn. unfold with_removed, swap_removed. rewrite decide_False by done. split; [done|].
  split; [|simpl; set_solver]. split; [done|]. split; [simpl; set_solver|done].
Qed.

(** Giving a blob out. *)
Lemma store_inv_publish g t l s h bs :
  store_inv g t (slot_of h bs :: l) s -> made (blob_id h) h bs ->
  store_inv (mkBlobGhost (<[blob_id h := (h, bs)]> (ever g)) (h :: handed g) (arrivals g) (leaky g)) t l s /\
  ever g !! blob_id h = None.
Proof.
  intros [] Hm. simpl in si_ids0, si_taken0. rewrite fmap_cons, sumZ_cons in *. simpl in *.
  apply NoDup_cons in si_ids0 as [Hnin Hnd].
  apply Forall_cons in si_taken0 as [(Hrange & Hnone & Hnr) Htk].
  apply Forall_cons in si_files0 as [Hfile ?]. apply Forall_cons in si_memory0 as [? ?].
  assert (Hlive : hot_of (filter (fun e : Z * (BlobHandle * bytes) => e.1 ∉ removed s)
    (<[blob_id h:=(h, bs)]> (ever g))) = (inline_size h + hot_of (live s g))%Z).
  { rewrite map_filter_insert_True by done. apply hot_of_insert. apply map_lookup_filter_None. by left. }
  split; [|done]. split; try done; simpl.
  - apply Forall_forall. intros id Hin. rewrite Forall_forall in Htk. destruct (Htk id Hin) as (? & ? & ?).
    split; [done|]. split; [|done].
    by rewrite lookup_insert_ne by (intros Hd; apply Hnin; by rewrite Hd).
  - intros id' h' bs' [[<- [= <- <-]]|[_ Hl]]%lookup_insert_Some; [|by apply si_ever0].
    split; [done|]. split; [done|]. intros Hsp _. apply (Hfile (blob_id h) bs); [done|]. simpl. by rewrite Hsp.
  - unfold live at 1. cbn [ever]. rewrite Hlive. lia.
  - intros Hk. unfold live at 1. cbn [ever]. rewrite Hlive, (si_exact0 Hk). lia.
  - rewrite map_to_list_insert by done. simpl. by rewrite si_handed0.
Qed.

(** More identifiers that may be taken. *)
Lemma store_inv_arrive g t l s k :
  store_inv g t l s -> (0 <= k)%Z ->
  ids_left (mkBlobGhost (ever g) (handed g) (arrivals g + k) (leaky g)) ->
  store_inv (mkBlobGhost (ever g) (handed g) (arrivals g + k) (leaky g)) (k + t) l s.
Proof. intros [] Hk Hleft. split; try done; simpl; lia. Qed.

Lemma store_inv_leaks g t l s :
  store_inv g t l s -> store_inv (mkBlobGhost (ever g) (handed g) (arrivals g) true) t l s.
Proof. by intros []. Qed.

Lemma blob_inv_init w :
  in_u64 (global_hot_budget_bytes c) -> blob_inv ghost_init (runtime_new c w) [].
Proof.
  unfold in_u64. intros Hc. split; [done|].
  split; try done; simpl; try lia; try constructor; by rewrite map_to_list_empty.
Qed.

(** What the spill file of a blob of the task's own holds. *)
Lemma own_file g s k l others h bs :
  blob_inv g s (mkHeld k l :: others) -> slot_of h bs ∈ l -> is_spilled h = true ->
  fs_content (world s) (spill_path c (blob_id h)) = Some bs.
Proof.
  rewrite blob_inv_cons. intros (_ & _ & []) Hin Hs. apply Forall_app in si_files0 as [Hl _].
  rewrite Forall_forall in Hl. apply (Hl _ Hin (blob_id h) bs); simpl; [done|]. by rewrite Hs.
Qed.

Lemma budget_kept g t l s :
  store_inv g t l s -> (0 <= global_hot_bytes s <= global_hot_budget_bytes c)%Z.
Proof.
  intros []. assert (0 <= sumZ (slot_hot <$> l))%Z by (by apply sumZ_nonneg, Forall_fmap).
  assert (Hl := hot_of_nonneg (live s g)). lia.
Qed.

Lemma live_stored g t l s h bs :
  store_inv g t l s -> live s g !! blob_id h = Some (h, bs) -> stored s (blob_id h) h bs.
Proof.
  intros [] Hl. unfold live in Hl. apply map_lookup_filter_Some in Hl as [Hl Hn].
  destruct (si_ever0 _ _ _ Hl) as (_ & (? & ? & Hst) & Hf). split; [done|]. split; [done|].
  unfold is_spilled in Hf. destruct (storage h); [done..|]. rewrite si_cfg0. subst path.
  split; [done|]. by apply Hf.
Qed.

Lemma handed_distinct g t l s : store_inv g t l s -> NoDup (blob_id <$> handed g).
Proof.
  intros []. rewrite si_handed0.
  replace (blob_id <$> _) with ((map_to_list (ever g)).*1); [apply NoDup_fst_map_to_list|].
  rewrite <- list_fmap_compose. apply list_fmap_ext. intros i [id [h bs]] Hl. simpl.
  apply list_elem_of_lookup_2, elem_of_map_to_list in Hl. by destruct (si_ever0 _ _ _ Hl) as (_ & [? _] & _).
Qed.

(** Once every handle that was given out is removed, no memory is held. *)
Lemma all_removed_cold g t s :
  store_inv g t [] s -> leaky g = false -> (forall h, h ∈ handed g -> blob_id h ∈ removed s) ->
  live s g = ∅ /\ global_hot_bytes s = 0%Z.
Proof.
  intros [] Hk Hall. assert (Hlive : live s g = ∅).
  { apply map_empty. intros id. apply map_lookup_filter_None. right. intros [h bs] Hl. simpl.
    intros Hn. apply Hn. destruct (si_ever0 _ _ _ Hl) as (_ & [<- _] & _). apply Hall.
    rewrite si_handed0. apply list_elem_of_fmap. exists (blob_id h, (h, bs)).
    split; [done|]. by apply elem_of_map_to_list. }
  split; [done|]. rewrite (si_exact0 Hk), Hlive. done.
Qed.

Lemma live_rep g t s : store_inv g t [] s -> leaky g = false -> rep s (live s g).
Proof.
  intros [] Hk. assert (Hlive : forall id h bs, live s g !! id = Some (h, bs) ->
    ever g !! id = Some (h, bs) /\ id ∉ removed s).
  { unfold live. intros id h bs Hl. by apply map_lookup_filter_Some in Hl. }
  unfold ids_left in *. specialize (si_exact0 Hk). simpl in si_exact0. split.
  - lia.
  - intros id h bs [Hl Hn]%Hlive. destruct (si_ever0 _ _ _ Hl) as (_ & (? & ? & Hst) & Hf).
    split; [done|]. split; [done|]. unfold is_spilled in Hf. destruct (storage h); [done..|].
    rewrite si_cfg0. subst path. split; [done|]. by apply Hf.
  - intros id [[h bs] [Hl Hn]%Hlive]. destruct (si_ever0 _ _ _ Hl). done.
  - intros id Hin. apply si_removed0 in Hin. lia.
  - rewrite si_exact0. simpl. lia.
  - by rewrite si_cfg0.
Qed.

(** * The rules

    A task that may take [k] identifiers and owns the blobs [B] besides the one at hand.  [lost] says
    what a task that is dropped while it awaits an access may leave behind. *)

Context (lost : Held -> Prop).

Abbreviation wpb := (wp blob_inv blob_ext lost).
Abbreviation failed r := (map_err (fun e => ExternalError (io_display e)) r).

Lemma blob_bind {A B} (p : Prog Rt A) (f : A -> Prog Rt B) w r Q :
  wpb p w r (fun w' a r' => wpb (f a) w' r' Q) -> wpb (bind p f) w r Q.
Proof. apply wp_bind, _. Qed.

Lemma wp_bind_ok {A B} (p : Prog Rt (Result Error A)) (f : A -> Prog Rt (Result Error B)) w r Q :
  wpb p w r (fun w' x r' => match x with Ok a => wpb (f a) w' r' Q | Err e => Q w' (Err e) r' end) ->
  wpb (bind_ok p f) w r Q.
Proof.
  intros Hp. apply blob_bind. eapply wp_conseq; [apply _| |exact Hp]. by intros w' [a|e] r'.
Qed.

Context (k : Z) (B : list Slot) (Hk : (0 <= k)%Z).
Context (Hlost : forall l, Forall (fun x => slot_hot x = 0%Z) l -> lost (mkHeld k (l ++ B))).

Abbreviation holds l := (mkHeld k (l ++ B)).
Abbreviation owns id f := (mkHeld k ([mkSlot (Some id) f 0] ++ B)).
Abbreviation idle := (mkHeld k B).

#[local] Lemma lost_one id f : lost (owns id f).
Proof using Hlost. apply Hlost. by repeat constructor. Qed.

#[local] Lemma lost_idle : lost idle.
Proof using Hlost. by apply (Hlost []). Qed.

(** The access replaces the blobs at hand. *)
Lemma task_step g s s' l l' others :
  (forall t rest, (0 <= t)%Z -> store_inv g (k + t) (l ++ rest) s -> store_inv g (k + t) (l' ++ rest) s') ->
  blob_inv g s (holds l :: others) -> blob_inv g s' (holds l' :: others).
Proof using Hk. intros Hstep. by apply blob_inv_step. Qed.

(** An access to the world by a task that owns an identifier's spill file; [after] says what the
    file then is known to hold. *)
Lemma wp_file {A} (m : St W (Result IoError A)) w id f (after : Result IoError A -> option bytes) Q :
  (forall x res x', m x = (res, x') ->
     forall q, q <> spill_path c id -> fs_content x' q = fs_content x q) ->
  (forall x res x', m x = (res, x') ->
     (forall bs, f = Some bs -> fs_content x (spill_path c id) = Some bs) ->
     (forall bs, after res = Some bs -> fs_content x' (spill_path c id) = Some bs) /\
     forall w', blob_ext w w' -> Q w' (failed res) (owns id (after res))) ->
  wpb (file m) w (owns id f) Q.
Proof using Hk Hlost.
  intros Hframe Heff g s others He Hi. unfold io, on_world.
  destruct (m (world s)) as [res x'] eqn:Em.
  destruct (Heff _ _ _ Em) as [Hafter HQ].
  { intros bs Hf. apply blob_inv_cons in Hi as (_ & _ & []).
    apply Forall_cons in si_files0 as [Hfile _]. by apply Hfile. }
  split; [done|]. exists (owns id (after res)). split; [|split]; [| |intros _; apply lost_one].
  - revert Hi. apply (task_step g s _ [_] [_]). intros t rest _ Hi.
    apply (store_inv_own_file _ _ _ _ _ _ f); [done| |done]. exact (Hframe _ _ _ Em).
  - apply HQ. etrans; [exact He|done].
Qed.

(** An access to the world that changes no file. *)
Lemma wp_frame {A R} aw (m : St W A) (k' : A -> Prog Rt R) w l Q :
  (forall x res x', m x = (res, x') -> forall q, fs_content x' q = fs_content x q) ->
  (aw = true -> lost (holds l)) ->
  (forall g s others res x', blob_ext w (g, s) -> blob_inv g s (holds l :: others) ->
     m (world s) = (res, x') -> wpb (k' res) (g, set_world x' s) (holds l) Q) ->
  wpb (Act aw (on_world m) k') w (holds l) Q.
Proof using Type.
  intros Hframe Hl HQ g s others He Hi. unfold on_world.
  destruct (m (world s)) as [res x'] eqn:Em. split; [done|]. exists (holds l).
  split; [|split; [by eapply HQ|done]].
  revert Hi. apply blob_inv_shared. intros t rest Hi.
  apply store_inv_world; [done|]. intros id. by eapply Hframe.
Qed.

Lemma wp_look {A} (m : St W (Result IoError A)) w Q :
  (forall x res x', m x = (res, x') -> forall q, fs_content x' q = fs_content x q) ->
  (forall g s others res x', blob_ext w (g, s) -> blob_inv g s (idle :: others) ->
     m (world s) = (res, x') -> Q (g, set_world x' s) (failed res) idle) ->
  wpb (file m) w idle Q.
Proof using Hlost.
  intros Hframe HQ g s others He Hi. unfold io.
  assert (H1 := wp_frame true m (fun r => Ret (failed r)) w [] Q Hframe (fun _ => lost_idle) HQ g s others He Hi).
  unfold on_world in *. by destruct (m (world s)).
Qed.

(** An access to the counters of [record_spill]. *)
Lemma wp_counter (m : St Rt unit) w r Q :
  (forall s, cfg (m s).2 = cfg s /\ next_id_counter (m s).2 = next_id_counter s /\
     global_hot_bytes (m s).2 = global_hot_bytes s /\ removed (m s).2 = removed s /\
     world (m s).2 = world s) ->
  (forall w', blob_ext w w' -> Q w' tt r) -> wpb (atomic m) w r Q.
Proof using Type.
  intros Hm HQ g s others He Hi. specialize (Hm s). destruct (m s) as [[] s'].
  destruct Hm as (Hc & Hn & Hh & Hr & Hw). simpl in *.
  assert (He' : blob_ext (g, s) (g, s')) by (split; simpl; [done|by rewrite Hr]).
  split; [done|]. exists r. split; [|split; [apply HQ; by etrans|done]].
  revert Hi. apply blob_inv_shared. intros t rest. by apply store_inv_same.
Qed.

Lemma wp_record_spill n w r Q :
  (forall w', blob_ext w w' -> Q w' tt r) -> wpb (record_spill_steps n) w r Q.
Proof using Type.
  intros HQ. apply blob_bind. apply wp_counter; [done|]. intros w1 H1. apply wp_counter; [done|].
  intros w2 H2. apply HQ. by etrans.
Qed.

Abbreviation reserved id f n := (mkHeld k ([mkSlot (Some id) f n] ++ B)).

Lemma wp_reserve_turn n w id f Q :
  (0 <= n)%Z ->
  (forall w', blob_ext w w' -> Q w' (leave true) (reserved id f n)) ->
  (forall w', blob_ext w w' -> Q w' (leave false) (owns id f)) ->
  (forall w', blob_ext w w' -> Q w' again (owns id f)) ->
  wpb (reserve_turn c n) w (owns id f) Q.
Proof using Hk.
  intros Hn Htrue Hfalse Hagain g s others He Hi. split; [done|].
  exists (owns id f). split; [done|]. split; [|done]. simpl.
  destruct (reserve_attempt c n (global_hot_bytes s)) as [next|] eqn:Er; [|by apply Hfalse].
  apply reserve_attempt_Some in Er as [-> Hb]. intros g2 s2 others2 He2 Hi2.
  assert (He3 : blob_ext w (g2, s2)) by (by etrans). unfold compare_exchange.
  destruct (Z.eqb_spec (global_hot_bytes s2) (global_hot_bytes s)) as [E|_].
  - split; [done|]. rewrite <- E in *. exists (reserved id f n). split; [|split; [|done]].
    + revert Hi2. apply (task_step g2 s2 _ [_] [_]). intros t rest _ Hi2.
      by apply store_inv_reserve.
    + apply Htrue. by etrans.
  - split; [done|]. exists (owns id f). split; [done|]. split; [by apply Hagain|done].
Qed.

Lemma wp_reserve n w id f Q :
  (0 <= n)%Z ->
  (forall w', blob_ext w w' -> Q w' true (reserved id f n)) ->
  (forall w', blob_ext w w' -> Q w' false (owns id f)) ->
  wpb (try_inline_reserve_steps c n) w (owns id f) Q.
Proof using Hk.
  intros Hn Htrue Hfalse. unfold try_inline_reserve_steps.
  destruct (negb (fits_inline c n)); [by apply Hfalse|]. exists (fun _ r => r = owns id f).
  assert (Hturn : forall w1, blob_ext w w1 -> wpb (reserve_turn c n) w1 (owns id f)
    (fun w' o r' => match o with inr b => wpb (Ret b) w' r' Q | inl _ => r' = owns id f end)).
  { intros w1 H1. apply wp_reserve_turn; [done| | |done]; intros w2 H2; simpl;
      [apply Htrue|apply Hfalse]; by etrans. }
  split; [by apply Hturn|]. intros w1 x r1 H1 ->. by apply Hturn.
Qed.

Lemma wp_ensure_parent_dir path w id f Q :
  (forall w' res, blob_ext w w' -> Q w' res (owns id f)) ->
  wpb (ensure_parent_dir_steps path) w (owns id f) Q.
Proof using Hk Hlost.
  intros HQ. unfold ensure_parent_dir_steps. destruct (path_parent path) as [parent|]; [|by apply HQ].
  apply (wp_file _ w id f (fun _ => f)).
  - intros x res x' Em q _. by eapply fs_create_dir_all_frame.
  - intros x res x' Em Hf. split; [|by auto]. intros bs Hbs.
    rewrite (fs_create_dir_all_frame _ _ _ _ Em). by apply Hf.
Qed.

(** The ends of a program that fills a spill file. *)
Lemma wp_write_spilled id bs w Q :
  (forall w', blob_ext w w' -> Q w' (Ok (spill_path c id)) (owns id (Some bs))) ->
  (forall w' e f, blob_ext w w' -> Q w' (Err e) (owns id f)) ->
  wpb (write_spilled_bytes_steps c id bs) w (owns id None) Q.
Proof using Hk Hlost.
  intros Hok Herr. apply wp_bind_ok, wp_ensure_parent_dir. intros w1 [[]|e] H1; [|by apply Herr].
  apply wp_bind_ok.
  apply (wp_file _ w1 id None (fun res => match res with Ok _ => Some bs | Err _ => None end)).
  - intros x res x' Em q Hq. by eapply fs_write_frame.
  - intros x [[]|e] x' Em _; (split; [|intros w2 H2; simpl]).
    + intros bs' [= <-]. by eapply fs_write_ok.
    + apply Hok. by etrans.
    + done.
    + apply Herr. by etrans.
Qed.

Lemma wp_choose_storage id bs w Q :
  (forall w', blob_ext w w' -> Q w' (Ok (Inline bs)) (reserved id None (blen bs))) ->
  (forall w', blob_ext w w' -> Q w' (Ok (Spilled (spill_path c id))) (owns id (Some bs))) ->
  (forall w' e f, blob_ext w w' -> Q w' (Err e) (owns id f)) ->
  wpb (choose_storage_steps c id bs (blen bs)) w (owns id None) Q.
Proof using Hk Hlost.
  intros Hin Hsp Herr. apply blob_bind, wp_reserve; [apply blen_nonneg|done|]. intros w1 H1.
  apply wp_bind_ok, wp_write_spilled.
  - intros w2 H2. apply blob_bind, wp_record_spill. intros w3 H3. simpl. apply Hsp.
    etrans; [exact H1|]. by etrans.
  - intros w2 e f H2. apply Herr. by etrans.
Qed.

Lemma wp_write_all id so_far bs w Q :
  (forall w', blob_ext w w' -> Q w' (Ok tt) (owns id (Some (so_far +:+ bs)))) ->
  (forall w' e f, blob_ext w w' -> Q w' (Err e) (owns id f)) ->
  wpb (file (file_write_all (spill_path c id) bs)) w (owns id (Some so_far)) Q.
Proof using Hk Hlost.
  intros Hok Herr.
  apply (wp_file _ w id (Some so_far)
    (fun res => match res with Ok _ => Some (so_far +:+ bs) | Err _ => None end)).
  - intros x res x' Em q Hq. by eapply file_write_all_frame.
  - intros x [[]|e] x' Em Hf; (split; [|intros w2 H2; cbn [map_err]; auto]); [|done].
    intros bs' [= <-]. eapply file_write_all_ok; [done|]. by apply Hf.
Qed.

Lemma wp_start_spill id buffer chunk w Q :
  (forall w', blob_ext w w' -> Q w' (Ok EmptyString) (owns id (Some (buffer +:+ chunk)))) ->
  (forall w' e f, blob_ext w w' -> Q w' (Err e) (owns id f)) ->
  wpb (start_spill_steps (spill_path c id) buffer chunk) w (owns id None) Q.
Proof using Hk Hlost.
  intros Hok Herr. apply wp_bind_ok, wp_ensure_parent_dir. intros w1 [[]|e] H1; [|by apply Herr].
  assert (Herr1 : forall w' e f, blob_ext w1 w' -> Q w' (Err e) (owns id f)).
  { intros w' e f H2. apply Herr. by etrans. }
  assert (Hok1 : forall w', blob_ext w1 w' -> Q w' (Ok EmptyString) (owns id (Some (buffer +:+ chunk)))).
  { intros w' H2. apply Hok. by etrans. }
  clear Hok Herr H1. apply wp_bind_ok.
  apply (wp_file _ w1 id None (fun res => match res with Ok _ => Some EmptyString | Err _ => None end)).
  { intros x res x' Em q Hq. by eapply file_create_frame. }
  intros x [[]|e] x' Em _; (split; [|intros w2 H2; cbn [map_err]; auto]); [| |done].
  { intros bs' [= <-]. by eapply file_create_ok. }
  apply wp_bind_ok. destruct buffer as [|a buffer]; cbn [is_empty negb].
  - cbn [wp]. apply wp_bind_ok, wp_write_all; intros w3; [intros H3; apply Hok1|intros e f H3; apply Herr1]; by etrans.
  - apply wp_bind_ok, wp_write_all; [|intros w3 e f H3; apply Herr1; by etrans].
    intros w3 H3. cbn [wp]. apply wp_bind_ok, wp_write_all; intros w4;
      [intros H4; apply Hok1|intros e f H4; apply Herr1]; (etrans; [exact H2|by etrans]).
Qed.

(** What the loop of [store_stream] has read, and where it is. *)
Definition streamed (id : Z) (so_far buffer : bytes) (spilled : option string) (f : option bytes) : Prop :=
  match spilled with
  | None => buffer = so_far /\ f = None
  | Some path => path = spill_path c id /\ f = Some so_far
  end.

Lemma wp_stream_loop id limit chunks err so_far buffer spilled f w Q :
  streamed id so_far buffer spilled f ->
  (forall w' b sp f, blob_ext w w' -> streamed id (so_far +:+ joined chunks) b sp f ->
     Q w' (Ok (b, sp)) (owns id f)) ->
  (forall w' e f, blob_ext w w' -> Q w' (Err e) (owns id f)) ->
  wpb (stream_loop_steps c id limit chunks err buffer spilled) w (owns id f) Q.
Proof using Hk Hlost.
  revert so_far buffer spilled f w.
  induction chunks as [|chunk chunks IH]; intros so_far buffer spilled f w Hst Hok Herr; simpl.
  { simpl in Hok. rewrite string_app_nil_r in Hok. destruct err; [by apply Herr|by apply Hok]. }
  assert (Hgo : forall w' b sp f1, blob_ext w w' -> streamed id (so_far +:+ chunk) b sp f1 ->
    wpb (stream_loop_steps c id limit chunks err b sp) w' (owns id f1) Q).
  { intros w' b sp f1 Hw Hs. eapply IH; [exact Hs| |].
    - intros w2 b2 sp2 f2 H2 Hs2. rewrite string_app_assoc in Hs2. apply Hok; [by etrans|done].
    - intros w2 e f2 H2. apply Herr. by etrans. }
  destruct spilled as [path|].
  - destruct Hst as [-> ->]. apply wp_bind_ok, wp_write_all; [|exact Herr].
    intros w1 H1. by apply Hgo.
  - destruct Hst as [-> ->]. destruct (_ <=? limit)%Z; [by apply Hgo|].
    apply wp_bind_ok, wp_start_spill; [|exact Herr]. intros w1 H1. by apply Hgo.
Qed.

(** ** Stores *)

(** The first access of every store. *)
Lemma wp_next_id {A} (f : Z -> Prog Rt A) w Q :
  (forall w' id, blob_ext w w' -> id ∉ omap slot_id B -> wpb (f id) w' (owns id None) Q) ->
  wpb (bind (atomic next_id) f) w (mkHeld (1 + k) B) Q.
Proof using Hk.
  intros Hf g s others He Hi. split; [done|]. exists (owns (next_id s).1 None).
  assert (Hi' : blob_inv g (next_id s).2 (owns (next_id s).1 None :: others)).
  { revert Hi. apply (blob_inv_step g g s _ (1 + k) k [] [_]); [|done].
    intros t rest Ht. rewrite <- Z.add_assoc. intros Hi. apply store_inv_next_id; [done|lia]. }
  split; [done|]. split; [|done]. apply Hf; [by etrans|].
  apply blob_inv_cons in Hi' as (_ & _ & [_ _ _ _ _ Hnd]).
  rewrite omap_app in Hnd. apply NoDup_app in Hnd as (Hnd & _ & _). by apply NoDup_cons in Hnd as [? _].
Qed.

(** What a store ends in: the task owns the blob, or what is left of it holds no memory. *)
Definition stored_own (bs mime : bytes) (r : Result Error BlobHandle) (own : Held) : Prop :=
  match r with
  | Ok h => mime_type (meta h) = mime /\ made (blob_id h) h bs /\ blob_id h ∉ omap slot_id B /\
      own = mkHeld k (slot_of h bs :: B)
  | Err _ => exists id f, own = owns id f
  end.

Lemma wp_store_chosen bs mime id w :
  id ∉ omap slot_id B ->
  wpb (bind_ok (choose_storage_steps c id bs (blen bs))
         (fun st => Ret (Ok (build_handle id mime (blen bs) st)))) w (owns id None)
    (fun _ => stored_own bs mime).
Proof using Hk Hlost.
  intros Hid. apply wp_bind_ok, wp_choose_storage; intros w' *; [done..|]. by eexists _, _.
Qed.

Lemma wp_store_spilled bs mime id w :
  id ∉ omap slot_id B ->
  wpb (_ <~? file (file_flush (spill_path c id)) ;;
       len <~? file (fs_metadata_len (spill_path c id)) ;;
       _ <~ record_spill_steps len ;;
       Ret (Ok (build_handle id mime len (Spilled (spill_path c id))))) w
    (owns id (Some bs)) (fun _ => stored_own bs mime).
Proof using Hk Hlost.
  intros Hid.
  assert (Hfail : forall e f, stored_own bs mime (Err e) (owns id f)) by (intros; by eexists _, _).
  apply wp_bind_ok. apply (wp_file _ _ _ _ (fun _ => Some bs)).
  { intros x res x' Em q _. by eapply file_flush_frame. }
  intros x [u|e] x' Em Hf; (split; [by rewrite (file_flush_frame _ _ _ _ Em)|]);
    intros w1 _; cbn [map_err]; [|apply Hfail].
  apply wp_bind_ok. apply (wp_file _ _ _ _ (fun _ => Some bs)).
  { intros x1 res x1' Em1 q _. by eapply fs_metadata_len_frame. }
  intros x1 [n|e] x1' Em1 Hf1; (split; [by rewrite (fs_metadata_len_frame _ _ _ _ Em1)|]);
    intros w2 _; cbn [map_err]; [|apply Hfail].
  destruct (fs_metadata_len_ok _ _ _ _ Em1) as (bs' & Hbs & ->).
  rewrite (Hf1 _ eq_refl) in Hbs. injection Hbs as <-.
  apply blob_bind, wp_record_spill. intros w3 _. done.
Qed.

Lemma wp_store_stream reader mime w :
  wpb (store_stream_steps c reader mime) w (mkHeld (1 + k) B)
    (fun _ => stored_own (joined (read_chunks_of reader)) mime).
Proof using Hk Hlost.
  apply wp_next_id. intros w1 id _ Hid. apply wp_bind_ok.
  apply (wp_stream_loop _ _ _ _ EmptyString _ _ None); [done| |intros; by eexists _, _].
  intros w2 b [path|] f _ [-> ->]; [by apply wp_store_spilled|by apply wp_store_chosen].
Qed.

Lemma wp_store call mime w :
  wpb (store_steps c call mime) w (mkHeld (1 + k) B) (fun _ => stored_own (store_content call) mime).
Proof using Hk Hlost.
  destruct call as [bs|bs|bs|reader]; cbn [store_steps]; [| | |apply wp_store_stream];
    apply wp_next_id; intros w1 id _ Hid; [by apply wp_store_chosen..|done].
Qed.

(** ** Reading *)

(** [bs] is the content of [h] for a task that owns [own]: as long as its removal has not begun, which
    [gone] tells from the flags. *)
Record readable (w : BlobGhost * Rt) (own : Held) (h : BlobHandle) (bs : bytes) (gone : gset Z -> Prop)
    : Prop := {
  rd_made : made (blob_id h) h bs;
  rd_file : forall g s others, is_spilled h = true -> blob_ext w (g, s) -> blob_inv g s (own :: others) ->
    gone (removed s) \/ fs_content (world s) (spill_path c (blob_id h)) = Some bs;
}.

Lemma readable_given w h bs own :
  ever w.1 !! blob_id h = Some (h, bs) -> made (blob_id h) h bs ->
  readable w own h bs (fun flags => blob_id h ∈ flags).
Proof using Type.
  intros Hl Hm. split; [done|]. intros g s others Hsp [Hsub _] [_ []].
  destruct (decide (blob_id h ∈ removed s)) as [|Hn]; [by left|right].
  assert (Hl' : ever g !! blob_id h = Some (h, bs)) by (by eapply lookup_weaken).
  destruct (si_ever0 _ _ _ Hl') as (_ & _ & Hf). by apply Hf.
Qed.

Lemma readable_own w h bs t l :
  slot_of h bs ∈ l -> made (blob_id h) h bs -> readable w (mkHeld t l) h bs (fun _ => False).
Proof using Type.
  intros Hin Hm. split; [done|]. intros g s others Hsp _ Hi. right. by eapply own_file.
Qed.

Lemma wp_read w h bs gone :
  readable w idle h bs gone ->
  wpb (read_bytes_steps h) w idle
    (fun w' res r => r = idle /\ forall b, res = Ok b -> b = bs \/ gone (removed w'.2)).
Proof using Hlost.
  intros [(_ & _ & Hm) Hfile]. unfold read_bytes_steps. unfold is_spilled in Hfile.
  destruct (storage h) as [b|b|path] eqn:Est.
  1,2: split; [done|]; intros b' [= <-]; by left.
  subst path. apply wp_look; [by intros; eapply fs_read_frame|].
  intros g s others res x' He Hi Em. split; [done|]. intros b Hb.
  destruct (Hfile g s others eq_refl He Hi) as [|Hc]; [by right|left].
  apply map_err_Ok in Hb as ->. apply fs_read_ok in Em. rewrite Hc in Em. by injection Em.
Qed.

Lemma wp_open w h bs gone n :
  readable w idle h bs gone -> (0 < n)%nat ->
  wpb (open_reader_steps h n) w idle
    (fun w' res r => r = idle /\
       match res with
       | Ok stream => stream_reads h n bs (gone (removed w'.2)) stream
       | Err _ => is_spilled h = true
       end).
Proof using Hlost.
  intros [(_ & _ & Hm) Hfile] Hn. unfold open_reader_steps.
  destruct (storage h) as [b|b|path] eqn:Est.
  1,2: subst b; split; [done|]; split; [by apply cursor_chunks_length|done|];
    intros _; left; by apply cursor_chunks_joined.
  subst path. assert (Hsp : is_spilled h = true) by (unfold is_spilled; by rewrite Est).
  apply wp_look; [by intros; eapply file_open_read_frame|].
  intros g s others res x' He Hi Em. split; [done|]. destruct res as [stream|e]; [|done].
  split; [by eapply file_open_read_len|by rewrite Hsp|]. intros Hend.
  destruct (Hfile g s others Hsp He Hi) as [|Hc]; [by right|left].
  assert (Hr := file_open_read_ok _ _ _ _ _ Em Hn Hend). rewrite Hc in Hr. by injection Hr as ->.
Qed.

(** ** Removing *)

(** What a task still has to release once the flag of [h] is set. *)
Definition unreleased (h : BlobHandle) : list Slot :=
  match storage h with Inline _ => [mkSlot None None (inline_size h)] | _ => [] end.

Lemma store_inv_unreleased g t h l s :
  store_inv g t (mkSlot None None (inline_size h) :: l) s -> store_inv g t (unreleased h ++ l) s.
Proof using Type.
  unfold unreleased, inline_size. destruct (storage h); [done|..]; intros Hi; by eapply store_inv_forget.
Qed.

Definition gone_by (h : BlobHandle) (w : BlobGhost * Rt) (_ : Result Error unit) (own : Held) : Prop :=
  own = idle /\ blob_id h ∈ removed w.2.

Lemma wp_release h bs w :
  made (blob_id h) h bs -> blob_id h ∈ removed w.2 ->
  wpb match storage h with
      | Inline bs => _ <~ atomic (release_inline_bytes (blen bs)) ;; Ret (Ok tt)
      | Shared _ => Ret (Ok tt)
      | Spilled path =>
          r <~ awaited (on_world (fs_remove_file path)) ;;
          Ret match r with
              | Ok _ => Ok tt
              | Err err => if io_not_found err then Ok tt else Err (ExternalError (io_display err))
              end
      end w (holds (unreleased h)) (gone_by h).
Proof using Hk Hlost.
  intros (_ & _ & Hm) Hin. unfold unreleased, inline_size. destruct (storage h) as [b|b|path].
  - intros g s others (_ & Hr & _) Hi. split; [done|]. exists idle. split; [|split; [|done]].
    + revert Hi. apply (task_step g s _ [_] []). intros t rest _ Hi.
      apply (store_inv_forget _ _ (mkSlot None None 0)); [|done]. by apply store_inv_release.
    + split; [done|]. simpl. by apply Hr.
  - done.
  - subst path. intros g s others (_ & Hr & _) Hi. unfold on_world.
    destruct (fs_remove_file _ (world s)) as [res x'] eqn:Em. split; [done|]. exists idle.
    assert (Hin' : blob_id h ∈ removed s) by (by apply Hr).
    split; [|split; [done|intros _; apply lost_idle]].
    revert Hi. apply (task_step g s _ [] []). intros t rest _ Hi.
    apply (store_inv_removed_file _ _ _ _ _ (blob_id h)); [done..|]. intros q Hq.
    by eapply fs_remove_file_frame.
Qed.

Lemma wp_remove_given w h bs :
  ever w.1 !! blob_id h = Some (h, bs) -> made (blob_id h) h bs ->
  wpb (remove_steps h) w idle (gone_by h).
Proof using Hk Hlost.
  intros Hl Hm g s others [Hsub _] Hi. assert (Hl' : ever g !! blob_id h = Some (h, bs)) by (by eapply lookup_weaken).
  destruct (decide (blob_id h ∈ removed s)) as [Hin|Hn].
  { unfold swap_removed. rewrite decide_True by done. split; [done|]. by exists idle. }
  destruct (swap_step g s h Hn) as (-> & He & Hin). split; [done|].
  exists (holds (unreleased h)). split; [|split; [by eapply wp_release|done]].
  revert Hi. apply (task_step g s _ []). intros t rest _ Hi.
  apply store_inv_unreleased. by eapply store_inv_swap_ever.
Qed.

Lemma wp_remove_own w h bs l :
  l ≡ₚ slot_of h bs :: B -> made (blob_id h) h bs ->
  wpb (remove_steps h) w (mkHeld k l) (gone_by h).
Proof using Hk Hlost.
  intros Hl Hm g s others _ Hi. apply (blob_inv_slots _ _ _ _ _ _ Hl) in Hi.
  assert (Hn : blob_id h ∉ removed s).
  { apply blob_inv_cons in Hi as (_ & _ & Hi). by apply store_inv_swap_own in Hi as [? _]. }
  destruct (swap_step g s h Hn) as (-> & He & Hin). split; [done|].
  exists (holds (unreleased h)). split; [|split; [by eapply wp_release|done]].
  revert Hi. apply (task_step g s _ [_]). intros t rest _ [_ Hi]%store_inv_swap_own.
  by apply store_inv_unreleased.
Qed.

(** A flag that is set already: nothing is done. *)
Lemma wp_remove_again w h :
  blob_id h ∈ removed w.2 -> wpb (remove_steps h) w idle (gone_by h).
Proof using Type.
  intros Hin g s others (_ & Hr & _) Hi. assert (Hin' : blob_id h ∈ removed s) by (by apply Hr).
  unfold swap_removed. rewrite decide_True by done. split; [done|]. by exists idle.
Qed.

End logic.
