(* ===== verification/BlobShared.v ===== *)
(** blob_runtime.rs under concurrency: any number of tasks store, read, open and remove blobs; their
    accesses interleave freely, and they may be dropped at an await.  Without interference each is
    the sequential operation ([uninterrupted_blob_operations]); in every interleaving the budget, the
    identifiers and the contents are right, and once all tasks are done the runtime represents
    exactly the live blobs. *)

From S2P Require Import Prelude RustStr Json Pointer Ext Samples Interleave BlobRuntime BlobSteps BlobLogic.
From stdpp Require Import relations options.

(** * Calls *)

Inductive BlobCall :=
| Store (call : StoreCall) (mime : string)
| ReadBlob (h : BlobHandle)
| OpenBlob (h : BlobHandle) (n : nat)
| RemoveBlob (h : BlobHandle).

Inductive Outcome :=
| Stored (r : Result Error BlobHandle)
| BytesRead (r : Result Error bytes)
| Opened (r : Result Error ReadStream)
| Removed (r : Result Error unit).

Definition blob_program {W} `{FileSystem W} (c : BlobRuntimeConfig) (call : BlobCall) :
    Prog (BlobRuntimeInner W) Outcome :=
  match call with
  | Store call mime => r <~ store_steps c call mime ;; Ret (Stored r)
  | ReadBlob h => r <~ read_bytes_steps h ;; Ret (BytesRead r)
  | OpenBlob h n => r <~ open_reader_steps h n ;; Ret (Opened r)
  | RemoveBlob h => r <~ remove_steps h ;; Ret (Removed r)
  end.

(** ** What calls give out *)

Definition arrive_blob (call : BlobCall) (g : BlobGhost) : BlobGhost :=
  match call with
  | Store _ _ => mkBlobGhost (ever g) (handed g) (arrivals g + 1) (leaky g)
  | _ => g
  end.

(** A store gives the blob out, for anyone to use. *)
Definition publish_blob (call : BlobCall) (out : Outcome) (g : BlobGhost) : BlobGhost :=
  match call, out with
  | Store call _, Stored (Ok h) =>
      mkBlobGhost (<[blob_id h := (h, store_content call)]> (ever g)) (h :: handed g) (arrivals g) (leaky g)
  | _, _ => g
  end.

(** A task may store what it likes, and use any handle that was returned, also to others. *)
Definition allowed_blob (g : BlobGhost) (call : BlobCall) : Prop :=
  match call with
  | Store _ _ => True
  | ReadBlob h | RemoveBlob h => returned g h
  | OpenBlob h n => returned g h /\ (0 < n)%nat
  end.

(** A task that ends or is dropped leaves no memory behind. *)
Definition lost_blob (r : Held) : Prop := Forall (fun x => slot_hot x = 0%Z) (slots r).

Lemma ends_blob_program {W} `{FileSystem W} c call : ends (blob_program c call : Prog (BlobRuntimeInner W) _).
Proof.
  destruct call as [call mime|h|h n|h]; (apply ends_bind; [|done]);
    [apply ends_store|apply ends_read|apply ends_open|apply ends_remove].
Qed.

(** * The runtime and its tasks *)

Section system.
#[local] Set Default Proof Using "Type".
Context {W : Type} `{FileSystemLaws W}.
Context (c : BlobRuntimeConfig).
Abbreviation Rt := (BlobRuntimeInner W).
Abbreviation BlobPool := (Pool Rt BlobGhost BlobCall Outcome).

Definition blob_step : relation BlobPool :=
  pool_step (blob_program c) allowed_blob arrive_blob publish_blob (fun _ g => g) (outside c).

(** The states that tasks bring a new runtime to. *)
Definition blob_reachable (w : W) (x : BlobPool) : Prop :=
  rtc blob_step (at_rest (runtime_new c w) ghost_init) x.

(** What a call that returns has done. *)
Definition returns_well (x : BlobPool) (call : BlobCall) (out : Outcome) : Prop :=
  match call, out with
  | Store call mime, Stored r =>
      forall h, r = Ok h -> made c (blob_id h) h (store_content call) /\
        mime_type (meta h) = mime /\ ever (ghost x) !! blob_id h = None
  | ReadBlob h, BytesRead r =>
      forall b, r = Ok b -> exists bs, ever (ghost x) !! blob_id h = Some (h, bs) /\
        (b = bs \/ blob_id h ∈ removed (shared x))
  | OpenBlob h n, Opened r =>
      forall stream, r = Ok stream -> read_error stream = None ->
        exists bs, ever (ghost x) !! blob_id h = Some (h, bs) /\
          (joined (read_chunks_of stream) = bs \/ blob_id h ∈ removed (shared x))
  | RemoveBlob h, Removed _ => blob_id h ∈ removed (shared x)
  | _, _ => False
  end.

Abbreviation inv := (blob_inv c).

(** What a call ends in. *)
Definition post_blob (call : BlobCall) (w : BlobGhost * Rt) (out : Outcome) (r : Held) : Prop :=
  match call, out with
  | Store call mime, Stored res => stored_own c 0 [] (store_content call) mime res r
  | ReadBlob h, BytesRead res =>
      lost_blob r /\ forall b, res = Ok b ->
        exists bs, ever w.1 !! blob_id h = Some (h, bs) /\ (b = bs \/ blob_id h ∈ removed w.2)
  | OpenBlob h n, Opened res =>
      lost_blob r /\ forall stream, res = Ok stream -> read_error stream = None ->
        exists bs, ever w.1 !! blob_id h = Some (h, bs) /\
          (joined (read_chunks_of stream) = bs \/ blob_id h ∈ removed w.2)
  | RemoveBlob h, Removed _ => lost_blob r /\ blob_id h ∈ removed w.2
  | _, _ => False
  end.

Lemma post_blob_mono call (w w' : BlobGhost * Rt) out r :
  blob_ext w w' -> post_blob call w out r -> post_blob call w' out r.
Proof.
  intros (Hsub & Hflags & _).
  assert (Hr : forall id, id ∈ removed w.2 -> id ∈ removed w'.2) by set_solver.
  assert (Hever : forall h bs, ever w.1 !! blob_id h = Some (h, bs) -> ever w'.1 !! blob_id h = Some (h, bs)).
  { intros h bs Hl. by eapply lookup_weaken. }
  destruct call as [call mime|h|h n|h], out as [res|res|res|res]; simpl; try done.
  - intros [Hl Hok]. split; [done|]. intros b Hb. destruct (Hok b Hb) as (bs & Hbs & Hd).
    exists bs. split; [auto|]. destruct Hd; auto.
  - intros [Hl Hok]. split; [done|]. intros b Hb Hend. destruct (Hok b Hb Hend) as (bs & Hbs & Hd).
    exists bs. split; [auto|]. destruct Hd; auto.
  - intros [Hl Hin]. auto.
Qed.

(** The program of a call, from what its task owns at the start. *)
Definition starts_with (call : BlobCall) : Held :=
  match call with Store _ _ => mkHeld 1 [] | _ => mkHeld 0 [] end.

Lemma lost_cold (l : list Slot) :
  Forall (fun x => slot_hot x = 0%Z) l -> lost_blob (mkHeld 0 (l ++ [])).
Proof. intros Hl. unfold lost_blob. simpl. by rewrite app_nil_r. Qed.
#[local] Hint Resolve lost_cold : core.

Lemma lost_nothing : lost_blob (mkHeld 0 []).
Proof. constructor. Qed.
#[local] Hint Resolve lost_nothing : core.

Lemma wp_blob_program call g (s : Rt) l :
  allowed_blob g call -> inv g s l ->
  wp inv blob_ext lost_blob (blob_program c call) (arrive_blob call g, s) (starts_with call) (post_blob call).
Proof.
  intros Ha [_ Hi]. assert (Hz : (0 <= 0)%Z) by done.
  assert (Hmade : forall h bs, ever g !! blob_id h = Some (h, bs) -> made c (blob_id h) h bs).
  { intros h bs Hl. by destruct (si_ever c _ _ _ _ Hi _ _ _ Hl) as (_ & ? & _). }
  assert (Hever : forall (w : BlobGhost * Rt) h bs, blob_ext (g, s) w -> ever g !! blob_id h = Some (h, bs) ->
    ever w.1 !! blob_id h = Some (h, bs)).
  { intros w h bs [Hsub _] Hl. by eapply lookup_weaken. }
  destruct call as [call mime|h|h n|h]; cbn [blob_program]; apply blob_bind.
  - exact (wp_store c lost_blob 0 [] Hz lost_cold call mime _).
  - destruct Ha as [bs Hl]. eapply wp_conseq;
      [apply _| |apply wp_ext; [apply _|done|eapply (wp_read c lost_blob 0 [] lost_cold), readable_given; eauto]].
    intros w' res r (He & -> & Hok). split; [done|]. intros b Hb. exists bs. eauto.
  - destruct Ha as [[bs Hl] Hn]. eapply wp_conseq;
      [apply _| |apply wp_ext; [apply _|done|eapply (wp_open c lost_blob 0 [] lost_cold); [eapply readable_given|]; eauto]].
    intros w' [stream|e] r (He & -> & Hok); (split; [done|]); [|done].
    intros st [= <-] Hend. destruct Hok as [_ _ Hjoined]. exists bs. eauto.
  - destruct Ha as [bs Hl]. eapply wp_conseq; [apply _| |eapply (wp_remove_given c lost_blob 0 [] Hz lost_cold); eauto].
    by intros w' res r [-> Hin].
Qed.

Lemma call_blob_ok call g (s : Rt) l :
  allowed_blob g call -> ids_left (arrive_blob call g) -> inv g s l ->
  blob_ext (g, s) (arrive_blob call g, s) /\
  exists r, inv (arrive_blob call g) s (r :: l) /\
    wp inv blob_ext lost_blob (blob_program c call) (arrive_blob call g, s) r (post_blob call).
Proof.
  intros Ha Hleft Hi. split; [by destruct call|]. exists (starts_with call).
  split; [|by eapply wp_blob_program]. destruct Hi as [Ht Hi].
  destruct call as [call mime|h|h n|h]; (split; [by constructor|]); [|done..].
  by apply store_inv_arrive.
Qed.

(** A task's end: it forgets what holds no memory. *)
Lemma lost_forgotten g (s : Rt) r l : inv g s (r :: l) -> lost_blob r -> inv g s l.
Proof.
  destruct r as [t x]. rewrite blob_inv_cons. intros (Ht & Hl & Hi) Hr. split; [done|].
  eapply store_inv_forget_all, Hr. eapply store_inv_tickets; [done|].
  assert (0 <= sumZ (tickets <$> l))%Z by (by apply sumZ_nonneg, Forall_fmap). lia.
Qed.

Lemma stored_publish g (s : Rt) r l call mime h :
  inv g s (r :: l) -> stored_own c 0 [] (store_content call) mime (Ok h) r ->
  inv (publish_blob (Store call mime) (Stored (Ok h)) g) s l /\ ever g !! blob_id h = None.
Proof.
  intros Hi (_ & Hm & _ & ->). apply blob_inv_cons in Hi as (_ & Hl & Hi).
  destruct (store_inv_publish c _ _ _ _ _ _ Hi Hm) as [Hi' Hn]. done.
Qed.

Lemma return_blob_ok call out g (s : Rt) r l :
  post_blob call (g, s) out r -> inv g s (r :: l) ->
  blob_ext (g, s) (publish_blob call out g, s) /\ inv (publish_blob call out g) s l.
Proof.
  intros Hp Hi.
  assert (Hsame : lost_blob r -> blob_ext (g, s) (g, s) /\ inv g s l).
  { intros Hl. split; [done|]. by eapply lost_forgotten. }
  destruct call as [call mime|h|h n|h], out as [[h'|e]|res|res|res]; try done;
    try (by apply Hsame, Hp).
  - destruct (stored_publish g s r l call mime h' Hi Hp) as [Hi' Hn]. split; [|done].
    split; [|done]. simpl. by apply insert_subseteq.
  - apply Hsame. destruct Hp as (id & f & ->). by repeat constructor.
Qed.

Lemma blob_pool_ok w (x : BlobPool) :
  in_u64 (global_hot_budget_bytes c) -> blob_reachable w x -> ids_left (ghost x) ->
  pool_ok inv blob_ext lost_blob post_blob (fun _ => True) x.
Proof.
  intros Hc Hrun.
  apply (pool_reachable_ok (blob_program c) allowed_blob arrive_blob publish_blob (fun _ g => g) (outside c)
    inv blob_ext lost_blob post_blob ids_left (fun _ => True)) with (s0 := runtime_new c w) (g0 := ghost_init);
    try done.
  - apply blob_inv_perm.
  - intros g s r l _. apply lost_forgotten.
  - apply post_blob_mono.
  - intros c0 g s l. apply call_blob_ok.
  - apply return_blob_ok.
  - intros g s s' l (w' & -> & Hw) Hi. split; [done|]. revert Hi. apply blob_inv_shared.
    intros t rest Hi. by apply store_inv_world.
  - intros call g. unfold ids_left. destruct call; simpl; lia.
  - intros call a g. unfold ids_left. by destruct call, a as [[|]| | |].
  - by apply blob_inv_init.
Qed.

(** Nothing leaks: no task ends or is dropped with memory of its own. *)
Lemma blob_pool_tight w (x : BlobPool) : blob_reachable w x -> leaky (ghost x) = false.
Proof.
  intros Hrun. assert (Hnew : leaky (ghost (at_rest (runtime_new c w) ghost_init : BlobPool)) = false) by done.
  revert Hnew. induction Hrun as [x|x1 x2 x3 Hs _ IH]; [done|]. intros Hx. apply IH. revert Hx.
  destruct Hs as [s g ts t call Ht Ha|?|s g ts t call p out Ht Hp|?|?|?]; try done; simpl.
  - by destruct call.
  - by destruct call, out as [[|]| | |].
Qed.

Lemma returning_blob (x : BlobPool) t call p out :
  pool_ok inv blob_ext lost_blob post_blob (fun _ => True) x ->
  tasks x !! t = Some (Running call p) -> step p (shared x) = inl out -> returns_well x call out.
Proof.
  intros (m & Hts & Hi & Hall) Ht Hs. rewrite Hts in Ht. apply fmap_task in Ht as [r Hr].
  assert (Hwp := Hall _ _ _ Hr). simpl in Hwp. apply step_inl in Hs as ->. simpl in Hwp.
  assert (Hi' := blob_inv_perm c _ _ _ _ (held_by_delete _ _ _ _ Hr) Hi).
  destruct call as [call mime|h|h n|h], out as [res|res|res|res]; try done; try (by destruct Hwp).
  intros h ->. destruct (stored_publish _ _ _ _ call mime h Hi' Hwp) as [_ Hn].
  by destruct Hwp as (Hmime & Hm & _).
Qed.

Lemma pool_blob_inv (x : BlobPool) :
  pool_ok inv blob_ext lost_blob post_blob (fun _ => True) x ->
  exists t l, store_inv c (ghost x) t l (shared x).
Proof. intros (m & _ & [_ Hi] & _). by eexists _, _. Qed.
End system.

(** ** A concrete interleaving, for the witness *)

#[export] Instance returned_dec g h : Decision (returned g h).
Proof.
  refine (match ever g !! blob_id h as o return ever g !! blob_id h = o -> _ with
          | Some (h', bs) => fun E => cast_if (decide (h' = h))
          | None => fun E => right _
          end eq_refl); unfold returned; rewrite E;
    [subst; by exists bs|by intros [? [= ]]|by intros [? ?]].
Defined.

#[export] Instance allowed_blob_dec g call : Decision (allowed_blob g call).
Proof. destruct call; apply _. Defined.

Definition sample_pool : Pool (BlobRuntimeInner SampleFs) BlobGhost BlobCall Outcome :=
  at_rest sample_runtime ghost_init.

Definition sample_raced_first : BlobHandle := mkBlobHandle 1 (mkBlobMeta "a" 4) (Inline "abcd").
Definition sample_raced_second : BlobHandle :=
  mkBlobHandle 2 (mkBlobMeta "b" 4) (Spilled "/tmp/blobs/blob-2.bin").

(** Two stores race for 4 of 6 bytes: both load 0, one reserves, the other retries, gives up and
    spills. Its blob is read; two tasks remove the first blob; a third store is dropped while it
    creates the directory. *)
Definition sample_moves : list Move :=
  [Begin 0 (Store (CallBytes "abcd") "a"); Begin 1 (Store (CallShared "efgh") "b")]
  ++ replicate 2 (Turn 0) ++ replicate 2 (Turn 1) ++ replicate 3 (Turn 0) ++ replicate 9 (Turn 1)
  ++ [Begin 2 (ReadBlob sample_raced_second); Begin 3 (RemoveBlob sample_raced_first);
      Begin 4 (RemoveBlob sample_raced_first); Turn 3; Turn 4; Turn 4; Turn 3; Turn 3; Turn 2; Turn 2;
      Begin 5 (Store (CallBytes "123456789") "c"); Turn 5; Drop 5; Late 5].

Definition sample_end : Pool (BlobRuntimeInner SampleFs) BlobGhost BlobCall Outcome :=
  played (blob_program sample_blob_config) allowed_blob arrive_blob publish_blob (fun _ g => g)
    sample_moves sample_pool.

Lemma sample_end_reachable : blob_reachable sample_blob_config ∅ sample_end.
Proof. apply played_steps. Qed.

(** * Theorems *)

(** C5: the blob store under concurrency: however the accesses of any number of stores, reads and
    removals interleave, whichever tasks are dropped at an await, and whatever else changes on the
    disk, the memory counter stays within the budget, no two stores return the same identifier, a
    handle that nobody removes stands for what was stored, what a read returns is what was stored
    unless the removal has begun, and a task that is left alone always ends; and once no task is
    left, the runtime represents exactly the handles that were returned and not removed, so that
    nothing that was reserved is lost or counted twice, and no memory is held when all were
    removed. *)
Theorem concurrent_blobs_correct {W} `{FileSystemLaws W} c w (x : Pool (BlobRuntimeInner W) _ _ _) :
  in_u64 (global_hot_budget_bytes c) -> blob_reachable c w x -> ids_left (ghost x) ->
  (0 <= global_hot_bytes (shared x) <= global_hot_budget_bytes c)%Z /\
  NoDup (blob_id <$> handed (ghost x)) /\
  (forall h bs, live (shared x) (ghost x) !! blob_id h = Some (h, bs) ->
     stored (shared x) (blob_id h) h bs) /\
  (forall t call p out, tasks x !! t = Some (Running call p) -> step p (shared x) = inl out ->
     returns_well c x call out) /\
  (forall t call p, tasks x !! t = Some (Running call p) ->
     exists out s', solo p (shared x) out s') /\
  (tasks x = ∅ -> rep (shared x) (live (shared x) (ghost x)) /\
     ((forall h, h ∈ handed (ghost x) -> blob_id h ∈ removed (shared x)) ->
      live (shared x) (ghost x) = ∅ /\ global_hot_bytes (shared x) = 0%Z)).
Proof.
  intros Hc Hrun Hleft. assert (Hok := blob_pool_ok c w x Hc Hrun Hleft).
  assert (Htight := blob_pool_tight c w x Hrun).
  destruct (pool_blob_inv c x Hok) as (t & l & Hi).
  refine (conj _ (conj _ (conj _ (conj _ (conj _ _))))).
  - by eapply budget_kept.
  - by eapply handed_distinct.
  - intros h bs. by eapply live_stored.
  - intros t1 call p out. by apply returning_blob.
  - intros t1 call p Ht. apply ends_solo. revert t1 call p Ht.
    apply (pool_all_end (blob_program c) allowed_blob arrive_blob publish_blob (fun _ g => g) (outside c)
      (runtime_new c w) ghost_init); [apply ends_blob_program|exact Hrun].
  - intros Hq. destruct (pool_ok_quiescent _ _ _ _ _ _ Hok Hq) as [_ Hi0].
    split; [by eapply (live_rep c)|by eapply (all_removed_cold c)].
Qed.

Lemma concurrent_blobs_correct_witness :
  blob_reachable sample_blob_config ∅ sample_end /\
  live (shared sample_end) (ghost sample_end) = {[ 2%Z := (sample_raced_second, "efgh") ]} /\
  rep (shared sample_end) {[ 2%Z := (sample_raced_second, "efgh") ]}.
Proof.
  assert (Hlive : live (shared sample_end) (ghost sample_end) =
                  {[ 2%Z := (sample_raced_second, "efgh") ]}) by (vm_compute; reflexivity).
  split; [exact sample_end_reachable|]. split; [exact Hlive|]. rewrite <- Hlive.
  apply (concurrent_blobs_correct sample_blob_config ∅ sample_end);
    [unfold in_u64; vm_compute; split; discriminate|exact sample_end_reachable|
     vm_compute; reflexivity|vm_compute; reflexivity].
Defined.

(** The steps are the operations: a store, a read, an opened reader or a removal that is not
    interfered with, from a runtime with its configuration, returns the result and leaves the
    runtime that the sequential operation does. *)
Theorem uninterrupted_blob_operations {W} `{FileSystem W} (s : BlobRuntimeInner W) :
  (forall call mime, solo (store_steps (cfg s) call mime) s
     (run_store call mime s).1 (run_store call mime s).2) /\
  (forall h, solo (read_bytes_steps h) s (read_bytes h s).1 (read_bytes h s).2) /\
  (forall h n, solo (open_reader_steps h n) s (open_reader h n s).1 (open_reader h n s).2) /\
  (forall h, solo (remove_steps h) s (BlobRuntime.remove h s).1 (BlobRuntime.remove h s).2).
Proof.
  split_and!.
  - intros call mime. by apply (does_store (cfg s)).
  - intros h. by apply (does_read (cfg s)).
  - intros h n. by apply (does_open (cfg s)).
  - intros h. by apply (does_remove (cfg s)).
Qed.
