(* ===== verification/RequestEncode.v ===== *)
(** request_encode.rs: the request body is written as a stream, with the downloaded images in place
    of the URLs, base64-encoded on the way, and stored as a blob.  The stream is proved to be the
    compact JSON of the patched document, and its counted length to be the blob's. *)

From S2P Require Import Prelude RustStr Json Pointer Ext Samples BlobRuntime.
From stdpp Require Import options.

(** * Data *)

(** [RequestReplacement] (declared in request_materialize.rs) *)
Record RequestReplacement := mkRequestReplacement {
  json_pointer : string;
  replacement_mime_type : string;
  replacement_blob : BlobHandle;
}.

Record EncodedRequestBody := mkEncodedRequestBody {
  body_blob : BlobHandle;
  content_length : Z;
}.

(** The writer's side: the blob runtime it reads from, the bytes written to the pipe, the count.
    The pipe's other end is drained by the store task; the model lets the writer finish first. *)
Record Writer (W : Type) := mkWriter {
  wr_runtime : BlobRuntimeInner W;
  wr_out : bytes;
  wr_length : Z;
}.
Arguments mkWriter {W}.
Arguments wr_runtime {W}.
Arguments wr_out {W}.
Arguments wr_length {W}.

(** The body of the outgoing request never carries the proxy's own [output] option. *)
Definition strip_output_from_value (body : Value) : Value :=
  let body := remove_key "output" body in
  let body := pointer_update (remove_key "output") "/generationConfig/imageConfig" body in
  pointer_update (remove_key "output") "/generation_config/image_config" body.

Definition escape_json_pointer_token (token : string) : string :=
  replace_char "/" "~1" (replace_char "~" "~0" token).

Definition CHUNK_BYTES : nat := 48 * 1024.

(** What the writer does to its surroundings: it writes to the pipe, and opens blobs of the runtime.
    [run_writing] carries it out; RequestSteps.v does so in steps. *)
Inductive Writing (A : Type) :=
| Written (a : A)
| WriteFailed (e : Error)
| WriteOut (bs : bytes) (k : Writing A)
| OpenForRead (handle : BlobHandle) (n : nat) (k : ReadStream -> Writing A).
Arguments Written {A} a.
Arguments WriteFailed {A} e.
Arguments WriteOut {A} bs k.
Arguments OpenForRead {A} handle n k.

Fixpoint write_then {A B} (m : Writing A) (f : A -> Writing B) : Writing B :=
  match m with
  | Written a => f a
  | WriteFailed e => WriteFailed e
  | WriteOut bs k => WriteOut bs (write_then k f)
  | OpenForRead handle n k => OpenForRead handle n (fun stream => write_then (k stream) f)
  end.

Notation "x '<-w' m ';;' k" := (write_then m (fun x => k))
  (at level 100, m at next level, right associativity) : proxy_scope.

(** A loop over a list with a value carried along, and one with the index. *)
Definition write_for {A B} (f : A -> B -> Writing A) : A -> list B -> Writing A :=
  fix go acc l :=
    match l with
    | [] => Written acc
    | x :: l' => write_then (f acc x) (fun acc => go acc l')
    end.

Definition write_fori {B} (f : nat -> B -> Writing unit) : nat -> list B -> Writing unit :=
  fix go i l :=
    match l with
    | [] => Written tt
    | x :: l' => write_then (f i x) (fun _ => go (S i) l')
    end.

Lemma write_for_cons {A B} (f : A -> B -> Writing A) acc x l :
  write_for f acc (x :: l) = write_then (f acc x) (fun acc => write_for f acc l).
Proof. done. Qed.

Lemma write_fori_cons {B} (f : nat -> B -> Writing unit) i x l :
  write_fori f i (x :: l) = write_then (f i x) (fun _ => write_fori f (S i) l).
Proof. done. Qed.

Section writer.
Context `{JsonCodec} `{Base64}.

(** [serde_json::to_vec(v)?] *)
Definition json_bytes (v : Value) : Writing bytes :=
  match to_vec v with Ok bs => Written bs | Err e => WriteFailed (ExternalError e) end.

Definition write_counted (bs : bytes) : Writing unit := WriteOut bs (Written tt).

(** [STANDARD.encode_slice(input, &mut output)] with an output buffer of [capacity] bytes. *)
Definition encode_slice (input : bytes) (capacity : Z) : Writing bytes :=
  let encoded := b64_encode input in
  if (capacity <? blen encoded)%Z
  then WriteFailed (ExternalError "Output slice is too small") else Written encoded.

Definition div_ceil (a b : Z) : Z := (a + b - 1) / b.

Definition write_base64_bytes (bs : bytes) : Writing unit :=
  if is_empty bs then Written tt else
  written <-w encode_slice bs (div_ceil (blen bs) 3 * 4) ;;
  write_counted written.

Definition output_capacity : Z := div_ceil (Z.of_nat CHUNK_BYTES + 2) 3 * 4.

(** The loop of [write_blob_as_base64] over the reads; [carry] is the start of the input buffer
    that was not encoded yet.  The result is the carry after the last read. *)
Fixpoint base64_loop (carry : bytes) (reads : list bytes) (err : option IoError) : Writing bytes :=
  match reads with
  | [] =>
      match err with
      | Some e => WriteFailed (ExternalError (io_display e))
      | None => Written carry
      end
  | read :: reads =>
      let input := carry +:+ read in
      let total_len := String.length input in
      let complete_len := (total_len / 3 * 3)%nat in
      if (complete_len =? 0)%nat then base64_loop input reads err else
      written <-w encode_slice (str_take complete_len input) output_capacity ;;
      _ <-w write_counted written ;;
      base64_loop (str_drop complete_len input) reads err
  end.

Definition write_blob_as_base64 (blob : BlobHandle) : Writing unit :=
  match storage blob with
  | Inline bs => write_base64_bytes bs
  | _ =>
      reader <-w OpenForRead blob CHUNK_BYTES Written ;;
      carry <-w base64_loop EmptyString (read_chunks_of reader) (read_error reader) ;;
      if negb (is_empty carry) then
        written <-w encode_slice carry output_capacity ;;
        write_counted written
      else Written tt
  end.

Definition write_replacement (replacement : RequestReplacement) : Writing unit :=
  mime_key <-w json_bytes (Str "mimeType") ;;
  mime_value <-w json_bytes (Str (replacement_mime_type replacement)) ;;
  data_key <-w json_bytes (Str "data") ;;
  _ <-w write_counted "{" ;;
  _ <-w write_counted mime_key ;;
  _ <-w write_counted ":" ;;
  _ <-w write_counted mime_value ;;
  _ <-w write_counted "," ;;
  _ <-w write_counted data_key ;;
  _ <-w write_counted (":" +:+ dquote) ;;
  _ <-w write_blob_as_base64 (replacement_blob replacement) ;;
  write_counted (dquote +:+ "}").

Fixpoint write_json_value (path : string) (value : Value)
    (replacements : gmap string RequestReplacement) : Writing unit :=
  match replacements !! path with
  | Some replacement => write_replacement replacement
  | None =>
      match value with
      | Object map =>
          _ <-w write_counted "{" ;;
          _ <-w write_for (fun (first : bool) kv =>
                  _ <-w (if negb first then write_counted "," else Written tt) ;;
                  key_bytes <-w json_bytes (Str kv.1) ;;
                  _ <-w write_counted key_bytes ;;
                  _ <-w write_counted ":" ;;
                  _ <-w write_json_value (path +:+ "/" +:+ escape_json_pointer_token kv.1) kv.2
                          replacements ;;
                  Written false) true map ;;
          write_counted "}"
      | Array items =>
          _ <-w write_counted "[" ;;
          _ <-w write_fori (fun index child =>
                  _ <-w (if (0 <? index)%nat then write_counted "," else Written tt) ;;
                  write_json_value (path +:+ "/" +:+ fmt_nat index) child replacements)
                  0 items ;;
          write_counted "]"
      | _ =>
          bs <-w json_bytes value ;;
          write_counted bs
      end
  end.
End writer.

(** ** The writer carried out *)

Section run.
Context {W : Type} `{FileSystem W}.
Abbreviation Wr := (Writer W).

Definition on_runtime {A} (m : StE (BlobRuntimeInner W) A) : StE Wr A := fun s =>
  let '(r, rt) := m (wr_runtime s) in (r, mkWriter rt (wr_out s) (wr_length s)).

(** The bytes go into the pipe and are counted. *)
Definition push (bs : bytes) : StE Wr unit := fun s =>
  (Ok tt, mkWriter (wr_runtime s) (wr_out s +:+ bs) (u64_wrap (wr_length s + blen bs))).

Fixpoint run_writing {A} (p : Writing A) : StE Wr A :=
  match p with
  | Written a => ste_ok a
  | WriteFailed e => ste_err e
  | WriteOut bs k => _ <-? push bs ;; run_writing k
  | OpenForRead handle n k => stream <-? on_runtime (open_reader handle n) ;; run_writing (k stream)
  end.
End run.

Section encode.
Context {W : Type} `{FileSystem W} `{JsonCodec} `{Base64} `{Runtime W} `{DuplexPipe W}.

(** [.into_iter().map(..).collect::<HashMap<_, _>>()]: a later entry replaces an earlier one. *)
Definition replacement_map (replacements : list RequestReplacement)
    : gmap string RequestReplacement :=
  list_to_map (reverse ((fun r => (json_pointer r, r)) <$> replacements)).

(** [store_task.abort()]: the task may have taken an identifier and spilled part of the stream. *)
Definition abort_store (written : bytes) : St (BlobRuntimeInner W) unit := fun s =>
  (progress <-! on_world (abort_progress written) ;;
   match progress with
   | None => st_ret tt
   | Some chunks =>
       let inline_limit := Z.min (inline_max_bytes (cfg s)) (request_hot_budget_bytes (cfg s)) in
       id <-! next_id ;;
       _ <-! stream_loop id inline_limit chunks None EmptyString None ;;
       st_ret tt
   end) s.

Definition encode_request_body (request : Value) (replacements : list RequestReplacement)
    : StE (BlobRuntimeInner W) EncodedRequestBody := fun s =>
  let request := strip_output_from_value request in
  let replacements := replacement_map replacements in
  let '(write_result, wr) :=
    run_writing (write_json_value EmptyString request replacements) (mkWriter s EmptyString 0) in
  match write_result with
  | Ok _ =>
      (chunks <-! on_world (duplex_chunks (wr_out wr)) ;;
       stored <-! store_stream (mkReadStream chunks None) "application/json" ;;
       panicked <-! on_world join_error ;;
       match panicked with
       | Some e => ste_err (ExternalError e)
       | None =>
           body_blob <-? ste_lift stored ;;
           ste_ok (mkEncodedRequestBody body_blob (wr_length wr))
       end) (wr_runtime wr)
  | Err err => (_ <-! abort_store (wr_out wr) ;; ste_err err) (wr_runtime wr)
  end.
End encode.

(** * Reference: the document with the images in place *)

Definition replacement_value `{Base64} (content : BlobHandle -> bytes) (r : RequestReplacement) : Value :=
  Object [("mimeType", Str (replacement_mime_type r));
          ("data", Str (b64_encode (content (replacement_blob r))))].

Fixpoint patch_document `{Base64} (content : BlobHandle -> bytes)
    (replacements : gmap string RequestReplacement) (path : string) (value : Value) : Value :=
  match replacements !! path with
  | Some r => replacement_value content r
  | None =>
      match value with
      | Object map =>
          Object ((fun kv => (kv.1, patch_document content replacements
                                      (path +:+ "/" +:+ escape_json_pointer_token kv.1) kv.2)) <$> map)
      | Array items =>
          Array ((fix go i items :=
                    match items with
                    | [] => []
                    | x :: items' =>
                        patch_document content replacements (path +:+ "/" +:+ fmt_nat i) x
                        :: go (S i) items'
                    end) 0%nat items)
      | _ => value
      end
  end.

(** * Lemmas *)

Lemma b64_blen `{Base64Laws} bs : blen (b64_encode bs) = (4 * ((blen bs + 2) / 3))%Z.
Proof.
  unfold blen. rewrite b64_encode_length, Nat2Z.inj_mul, Nat2Z.inj_div, Nat2Z.inj_add. lia.
Qed.

Lemma b64_nil `{Base64Laws} : b64_encode EmptyString = EmptyString.
Proof.
  assert (Hl := b64_encode_length EmptyString). by destruct (b64_encode EmptyString).
Qed.

Section emits.
#[local] Set Default Proof Using "All".
Context `{JsonCompact} `{Base64Laws}.

(** A logic of the writer: [knows h bs] says that the blob of [h] holds [bs], and what is opened must be
    known; a failure is an [F]. *)
Context (knows : BlobHandle -> bytes -> Prop) (F : Prop).

(** A writing that ends has written [b] and returns [a] with [Q b a]. *)
Fixpoint writes_such {A} (p : Writing A) (Q : bytes -> A -> Prop) : Prop :=
  match p with
  | Written a => Q EmptyString a
  | WriteFailed _ => F
  | WriteOut bs k => writes_such k (fun b a => Q (bs +:+ b) a)
  | OpenForRead handle n k => exists bs, knows handle bs /\ (0 < n)%nat /\ (is_spilled handle = true -> F) /\
      forall stream, stream_reads handle n bs False stream -> writes_such (k stream) Q
  end.

Lemma writes_mono {A} (p : Writing A) (Q Q' : bytes -> A -> Prop) :
  (forall b a, Q b a -> Q' b a) -> writes_such p Q -> writes_such p Q'.
Proof.
  revert Q Q'. induction p as [a|e|bs p IH|h n k IH]; intros Q Q' HQ; simpl; [auto|done| |].
  - apply IH. intros b a. apply HQ.
  - intros (bs & Hk & Hn & HF & Hs). exists bs. split_and!; [done..|]. intros stream Hst. eapply IH; [done|auto].
Qed.

Lemma writes_bind {A B} (p : Writing A) (f : A -> Writing B) (Q : bytes -> B -> Prop) :
  writes_such p (fun b a => writes_such (f a) (fun b' a' => Q (b +:+ b') a')) ->
  writes_such (write_then p f) Q.
Proof.
  revert Q. induction p as [a|e|bs p IH|h n k IH]; intros Q; simpl; [| done | |].
  - apply writes_mono. intros b a'. by rewrite string_app_nil_l.
  - intros Hp. apply IH. eapply writes_mono; [|exact Hp]. simpl. intros b a.
    apply writes_mono. intros b' a'. by rewrite string_app_assoc.
  - intros (bs & Hk & Hn & HF & Hs). exists bs. split_and!; [done..|]. intros stream Hst. by apply IH, Hs.
Qed.

(** [p] writes [b] and returns [a]. *)
Definition emits {A} (p : Writing A) (b : bytes) (a : A) : Prop :=
  writes_such p (fun b' a' => b' = b /\ a' = a).

Lemma emits_eq {A} (p : Writing A) b b' a : emits p b a -> b = b' -> emits p b' a.
Proof. by intros ? <-. Qed.

Lemma emits_ok {A} (a : A) : emits (Written a) EmptyString a.
Proof. done. Qed.

Lemma emits_bind {A B} (p : Writing A) (f : A -> Writing B) b a b' a' :
  emits p b a -> emits (f a) b' a' -> emits (write_then p f) (b +:+ b') a'.
Proof.
  intros Hp Hf. apply writes_bind. eapply writes_mono; [|exact Hp]. simpl. intros b1 a1 [-> ->].
  eapply writes_mono; [|exact Hf]. by intros b2 a2 [-> ->].
Qed.

Lemma emits_write b : emits (write_counted b) b tt.
Proof. split; [apply string_app_nil_r|done]. Qed.

Lemma emits_open {A} h n bs (f : ReadStream -> Writing A) b a :
  knows h bs -> (0 < n)%nat -> (is_spilled h = true -> F) ->
  (forall stream, stream_reads h n bs False stream -> emits (f stream) b a) ->
  emits (write_then (OpenForRead h n Written) f) b a.
Proof. intros Hk Hn HF Hf. by exists bs. Qed.

Lemma emits_json v b : to_vec v = Ok b -> emits (json_bytes v) EmptyString b.
Proof. intros E. unfold json_bytes. by rewrite E. Qed.

Lemma emits_encode_slice input capacity :
  (blen (b64_encode input) <= capacity)%Z ->
  emits (encode_slice input capacity) EmptyString (b64_encode input).
Proof.
  intros Hle. unfold encode_slice.
  destruct (Z.ltb_spec capacity (blen (b64_encode input))); [lia|]. apply emits_ok.
Qed.

Lemma write_base64_bytes_emits bs : emits (write_base64_bytes bs) (b64_encode bs) tt.
Proof.
  unfold write_base64_bytes. destruct (is_empty bs) eqn:E.
  - destruct bs; [|done]. rewrite b64_nil. apply emits_ok.
  - eapply emits_eq; [eapply emits_bind; [apply emits_encode_slice|apply emits_write]|done].
    rewrite b64_blen. unfold div_ceil. replace (blen bs + 3 - 1)%Z with (blen bs + 2)%Z by lia. lia.
Qed.

Lemma output_capacity_val : output_capacity = 65540%Z.
Proof. reflexivity. Qed.

(** Encoding the complete groups of each read and carrying the rest over. *)
Lemma base64_loop_emits carry reads err :
  (String.length carry < 3)%nat ->
  Forall (fun c => (0 < String.length c <= CHUNK_BYTES)%nat) reads ->
  (err <> None -> F) ->
  exists pre rest,
    carry +:+ joined reads = pre +:+ rest /\ (String.length pre mod 3 = 0)%nat /\
    (String.length rest < 3)%nat /\ emits (base64_loop carry reads err) (b64_encode pre) rest.
Proof.
  intros Hcarry Hreads Herr. revert carry Hcarry.
  induction Hreads as [|read reads Hread _ IH]; intros carry Hcarry; cbn [base64_loop].
  { exists EmptyString, carry. rewrite string_app_nil_r, b64_nil. split_and!; [done..|].
    destruct err; [|apply emits_ok]. by apply Herr. }
  set (input := carry +:+ read). set (complete := (String.length input / 3 * 3)%nat).
  assert (Hinput : joined (read :: reads) = read +:+ joined reads) by done.
  assert (Hlen : String.length input = (String.length carry + String.length read)%nat)
    by apply string_length_app.
  destruct (Nat.eqb_spec complete 0) as [Hc|Hc].
  - destruct (IH input) as (pre & rest & Happ & Hmod & Hrest & Hem).
    { unfold complete in Hc. pose proof (Nat.div_str_pos (String.length input) 3). lia. }
    exists pre, rest. rewrite Hinput, <- string_app_assoc. done.
  - assert (Hle : (complete <= String.length input)%nat).
    { unfold complete. pose proof (Nat.div_mod_eq (String.length input) 3). lia. }
    destruct (IH (str_drop complete input)) as (pre & rest & Happ & Hmod & Hrest & Hem).
    { rewrite str_drop_length. unfold complete.
      pose proof (Nat.div_mod_eq (String.length input) 3).
      pose proof (Nat.mod_upper_bound (String.length input) 3). lia. }
    assert (Htake : String.length (str_take complete input) = complete)
      by (rewrite str_take_length; lia).
    assert (Hmodt : (String.length (str_take complete input) mod 3 = 0)%nat).
    { rewrite Htake. apply Nat.Div0.mod_mul. }
    exists (str_take complete input +:+ pre), rest. split_and!; [| |done|].
    + rewrite Hinput, <- string_app_assoc. fold input.
      rewrite <- (str_take_drop complete input) at 1. by rewrite !string_app_assoc, Happ.
    + rewrite string_length_app, Nat.Div0.add_mod, Hmodt, Hmod. done.
    + rewrite b64_encode_app by done.
      eapply emits_eq; [eapply emits_bind; [apply emits_encode_slice|
        eapply emits_bind; [apply emits_write|exact Hem]]|by rewrite string_app_nil_l].
      rewrite b64_blen, output_capacity_val.
      assert (blen (str_take complete input) <= 49154)%Z.
      { unfold blen. rewrite Htake. unfold CHUNK_BYTES in Hread. lia. }
      assert ((blen (str_take complete input) + 2) / 3 < 16386)%Z
        by (apply Z.div_lt_upper_bound; lia). lia.
Qed.

(** A stream that breaks off makes the writer fail. *)
Lemma base64_loop_fails {A} carry reads e (f : bytes -> Writing A) Q :
  F -> writes_such (write_then (base64_loop carry reads (Some e)) f) Q.
Proof.
  intros HF. revert carry Q. induction reads as [|read reads IH]; intros carry Q; cbn [base64_loop]; [done|].
  destruct (_ =? 0)%nat; [apply IH|]. unfold encode_slice. destruct (_ <? _)%Z; [done|]. apply IH.
Qed.

(** The loop, and the bytes that it leaves. *)
Lemma loop_and_rest_emits reads pre rest :
  emits (base64_loop EmptyString reads None) (b64_encode pre) rest ->
  (String.length pre mod 3 = 0)%nat -> (String.length rest < 3)%nat ->
  emits (write_then (base64_loop EmptyString reads None)
    (fun carry => if negb (is_empty carry) then
      written <-w encode_slice carry output_capacity ;; write_counted written else Written tt))
    (b64_encode (pre +:+ rest)) tt.
Proof.
  intros Hem Hmod Hrest. rewrite b64_encode_app by done. eapply emits_bind; [exact Hem|].
  destruct (is_empty rest) eqn:Er; simpl negb; cbv iota.
  - destruct rest; [|done]. rewrite b64_nil. apply emits_ok.
  - eapply emits_eq; [eapply emits_bind; [apply emits_encode_slice|apply emits_write]|done].
    rewrite b64_blen, output_capacity_val.
    assert ((blen rest + 2) / 3 < 2)%Z by (apply Z.div_lt_upper_bound; unfold blen; lia). lia.
Qed.

Context (knows_inline : forall h bs b, knows h bs -> storage h = Inline b -> b = bs).

Lemma write_blob_as_base64_emits h bs :
  knows h bs -> (is_spilled h = true -> F) -> emits (write_blob_as_base64 h) (b64_encode bs) tt.
Proof.
  intros Hk HF. unfold write_blob_as_base64.
  assert (Hgen : emits (reader <-w OpenForRead h CHUNK_BYTES Written ;;
    carry <-w base64_loop EmptyString (read_chunks_of reader) (read_error reader) ;;
    if negb (is_empty carry) then written <-w encode_slice carry output_capacity ;; write_counted written
    else Written tt) (b64_encode bs) tt).
  2: { destruct (storage h) as [b|b|path] eqn:Es; [|exact Hgen..].
       rewrite <- (knows_inline _ _ _ Hk Es). apply write_base64_bytes_emits. }
  apply (emits_open h CHUNK_BYTES bs); [done|unfold CHUNK_BYTES; lia|done|].
  intros stream [Hreads Hmem Hjoined].
  destruct (base64_loop_emits EmptyString (read_chunks_of stream) (read_error stream))
    as (pre & rest & Happ & Hmod & Hrest & Hem); [simpl; lia|done|..].
  { intros Hne. apply HF. destruct (is_spilled h); [done|]. by rewrite Hmem in Hne. }
  destruct (read_error stream) as [e|] eqn:Ee.
  - apply base64_loop_fails. apply HF. destruct (is_spilled h); [done|]. by discriminate Hmem.
  - destruct (Hjoined eq_refl) as [Hj|[]]. unfold joined in Happ. rewrite string_app_nil_l, Hj in Happ.
    rewrite Happ. by apply loop_and_rest_emits.
Qed.

Lemma write_replacement_emits content r :
  let h := replacement_blob r in
  knows h (content h) -> (is_spilled h = true -> F) ->
  exists b, to_vec (replacement_value content r) = Ok b /\ emits (write_replacement r) b tt.
Proof.
  intros h Hl HF. subst h. set (h := replacement_blob r) in *. eexists. split.
  - apply to_vec_object. repeat (apply Forall2_cons_2; [eexists; split; [apply to_vec_str|done]|]).
    apply Forall2_nil_2.
  - unfold write_replacement. eapply emits_eq.
    + repeat (eapply emits_bind; [apply emits_json, to_vec_str|]).
      repeat (eapply emits_bind; [apply emits_write|]).
      eapply emits_bind; [by apply (write_blob_as_base64_emits h (content h))|apply emits_write].
    + simpl fst. simpl snd. rewrite (to_vec_plain (b64_encode (content h))) by apply b64_encode_plain.
      cbn [join]. rewrite ?string_app_nil_l, !string_app_assoc. done.
Qed.

(** Comma-separated texts after a first one. *)
Definition join_tail (bs : list bytes) : bytes :=
  foldr (fun b acc => "," +:+ b +:+ acc) EmptyString bs.

Lemma join_comma b bs : join "," (b :: bs) = b +:+ join_tail bs.
Proof.
  revert b. induction bs as [|b' bs IH]; intros b; [simpl; by rewrite string_app_nil_r|].
  rewrite join_cons by done. by rewrite IH.
Qed.

Definition after (first : bool) (bs : list bytes) : bytes :=
  if first then join "," bs else join_tail bs.

Lemma after_cons first b bs :
  after first (b :: bs) = (if first then EmptyString else ",") +:+ b +:+ join_tail bs.
Proof. unfold after. destruct first; [by rewrite join_comma|done]. Qed.

Context (content : BlobHandle -> bytes) (replacements : gmap string RequestReplacement).
Hypothesis live_replacements : forall p r, replacements !! p = Some r ->
  knows (replacement_blob r) (content (replacement_blob r)) /\
  (is_spilled (replacement_blob r) = true -> F).

Definition writes (v : Value) : Prop := forall path, exists b,
  to_vec (patch_document content replacements path v) = Ok b /\
  emits (write_json_value path v replacements) b tt.

Lemma write_object_loop path m first :
  Forall (fun kv => writes kv.2) m ->
  exists bs,
    Forall2 (fun kv b => exists c, to_vec kv.2 = Ok c /\ b = to_vec_key kv.1 +:+ ":" +:+ c)
      ((fun kv => (kv.1, patch_document content replacements
                     (path +:+ "/" +:+ escape_json_pointer_token kv.1) kv.2)) <$> m) bs /\
    emits (write_for (fun (first : bool) kv =>
             _ <-w (if negb first then write_counted "," else Written tt) ;;
             key_bytes <-w json_bytes (Str kv.1) ;;
             _ <-w write_counted key_bytes ;;
             _ <-w write_counted ":" ;;
             _ <-w write_json_value (path +:+ "/" +:+ escape_json_pointer_token kv.1) kv.2
                     replacements ;;
             Written false) first m)
      (after first bs) (match m with [] => first | _ => false end).
Proof.
  intros Hm. revert first. induction Hm as [|[k c] m Hc _ IH]; intros first.
  - exists []. split; [apply Forall2_nil_2|]. destruct first; apply emits_ok.
  - destruct (Hc (path +:+ "/" +:+ escape_json_pointer_token k)) as (b & Hb & Hemit).
    destruct (IH false) as (bs & Hbs & Hloop).
    exists ((to_vec_key k +:+ ":" +:+ b) :: bs). split.
    + csimpl. apply Forall2_cons_2; [|done]. exists b. done.
    + eapply emits_eq.
      * rewrite write_for_cons. eapply (emits_bind _ _ _ false).
        -- eapply (emits_bind _ _ (if first then EmptyString else ",") tt);
             [destruct first; [apply emits_ok|apply emits_write]|].
           eapply emits_bind; [apply emits_json, to_vec_str|].
           do 2 (eapply emits_bind; [apply emits_write|]).
           eapply emits_bind; [exact Hemit|apply emits_ok].
        -- by destruct m.
      * rewrite after_cons. unfold after. rewrite ?string_app_nil_l, ?string_app_nil_r, !string_app_assoc.
        done.
Qed.

Lemma write_array_loop path l i :
  Forall writes l ->
  exists bs,
    Forall2 (fun v b => to_vec v = Ok b)
      ((fix go i items := match items with
                          | [] => []
                          | x :: items' =>
                              patch_document content replacements (path +:+ "/" +:+ fmt_nat i) x
                              :: go (S i) items'
                          end) i l) bs /\
    emits (write_fori (fun index child =>
             _ <-w (if (0 <? index)%nat then write_counted "," else Written tt) ;;
             write_json_value (path +:+ "/" +:+ fmt_nat index) child replacements) i l)
      (after (i =? 0)%nat bs) tt.
Proof.
  intros Hl. revert i. induction Hl as [|x l Hx _ IH]; intros i.
  - exists []. split; [apply Forall2_nil_2|]. destruct (i =? 0)%nat; apply emits_ok.
  - destruct (Hx (path +:+ "/" +:+ fmt_nat i)) as (b & Hb & Hemit).
    destruct (IH (S i)) as (bs & Hbs & Hloop).
    exists (b :: bs). split; [by apply Forall2_cons_2|].
    eapply emits_eq.
    + rewrite write_fori_cons. eapply (emits_bind _ _ _ tt); [|exact Hloop].
      eapply (emits_bind _ _ (if (i =? 0)%nat then EmptyString else ",") tt); [|exact Hemit].
      destruct i; [apply emits_ok|apply emits_write].
    + rewrite after_cons. unfold after. by rewrite !string_app_assoc.
Qed.

(** Writing a value emits the compact JSON of the patched value. *)
Lemma write_json_value_emits v : writes v.
Proof.
  induction v as [| | | |l IH|m IH] using Value_ind'; intros path;
    cbn [patch_document write_json_value];
    (destruct (replacements !! path) as [r|] eqn:Er;
      [destruct (live_replacements path r Er); by apply write_replacement_emits|]).
  5: { destruct (write_array_loop path l 0 IH) as (bs & Hbs & Hloop).
       eexists. split; [by apply to_vec_array|].
       eapply emits_bind; [apply emits_write|]. eapply emits_bind; [exact Hloop|apply emits_write]. }
  5: { destruct (write_object_loop path m true IH) as (bs & Hbs & Hloop).
       eexists. split; [by apply to_vec_object|].
       eapply emits_bind; [apply emits_write|]. eapply emits_bind; [exact Hloop|apply emits_write]. }
  all: eexists; (split; [by apply to_vec_leaf|]);
    eapply emits_eq; [eapply emits_bind; [apply emits_json; by apply to_vec_leaf|apply emits_write]|];
    by rewrite string_app_nil_l.
Qed.

End emits.

(** ** The logic is sound *)

Section sound.
#[local] Set Default Proof Using "All".
Context {W : Type} `{FileSystemLaws W}.
Abbreviation Wr := (Writer W).
Context (L : gmap Z (BlobHandle * bytes)) (knows : BlobHandle -> bytes -> Prop) (F : Prop).
Context (knows_live : forall h bs, knows h bs -> L !! blob_id h = Some (h, bs)).

Definition writer_ok (s : Wr) : Prop :=
  rep (wr_runtime s) L /\ wr_length s = u64_wrap (blen (wr_out s)).

Lemma run_writing_such {A} (p : Writing A) Q s r s' :
  writes_such knows F p Q -> writer_ok s -> run_writing p s = (r, s') ->
  writer_ok s' /\ same_rt (wr_runtime s) (wr_runtime s') /\
  match r with
  | Ok a => exists b, wr_out s' = wr_out s +:+ b /\ Q b a
  | Err _ => F
  end.
Proof.
  revert Q s. induction p as [a|e|bs p IH|h n k IH]; intros Q s; simpl.
  - intros HQ Hs [= <- <-]. split; [done|]. split; [apply same_rt_refl|]. exists EmptyString.
    by rewrite string_app_nil_r.
  - intros HF Hs [= <- <-]. split; [done|]. split; [apply same_rt_refl|done].
  - intros Hp [Hrep Hlen] Hrun. unfold ste_bind, push in Hrun. apply (IH _ _ Hp) in Hrun as (Hs' & Hn & Hr).
    + split; [done|]. split; [done|]. destruct r as [a|e]; [|done]. destruct Hr as (b & Hout & HQ).
      simpl in Hout. exists (bs +:+ b). by rewrite Hout, string_app_assoc.
    + split; [done|]. simpl. rewrite Hlen, blen_app. unfold u64_wrap. by rewrite Zplus_mod_idemp_l.
  - intros (bs & Hk & Hn & HF & Hs) [Hrep Hlen] Hrun. unfold ste_bind, on_runtime in Hrun.
    destruct (open_reader h n (wr_runtime s)) as [r1 rt1] eqn:E1.
    destruct (open_reader_streams _ _ _ _ _ _ _ _ Hrep (knows_live _ _ Hk) Hn E1) as (Hrep1 & Hsame & Hr1).
    destruct r1 as [stream|e].
    + apply (IH _ _ _ (Hs _ Hr1)) in Hrun as (Hs' & Hn' & Hr); [|done].
      split; [done|]. split; [by eapply same_rt_trans|done].
    + injection Hrun as <- <-. split; [done|]. split; [done|]. by apply HF.
Qed.
End sound.

(** * Theorems *)

Lemma replacement_map_elem p x reps : replacement_map reps !! p = Some x -> x ∈ reps.
Proof.
  unfold replacement_map. intros Hx%elem_of_list_to_map_2. rewrite elem_of_reverse in Hx.
  apply list_elem_of_fmap in Hx as (y & [= _ ->] & Hy). done.
Qed.

Section encode_spec.
#[local] Set Default Proof Using "All".
Context {W : Type} `{FileSystemLaws W} `{JsonCompact} `{Base64Laws} `{Runtime W} `{DuplexLaws W}
  `{!SchedulerLaws W}.

(** Every replacement's blob is live and stands for its content. *)
Definition replacements_live (L : gmap Z (BlobHandle * bytes)) (content : BlobHandle -> bytes)
    (replacements : list RequestReplacement) : Prop :=
  forall p r, replacement_map replacements !! p = Some r ->
    L !! blob_id (replacement_blob r) = Some (replacement_blob r, content (replacement_blob r)).

Definition some_spilled (replacements : list RequestReplacement) : Prop :=
  exists p r, replacement_map replacements !! p = Some r /\ is_spilled (replacement_blob r) = true.

(** The document that is sent. *)
Definition encoded_document (content : BlobHandle -> bytes) (request : Value)
    (replacements : list RequestReplacement) : Value :=
  patch_document content (replacement_map replacements) EmptyString (strip_output_from_value request).

(** A writer that knows the contents of the replacements' blobs. *)
Lemma document_emitted knows F content request replacements :
  (forall h bs b, knows h bs -> storage h = Inline b -> b = bs) ->
  (forall p r, replacement_map replacements !! p = Some r ->
     knows (replacement_blob r) (content (replacement_blob r)) /\
     (is_spilled (replacement_blob r) = true -> F)) ->
  exists doc, to_vec (encoded_document content request replacements) = Ok doc /\
    emits knows F (write_json_value EmptyString (strip_output_from_value request)
                     (replacement_map replacements)) doc tt.
Proof. intros Hinl Hknows. by apply write_json_value_emits. Qed.

Lemma encoder_writes L content request replacements s r wr :
  rep s L -> replacements_live L content replacements ->
  run_writing (write_json_value EmptyString (strip_output_from_value request)
    (replacement_map replacements)) (mkWriter s EmptyString 0) = (r, wr) ->
  exists doc, to_vec (encoded_document content request replacements) = Ok doc /\
    rep (wr_runtime wr) L /\ same_rt s (wr_runtime wr) /\
    match r with
    | Ok _ => wr_out wr = doc /\ wr_length wr = u64_wrap (blen doc)
    | Err _ => some_spilled replacements
    end.
Proof.
  intros Hrep Hlive E. set (knows := fun h bs => L !! blob_id h = Some (h, bs)).
  destruct (document_emitted knows (some_spilled replacements) content request replacements)
    as (doc & Hdoc & Hemit).
  { intros h bs b Hl Hst. destruct (rep_stored _ _ Hrep _ _ _ Hl) as (_ & _ & Hm). by rewrite Hst in Hm. }
  { intros p r' Hp. split; [by apply (Hlive p)|]. intros Hs. by exists p, r'. }
  exists doc. split; [done|].
  destruct (run_writing_such L knows (some_spilled replacements)) with (2 := Hemit) (4 := E)
    as ((Hrep' & Hlen) & Hn & Hr); [done..|].
  split; [done|]. split; [done|]. destruct r as [[]|]; [|done].
  destruct Hr as (b & Hout & -> & _). simpl in Hout. split; [done|]. by rewrite Hlen, Hout.
Qed.

Lemma abort_store_keeps (s : BlobRuntimeInner W) L written :
  rep s L -> (next_id_counter s < u64_max)%Z -> rep (abort_store written s).2 L.
Proof.
  intros Hrep Hlt. unfold abort_store, st_bind, on_world.
  destruct (abort_progress written (world s)) as [progress w] eqn:E.
  assert (Hw : rep (set_world w s) L).
  { apply rep_set_world_same; [done|]. by eapply abort_progress_frame. }
  destruct progress as [chunks|]; [|done].
  destruct (rep_next_id (set_world w s) L Hw Hlt) as [Hrep1 Hf1].
  destruct (next_id (set_world w s)) as [id s1]. simpl in Hrep1, Hf1.
  destruct (stream_loop id _ _ _ _ _ s1) as [r2 s2] eqn:E2.
  by destruct (stream_loop_spec id _ chunks None EmptyString EmptyString None s1 L r2 s2 Hrep1 Hf1
    eq_refl E2) as (? & _).
Qed.
End encode_spec.

(** * A concrete request, for the witnesses *)

Definition sample_request : Value :=
  Object [("output", Str "url"); ("p", Array [Object [("inlineData",
            Object [("data", Str "https://h/x.png")])]])].

Definition sample_replacement (h : BlobHandle) : RequestReplacement :=
  mkRequestReplacement "/p/0/inlineData" "image/png" h.

Definition sample_content (h : BlobHandle) : bytes :=
  match storage h with Inline bs | Shared bs => bs | Spilled _ => "defghij" end.

Definition sample_doc (b64 : string) : bytes :=
  "{" +:+ dquote +:+ "p" +:+ dquote +:+ ":[{" +:+ dquote +:+ "inlineData" +:+ dquote +:+ ":{"
  +:+ dquote +:+ "mimeType" +:+ dquote +:+ ":" +:+ dquote +:+ "image/png" +:+ dquote +:+ ","
  +:+ dquote +:+ "data" +:+ dquote +:+ ":" +:+ dquote +:+ b64 +:+ dquote +:+ "}}]}".

Definition sample_roomy_config : BlobRuntimeConfig := mkBlobRuntimeConfig 100 100 200 "/tmp/blobs".

Definition sample_roomy : BlobRuntimeInner SampleFs :=
  (store_bytes "abc" "text/plain" (runtime_new sample_roomy_config ∅)).2.

Lemma sample_roomy_rep : rep sample_roomy sample_live1.
Proof.
  apply (blob_run_rep sample_roomy_config); [unfold in_u64; vm_compute; done|].
  apply (run_store_ok sample_roomy_config (runtime_new sample_roomy_config ∅) ∅ (CallBytes "abc")
    "text/plain" sample_first);
    [apply (run_new sample_roomy_config ∅)|reflexivity|vm_compute; reflexivity].
Qed.

Lemma sample_replacement_lookup h p r :
  replacement_map [sample_replacement h] !! p = Some r -> r = sample_replacement h.
Proof.
  unfold replacement_map. simpl. by intros [[_ <-]|[_ ?%lookup_empty_Some]]%lookup_insert_Some.
Qed.

(** The value of a key under a path of keys. *)
Definition under_path (toks : list string) (k : string) (v : Value) : option Value :=
  pointer_walk v toks ≫= value_get k.

Lemma value_get_remove_key k v : wf_value v -> value_get k (remove_key k v) = None.
Proof.
  destruct v as [| | | | |m]; try done. intros [Hnd _]%wf_object. by apply map_get_remove_eq.
Qed.

Lemma under_path_update k toks v :
  wf_value v -> under_path toks k (walk_update (remove_key k) toks v) = None.
Proof.
  intros Hwf. unfold under_path. rewrite pointer_walk_update.
  destruct (pointer_walk v toks) as [v'|] eqn:E; [|done]. simpl.
  apply value_get_remove_key. by eapply pointer_walk_wf.
Qed.

(** No [output] option is sent: in the document that is encoded, neither the root nor either
    spelling of the image configuration has an [output] key any more (for any well-formed request),
    and the document stays well-formed. *)
Theorem strip_output_removes body :
  wf_value body ->
  let stripped := strip_output_from_value body in
  wf_value stripped /\ value_get "output" stripped = None /\
  under_path ["generationConfig"; "imageConfig"] "output" stripped = None /\
  under_path ["generation_config"; "image_config"] "output" stripped = None.
Proof.
  intros Hwf stripped. subst stripped. unfold strip_output_from_value.
  set (b1 := remove_key "output" body).
  assert (Hwf1 : wf_value b1) by (by apply remove_key_wf).
  assert (Hrm : forall v, wf_value v -> wf_value (remove_key "output" v)) by (intros; by apply remove_key_wf).
  change (pointer_update (remove_key "output") "/generationConfig/imageConfig" b1) with
    (walk_update (remove_key "output") ["generationConfig"; "imageConfig"] b1).
  set (b2 := walk_update _ _ b1).
  assert (Hwf2 : wf_value b2) by (by apply walk_update_wf).
  change (pointer_update (remove_key "output") "/generation_config/image_config" b2) with
    (walk_update (remove_key "output") ["generation_config"; "image_config"] b2).
  split; [by apply walk_update_wf|]. split; [|split].
  - assert (Hb1 : value_get "output" b1 = None) by (by apply value_get_remove_key).
    unfold b2. destruct b1 as [| | | | |m]; try done.
    cbn [walk_update value_get as_object mbind option_bind] in *.
    by rewrite !map_get_alter_ne by done.
  - unfold under_path. rewrite pointer_walk_update_ne by done.
    by apply under_path_update.
  - by apply under_path_update.
Qed.

Lemma strip_output_removes_witness :
  let body := Object [("output", Str "url"); ("generationConfig",
                Object [("imageConfig", Object [("output", Str "url"); ("imageSize", Str "4K")])])] in
  strip_output_from_value body =
    Object [("generationConfig", Object [("imageConfig", Object [("imageSize", Str "4K")])])] /\
  value_get "output" (strip_output_from_value body) = None.
Proof.
  intros body. split; [reflexivity|].
  apply (strip_output_removes body). apply wf_valueb_true. reflexivity.
Defined.

Lemma encode_request_body_run {W} `{FileSystemLaws W} `{JsonCompact} `{Base64Laws}
    `{Runtime W} `{DuplexLaws W} `{!SchedulerLaws W}
    (s : BlobRuntimeInner W) L content request replacements r s' :
  rep s L -> (next_id_counter s < u64_max)%Z -> replacements_live L content replacements ->
  encode_request_body request replacements s = (r, s') ->
  match r with
  | Ok enc => exists doc,
      to_vec (encoded_document content request replacements) = Ok doc /\
      content_length enc = u64_wrap (blen doc) /\
      mime_type (meta (body_blob enc)) = "application/json" /\
      L !! blob_id (body_blob enc) = None /\
      rep s' (<[blob_id (body_blob enc) := (body_blob enc, doc)]> L)
  | Err _ => exists L', L ⊆ L' /\ rep s' L'
  end.
Proof.
  intros Hrep Hlt Hlive. unfold encode_request_body.
  destruct (run_writing _ _) as [r1 wr] eqn:E1.
  destruct (encoder_writes L content request replacements s r1 wr Hrep Hlive E1)
    as (doc & Hdoc & Hrep1 & Hn1 & Hr1).
  assert (Hlt1 : (next_id_counter (wr_runtime wr) < u64_max)%Z) by (by rewrite Hn1).
  destruct r1 as [u|e].
  2:{ assert (Ha := abort_store_keeps (wr_runtime wr) L (wr_out wr) Hrep1 Hlt1).
      unfold st_bind. destruct (abort_store _ _) as [u s1]. intros [= <- <-]. by exists L. }
  destruct Hr1 as [Hout Hlen]. unfold st_bind, on_world.
  destruct (duplex_chunks (wr_out wr) (world (wr_runtime wr))) as [chunks w1] eqn:E2.
  destruct (duplex_chunks_ok _ _ _ _ E2) as [Hjoin ->].
  assert (set_world (world (wr_runtime wr)) (wr_runtime wr) = wr_runtime wr) as ->
    by (by destruct (wr_runtime wr)).
  destruct (store_stream _ _ (wr_runtime wr)) as [stored s2] eqn:E3.
  assert (Hst := store_stream_spec _ L _ _ _ _ Hrep1 Hlt1 E3). simpl in Hst.
  change (joined chunks) with (foldr String.append EmptyString chunks) in Hst.
  rewrite Hjoin, Hout in Hst.
  destruct (join_error (world s2)) as [panicked w3] eqn:E4.
  assert (Hw3 := join_error_frame _ _ _ E4).
  destruct panicked as [e|].
  - intros [= <- <-]. destruct stored as [h|e'].
    + destruct Hst as (_ & _ & Hn & Hrep2). eexists. split; [by apply insert_subseteq|].
      by apply rep_set_world_same.
    + exists L. split; [done|]. by apply rep_set_world_same.
  - unfold ste_bind, ste_lift, ste_ok. destruct stored as [h|e']; cbv beta iota; intros [= <- <-].
    + destruct Hst as (_ & Hmime & Hn & Hrep2). exists doc. simpl.
      split_and!; try done. by apply rep_set_world_same.
    + exists L. split; [done|]. by apply rep_set_world_same.
Qed.

(** C4: the encoded body is the patched document, and its length is the announced one.  When every
    replacement is a live blob, a successful encoding stores, as a new [application/json] blob, the
    compact JSON of the request with its [output] options removed and each replaced position holding
    [{"mimeType": .., "data": base64 of the blob}], and [content_length] is its number of bytes; a
    failure keeps every live blob. *)
Theorem encode_request_body_correct {W} `{FileSystemLaws W} `{JsonCompact} `{Base64Laws}
    `{Runtime W} `{DuplexLaws W} `{!SchedulerLaws W}
    (s : BlobRuntimeInner W) L content request replacements r s' :
  rep s L -> (next_id_counter s < u64_max)%Z -> replacements_live L content replacements ->
  encode_request_body request replacements s = (r, s') ->
  match r with
  | Ok enc => exists doc,
      to_vec (encoded_document content request replacements) = Ok doc /\
      content_length enc = u64_wrap (blen doc) /\
      mime_type (meta (body_blob enc)) = "application/json" /\
      L !! blob_id (body_blob enc) = None /\
      rep s' (<[blob_id (body_blob enc) := (body_blob enc, doc)]> L)
  | Err _ => exists L', L ⊆ L' /\ rep s' L'
  end.
Proof. apply encode_request_body_run. Qed.

Lemma encode_request_body_correct_witness :
  let result := encode_request_body sample_request [sample_replacement sample_second]
                  sample_after_second in
  exists enc, result.1 = Ok enc /\
    rep result.2 (<[blob_id (body_blob enc) := (body_blob enc, sample_doc "ZGVmZ2hpag==")]> sample_live2).
Proof.
  intros result. destruct result as [r s'] eqn:E.
  assert (Hlive : replacements_live sample_live2 sample_content [sample_replacement sample_second]).
  { intros p r' ->%sample_replacement_lookup. reflexivity. }
  assert (Hspec := encode_request_body_correct sample_after_second sample_live2 sample_content
    sample_request [sample_replacement sample_second] r s' sample_rep2
    ltac:(vm_compute; reflexivity) Hlive E).
  assert (Hr : is_Some (result_ok r)).
  { change r with (r, s').1. rewrite <- E. vm_compute. by eexists. }
  destruct r as [enc|]; [|by destruct Hr]. exists enc. split; [reflexivity|].
  destruct Hspec as (doc & Hdoc & _ & _ & _ & Hrep).
  assert (doc = sample_doc "ZGVmZ2hpag==") as ->; [|exact Hrep].
  vm_compute in Hdoc. injection Hdoc as <-. reflexivity.
Defined.

(** An in-memory encoding does not fail: when no replacement is spilled, the document fits the
    inline limits and the remaining budget, and the store task does not panic, the encoding returns
    an in-memory blob that holds exactly the document. *)
Theorem encode_request_body_in_memory {W} `{FileSystemLaws W} `{JsonCompact} `{Base64Laws}
    `{Runtime W} `{DuplexLaws W} `{!SchedulerLaws W}
    (s : BlobRuntimeInner W) L content request replacements doc :
  rep s L -> replacements_live L content replacements -> ~ some_spilled replacements ->
  to_vec (encoded_document content request replacements) = Ok doc ->
  (blen doc <= Z.min (inline_max_bytes (cfg s)) (request_hot_budget_bytes (cfg s)))%Z ->
  (global_hot_bytes s + blen doc <= global_hot_budget_bytes (cfg s))%Z ->
  (forall w, (join_error w).1 = None) ->
  exists enc s', encode_request_body request replacements s = (Ok enc, s') /\
    storage (body_blob enc) = Inline doc.
Proof.
  intros Hrep Hlive Hnone Hdoc Hfit Hbudget Hpanic. unfold encode_request_body.
  destruct (run_writing _ _) as [r1 wr] eqn:E1.
  destruct (encoder_writes L content request replacements s r1 wr Hrep Hlive E1)
    as (doc' & Hdoc' & Hrep1 & Hn1 & Hr1).
  rewrite Hdoc in Hdoc'. injection Hdoc' as <-. destruct r1 as [u|e]; [|done].
  destruct Hr1 as [Hout Hlen]. unfold st_bind, on_world.
  destruct (duplex_chunks (wr_out wr) (world (wr_runtime wr))) as [chunks w1] eqn:E2.
  destruct (duplex_chunks_ok _ _ _ _ E2) as [Hjoin ->]. rewrite Hout in Hjoin.
  change (joined chunks = doc) in Hjoin.
  rewrite Hn1. set (s1 := set_world _ (set_world _ s)).
  unfold store_stream, st_bind, ste_bind. simpl read_chunks_of. simpl read_error.
  destruct (next_id s1) as [id s2] eqn:E3. injection E3 as <- <-.
  rewrite stream_loop_fits; cbn [fst snd]; rewrite Hjoin; [|by rewrite Z.add_0_l].
  rewrite string_app_nil_l. destruct (rep_budget s L Hrep).
  rewrite choose_storage_fits by (simpl; lia). unfold ste_ok, ste_lift.
  match goal with |- context [join_error ?w] =>
    destruct (join_error w) as [p w3] eqn:Ej; specialize (Hpanic w) end.
  rewrite Ej in Hpanic. simpl in Hpanic. subst p. eexists _, _. split; [done|done].
Qed.

Lemma encode_request_body_in_memory_witness :
  exists enc s',
    encode_request_body sample_request [sample_replacement sample_first] sample_roomy = (Ok enc, s') /\
    storage (body_blob enc) = Inline (sample_doc "YWJj").
Proof.
  apply (encode_request_body_in_memory sample_roomy sample_live1 sample_content sample_request
    [sample_replacement sample_first] (sample_doc "YWJj") sample_roomy_rep).
  - intros p r' ->%sample_replacement_lookup. reflexivity.
  - intros (p & r' & ->%sample_replacement_lookup & Hs). discriminate Hs.
  - vm_compute. reflexivity.
  - vm_compute. discriminate.
  - vm_compute. discriminate.
  - reflexivity.
Defined.
