(* ===== verification/MemoryCache.v ===== *)
(** cache.rs, [MemoryCache]: the byte-bounded cache of downloaded images in memory, over the [lru]
    crate's interface.  Its counter is exact, the bound is never exceeded, and it evicts the least
    recently used entries, only as many as needed. *)

From S2P Require Import Prelude RustStr Json Ext Samples.
From stdpp Require Import options.

(** * The code *)

Record CachedInlineData := mkCachedInlineData {
  cached_mime_type : string;
  cached_bytes : bytes;
}.

Record MemoryEntry := mkMemoryEntry {
  entry_mime_type : string;
  entry_bytes : bytes;
  entry_size : Z;
}.

Section memory_cache.
Context `{LruLib MemoryEntry}.

Record MemoryCacheInner := mkMemoryCacheInner {
  items : LruCache;
  max_bytes : Z;
  cur_bytes : Z;
}.

Definition memory_cache_new (max_bytes : Z) : MemoryCacheInner :=
  mkMemoryCacheInner lru_unbounded max_bytes 0.

Definition memory_get (url : string) : St MemoryCacheInner (option CachedInlineData) := fun c =>
  let '(item, items) := lru_get url (items c) in
  ((fun item => mkCachedInlineData (entry_mime_type item) (entry_bytes item)) <$> item,
   mkMemoryCacheInner items (max_bytes c) (cur_bytes c)).

(** The eviction loop; each turn removes an entry, so the number of entries is enough fuel. *)
Fixpoint evict (fuel : nat) (size : Z) (c : MemoryCacheInner) : MemoryCacheInner :=
  match fuel with
  | O => c
  | S fuel =>
      if (max_bytes c <? cur_bytes c + size)%Z then
        match lru_pop_lru (items c) with
        | (None, items) => mkMemoryCacheInner items (max_bytes c) (cur_bytes c)
        | (Some (_, evicted), items) =>
            evict fuel size (mkMemoryCacheInner items (max_bytes c)
                               (u64_saturating_sub (cur_bytes c) (entry_size evicted)))
        end
      else c
  end.

(** The additions are not wrapped: what they add up are the lengths of buffers that are in memory at the
    same time, so that the sums fit in the [u64] of the code. *)
Definition memory_set (url : string) (value : CachedInlineData) : St MemoryCacheInner unit := fun c =>
  let size := blen (cached_bytes value) in
  if (max_bytes c <? size)%Z then (tt, c) else
  let c := match lru_pop url (items c) with
           | (Some previous, items) =>
               mkMemoryCacheInner items (max_bytes c)
                 (u64_saturating_sub (cur_bytes c) (entry_size previous))
           | (None, items) => mkMemoryCacheInner items (max_bytes c) (cur_bytes c)
           end in
  let c := evict (S (lru_len (items c))) size c in
  (tt, mkMemoryCacheInner
         (lru_put url (mkMemoryEntry (cached_mime_type value) (cached_bytes value) size) (items c))
         (max_bytes c) (cur_bytes c + size)).
End memory_cache.

(** * Lemmas on entries *)

Section entries.
Context {V : Type}.
Implicit Type l : list (string * V).

Lemma entry_of_Some_in k v l : entry_of k l = Some v -> (k, v) ∈ l.
Proof.
  induction l as [|[k' v'] l IH]; simpl; [done|].
  destruct (String.eqb_spec k' k) as [->|]; [intros [= ->]; left|]. intros E. right. by apply IH.
Qed.

Lemma entry_of_in k v l : NoDup (l.*1) -> (k, v) ∈ l -> entry_of k l = Some v.
Proof.
  induction l as [|[k' v'] l IH]; csimpl; intros Hnd Hin; [by apply elem_of_nil in Hin|].
  apply NoDup_cons in Hnd as [Hni Hnd].
  apply elem_of_cons in Hin as [[= -> ->]|Hin]; [by rewrite String.eqb_refl|].
  destruct (String.eqb_spec k' k) as [->|]; [|by apply IH].
  exfalso. apply Hni. apply list_elem_of_fmap. by exists (k, v).
Qed.

Lemma entry_of_without_ne k k' l : k <> k' -> entry_of k' (without k l) = entry_of k' l.
Proof.
  intros Hne. unfold without. induction l as [|[k2 v] l IH]; [done|].
  rewrite filter_cons. simpl. case_decide as Hd; simpl; simpl in Hd.
  - destruct (String.eqb k2 k'); [done|apply IH].
  - destruct (String.eqb_spec k2 k') as [->|]; [congruence|apply IH].
Qed.

Lemma without_not_in k l : k ∉ (without k l).*1.
Proof.
  rewrite list_elem_of_fmap. intros ([k' v] & -> & Hin).
  apply list_elem_of_filter in Hin as [Hne _]. done.
Qed.

Lemma without_id k l : k ∉ l.*1 -> without k l = l.
Proof.
  intros Hn. apply filter_id. apply Forall_forall. intros [k' v] Hin Heq. apply Hn.
  apply list_elem_of_fmap. exists (k', v). by simpl in *; subst.
Qed.

Lemma without_NoDup k l : NoDup (l.*1) -> NoDup ((without k l).*1).
Proof.
  unfold without. induction l as [|[k' v] l IH]; [done|]. csimpl. intros [Hni Hnd]%NoDup_cons.
  rewrite filter_cons. case_decide; csimpl; [|by apply IH].
  apply NoDup_cons. split; [|by apply IH].
  intros Hin. apply Hni. apply list_elem_of_fmap in Hin as (e & -> & Hin).
  apply list_elem_of_filter in Hin as [_ Hin]. apply list_elem_of_fmap. by exists e.
Qed.

Lemma without_perm k v l :
  NoDup (l.*1) -> entry_of k l = Some v -> l ≡ₚ (k, v) :: without k l.
Proof.
  induction l as [|[k' v'] l IH]; csimpl; intros Hnd; [done|].
  apply NoDup_cons in Hnd as [Hni Hnd]. unfold without. rewrite filter_cons. simpl.
  destruct (String.eqb_spec k' k) as [->|Hne].
  - intros [= ->]. rewrite decide_False by naive_solver. fold (without k l).
    by rewrite without_id.
  - intros E. rewrite decide_True by done. fold (without k l).
    rewrite (IH Hnd E) at 1. apply Permutation_swap.
Qed.

Lemma entry_of_prefix k l1 l2 v :
  NoDup ((l1 ++ l2).*1) -> entry_of k l1 = Some v -> entry_of k (l1 ++ l2) = Some v.
Proof.
  intros Hnd Hin%entry_of_Some_in. apply entry_of_in; [done|]. apply elem_of_app. by left.
Qed.
End entries.

(** * Invariant *)

Section invariant.
#[local] Set Default Proof Using "All".
Context `{LruLaws MemoryEntry}.

Definition entries (c : MemoryCacheInner) : list (string * MemoryEntry) := lru_entries (items c).

Definition total_size (l : list (string * MemoryEntry)) : Z := sumZ ((fun e => entry_size e.2) <$> l).

Record memory_ok (c : MemoryCacheInner) : Prop := {
  ok_sizes : Forall (fun e => entry_size e.2 = blen (entry_bytes e.2)) (entries c);
  ok_cur : cur_bytes c = total_size (entries c);
  ok_max : (0 <= cur_bytes c <= max_bytes c)%Z;
}.

Lemma total_size_nonneg l :
  Forall (fun e => entry_size e.2 = blen (entry_bytes e.2)) l -> (0 <= total_size l)%Z.
Proof.
  intros Hl. apply sumZ_nonneg. apply Forall_fmap. eapply Forall_impl; [exact Hl|].
  intros e He. simpl. rewrite He. apply blen_nonneg.
Qed.

Lemma total_size_app l1 l2 : total_size (l1 ++ l2) = (total_size l1 + total_size l2)%Z.
Proof. unfold total_size. by rewrite fmap_app, sumZ_app. Qed.

(** What is left by the loop: the longest prefix of the entries that leaves room for [size]. *)
Definition makes_room (max size : Z) (before after : list (string * MemoryEntry)) : Prop :=
  exists evicted, before = after ++ evicted /\ (total_size after + size <= max)%Z /\
    forall e rest, evicted = e :: rest -> (max < total_size (after ++ [e]) + size)%Z.

Lemma evict_spec fuel size c :
  Forall (fun e => entry_size e.2 = blen (entry_bytes e.2)) (entries c) ->
  cur_bytes c = total_size (entries c) -> (0 <= size <= max_bytes c)%Z ->
  (length (entries c) < fuel)%nat ->
  let c' := evict fuel size c in
  max_bytes c' = max_bytes c /\ cur_bytes c' = total_size (entries c') /\
  makes_room (max_bytes c) size (entries c) (entries c').
Proof.
  revert c. induction fuel as [|fuel IH]; intros c Hsz Hcur Hsize Hfuel; [lia|]. simpl.
  destruct (Z.ltb_spec (max_bytes c) (cur_bytes c + size)).
  2:{ split; [done|]. split; [done|]. exists []. rewrite app_nil_r. split; [done|].
      split; [lia|done]. }
  destruct (lru_pop_lru (items c)) as [popped its] eqn:E.
  destruct (lru_pop_lru_spec (items c)) as [Hp He]. rewrite E in Hp, He. simpl in Hp, He.
  fold (entries c) in Hp, He.
  destruct popped as [[k e]|].
  2:{ symmetry in Hp. apply last_None in Hp. rewrite Hp in Hcur. unfold total_size in Hcur.
      simpl in Hcur. lia. }
  symmetry in Hp. apply last_removelast in Hp. rewrite <- He in Hp.
  assert (Hts : total_size (entries c) = (total_size (lru_entries its) + entry_size e)%Z).
  { rewrite Hp, total_size_app. unfold total_size at 2. simpl. lia. }
  rewrite Hp in Hsz. apply Forall_app in Hsz as [Hsz1 Hsz2].
  assert (Hpos := total_size_nonneg _ Hsz1).
  set (c1 := mkMemoryCacheInner its _ _).
  destruct (IH c1) as (Hm & Hc & evicted & Hev & Hroom & Hmin); try done.
  - simpl. unfold u64_saturating_sub. unfold entries. simpl. lia.
  - unfold entries. simpl. apply (f_equal length) in Hp. rewrite length_app in Hp. simpl in Hp. lia.
  - split; [done|]. split; [done|]. exists (evicted ++ [(k, e)]).
    change (entries c1) with (lru_entries its) in Hev.
    split; [rewrite Hp, Hev; by rewrite app_assoc|]. split; [done|].
    intros e' rest Heq. destruct evicted as [|e1 ev].
    + injection Heq as <- <-. rewrite app_nil_r in Hev. rewrite <- Hev, <- Hp. lia.
    + injection Heq as <- _. by apply (Hmin e1 ev).
Qed.

(** The cache after the previous entry of a URL was taken out. *)
Definition popped (url : string) (c : MemoryCacheInner) : MemoryCacheInner :=
  match lru_pop url (items c) with
  | (Some previous, items) =>
      mkMemoryCacheInner items (max_bytes c)
        (u64_saturating_sub (cur_bytes c) (entry_size previous))
  | (None, items) => mkMemoryCacheInner items (max_bytes c) (cur_bytes c)
  end.

Lemma popped_spec url c :
  memory_ok c ->
  entries (popped url c) = without url (entries c) /\ max_bytes (popped url c) = max_bytes c /\
  cur_bytes (popped url c) = total_size (entries (popped url c)).
Proof.
  intros [Hsz Hcur Hmax]. unfold popped.
  destruct (lru_pop url (items c)) as [p its] eqn:E.
  destruct (lru_pop_spec url (items c)) as [Hp He]. rewrite E in Hp, He. simpl in Hp, He.
  fold (entries c) in Hp, He. assert (Hnd := lru_entries_NoDup (items c)). fold (entries c) in Hnd.
  destruct p as [previous|]; (split; [exact He|]; split; [done|]); simpl.
  - symmetry in Hp. assert (Hperm := without_perm url previous (entries c) Hnd Hp).
    assert (Hts : total_size (entries c) = (entry_size previous + total_size (without url (entries c)))%Z).
    { unfold total_size. by rewrite (sumZ_Permutation _ _ (fmap_Permutation _ _ _ Hperm)). }
    assert (H0' := total_size_nonneg (without url (entries c)) (Forall_filter_sub _ _ _ Hsz)).
    unfold entries at 1. simpl. rewrite He, Hcur, Hts. unfold u64_saturating_sub. lia.
  - unfold entries at 1. simpl. rewrite He, Hcur. symmetry in Hp.
    assert (without url (entries c) = entries c) as ->; [|done].
    apply without_id. intros ([k v] & -> & Hin)%list_elem_of_fmap.
    by rewrite (entry_of_in k v) in Hp.
Qed.

Lemma memory_set_unfold url value c :
  (blen (cached_bytes value) <= max_bytes c)%Z ->
  (memory_set url value c).2 =
  let size := blen (cached_bytes value) in
  let c := evict (S (lru_len (items (popped url c)))) size (popped url c) in
  mkMemoryCacheInner
    (lru_put url (mkMemoryEntry (cached_mime_type value) (cached_bytes value) size) (items c))
    (max_bytes c) (cur_bytes c + size).
Proof.
  intros Hle. unfold memory_set. by destruct (Z.ltb_spec (max_bytes c) (blen (cached_bytes value))); [lia|].
Qed.

End invariant.

(** * Theorems *)

Section theorems.
#[local] Set Default Proof Using "All".
Context `{LruLaws MemoryEntry}.

Lemma memory_set_spec url value c :
  memory_ok c ->
  let c' := (memory_set url value c).2 in
  let size := blen (cached_bytes value) in
  memory_ok c' /\ max_bytes c' = max_bytes c /\
  if (max_bytes c <? size)%Z then c' = c
  else exists kept,
    entries c' = (url, mkMemoryEntry (cached_mime_type value) (cached_bytes value) size) :: kept /\
    makes_room (max_bytes c) size (without url (entries c)) kept.
Proof.
  intros Hok. cbv zeta. destruct (Z.ltb_spec (max_bytes c) (blen (cached_bytes value))) as [Hlt|Hle].
  { unfold memory_set. by rewrite (proj2 (Z.ltb_lt _ _) Hlt). }
  rewrite memory_set_unfold by done. cbv zeta.
  destruct (popped_spec url c Hok) as (He & Hm & Hc). destruct Hok as [Hsz Hcur Hmax].
  set (size := blen (cached_bytes value)) in *. assert (0 <= size)%Z by apply blen_nonneg.
  destruct (evict_spec (S (lru_len (items (popped url c)))) size (popped url c))
    as (Hm' & Hc' & Hroom); try done.
  { rewrite He. by apply Forall_filter_sub. }
  { rewrite Hm. lia. }
  { unfold entries. rewrite lru_len_entries. lia. }
  set (c1 := evict _ size (popped url c)) in *.
  rewrite He, Hm in Hroom. rewrite Hm in Hm'.
  set (entry := mkMemoryEntry _ _ size).
  assert (Hkept : without url (entries c1) = entries c1).
  { apply without_id. destruct Hroom as (evicted & Hev & _). intros Hin.
    apply (without_not_in url (entries c)). rewrite Hev, fmap_app. apply elem_of_app. by left. }
  assert (Hentries : lru_entries (lru_put url entry (items c1)) = (url, entry) :: entries c1).
  { rewrite lru_put_spec. fold (entries c1). by rewrite Hkept. }
  assert (Hsz1 : Forall (fun e => entry_size e.2 = blen (entry_bytes e.2)) (entries c1)).
  { destruct Hroom as (evicted & Hev & _).
    assert (Hw : Forall (fun e => entry_size e.2 = blen (entry_bytes e.2)) (without url (entries c)))
      by (by apply Forall_filter_sub).
    rewrite Hev in Hw. by apply Forall_app in Hw as [? _]. }
  split; [|split; [done|exists (entries c1); split; [exact Hentries|done]]].
  split; unfold entries; simpl; rewrite ?Hentries.
  - by constructor.
  - rewrite Hc'. change (total_size ((url, entry) :: entries c1))
      with (size + total_size (entries c1))%Z. lia.
  - rewrite Hm', Hc'. assert (Hpos := total_size_nonneg _ Hsz1).
    destruct Hroom as (evicted & _ & Hr & _). lia.
Qed.

Lemma memory_get_spec url c :
  memory_ok c ->
  let c' := (memory_get url c).2 in
  memory_ok c' /\ max_bytes c' = max_bytes c /\ entries c' ≡ₚ entries c /\
  (memory_get url c).1 =
    (fun e => mkCachedInlineData (entry_mime_type e) (entry_bytes e)) <$> entry_of url (entries c).
Proof.
  intros [Hsz Hcur Hmax]. cbv zeta. unfold memory_get.
  destruct (lru_get url (items c)) as [item its] eqn:E.
  destruct (lru_get_spec url (items c)) as [Hi He]. rewrite E in Hi, He. simpl in Hi, He.
  fold (entries c) in Hi, He. simpl.
  assert (Hperm : lru_entries its ≡ₚ entries c).
  { rewrite He. destruct (entry_of url (entries c)) as [v|] eqn:Ee; [|done].
    symmetry. apply without_perm; [apply lru_entries_NoDup|done]. }
  split_and!; [split| | |]; unfold entries; simpl; try done.
  - by rewrite Hperm.
  - rewrite Hcur. unfold total_size. apply sumZ_Permutation. by rewrite Hperm.
  - by rewrite Hi.
Qed.

(** Uses of the cache from its creation, with the value last stored under each URL. *)
Inductive cache_run (max : Z) : MemoryCacheInner -> gmap string CachedInlineData -> Prop :=
| cache_new : cache_run max (memory_cache_new max) ∅
| cache_get c stored url : cache_run max c stored -> cache_run max (memory_get url c).2 stored
| cache_set c stored url value :
    cache_run max c stored ->
    cache_run max (memory_set url value c).2
      (if (max <? blen (cached_bytes value))%Z then stored else <[url := value]> stored).

Definition agrees (c : MemoryCacheInner) (stored : gmap string CachedInlineData) : Prop :=
  forall k e, (k, e) ∈ entries c ->
    stored !! k = Some (mkCachedInlineData (entry_mime_type e) (entry_bytes e)).

Lemma cache_run_ok max c stored :
  (0 <= max)%Z -> cache_run max c stored -> memory_ok c /\ max_bytes c = max /\ agrees c stored.
Proof.
  intros Hmax. induction 1 as [|c stored url Hrun (Hok & Hm & Hag)|c stored url value Hrun (Hok & Hm & Hag)].
  - split; [|split; [done|]].
    + split; unfold entries, total_size; simpl; rewrite ?lru_unbounded_entries; try done; lia.
    + intros k e. unfold entries. simpl. rewrite lru_unbounded_entries. by intros ?%elem_of_nil.
  - destruct (memory_get_spec url c Hok) as (Hok' & Hm' & Hperm & _).
    split; [done|]. split; [by rewrite Hm'|]. intros k e. rewrite Hperm. apply Hag.
  - destruct (memory_set_spec url value c Hok) as (Hok' & Hm' & Hcase). rewrite Hm in Hm', Hcase.
    split; [done|]. split; [done|].
    destruct (Z.ltb_spec max (blen (cached_bytes value))); [by rewrite Hcase|].
    destruct Hcase as (kept & He & evicted & Hev & _). intros k e. rewrite He, elem_of_cons.
    intros [[= -> ->]|Hin]; [by rewrite lookup_insert_eq; destruct value|].
    assert (Hin' : (k, e) ∈ without url (entries c)) by (rewrite Hev; apply elem_of_app; by left).
    apply list_elem_of_filter in Hin' as [Hne Hin']. simpl in Hne.
    rewrite lookup_insert_ne by done. by apply Hag.
Qed.
End theorems.

(** C18: storing in the memory cache: the counter stays the exact total of the stored bodies and within
    the bound; a value larger than the bound is refused and nothing changes; otherwise the value
    becomes the most recent entry under its URL (replacing the previous one) and the loop evicts
    from the least recently used end exactly as long as room is missing, never more. *)
Theorem memory_set_correct `{LruLaws MemoryEntry} url value c :
  memory_ok c ->
  let c' := (memory_set url value c).2 in
  let size := blen (cached_bytes value) in
  memory_ok c' /\ max_bytes c' = max_bytes c /\
  if (max_bytes c <? size)%Z then c' = c
  else exists kept,
    entries c' = (url, mkMemoryEntry (cached_mime_type value) (cached_bytes value) size) :: kept /\
    makes_room (max_bytes c) size (without url (entries c)) kept.
Proof. apply memory_set_spec. Qed.

(** A hit is what was stored: in any sequence of lookups and stores on a cache of [max] bytes, a
    lookup of a URL returns nothing or the value stored last under that very URL (not counting
    refused values), and the cached bodies never total more than [max] bytes. *)
Theorem memory_cache_hits_correct `{LruLaws MemoryEntry} max c stored url hit :
  (0 <= max)%Z -> cache_run max c stored -> (memory_get url c).1 = Some hit ->
  stored !! url = Some hit /\ (total_size (entries c) <= max)%Z.
Proof.
  intros Hmax Hrun Hget. destruct (cache_run_ok max c stored Hmax Hrun) as (Hok & Hm & Hag).
  destruct (memory_get_spec url c Hok) as (_ & _ & _ & Hres). rewrite Hget in Hres.
  symmetry in Hres. apply fmap_Some in Hres as (e & He & ->). split.
  - by apply Hag, entry_of_Some_in.
  - destruct Hok as [_ Hcur [_ Hle]]. by rewrite <- Hcur, <- Hm.
Qed.

(** * A sample LRU cache: the list of its entries *)

Section sample_lru.
Context {V : Type}.

Definition SampleLru : Type := dsig (fun l : list (string * V) => NoDup (l.*1)).

Lemma front_NoDup k (v : V) l : NoDup (l.*1) -> NoDup (((k, v) :: without k l).*1).
Proof. intros Hl. csimpl. apply NoDup_cons. split; [apply without_not_in|by apply without_NoDup]. Qed.

Lemma removelast_NoDup (l : list (string * V)) : NoDup (l.*1) -> NoDup ((removelast l).*1).
Proof.
  destruct l as [|e l _] using rev_ind; [done|].
  rewrite removelast_last, fmap_app. by intros [? _]%NoDup_app.
Qed.

Definition sample_front (k : string) (v : V) (c : SampleLru) : SampleLru :=
  dexist ((k, v) :: without k (proj1_sig c)) (front_NoDup k v _ (proj2_dsig c)).

Definition sample_without (k : string) (c : SampleLru) : SampleLru :=
  dexist (without k (proj1_sig c)) (without_NoDup k _ (proj2_dsig c)).

#[export] Instance sample_lru : LruLib V := {|
  LruCache := SampleLru;
  lru_unbounded := dexist [] (NoDup_nil_2 : NoDup ([].*1));
  lru_len c := length (proj1_sig c);
  lru_get k c :=
    match entry_of k (proj1_sig c) with
    | Some v => (Some v, sample_front k v c)
    | None => (None, c)
    end;
  lru_pop k c := (entry_of k (proj1_sig c), sample_without k c);
  lru_pop_lru c :=
    (last (proj1_sig c), dexist (removelast (proj1_sig c)) (removelast_NoDup _ (proj2_dsig c)));
  lru_put := sample_front;
|}.

#[export] Instance sample_lru_laws : @LruLaws V sample_lru.
Proof.
  unshelve econstructor; [exact (fun c : SampleLru => proj1_sig c)|..]; try done.
  - intros c. exact (proj2_dsig c).
  - intros k c. simpl. by destruct (entry_of k (proj1_sig c)).
Defined.
End sample_lru.

(** * Witnesses *)

Definition sample_cache : MemoryCacheInner :=
  let c := memory_cache_new 6 in
  let c := (memory_set "u1" (mkCachedInlineData "image/png" "aaa") c).2 in
  let c := (memory_set "u2" (mkCachedInlineData "image/png" "bb") c).2 in
  (memory_get "u1" c).2.

Lemma sample_cache_run :
  cache_run 6 sample_cache (<["u2" := mkCachedInlineData "image/png" "bb"]>
                              (<["u1" := mkCachedInlineData "image/png" "aaa"]> ∅)).
Proof.
  apply cache_get.
  apply (cache_set 6 _ (<["u1" := mkCachedInlineData "image/png" "aaa"]> ∅) "u2"
    (mkCachedInlineData "image/png" "bb")).
  apply (cache_set 6 _ ∅ "u1" (mkCachedInlineData "image/png" "aaa")). apply cache_new.
Qed.

(** The entry used last is kept, the other one makes room. *)
Lemma memory_set_correct_witness :
  let c' := (memory_set "u3" (mkCachedInlineData "image/webp" "cc") sample_cache).2 in
  memory_ok c' /\ (entries c').*1 = ["u3"; "u1"] /\ cur_bytes c' = 5%Z.
Proof.
  intros c'. split; [|split; vm_compute; reflexivity].
  apply (memory_set_correct "u3" (mkCachedInlineData "image/webp" "cc") sample_cache).
  apply (cache_run_ok 6 _ _ ltac:(lia) sample_cache_run).
Defined.

Lemma memory_cache_hits_correct_witness :
  (memory_get "u2" sample_cache).1 = Some (mkCachedInlineData "image/png" "bb") /\
  (total_size (entries sample_cache) <= 6)%Z.
Proof.
  split; [vm_compute; reflexivity|].
  apply (memory_cache_hits_correct 6 sample_cache _ "u2" (mkCachedInlineData "image/png" "bb")
    ltac:(lia) sample_cache_run). vm_compute. reflexivity.
Defined.
