(* ===== verification/DiskCache.v ===== *)
(** cache.rs, [DiskCache]: downloaded images in files with an expiry, over an abstract file system
    that may fail. *)

From S2P Require Import Prelude RustStr Json Ext Samples BlobRuntime MemoryCache.
From stdpp Require Import options.

(** * The code *)

Record DiskCache := mkDiskCache {
  dir : string;
  ttl : Z;
  disk_max_bytes : Z;
}.

Record DiskMeta := mkDiskMeta {
  meta_mime_type : string;
  expires_at_unix_ms : Z;
  meta_size_bytes : Z;
}.

(** The derived [Serialize] and [Deserialize]: a missing or mistyped field is an error, an unknown
    one is ignored; the fields may also come as a sequence. *)
Definition disk_meta_to_value (m : DiskMeta) : Value :=
  Object [("mime_type", Str (meta_mime_type m));
          ("expires_at_unix_ms", Num (PosInt (expires_at_unix_ms m)));
          ("size_bytes", Num (PosInt (meta_size_bytes m)))].

Definition as_u64 (v : Value) : option Z := match v with Num (PosInt n) => Some n | _ => None end.

Definition disk_meta_of_value (v : Value) : option DiskMeta :=
  match v with
  | Object m =>
      mime ← obj_str "mime_type" m;
      expires ← map_get "expires_at_unix_ms" m ≫= as_u64;
      size ← map_get "size_bytes" m ≫= as_u64;
      Some (mkDiskMeta mime expires size)
  | Array [mime; expires; size] =>
      mime ← as_str mime; expires ← as_u64 expires; size ← as_u64 size;
      Some (mkDiskMeta mime expires size)
  | _ => None
  end.

Definition parse_disk_meta `{JsonCodec} (bs : bytes) : Result Error DiskMeta :=
  let? v := map_err ExternalError (from_slice bs) in
  ok_or (disk_meta_of_value v) (ExternalError "invalid disk cache metadata").

(** [path.extension()]: what follows the last dot of the file name, unless the dot is its first
    character. *)
Definition path_extension (path : string) : option string :=
  let name := match split_once "/" (string_rev path) with
              | Some (n, _) => n
              | None => string_rev path
              end in
  match split_once "." name with
  | Some (ext, stem) => if is_empty stem then None else Some (string_rev ext)
  | None => None
  end.

(** [meta_path.with_extension("bin")] of a path whose extension is [json] *)
Definition with_extension_bin (path : string) : string :=
  string_rev (str_drop 4 (string_rev path)) +:+ "bin".

(** A stable sort by the modification time. *)
Fixpoint insert_sorted (e : Z * string * Z) (l : list (Z * string * Z)) : list (Z * string * Z) :=
  match l with
  | [] => [e]
  | e' :: l' => if (e.1.1 <=? e'.1.1)%Z then e :: l else e' :: insert_sorted e l'
  end.
Definition sort_by_modified (l : list (Z * string * Z)) : list (Z * string * Z) :=
  foldr insert_sorted [] l.

Section disk.
Context {W : Type} `{FileSystem W} `{Directories W} `{Clock W} `{JsonCodec} `{Digests}.

Definition lift_io {A} (m : St W (Result IoError A)) : StE W A := fun w =>
  let '(r, w) := m w in (map_err (fun e => ExternalError (io_display e)) r, w).

Definition cache_key (url : string) : string := hex_encode (sha256 url).

Definition meta_path (c : DiskCache) (url : string) : string :=
  path_join (dir c) (cache_key url +:+ ".json").
Definition body_path (c : DiskCache) (url : string) : string :=
  path_join (dir c) (cache_key url +:+ ".bin").

Definition disk_get (c : DiskCache) (url : string) : StE W (option CachedInlineData) :=
  meta_exists <-! fs_exists (meta_path c url) ;;
  both_exist <-! (if meta_exists : bool then fs_exists (body_path c url) else st_ret false) ;;
  if negb both_exist then ste_ok None else
  meta_bytes <-? lift_io (fs_read (meta_path c url)) ;;
  meta <-? ste_lift (parse_disk_meta meta_bytes) ;;
  now <-! now_unix_ms ;;
  if (expires_at_unix_ms meta <? now)%Z then
    _ <-! fs_remove_file (meta_path c url) ;;
    _ <-! fs_remove_file (body_path c url) ;;
    ste_ok None
  else
    bs <-? lift_io (fs_read (body_path c url)) ;;
    ste_ok (Some (mkCachedInlineData (meta_mime_type meta) bs)).

(** The scan of [prune_if_needed]: total size and (modified, path, size) of the readable metadata. *)
Fixpoint scan_entries (es : list (Result IoError DirEntry)) (total : Z)
    (acc : list (Z * string * Z)) : StE W (Z * list (Z * string * Z)) :=
  match es with
  | [] => ste_ok (total, acc)
  | entry :: es =>
      entry <-? ste_lift (map_err (fun e => ExternalError (io_display e)) entry) ;;
      let path := entry_path entry in
      if negb (bool_decide (path_extension path = Some "json")) then scan_entries es total acc else
      meta_bytes <-! fs_read path ;;
      match meta_bytes with
      | Err _ => scan_entries es total acc
      | Ok meta_bytes =>
          match parse_disk_meta meta_bytes with
          | Err _ => scan_entries es total acc
          | Ok meta =>
              scan_entries es (u64_wrap (total + meta_size_bytes meta))
                (acc ++ [(default 0%Z (entry_modified entry), path, meta_size_bytes meta)])
          end
      end
  end.

Fixpoint remove_oldest (max_bytes total : Z) (entries : list (Z * string * Z)) : St W unit :=
  match entries with
  | [] => st_ret tt
  | (_, meta_path, size_bytes) :: entries =>
      if (total <=? max_bytes)%Z then st_ret tt else
      _ <-! fs_remove_file meta_path ;;
      _ <-! fs_remove_file (with_extension_bin meta_path) ;;
      remove_oldest max_bytes (u64_saturating_sub total size_bytes) entries
  end.

Definition prune_if_needed (c : DiskCache) : StE W unit :=
  exists_ <-! fs_exists (dir c) ;;
  if negb exists_ then ste_ok tt else
  es <-? lift_io (fs_read_dir (dir c)) ;;
  scanned <-? scan_entries es 0 [] ;;
  let '(total_bytes, entries) := scanned in
  if (total_bytes <=? disk_max_bytes c)%Z then ste_ok tt else
  _ <-! remove_oldest (disk_max_bytes c) total_bytes (sort_by_modified entries) ;;
  ste_ok tt.

Definition disk_set (c : DiskCache) (url : string) (value : CachedInlineData) : StE W unit :=
  _ <-? lift_io (fs_create_dir_all (dir c)) ;;
  _ <-? lift_io (fs_write (body_path c url) (cached_bytes value)) ;;
  now <-! now_unix_ms ;;
  meta_bytes <-? ste_lift (map_err ExternalError (to_vec (disk_meta_to_value
                   (mkDiskMeta (cached_mime_type value) (u64_wrap (now + ttl c))
                      (blen (cached_bytes value)))))) ;;
  _ <-? lift_io (fs_write (meta_path c url) meta_bytes) ;;
  prune_if_needed c.
End disk.

(** * Lemmas *)

Lemma disk_meta_roundtrip m : disk_meta_of_value (disk_meta_to_value m) = Some m.
Proof. by destruct m. Qed.

(** Clock readings and directory listings leave files alone. *)
Class ObserverLaws (W : Type) `{FileSystemLaws W} `{Directories W} `{Clock W} : Prop := {
  fs_exists_frame : forall p w b w', fs_exists p w = (b, w') -> forall q, fs_content w' q = fs_content w q;
  now_frame : forall w t w', now_unix_ms w = (t, w') -> forall q, fs_content w' q = fs_content w q;
}.

(** What a lookup that hits has read. *)
Lemma disk_get_run {W} `{FileSystemLaws W} `{Directories W} `{Clock W} `{!ObserverLaws W}
    `{JsonCodec} `{Digests} c url hit (w w' : W) :
  disk_get c url w = (Ok (Some hit), w') ->
  exists meta_bytes meta now w1 w2,
    fs_content w (meta_path c url) = Some meta_bytes /\ parse_disk_meta meta_bytes = Ok meta /\
    now_unix_ms w1 = (now, w2) /\ (now <= expires_at_unix_ms meta)%Z /\
    cached_mime_type hit = meta_mime_type meta /\
    fs_content w (body_path c url) = Some (cached_bytes hit) /\
    (forall p, fs_content w' p = fs_content w p).
Proof.
  unfold disk_get, st_bind, ste_bind, st_ret, ste_ok.
  destruct (fs_exists (meta_path c url) w) as [b1 w1] eqn:E1.
  assert (F1 := fs_exists_frame _ _ _ _ E1).
  destruct b1; [|by intros [=]].
  destruct (fs_exists (body_path c url) w1) as [b2 w2] eqn:E2.
  assert (F2 := fs_exists_frame _ _ _ _ E2).
  destruct b2; [|by intros [=]]. cbv [negb lift_io]; cbv beta iota.
  destruct (fs_read (meta_path c url) w2) as [[mb|e] w3] eqn:E3; cbv beta iota delta [map_err];
    [|by intros [=]].
  assert (F3 := fs_read_frame _ _ _ _ E3). apply fs_read_ok in E3.
  unfold ste_lift. destruct (parse_disk_meta mb) as [meta|] eqn:Em; [|by intros [=]].
  destruct (now_unix_ms w3) as [now w4] eqn:E4. assert (F4 := now_frame _ _ _ E4).
  destruct (Z.ltb_spec (expires_at_unix_ms meta) now).
  { destruct (fs_remove_file _ w4) as [r5 w5]. destruct (fs_remove_file _ w5). by intros [=]. }
  destruct (fs_read (body_path c url) w4) as [[bs|e] w5] eqn:E5; cbv beta iota delta [map_err];
    [|by intros [=]].
  assert (F5 := fs_read_frame _ _ _ _ E5). apply fs_read_ok in E5.
  intros [= <- <-]. exists mb, meta, now, w3, w4. simpl.
  rewrite F4, F3, F2, F1 in E5. rewrite F2, F1 in E3.
  split_and!; try done. intros p. by rewrite F5, F4, F3, F2, F1.
Qed.

(** ** Every outcome of a lookup *)

Section lookup.
#[local] Set Default Proof Using "All".
Context {W : Type} `{FileSystemLaws W} `{Directories W} `{Clock W} `{!ObserverLaws W} `{JsonCodec} `{Digests}.
Context (c : DiskCache) (url : string) (w : W).

(** The worlds in which a lookup that finds both files reads the clock, and goes on. *)
Definition before_clock : W :=
  (fs_read (meta_path c url) (fs_exists (body_path c url) (fs_exists (meta_path c url) w).2).2).2.
Definition after_clock : W := (now_unix_ms before_clock).2.

(** The time that the lookup has read. *)
Definition lookup_time : Z := (now_unix_ms before_clock).1.

(** Both files are said to exist. *)
Definition both_there : bool :=
  (fs_exists (meta_path c url) w).1 && (fs_exists (body_path c url) (fs_exists (meta_path c url) w).2).1.

(** The metadata that is in the file. *)
Definition has_meta (meta : DiskMeta) : Prop :=
  exists meta_bytes, fs_content w (meta_path c url) = Some meta_bytes /\ parse_disk_meta meta_bytes = Ok meta.

(** No file has changed. *)
Definition unchanged (w' : W) : Prop := forall p, fs_content w' p = fs_content w p.

(** Both files of the entry were deleted, if the file system let them be, and no other has changed. *)
Definition entry_deleted (w' : W) : Prop :=
  let removed_meta := fs_remove_file (meta_path c url) after_clock in
  let removed_body := fs_remove_file (body_path c url) removed_meta.2 in
  w' = removed_body.2 /\
  (removed_meta.1 = Ok tt -> fs_content removed_meta.2 (meta_path c url) = None) /\
  (removed_body.1 = Ok tt -> fs_content w' (body_path c url) = None) /\
  forall p, p <> meta_path c url -> p <> body_path c url -> fs_content w' p = fs_content w p.

Lemma before_clock_same : unchanged before_clock.
Proof.
  intros p. unfold before_clock. destruct (fs_exists (meta_path c url) w) as [b1 w1] eqn:E1.
  destruct (fs_exists (body_path c url) _) as [b2 w2] eqn:E2. destruct (fs_read _ _) as [r w3] eqn:E3.
  simpl in *. by rewrite (fs_read_frame _ _ _ _ E3), (fs_exists_frame _ _ _ _ E2), (fs_exists_frame _ _ _ _ E1).
Qed.

Lemma after_clock_same : unchanged after_clock.
Proof.
  intros p. unfold after_clock. destruct (now_unix_ms before_clock) as [t w1] eqn:E. simpl.
  by rewrite (now_frame _ _ _ E), before_clock_same.
Qed.

Lemma expired_deletes :
  entry_deleted (fs_remove_file (body_path c url) (fs_remove_file (meta_path c url) after_clock).2).2.
Proof.
  unfold entry_deleted. cbv zeta. destruct (fs_remove_file (meta_path c url) after_clock) as [r1 w1] eqn:E1.
  simpl. destruct (fs_remove_file (body_path c url) w1) as [r2 w2] eqn:E2. simpl.
  split; [done|]. split; [by intros ->; eapply fs_remove_file_ok|].
  split; [by intros ->; eapply fs_remove_file_ok|]. intros p Hm Hb.
  by rewrite (fs_remove_file_frame _ _ _ _ E2), (fs_remove_file_frame _ _ _ _ E1), after_clock_same.
Qed.

Lemma disk_get_outcome r w' :
  disk_get c url w = (r, w') ->
  if both_there then
    match r with
    | Ok (Some hit) => exists meta, has_meta meta /\ (lookup_time <= expires_at_unix_ms meta)%Z /\
        cached_mime_type hit = meta_mime_type meta /\
        fs_content w (body_path c url) = Some (cached_bytes hit) /\ unchanged w'
    | Ok None => exists meta, has_meta meta /\ (expires_at_unix_ms meta < lookup_time)%Z /\ entry_deleted w'
    | Err _ => unchanged w' /\
        forall meta, has_meta meta -> (lookup_time <= expires_at_unix_ms meta)%Z \/
          exists e, (fs_read (meta_path c url) (fs_exists (body_path c url)
                       (fs_exists (meta_path c url) w).2).2).1 = Err e
    end
  else r = Ok None /\ unchanged w'.
Proof.
  assert (Hsame := before_clock_same). assert (Hafter := after_clock_same). assert (Hdel := expired_deletes).
  revert Hsame Hafter Hdel. unfold both_there, lookup_time, after_clock, before_clock, disk_get.
  unfold st_bind, ste_bind, st_ret, ste_ok, unchanged, lift_io, ste_lift, has_meta.
  destruct (fs_exists (meta_path c url) w) as [b1 w1] eqn:E1. cbn [fst snd].
  assert (F1 := fs_exists_frame _ _ _ _ E1).
  destruct b1; cbn [andb]; [|by intros _ _ _ [= <- <-]].
  destruct (fs_exists (body_path c url) w1) as [b2 w2] eqn:E2. cbn [fst snd].
  assert (F2 := fs_exists_frame _ _ _ _ E2).
  destruct b2; cbn [negb]; [|intros _ _ _ [= <- <-]; split; [done|]; intros p; by rewrite F2, F1].
  destruct (fs_read (meta_path c url) w2) as [[mb|e] w3] eqn:E3; cbn [fst snd map_err].
  2: { intros Hsame _ _ [= <- <-]. split; [exact Hsame|]. intros meta _. right. by exists e. }
  apply fs_read_ok in E3. rewrite F2, F1 in E3.
  destruct (parse_disk_meta mb) as [meta|e] eqn:Em.
  2: { intros Hsame _ _ [= <- <-]. split; [exact Hsame|]. intros meta (mb' & Hmb & Hp). congruence. }
  destruct (now_unix_ms w3) as [now w4] eqn:E4. cbn [fst snd]. intros _ Hafter Hdel.
  destruct (Z.ltb_spec (expires_at_unix_ms meta) now) as [Hlt|Hle].
  - destruct (fs_remove_file (meta_path c url) w4) as [r5 w5]. cbn [fst snd] in Hdel.
    destruct (fs_remove_file (body_path c url) w5) as [r6 w6]. intros [= <- <-].
    exists meta. split; [by exists mb|]. by split.
  - destruct (fs_read (body_path c url) w4) as [[bs|e] w5] eqn:E5; cbn [map_err]; intros [= <- <-].
    + exists meta. split; [by exists mb|]. split; [done|]. split; [done|]. split.
      * apply fs_read_ok in E5. by rewrite Hafter in E5.
      * intros p. by rewrite (fs_read_frame _ _ _ _ E5), Hafter.
    + split; [intros p; by rewrite (fs_read_frame _ _ _ _ E5), Hafter|].
      intros meta' (mb' & Hmb & Hp). left. congruence.
Qed.
End lookup.

(** * Theorems *)

(** C23: a lookup in the disk cache, on every outcome. A hit needs both files, and is the body file of
    that URL's key with the MIME type of its metadata file, which by the time the lookup reads has
    not expired; a lookup that hits, that does not find both files, or that fails, changes no file;
    and an entry that has expired is never served: the lookup deletes its two files, and no other,
    and misses. It misses for no other reason. *)
Theorem disk_get_fresh {W} `{FileSystemLaws W} `{Directories W} `{Clock W} `{!ObserverLaws W}
    `{JsonCodec} `{Digests} c url (w : W) r w' :
  disk_get c url w = (r, w') ->
  if both_there c url w then
    match r with
    | Ok (Some hit) => exists meta, has_meta c url w meta /\
        (lookup_time c url w <= expires_at_unix_ms meta)%Z /\
        cached_mime_type hit = meta_mime_type meta /\
        fs_content w (body_path c url) = Some (cached_bytes hit) /\ unchanged w w'
    | Ok None => exists meta, has_meta c url w meta /\
        (expires_at_unix_ms meta < lookup_time c url w)%Z /\ entry_deleted c url w w'
    | Err _ => unchanged w w' /\
        forall meta, has_meta c url w meta -> (lookup_time c url w <= expires_at_unix_ms meta)%Z \/
          exists e, (fs_read (meta_path c url) (fs_exists (body_path c url)
                       (fs_exists (meta_path c url) w).2).2).1 = Err e
    end
  else r = Ok None /\ unchanged w w'.
Proof. apply disk_get_outcome. Qed.

(** * A concrete lookup *)

#[export] Instance sample_observer_laws : ObserverLaws SampleFs.
Proof. split; simpl; intros; by simplify_eq. Qed.

Definition sample_disk : DiskCache := mkDiskCache "/tmp/cache" 60000 1000.

Definition sample_meta : Value := disk_meta_to_value (mkDiskMeta "image/png" 61000 4).

(** A codec that knows this one document. *)
Definition sample_meta_codec : JsonCodec := {|
  from_slice bs :=
    if String.eqb bs (sample_print sample_meta) then Ok sample_meta else Err "expected value";
  to_vec v := Ok (sample_print v);
  to_string_pretty v := Ok (sample_print v);
|}.

#[local] Existing Instance sample_meta_codec.

(** Stored at 1000 for 60000 ms, and read back. *)
Lemma disk_get_fresh_witness :
  let stored := disk_set sample_disk "u" (mkCachedInlineData "image/png" "abcd")
                  (∅ : SampleFs) in
  stored.1 = Ok tt /\
  exists hit, (disk_get sample_disk "u" stored.2).1 = Ok (Some hit) /\
    stored.2 !! body_path sample_disk "u" = Some (cached_bytes hit).
Proof.
  intros stored. split; [vm_compute; reflexivity|].
  exists (mkCachedInlineData "image/png" "abcd"). split; [vm_compute; reflexivity|].
  assert (Hrun : disk_get sample_disk "u" stored.2 =
    (Ok (Some (mkCachedInlineData "image/png" "abcd")), stored.2)) by (vm_compute; reflexivity).
  assert (Hget := disk_get_fresh sample_disk "u" stored.2 _ _ Hrun).
  assert (Hboth : both_there sample_disk "u" stored.2 = true) by (vm_compute; reflexivity).
  rewrite Hboth in Hget. destruct Hget as (meta & _ & _ & _ & Hbody & _). exact Hbody.
Defined.
