(* ===== verification/DiskShared.v ===== *)
(** cache.rs, [DiskCache] under concurrency: its operations as sequences of calls of the file system,
    under the mutex [io_lock].  The mutex belongs to one [DiskCache]: the operations of one service are
    serializable and their hits are what was stored, but the services for requests and responses keep
    two caches on one directory, and an interleaving of two stores leaves an entry that neither of them
    stored. *)

From S2P Require Import Prelude RustStr Json Ext Samples BlobRuntime MemoryCache DiskCache.
From S2P Require Import Interleave Locked.
From stdpp Require Import relations options.

(** * The operations, step by step *)

Section programs.
Context {W : Type} `{FileSystem W} `{Directories W} `{Clock W} `{JsonCodec} `{Digests}.

(** A call of [std::fs], which blocks: the task is not dropped in it. *)
Definition sync {A} (m : St W (Result IoError A)) : Prog W (Result Error A) := atomic (lift_io m).

Definition disk_get_steps (c : DiskCache) (url : string) :
    Prog W (Result Error (option CachedInlineData)) :=
  meta_exists <~ atomic (fs_exists (meta_path c url)) ;;
  both_exist <~ (if meta_exists : bool then atomic (fs_exists (body_path c url)) else Ret false) ;;
  if negb both_exist then Ret (Ok None) else
  meta_bytes <~? sync (fs_read (meta_path c url)) ;;
  meta <~? Ret (parse_disk_meta meta_bytes) ;;
  now <~ atomic now_unix_ms ;;
  if (expires_at_unix_ms meta <? now)%Z then
    _ <~ atomic (fs_remove_file (meta_path c url)) ;;
    _ <~ atomic (fs_remove_file (body_path c url)) ;;
    Ret (Ok None)
  else
    bs <~? sync (fs_read (body_path c url)) ;;
    Ret (Ok (Some (mkCachedInlineData (meta_mime_type meta) bs))).

Fixpoint scan_entries_steps (es : list (Result IoError DirEntry)) (total : Z)
    (acc : list (Z * string * Z)) : Prog W (Result Error (Z * list (Z * string * Z))) :=
  match es with
  | [] => Ret (Ok (total, acc))
  | entry :: es =>
      entry <~? Ret (map_err (fun e => ExternalError (io_display e)) entry) ;;
      let path := entry_path entry in
      if negb (bool_decide (path_extension path = Some "json")) then scan_entries_steps es total acc else
      meta_bytes <~ atomic (fs_read path) ;;
      match meta_bytes with
      | Err _ => scan_entries_steps es total acc
      | Ok meta_bytes =>
          match parse_disk_meta meta_bytes with
          | Err _ => scan_entries_steps es total acc
          | Ok meta =>
              scan_entries_steps es (u64_wrap (total + meta_size_bytes meta))
                (acc ++ [(default 0%Z (entry_modified entry), path, meta_size_bytes meta)])
          end
      end
  end.

Fixpoint remove_oldest_steps (max_bytes total : Z) (entries : list (Z * string * Z)) : Prog W unit :=
  match entries with
  | [] => Ret tt
  | (_, meta_path, size_bytes) :: entries =>
      if (total <=? max_bytes)%Z then Ret tt else
      _ <~ atomic (fs_remove_file meta_path) ;;
      _ <~ atomic (fs_remove_file (with_extension_bin meta_path)) ;;
      remove_oldest_steps max_bytes (u64_saturating_sub total size_bytes) entries
  end.

Definition prune_if_needed_steps (c : DiskCache) : Prog W (Result Error unit) :=
  exists_ <~ atomic (fs_exists (dir c)) ;;
  if negb exists_ then Ret (Ok tt) else
  es <~? sync (fs_read_dir (dir c)) ;;
  scanned <~? scan_entries_steps es 0 [] ;;
  let '(total_bytes, entries) := scanned in
  if (total_bytes <=? disk_max_bytes c)%Z then Ret (Ok tt) else
  _ <~ remove_oldest_steps (disk_max_bytes c) total_bytes (sort_by_modified entries) ;;
  Ret (Ok tt).

Definition disk_set_steps (c : DiskCache) (url : string) (value : CachedInlineData) :
    Prog W (Result Error unit) :=
  _ <~? sync (fs_create_dir_all (dir c)) ;;
  _ <~? sync (fs_write (body_path c url) (cached_bytes value)) ;;
  now <~ atomic now_unix_ms ;;
  meta_bytes <~? Ret (map_err ExternalError (to_vec (disk_meta_to_value
                   (mkDiskMeta (cached_mime_type value) (u64_wrap (now + ttl c))
                      (blen (cached_bytes value)))))) ;;
  _ <~? sync (fs_write (meta_path c url) meta_bytes) ;;
  prune_if_needed_steps c.
End programs.

(** ** Calls *)

Inductive DiskCall :=
| Get (url : string)
| Put (url : string) (value : CachedInlineData).

Inductive DiskOutcome :=
| Got (r : Result Error (option CachedInlineData))
| WasPut (r : Result Error unit).

Section calls.
Context {W : Type} `{FileSystem W} `{Directories W} `{Clock W} `{JsonCodec} `{Digests}.

Definition disk_steps (c : DiskCache) (call : DiskCall) : Prog W DiskOutcome :=
  match call with
  | Get url => r <~ disk_get_steps c url ;; Ret (Got r)
  | Put url value => r <~ disk_set_steps c url value ;; Ret (WasPut r)
  end.

(** The operation of DiskCache.v. *)
Definition disk_call (c : DiskCache) (call : DiskCall) : St W DiskOutcome :=
  match call with
  | Get url => r <-! disk_get c url ;; st_ret (Got r)
  | Put url value => r <-! disk_set c url value ;; st_ret (WasPut r)
  end.

(** Calls of one service: all take the [io_lock] of its cache. *)
Definition one_service_step (c : DiskCache) :
    relation (Pool (Locked W) (list (DiskCall * DiskOutcome)) DiskCall DiskOutcome) :=
  serial_step (disk_steps c) 0 (fun _ _ => False).

(** Calls of several services, each with a cache of its own on one directory: a call takes the lock of
    its service's cache. *)
Definition service_program (c : DiskCache) (call : nat * DiskCall) : Prog (Locked W) DiskOutcome :=
  guarded call.1 (disk_steps c call.2).

Definition services_step (c : DiskCache) :
    relation (Pool (Locked W) (list ((nat * DiskCall) * DiskOutcome)) (nat * DiskCall) DiskOutcome) :=
  pool_step (service_program c) (fun _ _ => True) (fun _ g => g) (fun call a g => (call, a) :: g)
    (fun _ g => g) (fun _ _ => False).

(** ** The steps are the operations *)

Abbreviation does := (does (fun _ : W => True)).

Lemma does_sync {A} (m : St W (Result IoError A)) : does (sync m) (lift_io m).
Proof. by apply does_act. Qed.

Lemma does_call {A} (m : St W A) : does (atomic m) m.
Proof. by apply does_act. Qed.

Lemma does_lift {A} (r : Result Error A) : does (Ret r) (ste_lift r).
Proof. apply does_ret. Qed.

Lemma does_ok {A} (a : A) : does (Ret (Ok a)) (ste_ok a).
Proof. apply does_ret. Qed.

#[local] Hint Resolve does_sync does_call does_lift does_ok does_ret : steps.
#[local] Hint Extern 1 (Interleave.does _ (bind _ _) _) => apply does_bind; [|intros ?] : steps.
#[local] Hint Extern 1 (Interleave.does _ (bind_ok _ _) _) => apply does_bind_ok; [|intros ?] : steps.
#[local] Hint Extern 2 (Interleave.does _ (if ?b then _ else _) _) => destruct b : steps.

Lemma does_get c url : does (disk_get_steps c url) (disk_get c url).
Proof. unfold disk_get_steps, disk_get. auto 20 with steps. Qed.

Lemma does_scan es total acc : does (scan_entries_steps es total acc) (scan_entries es total acc).
Proof.
  revert total acc. induction es as [|entry es IH]; intros total acc; cbn [scan_entries_steps scan_entries].
  { auto with steps. }
  apply does_bind_ok; [auto with steps|]. intros e. cbv zeta. destruct (negb _); [apply IH|].
  apply does_bind; [auto with steps|]. intros [bs|]; [|apply IH].
  destruct (parse_disk_meta bs); apply IH.
Qed.

Lemma does_remove_oldest max total entries :
  does (remove_oldest_steps max total entries) (remove_oldest max total entries).
Proof.
  revert total. induction entries as [|[[m p] n] entries IH]; intros total;
    cbn [remove_oldest_steps remove_oldest]; auto 10 with steps.
Qed.

#[local] Hint Resolve does_get does_scan does_remove_oldest : steps.

Lemma does_prune c : does (prune_if_needed_steps c) (prune_if_needed c).
Proof.
  unfold prune_if_needed_steps, prune_if_needed.
  apply does_bind; [auto with steps|]. intros []; cbn [negb]; [|auto with steps].
  apply does_bind_ok; [auto with steps|]. intros es.
  apply does_bind_ok; [auto with steps|]. intros [total entries]. auto 10 with steps.
Qed.
#[local] Hint Resolve does_prune : steps.

Lemma does_set c url v : does (disk_set_steps c url v) (disk_set c url v).
Proof. unfold disk_set_steps, disk_set. auto 20 with steps. Qed.

Lemma does_disk c call : does (disk_steps c call) (disk_call c call).
Proof.
  destruct call; (apply does_bind; [apply does_get || apply does_set|intros r; apply does_ret]).
Qed.

(** ** No awaits, no loops *)

Abbreviation straight := (straight (D := W)).

#[local] Hint Extern 1 (Locked.straight (Ret _)) => exact I : straight.
#[local] Hint Extern 1 (Locked.straight (atomic _)) => by split : straight.
#[local] Hint Extern 1 (Locked.straight (sync _)) => by split : straight.
#[local] Hint Extern 1 (Locked.straight (bind _ _)) => apply straight_bind; [|intros ?] : straight.
#[local] Hint Extern 1 (Locked.straight (bind_ok _ _)) => apply straight_bind_ok; [|intros ?] : straight.
#[local] Hint Extern 2 (Locked.straight (if ?b then _ else _)) => destruct b : straight.

Lemma straight_get c url : straight (disk_get_steps c url).
Proof. unfold disk_get_steps. auto 20 with straight. Qed.

Lemma straight_scan es total acc : straight (scan_entries_steps es total acc).
Proof.
  revert total acc. induction es as [|entry es IH]; intros total acc; cbn [scan_entries_steps]; [done|].
  apply straight_bind_ok; [done|]. intros e. cbv zeta. destruct (negb _); [apply IH|].
  apply straight_bind; [by split|]. intros [bs|]; [|apply IH]. destruct (parse_disk_meta bs); apply IH.
Qed.

Lemma straight_remove_oldest max total entries : straight (remove_oldest_steps max total entries).
Proof.
  revert total. induction entries as [|[[m p] n] entries IH]; intros total;
    cbn [remove_oldest_steps]; auto 10 with straight.
Qed.

#[local] Hint Resolve straight_scan straight_remove_oldest : straight.

Lemma straight_prune c : straight (prune_if_needed_steps c).
Proof.
  unfold prune_if_needed_steps. apply straight_bind; [auto with straight|]. intros []; cbn [negb]; [|done].
  apply straight_bind_ok; [auto with straight|]. intros es.
  apply straight_bind_ok; [auto with straight|]. intros [total entries]. auto 10 with straight.
Qed.
#[local] Hint Resolve straight_prune : straight.

Lemma straight_set c url v : straight (disk_set_steps c url v).
Proof. unfold disk_set_steps. auto 20 with straight. Qed.

Lemma straight_disk c call : straight (disk_steps c call).
Proof. destruct call; (apply straight_bind; [apply straight_get || apply straight_set|done]). Qed.
End calls.

(** * One service *)

(** Removing a file takes it away or leaves it; listing a directory changes nothing. *)
Class DirectoryLaws (W : Type) `{ObserverLaws W} : Prop := {
  fs_remove_file_self : forall p w r w', fs_remove_file p w = (r, w') ->
    fs_content w' p = None \/ fs_content w' p = fs_content w p;
  fs_read_dir_frame : forall p w r w', fs_read_dir p w = (r, w') ->
    forall q, fs_content w' q = fs_content w q;
}.

(** [serde_json] reads back the metadata it wrote. *)
Class MetaCodec `{JsonCodec} : Prop := {
  meta_roundtrip : forall m bs, to_vec (disk_meta_to_value m) = Ok bs -> parse_disk_meta bs = Ok m;
}.

Definition url_of (call : DiskCall) : string := match call with Get url | Put url _ => url end.

(** What was stored last under each URL. *)
Definition last_put (last : gmap string CachedInlineData) (e : DiskCall * DiskOutcome) :
    gmap string CachedInlineData :=
  match e with (Put url v, WasPut _) => <[url := v]> last | _ => last end.

Definition last_puts (order : list (DiskCall * DiskOutcome)) : gmap string CachedInlineData :=
  foldl last_put ∅ order.

(** Every hit is what was stored last under its URL. *)
Definition hits_are_last_puts (order : list (DiskCall * DiskOutcome)) : Prop :=
  forall i url hit, order !! i = Some (Get url, Got (Ok (Some hit))) ->
  last_puts (take i order) !! url = Some hit.

Definition put_succeeded (e : DiskCall * DiskOutcome) : Prop :=
  match e with (_, WasPut (Err _)) => False | _ => True end.

(** The calls one after another, as the sequential operations answer them. *)
Fixpoint runs_in_order {W} `{FileSystem W} `{Directories W} `{Clock W} `{JsonCodec} `{Digests}
    (c : DiskCache) (w : W) (order : list (DiskCall * DiskOutcome)) (w' : W) : Prop :=
  match order with
  | [] => w' = w
  | (call, out) :: order =>
      let '(out', w1) := disk_call c call w in out' = out /\ runs_in_order c w1 order w'
  end.

Section one_service.
#[local] Set Default Proof Using "All".
Context {W : Type} `{DirectoryLaws W} `{MetaCodec} `{Digests}.
Context (c : DiskCache).

(** The URLs that are looked up or stored; no two of them have the same digest. *)
Context (used : string -> Prop).
Context (keys_inj : forall url url', used url -> used url' -> cache_key url = cache_key url' -> url = url').

(** [w'] is [w] but for files that are gone. *)
Definition loses (w w' : W) : Prop :=
  forall p, fs_content w' p = None \/ fs_content w' p = fs_content w p.

#[local] Instance loses_preorder : PreOrder loses.
Proof using Type.
  split; [by intros w p; right|]. intros w1 w2 w3 H12 H23 p.
  destruct (H23 p) as [?| ->]; [by left|apply H12].
Qed.

Lemma frame_loses (w w' : W) : (forall p, fs_content w' p = fs_content w p) -> loses w w'.
Proof using Type. intros Hf p. by right. Qed.

Lemma remove_loses p (w w' : W) r : fs_remove_file p w = (r, w') -> loses w w'.
Proof using Type*.
  intros Hr q. destruct (decide (q = p)) as [->|Hne]; [by eapply fs_remove_file_self|right].
  by eapply fs_remove_file_frame.
Qed.

(** The files of a URL hold [v], as far as they are there. *)
Definition entry_holds (w : W) (url : string) (v : option CachedInlineData) : Prop :=
  match v with
  | None => fs_content w (meta_path c url) = None
  | Some v =>
      (forall bs, fs_content w (meta_path c url) = Some bs ->
         exists m, parse_disk_meta bs = Ok m /\ meta_mime_type m = cached_mime_type v) /\
      (forall bs, fs_content w (body_path c url) = Some bs -> bs = cached_bytes v)
  end.

Definition disk_holds (w : W) (last : gmap string CachedInlineData) : Prop :=
  forall url, used url -> entry_holds w url (last !! url).

Lemma holds_loses w w' last : disk_holds w last -> loses w w' -> disk_holds w' last.
Proof using Type.
  intros Hh Hl url Hu. specialize (Hh url Hu). unfold entry_holds in *. destruct (last !! url) as [v|].
  - destruct Hh as [Hm Hb]. split; intros bs Hbs.
    + destruct (Hl (meta_path c url)) as [E|E]; rewrite E in Hbs; [done|auto].
    + destruct (Hl (body_path c url)) as [E|E]; rewrite E in Hbs; [done|auto].
  - destruct (Hl (meta_path c url)) as [|E]; [done|by rewrite E].
Qed.

Lemma path_join_inj d (a b : string) : path_join d a = path_join d b -> a = b.
Proof using Type.
  unfold path_join. repeat case_match; intros E; [done| |].
  - by apply string_app_inj_l in E.
  - by do 2 apply string_app_inj_l in E.
Qed.

Lemma string_app_inj_r (a b s : string) : a +:+ s = b +:+ s -> a = b.
Proof using Type.
  intros E. apply (f_equal string_rev) in E. rewrite !string_rev_append in E.
  apply string_app_inj_l in E. by rewrite <- (string_rev_involutive a), E, string_rev_involutive.
Qed.

Lemma meta_path_inj url url' :
  used url -> used url' -> meta_path c url = meta_path c url' -> url = url'.
Proof using keys_inj. intros Hu Hu' E%path_join_inj%string_app_inj_r. by apply keys_inj. Qed.

Lemma body_path_inj url url' :
  used url -> used url' -> body_path c url = body_path c url' -> url = url'.
Proof using keys_inj. intros Hu Hu' E%path_join_inj%string_app_inj_r. by apply keys_inj. Qed.

Lemma meta_not_body url url' : meta_path c url <> body_path c url'.
Proof using Type.
  intros E%path_join_inj. apply (f_equal string_rev) in E. rewrite !string_rev_append in E. done.
Qed.

Lemma scan_loses es total acc (w w' : W) r : scan_entries es total acc w = (r, w') -> loses w w'.
Proof using Type*.
  revert total acc w. induction es as [|entry es IH]; intros total acc w; cbn [scan_entries].
  { by intros [= _ <-]. }
  unfold ste_bind, ste_lift. destruct (map_err _ entry) as [e|]; [|by intros [= _ <-]].
  cbv zeta. destruct (negb _); [apply IH|]. unfold st_bind.
  destruct (fs_read _ w) as [rb w1] eqn:E. assert (Hf := frame_loses _ _ (fs_read_frame _ _ _ _ E)).
  destruct rb as [bs|]; [destruct (parse_disk_meta bs)|]; intros Hs; (etrans; [exact Hf|by eapply IH]).
Qed.

Lemma remove_oldest_loses max total entries (w w' : W) r :
  remove_oldest max total entries w = (r, w') -> loses w w'.
Proof using Type*.
  revert total w. induction entries as [|[[m p] n] entries IH]; intros total w; cbn [remove_oldest].
  { by intros [= _ <-]. }
  destruct (total <=? max)%Z; [by intros [= _ <-]|]. unfold st_bind.
  destruct (fs_remove_file p w) as [r1 w1] eqn:E1. destruct (fs_remove_file _ w1) as [r2 w2] eqn:E2.
  intros Hs. etrans; [by eapply remove_loses|]. etrans; [by eapply remove_loses|by eapply IH].
Qed.

Lemma prune_loses (w w' : W) r : prune_if_needed c w = (r, w') -> loses w w'.
Proof using Type*.
  unfold prune_if_needed, st_bind, ste_bind, lift_io, ste_ok, st_ret.
  destruct (fs_exists (dir c) w) as [b w1] eqn:E1.
  assert (L1 := frame_loses _ _ (fs_exists_frame _ _ _ _ E1)).
  destruct b; cbn [negb]; [|by intros [= _ <-]].
  destruct (fs_read_dir (dir c) w1) as [[es|e] w2] eqn:E2; cbn [map_err];
    assert (L2 := frame_loses _ _ (fs_read_dir_frame _ _ _ _ E2));
    [|intros [= _ <-]; by etrans].
  destruct (scan_entries es 0 [] w2) as [[[total entries]|e] w3] eqn:E3; cbv beta iota;
    assert (L3 := scan_loses _ _ _ _ _ _ E3);
    [|intros [= _ <-]; etrans; [exact L1|by etrans]].
  destruct (total <=? disk_max_bytes c)%Z; [intros [= _ <-]; etrans; [exact L1|by etrans]|].
  destruct (remove_oldest _ total _ w3) as [u w4] eqn:E4. intros [= _ <-].
  etrans; [exact L1|]. etrans; [exact L2|]. etrans; [exact L3|]. by eapply remove_oldest_loses.
Qed.

(** A lookup loses at most files, and hits what the files hold. *)
Lemma disk_get_loses url (w w' : W) r :
  disk_get c url w = (r, w') -> loses w w'.
Proof using Type*.
  unfold disk_get, st_bind, ste_bind, st_ret, ste_ok, lift_io, ste_lift.
  destruct (fs_exists (meta_path c url) w) as [b1 w1] eqn:E1.
  assert (L1 := frame_loses _ _ (fs_exists_frame _ _ _ _ E1)).
  assert (L2 : forall b2 w2, (if b1 then fs_exists (body_path c url) else fun s => (false, s)) w1 = (b2, w2) ->
    loses w w2).
  { intros b2 w2. destruct b1; [|by intros [= _ <-]]. intros E2.
    etrans; [exact L1|]. by eapply frame_loses, fs_exists_frame. }
  match goal with |- context [(if b1 then ?x else ?y) w1] => destruct ((if b1 then x else y) w1) as [b2 w2] end.
  specialize (L2 _ _ eq_refl).
  destruct b2; cbn [negb]; [|by intros [= _ <-]].
  destruct (fs_read (meta_path c url) w2) as [rb w3] eqn:E3.
  assert (L3 : loses w w3) by (etrans; [exact L2|by eapply frame_loses, fs_read_frame]).
  destruct rb as [mb|e]; cbn [map_err]; [|by intros [= _ <-]].
  destruct (parse_disk_meta mb) as [m|]; [|by intros [= _ <-]].
  destruct (now_unix_ms w3) as [now w4] eqn:E4.
  assert (L4 : loses w w4) by (etrans; [exact L3|by eapply frame_loses, now_frame]).
  destruct (_ <? now)%Z.
  - destruct (fs_remove_file _ w4) as [r5 w5] eqn:E5. destruct (fs_remove_file _ w5) as [r6 w6] eqn:E6.
    intros [= _ <-]. etrans; [exact L4|]. etrans; by eapply remove_loses.
  - destruct (fs_read (body_path c url) w4) as [rb w5] eqn:E5.
    assert (L5 : loses w w5) by (etrans; [exact L4|by eapply frame_loses, fs_read_frame]).
    by destruct rb; cbn [map_err]; intros [= _ <-].
Qed.

Lemma disk_hit_holds url hit (w w' : W) last :
  used url -> disk_holds w last -> disk_get c url w = (Ok (Some hit), w') -> last !! url = Some hit.
Proof using Type*.
  intros Hu Hh Hg. destruct (disk_get_run c url hit w w' Hg)
    as (mb & m & now & w1 & w2 & Hm & Hp & _ & _ & Hmime & Hb & _).
  specialize (Hh url Hu). unfold entry_holds in Hh. destruct (last !! url) as [v|]; [|by rewrite Hm in Hh].
  destruct Hh as [Hmeta Hbody]. destruct (Hmeta _ Hm) as (m' & Hp' & Hmime').
  rewrite Hp in Hp'. injection Hp' as <-. apply Hbody in Hb. destruct hit, v. simpl in *. congruence.
Qed.

(** A store that succeeds replaces the entry of its URL. *)
Lemma disk_set_holds url v (w w' : W) last :
  used url -> disk_holds w last -> disk_set c url v w = (Ok tt, w') -> disk_holds w' (<[url := v]> last).
Proof.
  intros Hu Hh. unfold disk_set, st_bind, ste_bind, lift_io, ste_lift.
  destruct (fs_create_dir_all (dir c) w) as [[[]|] w1] eqn:E1; cbn [map_err]; [|done].
  destruct (fs_write (body_path c url) _ w1) as [[[]|] w2] eqn:E2; cbn [map_err]; [|done].
  destruct (now_unix_ms w2) as [now w3] eqn:E3.
  destruct (to_vec _) as [mb|] eqn:Ev; cbn [map_err]; [|done].
  destruct (fs_write (meta_path c url) mb w3) as [[[]|] w4] eqn:E4; cbn [map_err]; [|done].
  intros E5. apply (holds_loses w4); [|by eapply prune_loses]. intros url' Hu'.
  assert (F1 := fs_create_dir_all_frame _ _ _ _ E1). assert (F3 := now_frame _ _ _ E3).
  destruct (decide (url' = url)) as [->|Hne].
  - rewrite lookup_insert_eq. split; intros bs.
    + rewrite (fs_write_ok _ _ _ _ E4). intros [= <-]. eexists. split; [by apply meta_roundtrip|done].
    + rewrite (fs_write_frame _ _ _ _ _ E4) by (intros Hp; by apply (meta_not_body url url)).
      rewrite F3, (fs_write_ok _ _ _ _ E2). by intros [= <-].
  - rewrite lookup_insert_ne by done. specialize (Hh url' Hu').
    assert (Hmeta : fs_content w4 (meta_path c url') = fs_content w (meta_path c url')).
    { rewrite (fs_write_frame _ _ _ _ _ E4) by (intros Hp; by apply Hne, meta_path_inj).
      rewrite F3, (fs_write_frame _ _ _ _ _ E2) by (apply meta_not_body). by rewrite F1. }
    assert (Hbody : fs_content w4 (body_path c url') = fs_content w (body_path c url')).
    { rewrite (fs_write_frame _ _ _ _ _ E4) by (intros Hp; by apply (meta_not_body url url')).
      rewrite F3, (fs_write_frame _ _ _ _ _ E2) by (intros Hp; by apply Hne, body_path_inj). by rewrite F1. }
    unfold entry_holds in *. by rewrite Hmeta, Hbody.
Qed.

Lemma serial_runs d0 order d :
  serial (disk_steps c) d0 order d -> forall d', runs_in_order c d0 order d' <-> d' = d.
Proof using Type.
  intros Hs. assert (Hone : forall d call a d1, solo (disk_steps c call) d a d1 -> disk_call c call d = (a, d1)).
  { intros d1 call a d2 Hsolo. destruct (does_disk c call d1 I) as [Hd _].
    destruct (solo_unique _ _ _ _ _ _ Hd Hsolo) as [<- <-]. apply surjective_pairing. }
  assert (Happ : forall order d0 call a d', runs_in_order c d0 (order ++ [(call, a)]) d' <->
    exists d, runs_in_order c d0 order d /\ disk_call c call d = (a, d')).
  { clear -W. intros order0. induction order0 as [|[call0 a0] order0 IH]; intros d0 call a d'; simpl.
    - destruct (disk_call c call d0) as [a1 d1] eqn:E. split.
      + intros [-> ->]. by exists d0.
      + intros (d & -> & Hd). rewrite E in Hd. by injection Hd as -> ->.
    - destruct (disk_call c call0 d0) as [a1 d1]. rewrite IH. naive_solver. }
  induction Hs as [|order d call a d1 _ IH Hsolo]; intros d'; [done|]. rewrite Happ.
  apply Hone in Hsolo. split.
  - intros (d2 & ->%IH & Hd). rewrite Hsolo in Hd. by injection Hd.
  - intros ->. exists d. split; [by apply IH|done].
Qed.

Lemma serial_holds d0 order d :
  (forall url, fs_content d0 (meta_path c url) = None) ->
  serial (disk_steps c) d0 order d ->
  Forall put_succeeded order -> Forall (fun e => used (url_of e.1)) order ->
  disk_holds d (last_puts order) /\ hits_are_last_puts order.
Proof.
  intros Hcold. induction 1 as [|order d call a d1 _ IH Hsolo]; intros Hok Hused.
  { split; [|by intros i url hit]. intros url _. unfold last_puts. simpl. rewrite lookup_empty. apply Hcold. }
  apply Forall_app in Hok as [Hok [Ha _]%Forall_cons].
  apply Forall_app in Hused as [Hused [Hu _]%Forall_cons]. destruct (IH Hok Hused) as [Hh Hhits].
  destruct (does_disk c call d I) as [Hd _]. destruct (solo_unique _ _ _ _ _ _ Hd Hsolo) as [E1 E2].
  assert (Hcall : disk_call c call d = (a, d1)) by (rewrite <- E1, <- E2; apply surjective_pairing).
  clear Hd E1 E2 Hsolo IH. unfold last_puts. rewrite foldl_app. cbn [foldl]. fold (last_puts order).
  assert (Hlast : disk_holds d1 (last_put (last_puts order) (call, a)) /\
    forall url hit, call = Get url -> a = Got (Ok (Some hit)) -> last_puts order !! url = Some hit).
  { destruct call as [url|url v]; unfold disk_call, st_bind, st_ret in Hcall.
    - destruct (disk_get c url d) as [r w] eqn:Eg. injection Hcall as <- <-. split.
      + cbn [last_put]. eapply holds_loses; [exact Hh|by eapply disk_get_loses].
      + intros url' hit [= <-] [= ->]. by eapply disk_hit_holds.
    - destruct (disk_set c url v d) as [r w] eqn:Es. injection Hcall as <- <-. split; [|done].
      cbn [last_put]. destruct r as [[]|]; [|done]. by eapply disk_set_holds. }
  destruct Hlast as [Hnew Hhit]. split; [exact Hnew|].
  intros i url hit Hi. destruct (decide (i < length order)) as [Hlt|Hge].
  - rewrite lookup_app_l in Hi by done. rewrite take_app_le by lia. by apply Hhits.
  - apply lookup_lt_Some in Hi as Hlen. rewrite length_app in Hlen. cbn [length] in Hlen.
    assert (i = length order) as -> by lia. rewrite list_lookup_middle in Hi by done.
    injection Hi as -> ->. rewrite take_app_length. by apply Hhit.
Qed.
End one_service.

(** * A codec for metadata, and concrete interleavings *)

Fixpoint bits (p : positive) : string :=
  match p with
  | xH => "."
  | xO p => String "0" (bits p)
  | xI p => String "1" (bits p)
  end.

Fixpoint unbits (s : string) : option positive :=
  match s with
  | String "." EmptyString => Some xH
  | String "0" s => xO <$> unbits s
  | String "1" s => xI <$> unbits s
  | _ => None
  end.

Lemma unbits_bits p : unbits (bits p) = Some p.
Proof. induction p as [p IH|p IH|]; simpl; rewrite ?IH; done. Qed.

Definition sample_metas : JsonCodec := {|
  from_slice bs :=
    match unbits bs ≫= decode with
    | Some (mime, expires, size) => Ok (disk_meta_to_value (mkDiskMeta mime expires size))
    | None => Err "expected value"
    end;
  to_vec v :=
    match disk_meta_of_value v with
    | Some m => Ok (bits (encode (meta_mime_type m, expires_at_unix_ms m, meta_size_bytes m)))
    | None => Err "unsupported"
    end;
  to_string_pretty _ := Err "unsupported";
|}.
#[local] Existing Instance sample_metas.

Lemma sample_metas_codec : MetaCodec.
Proof.
  split. intros m bs. simpl. destruct m as [mime expires size]. simpl. intros [= <-].
  unfold parse_disk_meta. cbn [from_slice sample_metas]. rewrite unbits_bits. cbn [mbind option_bind].
  by rewrite decode_encode.
Qed.
#[local] Existing Instance sample_metas_codec.

#[export] Instance sample_directory_laws : DirectoryLaws SampleFs.
Proof.
  split; simpl; intros; simplify_eq; [left; apply lookup_delete_eq|done].
Qed.

Definition sample_webp : CachedInlineData := mkCachedInlineData "image/webp" "RIFF".
Definition sample_png : CachedInlineData := mkCachedInlineData "image/png" "PNG!".

(** A store, and a lookup that waits for the lock. *)
Definition sample_one_moves : list Move :=
  [Begin 0 (Put "u" sample_png); Begin 1 (Get "u"); Turn 0; Turn 0; Turn 1; Turn 1]
  ++ replicate 7 (Turn 0) ++ replicate 9 (Turn 1).

Abbreviation sample_one_play :=
  (schedule (fun call => guarded 0 (disk_steps sample_disk call)) (fun _ _ => True) (fun _ g => g)
     (fun call a g => (call, a) :: g) (fun _ g => g) sample_one_moves (at_rest (mkLocked ∅ (∅ : SampleFs)) [])).

Definition sample_one_end :
    Pool (Locked SampleFs) (list (DiskCall * DiskOutcome)) DiskCall DiskOutcome :=
  default (at_rest (mkLocked ∅ ∅) []) sample_one_play.

Lemma sample_one_reachable :
  rtc (one_service_step sample_disk) (at_rest (mkLocked ∅ (∅ : SampleFs)) []) sample_one_end.
Proof.
  assert (Hplay : sample_one_play = Some sample_one_end) by (vm_compute; reflexivity).
  exact (schedule_steps _ _ _ _ _ _ _ _ _ Hplay).
Qed.

(** Both services store the same URL: the one for requests a WebP it has re-encoded, the one for
    responses the PNG as it came. *)
Definition sample_two_moves : list Move :=
  [Begin 0 (0, Put "u" sample_webp); Begin 1 (1, Put "u" sample_png)]
  ++ replicate 4 (Turn 0) ++ replicate 9 (Turn 1) ++ replicate 5 (Turn 0).

Abbreviation sample_two_play :=
  (schedule (service_program sample_disk) (fun _ _ => True) (fun _ g => g)
     (fun call a g => (call, a) :: g) (fun _ g => g) sample_two_moves (at_rest (mkLocked ∅ (∅ : SampleFs)) [])).

Definition sample_two_end :
    Pool (Locked SampleFs) (list ((nat * DiskCall) * DiskOutcome)) (nat * DiskCall) DiskOutcome :=
  default (at_rest (mkLocked ∅ ∅) []) sample_two_play.

(** * Theorems *)

(** C24: the disk cache of one service is serializable, and its hits are what was stored: however its
    lookups and stores interleave, once all are done there is an order of them in which the
    sequential operations give the same answers and leave the same files; and if the cache was empty
    at the start, every store succeeded and no two of the URLs have the same digest, then every hit
    in that order is, bytes and MIME type, what was stored last under its URL. *)
Theorem disk_cache_serializable {W} `{DirectoryLaws W} `{MetaCodec} `{Digests} c (w : W) x :
  rtc (one_service_step c) (at_rest (mkLocked ∅ w) []) x -> tasks x = ∅ ->
  exists order, order ≡ₚ ghost x /\ runs_in_order c w order (inside (shared x)) /\
    ((forall url, fs_content w (meta_path c url) = None) ->
     Forall put_succeeded (ghost x) ->
     (forall e e', e ∈ ghost x -> e' ∈ ghost x ->
        cache_key (url_of e.1) = cache_key (url_of e'.1) -> url_of e.1 = url_of e'.1) ->
     hits_are_last_puts order).
Proof.
  intros Hrun Hq.
  destruct (guarded_serializable (disk_steps c) 0 (straight_disk c) w x Hrun Hq) as (order & Hord & Hser).
  exists order. split; [done|]. split; [by eapply serial_runs|]. intros Hcold Hok Hkeys.
  apply (serial_holds c (fun url => exists e, e ∈ ghost x /\ url = url_of e.1)) with (d0 := w) (d := inside (shared x));
    [|done..|by rewrite Hord|].
  - intros url url' (e & He & ->) (e' & He' & ->). by apply Hkeys.
  - rewrite Hord. apply Forall_forall. intros e He. by exists e.
Qed.

Lemma disk_cache_serializable_witness :
  tasks sample_one_end = ∅ /\
  exists order, order ≡ₚ ghost sample_one_end /\
    runs_in_order sample_disk ∅ order (inside (shared sample_one_end)) /\ hits_are_last_puts order.
Proof.
  assert (Hq : tasks sample_one_end = ∅) by (vm_compute; reflexivity). split; [exact Hq|].
  assert (Hg : ghost sample_one_end =
    [(Get "u", Got (Ok (Some sample_png))); (Put "u" sample_png, WasPut (Ok tt))])
    by (vm_compute; reflexivity).
  destruct (disk_cache_serializable sample_disk ∅ sample_one_end sample_one_reachable Hq)
    as (order & Hord & Hrun & Hhits).
  exists order. split; [exact Hord|]. split; [exact Hrun|]. apply Hhits.
  - intros url. apply lookup_empty.
  - rewrite Hg. repeat constructor.
  - rewrite Hg. intros e e' He He' _.
    set_unfold in He. set_unfold in He'. destruct He as [->|[->|[]]], He' as [->|[->|[]]]; reflexivity.
Defined.

(** C25: two services on one directory can leave an entry that neither stored: the caches of the services
    for requests and responses have a lock each, so that the two files of an entry can come from
    different stores.  Here both stores succeed, and every lookup until the entry expires answers
    with the MIME type of the one and the bytes of the other. *)
Theorem two_services_mix_disk_entry :
  exists x : Pool (Locked SampleFs) (list ((nat * DiskCall) * DiskOutcome)) (nat * DiskCall) DiskOutcome,
    rtc (services_step sample_disk) (at_rest (mkLocked ∅ ∅) []) x /\ tasks x = ∅ /\
    ghost x = [((0, Put "u" sample_webp), WasPut (Ok tt)); ((1, Put "u" sample_png), WasPut (Ok tt))] /\
    disk_get sample_disk "u" (inside (shared x)) =
      (Ok (Some (mkCachedInlineData (cached_mime_type sample_webp) (cached_bytes sample_png))),
       inside (shared x)).
Proof.
  exists sample_two_end. split; [|split; [|split]]; [|vm_compute; reflexivity..].
  assert (Hplay : sample_two_play = Some sample_two_end) by (vm_compute; reflexivity).
  exact (schedule_steps _ _ _ _ _ _ _ _ _ Hplay).
Qed.
