(* ===== verification/FetchService.v ===== *)
(** cache.rs, [InlineDataUrlFetchService]: memory cache, disk cache, one shared download per URL,
    bounded number of downloads, retry.  The definitions follow one request at a time: a suspended
    waiter lets the spawned downloads run.  SingleFlight.v has the interleavings. *)

From S2P Require Import Prelude RustStr Json Ext Samples Config ImageIo MemoryCache DiskCache.
From stdpp Require Import options.

(** * Data *)

Definition EXTERNAL_IMAGE_FETCH_PROXY_PREFIX : string :=
  "https://gemini.xinbaoai.com/proxy/image?url=".
Definition INLINE_DATA_FETCH_RETRY_DELAY : Z := 1000.

Record FetchResult := mkFetchResult {
  result_mime_type : string;
  result_bytes : bytes;
  from_cache : bool;
}.

(** The [Notify] of a task carries no state beyond its result; its abort handle is the task's
    presence among the spawned ones. *)
Record FetchTask := mkFetchTask {
  task_result : option (Result string CachedInlineData);
  waiter_count : Z;
}.

Record ServiceConfig := mkServiceConfig {
  max_image_bytes : Z;
  allow_private_networks : bool;
  optimize_large_png_as_webp : bool;
  external_proxy_domains : list string;
  wait_timeout : Z;
  total_timeout : Z;
  max_inflight : Z;
  enable_background_bridge : bool;
}.

Section service.
Context `{UrlLib} `{HttpLib} `{ImageCodec} `{JsonCodec} `{Digests} `{Displays}
  `{LruLib MemoryEntry} {W : Type} `{!HttpClient W} `{FileSystem W} `{Directories W} `{Clock W}
  `{Runtime W}.

Record Service := mkService {
  s_config : ServiceConfig;
  memory_cache : option MemoryCacheInner;
  disk_cache : option DiskCache;
  inflight : gmap string nat;
  tasks : gmap nat FetchTask;
  spawned : list (nat * string);   (** downloads that have not finished, oldest first *)
  next_task : nat;
  s_world : W;
}.

Definition set_memory (m : option MemoryCacheInner) (s : Service) : Service :=
  mkService (s_config s) m (disk_cache s) (inflight s) (tasks s) (spawned s) (next_task s) (s_world s).
Definition set_inflight (i : gmap string nat) (s : Service) : Service :=
  mkService (s_config s) (memory_cache s) (disk_cache s) i (tasks s) (spawned s) (next_task s) (s_world s).
Definition set_tasks (t : gmap nat FetchTask) (s : Service) : Service :=
  mkService (s_config s) (memory_cache s) (disk_cache s) (inflight s) t (spawned s) (next_task s) (s_world s).
Definition set_spawned (l : list (nat * string)) (s : Service) : Service :=
  mkService (s_config s) (memory_cache s) (disk_cache s) (inflight s) (tasks s) l (next_task s) (s_world s).
Definition set_s_world (w : W) (s : Service) : Service :=
  mkService (s_config s) (memory_cache s) (disk_cache s) (inflight s) (tasks s) (spawned s) (next_task s) w.

Definition in_world {A} (m : St W A) : St Service A := fun s =>
  let '(a, w) := m (s_world s) in (a, set_s_world w s).

(** * Construction *)

Definition from_config_with_png_optimization (config : Config) (w : W) (max_image_bytes : Z)
    (allow_private_networks optimize_large_png_as_webp : bool) (max_inflight : Z)
    (enable_background_bridge : bool) : option Service :=
  if is_empty (trim (inline_data_url_cache_dir config))
     && (inline_data_url_background_fetch_total_timeout config =? 0)%Z
     && (inline_data_url_memory_cache_max_bytes config =? 0)%Z
  then None else
  let memory := if (0 <? inline_data_url_memory_cache_max_bytes config)%Z
                then Some (memory_cache_new (inline_data_url_memory_cache_max_bytes config))
                else None in
  let disk := if negb (is_empty (trim (inline_data_url_cache_dir config)))
                 && negb (inline_data_url_cache_ttl config =? 0)%Z
                 && (0 <? inline_data_url_cache_max_bytes config)%Z
              then Some (mkDiskCache (inline_data_url_cache_dir config)
                           (inline_data_url_cache_ttl config)
                           (inline_data_url_cache_max_bytes config))
              else None in
  Some (mkService
    (mkServiceConfig max_image_bytes allow_private_networks optimize_large_png_as_webp
       (image_fetch_external_proxy_domains config)
       (inline_data_url_background_fetch_wait_timeout config)
       (inline_data_url_background_fetch_total_timeout config)
       max_inflight enable_background_bridge)
    memory disk ∅ ∅ [] 0 w).

Definition from_config (config : Config) (w : W) (max_image_bytes : Z)
    (allow_private_networks : bool) : option Service :=
  from_config_with_png_optimization config w max_image_bytes allow_private_networks
    (enable_request_image_webp_optimization config)
    (inline_data_url_background_fetch_max_inflight config) true.

Definition from_response_config (config : Config) (w : W) (max_image_bytes : Z)
    (allow_private_networks : bool) : option Service :=
  from_config_with_png_optimization config w max_image_bytes allow_private_networks false
    (Z.max (inline_data_url_background_fetch_max_inflight config) 1) false.

(** * One download *)

Definition maybe_wrap_external_proxy_url (raw_url : string) (patterns : list string)
    : Result Error string :=
  match patterns with
  | [] => Ok raw_url
  | _ =>
      let? parsed := map_err ExternalError (url_parse raw_url) in
      let hostname := url_host parsed in
      if negb (hostname_matches_domain_patterns hostname patterns) then Ok raw_url
      else Ok (EXTERNAL_IMAGE_FETCH_PROXY_PREFIX +:+ byte_serialize raw_url)
  end.

Definition total_timeout_message : string := "inlineData 图片抓取超时".

Definition should_retry_fetch_error (err : Error) : bool :=
  if String.eqb (error_to_string err) total_timeout_message then false else
  match err with
  | ImageFetchStatusError status =>
      bool_decide (status ∈ [408; 425; 429; 500; 502; 503; 504]%Z)
  | ReqwestErr e => if is_body e || is_decode e then false else is_connect e || is_request e
  | _ => false
  end.

(** The pipeline runs to its end or is cut by the deadline; the model lets the deadline pass before
    anything is sent. *)
Definition fetch_and_optimize_with_total_timeout (total_timeout : Z)
    (fetch_future : StE W FetchedInlineData)
    (optimize : FetchedInlineData -> StE W FetchedInlineData) : StE W FetchedInlineData :=
  let pipeline := fetched <-? fetch_future ;; optimize fetched in
  if (total_timeout =? 0)%Z then pipeline else
  elapsed <-! timeout_elapses total_timeout ;;
  if elapsed : bool then ste_err (Anyhow total_timeout_message) else pipeline.

Definition fetch_once (c : ServiceConfig) (fetch_url : string) : StE W FetchedInlineData :=
  fetch_and_optimize_with_total_timeout (total_timeout c)
    (fetch_image_as_inline_data_with_options fetch_url (max_image_bytes c) (allow_private_networks c))
    (fun fetched =>
       if optimize_large_png_as_webp c
       then maybe_convert_large_png_to_lossless_webp_with_timeout fetched
              REQUEST_PNG_WEBP_OPTIMIZATION_TIMEOUT
       else ste_ok fetched).

(** The loop over the attempts; the last one never falls through. *)
Fixpoint fetch_attempts (c : ServiceConfig) (fetch_url : string) (attempts : list nat)
    : StE W FetchedInlineData :=
  match attempts with
  | [] => ste_err (Anyhow "image fetch retry loop must return within bounded attempts")
  | attempt :: attempts =>
      result <-! fetch_once c fetch_url ;;
      match result with
      | Ok fetched => ste_ok fetched
      | Err err =>
          if (attempt =? 0)%nat && should_retry_fetch_error err then
            _ <-! sleep INLINE_DATA_FETCH_RETRY_DELAY ;;
            fetch_attempts c fetch_url attempts
          else ste_err err
      end
  end.

Definition direct_fetch (c : ServiceConfig) (raw_url : string) : StE W FetchedInlineData :=
  fetch_url <-? ste_lift (maybe_wrap_external_proxy_url raw_url (external_proxy_domains c)) ;;
  fetch_attempts c fetch_url [0; 1]%nat.

(** * Caches *)

Definition set_in_memory (raw_url : string) (hit : CachedInlineData) : St Service unit := fun s =>
  (tt, match memory_cache s with
       | Some memory => set_memory (Some (memory_set raw_url hit memory).2) s
       | None => s
       end).

Definition store_in_caches (raw_url : string) (hit : CachedInlineData) : St Service unit :=
  _ <-! set_in_memory raw_url hit ;;
  fun s => match disk_cache s with
           | Some disk => let '(_, w) := disk_set disk raw_url hit (s_world s) in (tt, set_s_world w s)
           | None => (tt, s)
           end.

(** The first part of [fetch]: what the caches hold. *)
Definition fetch_from_caches (raw_url : string) : StE Service (option FetchResult) := fun s =>
  let '(hit, s) :=
    match memory_cache s with
    | Some cache => let '(hit, cache) := memory_get raw_url cache in (hit, set_memory (Some cache) s)
    | None => (None, s)
    end in
  match hit with
  | Some hit => (Ok (Some (mkFetchResult (cached_mime_type hit) (cached_bytes hit) true)), s)
  | None =>
      match disk_cache s with
      | None => (Ok None, s)
      | Some cache =>
          (hit <-? in_world (disk_get cache raw_url) ;;
           match hit with
           | None => ste_ok None
           | Some hit =>
               _ <-! set_in_memory raw_url hit ;;
               ste_ok (Some (mkFetchResult (cached_mime_type hit) (cached_bytes hit) true))
           end) s
      end
  end.

(** * Shared downloads *)

Definition published_result (s : Service) (task : nat) : Result Error (option FetchResult) :=
  match tasks s !! task ≫= task_result with
  | Some (Ok hit) => Ok (Some (mkFetchResult (cached_mime_type hit) (cached_bytes hit) false))
  | Some (Err message) => Err (Anyhow message)
  | None => Ok None
  end.

Definition update_task (f : FetchTask -> FetchTask) (task : nat) (s : Service) : Service :=
  set_tasks (alter f task (tasks s)) s.

(** The body of a spawned download: publish, leave the table, store in the caches. *)
Definition run_task (task : nat) (url : string) : St Service unit := fun s =>
  let '(result, s) := in_world (direct_fetch (s_config s) url) s in
  let result := match result with
                | Ok fetched => Ok (mkCachedInlineData (fetched_mime_type fetched) (fetched_bytes fetched))
                | Err err => Err (error_to_string err)
                end in
  let s := update_task (fun t => mkFetchTask (Some result) (waiter_count t)) task s in
  let s := set_inflight (delete url (inflight s)) s in
  match result with
  | Ok hit => store_in_caches url hit s
  | Err _ => (tt, s)
  end.

(** While a waiter is suspended the spawned downloads run. *)
Definition run_spawned : St Service unit := fun s =>
  (tt, foldl (fun s e => (run_task e.1 e.2 s).2) (set_spawned [] s) (spawned s)).

(** [FetchTaskWaiter::new] *)
Definition waiter_new (task : nat) : St Service unit := fun s =>
  (tt, update_task (fun t => mkFetchTask (task_result t) (waiter_count t + 1)) task s).

(** [FetchTaskWaiter::drop] *)
Definition waiter_drop (raw_url : string) (task : nat) : St Service unit := fun s =>
  let previous := default 0%Z (waiter_count <$> tasks s !! task) in
  let s := update_task (fun t => mkFetchTask (task_result t) (waiter_count t - 1)) task s in
  if negb (previous =? 1)%Z || enable_background_bridge (s_config s) then (tt, s) else
  let s := set_spawned (filter (fun e => e.1 <> task) (spawned s)) s in
  (tt, if bool_decide (inflight s !! raw_url = Some task)
       then set_inflight (delete raw_url (inflight s)) s else s).

(** [published_result(task).await?], where a missing result is an error *)
Definition await_result (task : nat) : StE Service FetchResult := fun s =>
  (let? published := published_result s task in
   ok_or published (Anyhow "background fetch finished without result"), s).

(** [wait_for_task] between the creation of its waiter and the waiter's drop. *)
Definition wait_published (task : nat) : StE Service FetchResult := fun s =>
  match published_result s task with
  | Err e => (Err e, s)
  | Ok (Some result) => (Ok result, s)
  | Ok None =>
      let c := s_config s in
      if negb (enable_background_bridge c) then
        (_ <-! run_spawned ;; await_result task) s
      else
        let wait := if (wait_timeout c =? 0)%Z then total_timeout c else wait_timeout c in
        (elapsed <-! in_world (timeout_elapses wait) ;;
         if elapsed : bool then fun s =>
           (let? published := published_result s task in
            ok_or published (BackgroundFetchWaitTimeoutError wait (total_timeout c)), s)
         else
           _ <-! run_spawned ;; await_result task) s
  end.

Definition wait_for_task (raw_url : string) (task : nat) : StE Service FetchResult :=
  _ <-! waiter_new task ;;
  result <-! wait_published task ;;
  _ <-! waiter_drop raw_url task ;;
  ste_lift result.

Definition spawn_task (raw_url : string) (s : Service) : Service :=
  mkService (s_config s) (memory_cache s) (disk_cache s)
    (<[raw_url := next_task s]> (inflight s))
    (<[next_task s := mkFetchTask None 0]> (tasks s))
    (spawned s ++ [(next_task s, raw_url)]) (S (next_task s)) (s_world s).

Definition fetch (raw_url : string) : StE Service FetchResult :=
  cached <-? fetch_from_caches raw_url ;;
  match cached with
  | Some result => ste_ok result
  | None => fun s =>
      match inflight s !! raw_url with
      | Some task => wait_for_task raw_url task s
      | None =>
          if (max_inflight (s_config s) <=? Z.of_nat (size (inflight s)))%Z then
            (fetched <-? in_world (direct_fetch (s_config s) raw_url) ;;
             _ <-! store_in_caches raw_url
                     (mkCachedInlineData (fetched_mime_type fetched) (fetched_bytes fetched)) ;;
             ste_ok (mkFetchResult (fetched_mime_type fetched) (fetched_bytes fetched) false)) s
          else wait_for_task raw_url (next_task s) (spawn_task raw_url s)
      end
  end.
End service.

(** * Lemmas *)

Section hits.
#[local] Set Default Proof Using "All".
Context `{UrlLib} `{HttpLib} `{ImageCodec} `{JsonCodec} `{Digests} `{Displays}
  `{LruLaws MemoryEntry} {W : Type} `{!HttpClient W} `{FileSystem W} `{Directories W} `{Clock W}
  `{Runtime W}.

Abbreviation Svc := (@Service _ W).
Implicit Types s : Svc.

(** The memory cache of [s] answers [url] with a MIME type and bytes. *)
Definition memory_answers (url mime : string) (bs : bytes) (s : Svc) : Prop :=
  exists m, memory_cache s = Some m /\ memory_ok m /\
    (memory_get url m).1 = Some (mkCachedInlineData mime bs).

Lemma fetch_hit url mime bs s :
  memory_answers url mime bs s ->
  exists s', fetch url s = (Ok (mkFetchResult mime bs true), s') /\ s_world s' = s_world s /\
    memory_answers url mime bs s'.
Proof.
  intros (m & Hm & Hok & Hget). unfold fetch, ste_bind, fetch_from_caches. rewrite Hm.
  destruct (memory_get_spec url m Hok) as (Hok' & _ & Hperm & Hres).
  destruct (memory_get url m) as [hit m'] eqn:E. simpl in Hget, Hok', Hperm, Hres. subst hit.
  eexists. split; [reflexivity|]. split; [done|]. exists m'. split; [done|]. split; [done|].
  destruct (memory_get_spec url m' Hok') as (_ & _ & _ & ->). rewrite Hres.
  assert (forall e, entry_of url (entries m) = Some e -> entry_of url (entries m') = Some e) as Hsub.
  { intros e He. apply entry_of_in; [apply lru_entries_NoDup|]. rewrite Hperm.
    by apply entry_of_Some_in. }
  destruct (entry_of url (entries m)) as [e|]; [|done]. by rewrite (Hsub e eq_refl).
Qed.

Lemma set_in_memory_answers url hit s m :
  memory_cache s = Some m -> memory_ok m -> (blen (cached_bytes hit) <= max_bytes m)%Z ->
  memory_answers url (cached_mime_type hit) (cached_bytes hit) (set_in_memory url hit s).2.
Proof.
  intros Hm Hok Hfit. unfold set_in_memory, memory_answers. rewrite Hm. simpl.
  eexists. split; [done|].
  destruct (memory_set_spec url hit m Hok) as (Hok' & _ & Hcase).
  destruct (Z.ltb_spec (max_bytes m) (blen (cached_bytes hit))); [lia|].
  destruct Hcase as (kept & Hentries & _). split; [done|].
  destruct (memory_get_spec url _ Hok') as (_ & _ & _ & ->).
  rewrite Hentries. simpl. by rewrite String.eqb_refl.
Qed.

Lemma store_in_caches_answers url hit s m :
  memory_cache s = Some m -> memory_ok m -> (blen (cached_bytes hit) <= max_bytes m)%Z ->
  memory_answers url (cached_mime_type hit) (cached_bytes hit) (store_in_caches url hit s).2.
Proof.
  intros Hm Hok Hfit.
  assert (Ha := set_in_memory_answers url hit s m Hm Hok Hfit).
  unfold store_in_caches, st_bind. destruct (set_in_memory url hit s) as [[] s1]. simpl in Ha.
  destruct (disk_cache s1) as [disk|]; [|done].
  destruct (disk_set disk url hit (s_world s1)). exact Ha.
Qed.

Lemma store_in_caches_tasks url hit s : tasks (store_in_caches url hit s).2 = tasks s.
Proof.
  unfold store_in_caches, st_bind, set_in_memory.
  destruct (memory_cache s); simpl; (destruct (disk_cache s) as [disk|]; simpl; [|done]).
  all: match goal with |- context [disk_set ?a ?b ?c ?d] => by destruct (disk_set a b c d) end.
Qed.

(** A run task that publishes a hit has stored it. *)
Lemma run_task_answers task url s m r :
  memory_cache s = Some m -> memory_ok m ->
  published_result (run_task task url s).2 task = Ok (Some r) ->
  is_Some (tasks s !! task) ->
  (blen (result_bytes r) <= max_bytes m)%Z ->
  memory_answers url (result_mime_type r) (result_bytes r) (run_task task url s).2.
Proof.
  intros Hm Hok Hpub [t Ht]. revert Hpub. unfold run_task.
  destruct (in_world _ s) as [result s1] eqn:E.
  assert (Hs1 : memory_cache s1 = Some m /\ tasks s1 = tasks s).
  { unfold in_world in E. destruct (direct_fetch _ _ _). injection E as <- <-. done. }
  destruct Hs1 as [Hm1 Ht1].
  set (published := match result with Ok _ => _ | Err _ => _ end).
  set (s2 := set_inflight _ _).
  assert (Hp2 : forall s', tasks s' = tasks s2 -> published_result s' task =
    match published with
    | Ok hit => Ok (Some (mkFetchResult (cached_mime_type hit) (cached_bytes hit) false))
    | Err e => Err (Anyhow e)
    end).
  { intros s' Hs'. unfold published_result. rewrite Hs'. unfold s2, update_task. simpl.
    rewrite lookup_alter_eq, Ht1, Ht. simpl. by destruct published. }
  destruct published as [hit|e] eqn:Ep; [|by cbn [snd]; rewrite (Hp2 s2 eq_refl)].
  rewrite Hp2.
  - intros [= <-]. simpl. intros Hfit. apply (store_in_caches_answers url hit s2 m); done.
  - by apply store_in_caches_tasks.
Qed.
(** After a miss in the caches. *)
Definition after_miss (s s1 : Svc) (m m1 : MemoryCacheInner) : Prop :=
  memory_cache s1 = Some m1 /\ memory_ok m1 /\ max_bytes m1 = max_bytes m /\
  inflight s1 = inflight s /\ spawned s1 = spawned s.

Lemma fetch_from_caches_cases url s m r s1 :
  memory_cache s = Some m -> memory_ok m -> (memory_get url m).1 = None ->
  fetch_from_caches url s = (Ok r, s1) ->
  match r with
  | None => exists m1, after_miss s s1 m m1
  | Some r => (blen (result_bytes r) <= max_bytes m)%Z ->
              memory_answers url (result_mime_type r) (result_bytes r) s1
  end.
Proof.
  intros Hm Hok Hget. unfold fetch_from_caches. rewrite Hm.
  destruct (memory_get_spec url m Hok) as (Hok' & Hmax & _ & _).
  destruct (memory_get url m) as [hit m'] eqn:E. simpl in Hget, Hok', Hmax. subst hit.
  set (s0 := set_memory (Some m') s).
  destruct (disk_cache s0) as [cache|].
  2:{ intros [= <- <-]. by exists m'. }
  unfold ste_bind, in_world. destruct (disk_get cache url (s_world s0)) as [[[hit|]|e] w].
  - unfold st_bind, ste_ok. set (s2 := set_s_world w s0).
    destruct (set_in_memory url hit s2) as [[] s3] eqn:E3. intros [= <- <-] Hfit.
    assert (Ha := set_in_memory_answers url hit s2 m' eq_refl Hok').
    rewrite E3 in Ha. apply Ha. simpl in Hfit. by rewrite Hmax.
  - intros [= <- <-]. by exists m'.
  - by intros [=].
Qed.

Lemma wait_for_spawned url s m r s' :
  memory_cache s = Some m -> memory_ok m -> spawned s = [] ->
  wait_for_task url (next_task s) (spawn_task url s) = (Ok r, s') ->
  (blen (result_bytes r) <= max_bytes m)%Z ->
  memory_answers url (result_mime_type r) (result_bytes r) s'.
Proof.
  intros Hm Hok Hsp. unfold wait_for_task, waiter_new, wait_published, await_result, ste_lift, st_bind, in_world.
  set (task := next_task s).
  set (s1 := update_task (fun t => mkFetchTask (task_result t) (waiter_count t + 1)) task (spawn_task url s)).
  assert (Hpub : forall w, published_result (set_s_world w s1) task = Ok None).
  { intros w. unfold published_result, s1, update_task, spawn_task. simpl.
    by rewrite lookup_alter_eq, lookup_insert_eq. }
  assert (Hdrop : forall r0 s2,
    memory_answers url (result_mime_type r0) (result_bytes r0) s2 ->
    memory_answers url (result_mime_type r0) (result_bytes r0) (waiter_drop url task s2).2).
  { intros r0 s2 (m2 & ? & ?). exists m2. split; [|done]. unfold waiter_drop.
    by repeat case_match. }
  assert (Hrun : forall w r0,
    published_result (run_spawned (set_s_world w s1)).2 task = Ok (Some r0) ->
    (blen (result_bytes r0) <= max_bytes m)%Z ->
    memory_answers url (result_mime_type r0) (result_bytes r0) (run_spawned (set_s_world w s1)).2).
  { intros w r0. unfold run_spawned. simpl. rewrite Hsp. simpl. intros Hp Hfit.
    apply (run_task_answers task url _ m r0); try done. simpl.
    rewrite lookup_alter_eq, lookup_insert_eq. by eexists. }
  assert (Hself : set_s_world (s_world s1) s1 = s1) by done.
  assert (Hfin : forall w, (let '(a, s2) :=
      (let? published := published_result (run_spawned (set_s_world w s1)).2 task in
       ok_or published (Anyhow "background fetch finished without result"),
       (run_spawned (set_s_world w s1)).2) in
      let '(_, s3) := waiter_drop url task s2 in (a, s3)) = (Ok r, s') ->
    (blen (result_bytes r) <= max_bytes m)%Z ->
    memory_answers url (result_mime_type r) (result_bytes r) s').
  { intros w. specialize (Hrun w).
    destruct (published_result (run_spawned (set_s_world w s1)).2 task) as [[r0|]|e];
      simpl; try (by destruct (waiter_drop url task _); intros [=]).
    specialize (Hdrop r0 (run_spawned (set_s_world w s1)).2).
    destruct (waiter_drop url task _) as [u s3]. intros [= <- <-] Hfit. apply Hdrop. by apply Hrun. }
  rewrite <- Hself at 1. rewrite Hpub.
  destruct (negb _).
  - specialize (Hfin (s_world s1)). rewrite Hself in Hfin. exact Hfin.
  - match goal with |- context [timeout_elapses ?d ?w] => destruct (timeout_elapses d w) as [[|] w'] end.
    + rewrite Hpub. simpl. by destruct (waiter_drop url task _); intros [=].
    + exact (Hfin w').
Qed.
End hits.

(** * Theorems *)

(** A download is made once: on an idle service with a memory cache, after a successful fetch
    (whether it came from memory, disk, a direct download or a shared one) whose body fits the
    cache, fetching the same URL again gives the same MIME type and bytes from the cache, and
    neither the network nor the disk is touched. *)
Theorem fetch_then_hit `{UrlLib} `{HttpLib} `{ImageCodec} `{JsonCodec} `{Digests} `{Displays}
    `{LruLaws MemoryEntry} {W} `{!HttpClient W} `{FileSystem W} `{Directories W} `{Clock W}
    `{Runtime W} url (s : @Service _ W) m r s' :
  memory_cache s = Some m -> memory_ok m -> inflight s = ∅ -> spawned s = [] ->
  fetch url s = (Ok r, s') -> (blen (result_bytes r) <= max_bytes m)%Z ->
  exists s'', fetch url s' = (Ok (mkFetchResult (result_mime_type r) (result_bytes r) true), s'') /\
    s_world s'' = s_world s'.
Proof.
  intros Hm Hok Hin Hsp Hfetch Hfit.
  assert (Ha : memory_answers url (result_mime_type r) (result_bytes r) s').
  { destruct (memory_get url m).1 as [hit|] eqn:Eg.
    - destruct (fetch_hit url (cached_mime_type hit) (cached_bytes hit) s) as (s1 & E & _ & Ha).
      { exists m. split; [done|]. split; [done|]. rewrite Eg. by destruct hit. }
      rewrite E in Hfetch. injection Hfetch as <- <-. exact Ha.
    - unfold fetch, ste_bind in Hfetch.
      destruct (fetch_from_caches url s) as [[cached|e] s1] eqn:Ec; [|done].
      assert (Hc := fetch_from_caches_cases url s m cached s1 Hm Hok Eg Ec).
      destruct cached as [r1|].
      + injection Hfetch as -> ->. by apply Hc.
      + destruct Hc as (m1 & Hm1 & Hok1 & Hmax1 & Hin1 & Hsp1).
        rewrite Hin1, Hin, lookup_empty in Hfetch.
        rewrite <- Hmax1 in Hfit. rewrite Hsp in Hsp1.
        destruct (_ <=? _)%Z in Hfetch.
        * unfold in_world, st_bind in Hfetch.
          destruct (direct_fetch _ url (s_world s1)) as [[fetched|e] w]; [|done].
          destruct (store_in_caches url _ _) as [u s2] eqn:Es in Hfetch.
          injection Hfetch as <- <-. simpl in Hfit |- *.
          assert (Hst := store_in_caches_answers url
            (mkCachedInlineData (fetched_mime_type fetched) (fetched_bytes fetched))
            (set_s_world w s1) m1 Hm1 Hok1 Hfit).
          by rewrite Es in Hst.
        * by eapply wait_for_spawned. }
  destruct (fetch_hit _ _ _ _ Ha) as (s'' & E & Hw & _). by exists s''.
Qed.

(** * A concrete service, for the witness *)

#[export] Instance sample_image_server : HttpClient SampleFs := {|
  http_get u w :=
    (Ok (mkHttpResponse 200 [("content-type", "image/png")] (Some 4%Z) ["ab"; "cd"] None), w)
|}.

#[local] Existing Instance sample_codec.

Definition sample_service : @Service _ SampleFs :=
  mkService (mkServiceConfig 100 false false ["*.example.com"] 0 0 4 false)
    (Some (memory_cache_new 10)) None ∅ ∅ [] 0 ∅.

Lemma fetch_then_hit_witness :
  let first := fetch "https://img.example.com/a.png" sample_service in
  first.1 = Ok (mkFetchResult "image/png" "abcd" false) /\
  exists s, fetch "https://img.example.com/a.png" first.2
              = (Ok (mkFetchResult "image/png" "abcd" true), s).
Proof.
  intros first. split; [vm_compute; reflexivity|].
  destruct (fetch_then_hit "https://img.example.com/a.png" sample_service (memory_cache_new 10)
    (mkFetchResult "image/png" "abcd" false) first.2) as (s & E & _).
  - reflexivity.
  - apply (cache_run_ok 10 _ ∅ ltac:(lia) (cache_new 10)).
  - reflexivity.
  - reflexivity.
  - vm_compute. reflexivity.
  - vm_compute. discriminate.
  - by exists s.
Defined.
