(* ===== verification/FetchOrigin.v ===== *)
(** cache.rs, where an answer of the fetch service comes from: whatever was fetched before, and whichever
    downloads are still under way, the service answers a URL with what a download of that URL has
    yielded, or with what the file of that URL in the disk cache held; the memory cache and the shared
    downloads never mix URLs. *)

From S2P Require Import Prelude RustStr Json Ext Samples Config ImageIo MemoryCache DiskCache FetchService.
From stdpp Require Import options.

Section origin.
#[local] Set Default Proof Using "All".
Context `{UrlLib} `{HttpLib} `{ImageCodec} `{JsonCodec} `{Digests} `{Displays}
  `{LruLaws MemoryEntry} {W : Type} `{!HttpClient W} `{FileSystem W} `{Directories W} `{Clock W}
  `{Runtime W}.
Abbreviation Svc := (@Service _ W).
Context (c : ServiceConfig) (disk : option DiskCache).

(** * Origins *)

(** Some download of [url] has yielded [hit]. *)
Definition downloaded_from (url : string) (hit : CachedInlineData) : Prop :=
  exists (w w' : W) fetched, direct_fetch c url w = (Ok fetched, w') /\
    hit = mkCachedInlineData (fetched_mime_type fetched) (fetched_bytes fetched).

(** The disk cache held [hit] for [url]. *)
Definition found_on_disk (url : string) (hit : CachedInlineData) : Prop :=
  exists d (w w' : W), disk = Some d /\ disk_get d url w = (Ok (Some hit), w').

Definition has_origin (url : string) (hit : CachedInlineData) : Prop :=
  downloaded_from url hit \/ found_on_disk url hit.

Definition answer_of (r : FetchResult) : CachedInlineData :=
  mkCachedInlineData (result_mime_type r) (result_bytes r).

Definition in_entry (e : MemoryEntry) : CachedInlineData :=
  mkCachedInlineData (entry_mime_type e) (entry_bytes e).

(** * The invariant

    [url_of] is the URL that each task was started for. *)

Definition cached_well (s : Svc) : Prop :=
  forall m, memory_cache s = Some m ->
    memory_ok m /\ Forall (fun e => has_origin e.1 (in_entry e.2)) (entries m).

Record flights_well (url_of : nat -> string) (s : Svc) : Prop := {
  fw_inflight : forall url task, inflight s !! url = Some task -> url_of task = url /\ (task < next_task s)%nat;
  fw_spawned : Forall (fun e => url_of e.1 = e.2) (spawned s);
  fw_tasks : forall task t, tasks s !! task = Some t -> (task < next_task s)%nat /\
    forall hit, task_result t = Some (Ok hit) -> downloaded_from (url_of task) hit;
  fw_old : Forall (fun e => e.1 < next_task s)%nat (spawned s);
}.

Record well (url_of : nat -> string) (s : Svc) : Prop := {
  well_config : s_config s = c;
  well_disk : disk_cache s = disk;
  well_cached : cached_well s;
  well_flights : flights_well url_of s;
}.

(** What an operation keeps, and what is true of its result. *)
Definition keeps {A} (url_of : nat -> string) (m : St Svc A) (Q : A -> Prop) : Prop :=
  forall s, well url_of s -> well url_of (m s).2 /\ Q (m s).1.

Definition when_ok {A} (Q : A -> Prop) (r : Result Error A) : Prop := forall a, r = Ok a -> Q a.

Lemma keeps_ret {A} url_of (a : A) (Q : A -> Prop) : Q a -> keeps url_of (st_ret a) Q.
Proof using Type. by intros HQ s Hs. Qed.

Lemma keeps_then {A B} url_of (m : St Svc A) (f : A -> St Svc B) R Q :
  keeps url_of m R -> (forall a, R a -> keeps url_of (f a) Q) -> keeps url_of (st_bind m f) Q.
Proof using Type.
  intros Hm Hf s Hs. destruct (Hm s Hs) as [Hs1 HR]. unfold st_bind. destruct (m s) as [a s1].
  by apply (Hf a HR).
Qed.

Lemma keeps_bind_ok {A B} url_of (m : StE Svc A) (f : A -> StE Svc B) R Q :
  keeps url_of m (when_ok R) -> (forall a, R a -> keeps url_of (f a) (when_ok Q)) ->
  keeps url_of (ste_bind m f) (when_ok Q).
Proof using Type.
  intros Hm Hf s Hs. destruct (Hm s Hs) as [Hs1 HR]. unfold ste_bind.
  destruct (m s) as [[a|e] s1]; [by apply (Hf a (HR a eq_refl))|]. by split.
Qed.

Lemma keeps_error {A} url_of e (Q : A -> Prop) : keeps url_of (ste_err e) (when_ok Q).
Proof using Type. by intros s Hs. Qed.

(** * The operations *)

Lemma keeps_world {A} url_of (m : St W A) (Q : A -> Prop) :
  (forall w, Q (m w).1) -> keeps url_of (in_world m) Q.
Proof using Type.
  intros HQ s [Hc Hd Hm [Hi Hsp Ht Ho]]. unfold in_world. specialize (HQ (s_world s)).
  destruct (m (s_world s)) as [a w]. split; [by split|exact HQ].
Qed.

Lemma well_set_memory url_of s m' :
  well url_of s -> cached_well (set_memory m' s) -> well url_of (set_memory m' s).
Proof using Type. intros [Hc Hd _ [Hi Hsp Ht Ho]] Hm. by split. Qed.

(** What is evicted or replaced leaves the rest as it was. *)
Lemma memory_set_origin url hit m :
  has_origin url hit -> memory_ok m -> Forall (fun e => has_origin e.1 (in_entry e.2)) (entries m) ->
  Forall (fun e => has_origin e.1 (in_entry e.2)) (entries (memory_set url hit m).2).
Proof.
  intros Hhit Hok Hall. destruct (memory_set_spec url hit m Hok) as (_ & _ & Hcase).
  destruct (_ <? _)%Z; [by rewrite Hcase|]. destruct Hcase as (kept & -> & evicted & Hev & _).
  constructor; [by destruct hit|].
  assert (Hw : Forall (fun e => has_origin e.1 (in_entry e.2)) (without url (entries m)))
    by (by apply Forall_filter_sub).
  rewrite Hev in Hw. by apply Forall_app in Hw as [? _].
Qed.

Lemma keeps_set_in_memory url_of url hit :
  has_origin url hit -> keeps url_of (set_in_memory url hit) (fun _ => True).
Proof.
  intros Hhit s Hs. split; [|done]. unfold set_in_memory. destruct (memory_cache s) as [m|] eqn:Em; [|done].
  apply well_set_memory; [done|]. intros m' [= <-]. destruct (well_cached _ _ Hs m Em) as [Hok Hall].
  split; [by apply memory_set_spec|by apply memory_set_origin].
Qed.

Lemma keeps_store_in_caches url_of url hit :
  has_origin url hit -> keeps url_of (store_in_caches url hit) (fun _ => True).
Proof.
  intros Hhit. eapply keeps_then; [by apply keeps_set_in_memory|]. intros _ _ s Hs. split; [|done].
  destruct (disk_cache s) as [d|]; [|done]. assert (Hset := keeps_world url_of (disk_set d url hit) (fun _ => True)
    (fun _ => I) s Hs). unfold in_world in Hset. by destruct (disk_set d url hit (s_world s)), Hset.
Qed.

Lemma keeps_memory_get url_of url s m :
  well url_of s -> memory_cache s = Some m ->
  well url_of (set_memory (Some (memory_get url m).2) s) /\
  forall hit, (memory_get url m).1 = Some hit -> has_origin url hit.
Proof.
  intros Hs Hm. destruct (well_cached _ _ Hs m Hm) as [Hok Hall].
  destruct (memory_get_spec url m Hok) as (Hok' & _ & Hperm & Hhit). split.
  - apply well_set_memory; [done|]. intros m' [= <-]. split; [done|]. by rewrite Hperm.
  - intros hit. rewrite Hhit. intros (e & He%entry_of_Some_in & ->)%fmap_Some.
    rewrite Forall_forall in Hall. exact (Hall _ He).
Qed.

Definition found (url : string) (o : option FetchResult) : Prop :=
  forall r, o = Some r -> has_origin url (answer_of r).

Lemma keeps_fetch_from_caches url_of url :
  keeps url_of (fetch_from_caches url) (when_ok (found url)).
Proof.
  intros s Hs. unfold fetch_from_caches.
  set (looked := match memory_cache s with Some _ => _ | None => _ end).
  assert (Hlooked : well url_of looked.2 /\ forall hit, looked.1 = Some hit -> has_origin url hit).
  { unfold looked. destruct (memory_cache s) as [m|] eqn:Em; [|by split].
    destruct (keeps_memory_get url_of url s m Hs Em) as [Hs' Hhit]. by destruct (memory_get url m). }
  destruct looked as [[hit|] s1]; destruct Hlooked as [Hs1 Hhit]; simpl in Hs1, Hhit.
  { split; [exact Hs1|]. intros o [= <-] r [= <-]. unfold answer_of. simpl. destruct hit. by apply Hhit. }
  destruct (disk_cache s1) as [d|] eqn:Ed; [|split; [exact Hs1|by intros o [= <-] r [=]]].
  revert s1 Hs1 Hhit Ed. intros s1 Hs1 _ Ed.
  apply (keeps_bind_ok url_of _ _ (fun o => forall hit, o = Some hit -> found_on_disk url hit)); [| |exact Hs1].
  - apply keeps_world. intros w. intros o Ho hit ->. assert (Hd := well_disk _ _ Hs1). rewrite Ed in Hd.
    exists d, w, (disk_get d url w).2. split; [done|]. rewrite <- Ho. by destruct (disk_get d url w).
  - intros [hit|] Ho; [|apply keeps_ret; by intros o [= <-] r [=]].
    assert (Horigin : has_origin url hit) by (right; by apply Ho).
    eapply keeps_then; [by apply keeps_set_in_memory|]. intros _ _. apply keeps_ret.
    intros o [= <-] r [= <-]. unfold answer_of. by destruct hit.
Qed.

(** ** Shared downloads *)

Lemma published_origin url_of task s r :
  well url_of s -> published_result s task = Ok (Some r) -> has_origin (url_of task) (answer_of r).
Proof using Type.
  intros Hs. unfold published_result. destruct (tasks s !! task) as [t|] eqn:Et; [simpl|done].
  destruct (task_result t) as [[hit|e]|] eqn:Er; [|done..]. intros [= <-].
  destruct (fw_tasks _ _ (well_flights _ _ Hs) task t Et) as [_ Hhit]. left. apply Hhit. by destruct hit.
Qed.

Lemma published_or_origin url_of task s e r :
  well url_of s -> (let? published := published_result s task in ok_or published e) = Ok r ->
  has_origin (url_of task) (answer_of r).
Proof using Type.
  intros Hs Hr. apply and_then_ok_inv in Hr as ([r0|] & Hp & Ho); [|done]. injection Ho as ->.
  by eapply published_origin.
Qed.

Lemma well_update_task url_of f task s :
  (forall t hit, task_result (f t) = Some (Ok hit) ->
     task_result t = Some (Ok hit) \/ downloaded_from (url_of task) hit) ->
  well url_of s -> well url_of (update_task f task s).
Proof using Type.
  intros Hf [Hc Hd Hm [Hi Hsp Ht Ho]]. split; [done..|]. split; [done|done| |done]. simpl.
  intros task' t. destruct (decide (task = task')) as [<-|Hne].
  - rewrite lookup_alter_eq. intros (t0 & E0 & ->)%fmap_Some. destruct (Ht _ _ E0) as [Hlt Hold]. split; [done|].
    intros hit Hhit. destruct (Hf t0 hit Hhit) as [Hr|]; [by apply Hold|done].
  - rewrite lookup_alter_ne by done. apply Ht.
Qed.

Lemma well_delete_inflight url_of url s :
  well url_of s -> well url_of (set_inflight (delete url (inflight s)) s).
Proof using Type.
  intros [Hc Hd Hm [Hi Hsp Ht Ho]]. split; [done..|]. split; [|done..]. simpl.
  intros url' task [_ Hl]%lookup_delete_Some. by apply Hi.
Qed.

Lemma well_set_spawned url_of l s :
  Forall (fun e => url_of e.1 = e.2) l -> Forall (fun e => e.1 < next_task s)%nat l ->
  well url_of s -> well url_of (set_spawned l s).
Proof using Type. intros Hl Hlt [Hc Hd Hm [Hi Hsp Ht Ho]]. by split. Qed.

Lemma keeps_run_task url_of task :
  keeps url_of (run_task task (url_of task)) (fun _ => True).
Proof.
  intros s Hs. split; [|done]. unfold run_task. assert (Hc := well_config _ _ Hs).
  assert (Hrun := keeps_world url_of (direct_fetch (s_config s) (url_of task))
    (when_ok (fun f => downloaded_from (url_of task)
       (mkCachedInlineData (fetched_mime_type f) (fetched_bytes f))))).
  destruct (Hrun ltac:(idtac; intros w f Ef; rewrite Hc in Ef; exists w, (direct_fetch c (url_of task) w).2, f;
    split; [by rewrite <- Ef, <- surjective_pairing|done]) s Hs) as [Hs1 Hres]. clear Hrun.
  destruct (in_world _ s) as [result s1]. simpl in Hs1, Hres.
  set (published := match result with Ok _ => _ | Err _ => _ end).
  assert (Hpub : forall hit, published = Ok hit -> downloaded_from (url_of task) hit).
  { unfold published. destruct result as [f|e]; [|done]. intros hit [= <-]. by apply Hres. }
  set (s2 := update_task _ task s1). assert (Hs2 : well url_of s2).
  { apply well_update_task; [|done]. intros t hit [= Hhit]. right. by apply Hpub. }
  assert (Hs3 := well_delete_inflight url_of (url_of task) s2 Hs2).
  destruct published as [hit|e]; [|exact Hs3].
  apply keeps_store_in_caches; [|exact Hs3]. left. by apply Hpub.
Qed.

Lemma keeps_run_spawned url_of : keeps url_of run_spawned (fun _ => True).
Proof.
  intros s Hs. split; [|done]. unfold run_spawned. simpl.
  assert (Hl := fw_spawned _ _ (well_flights _ _ Hs)).
  assert (Hs0 : well url_of (set_spawned [] s)) by (by apply well_set_spawned). revert Hs0.
  generalize (set_spawned [] s). induction Hl as [|[task url] l Hurl _ IH]; intros s0 Hs0; [done|].
  simpl. apply IH. simpl in Hurl. subst url. by apply keeps_run_task.
Qed.

Lemma keeps_waiter_new url_of task : keeps url_of (waiter_new task) (fun _ => True).
Proof using Type. intros s Hs. split; [|done]. apply well_update_task; [|done]. intros t hit. by left. Qed.

Lemma keeps_waiter_drop url_of url task : keeps url_of (waiter_drop url task) (fun _ => True).
Proof using Type.
  intros s Hs. split; [|done]. unfold waiter_drop.
  set (s1 := update_task _ task s). assert (Hs1 : well url_of s1).
  { apply well_update_task; [|done]. intros t hit. by left. }
  destruct (_ || _); [exact Hs1|]. simpl.
  assert (Hs2 : well url_of (set_spawned (filter (fun e => e.1 <> task) (spawned s1)) s1)).
  { destruct (well_flights _ _ Hs1) as [_ Hsp _ Hold]. by apply well_set_spawned; [apply Forall_filter_sub..|]. }
  destruct (bool_decide _); [by apply (well_delete_inflight url_of url) in Hs2|exact Hs2].
Qed.

Lemma keeps_await_result url_of task :
  keeps url_of (await_result task) (when_ok (fun r => has_origin (url_of task) (answer_of r))).
Proof using Type.
  intros s Hs. split; [done|]. intros r. by apply published_or_origin.
Qed.

Lemma keeps_wait_published url_of task :
  keeps url_of (wait_published task) (when_ok (fun r => has_origin (url_of task) (answer_of r))).
Proof.
  intros s Hs. unfold wait_published. destruct (published_result s task) as [[r|]|e] eqn:Ep.
  - split; [done|]. intros r' [= <-]. by eapply published_origin.
  - destruct (negb _).
    + refine (keeps_then url_of _ _ (fun _ => True) _ (keeps_run_spawned _) _ s Hs).
      intros _ _. apply keeps_await_result.
    + refine (keeps_then url_of _ _ (fun _ => True) _ (keeps_world _ _ _ _) _ s Hs); [done|].
      intros [|] _.
      * intros s1 Hs1. split; [done|]. intros r. by apply published_or_origin.
      * eapply keeps_then; [apply keeps_run_spawned|]. intros _ _. apply keeps_await_result.
  - by split.
Qed.

Lemma keeps_wait_for_task url_of url task :
  keeps url_of (wait_for_task url task) (when_ok (fun r => has_origin (url_of task) (answer_of r))).
Proof.
  eapply keeps_then; [apply keeps_waiter_new|]. intros _ _.
  eapply keeps_then; [apply keeps_wait_published|]. intros result Hresult.
  eapply keeps_then; [apply keeps_waiter_drop|]. intros _ _ s Hs. by split.
Qed.

(** A new task is for the URL that it was started with. *)
Lemma well_spawn url_of url s :
  well url_of s ->
  well (fun task => if decide (task = next_task s) then url else url_of task) (spawn_task url s).
Proof using Type.
  intros [Hc Hd Hm [Hi Hsp Ht Ho]]. split; [done..|].
  assert (Hother : forall task, (task < next_task s)%nat ->
    (if decide (task = next_task s) then url else url_of task) = url_of task).
  { intros task Hlt. rewrite decide_False; [done|lia]. }
  split; simpl.
  - intros url' task [[<- <-]|[_ Hl]]%lookup_insert_Some; [split; [by rewrite decide_True|lia]|].
    destruct (Hi _ _ Hl) as [Hu Hlt]. split; [by rewrite Hother|lia].
  - apply Forall_app. split; [|constructor; [by rewrite decide_True|constructor]].
    rewrite Forall_forall in Hsp, Ho. apply Forall_forall. intros e He. rewrite Hother; auto.
  - intros task t [[<- <-]|[_ Hl]]%lookup_insert_Some; [split; [lia|done]|].
    destruct (Ht _ _ Hl) as [Hlt Hhit]. split; [lia|]. by rewrite Hother.
  - apply Forall_app. split; [|constructor; [simpl; lia|constructor]].
    eapply Forall_impl; [exact Ho|]. simpl. lia.
Qed.

(** * The service *)

Definition service_well (s : Svc) : Prop := exists url_of, well url_of s.

Lemma fetch_keeps_well url (s : Svc) :
  service_well s ->
  service_well (fetch url s).2 /\ when_ok (fun r => has_origin url (answer_of r)) (fetch url s).1.
Proof.
  intros [url_of Hs]. unfold fetch, ste_bind.
  destruct (keeps_fetch_from_caches url_of url s Hs) as [Hs1 Hfound].
  destruct (fetch_from_caches url s) as [[[r|]|e] s1]; simpl in Hs1, Hfound.
  - split; [by exists url_of|]. intros r' [= <-]. by apply (Hfound (Some r)).
  - destruct (inflight s1 !! url) as [task|] eqn:Ei.
    { destruct (fw_inflight _ _ (well_flights _ _ Hs1) url task Ei) as [<- _].
      destruct (keeps_wait_for_task url_of (url_of task) task s1 Hs1) as [Hs2 Hr]. split; [by exists url_of|done]. }
    destruct (_ <=? _)%Z.
    + assert (Hc := well_config _ _ Hs1).
      destruct (keeps_bind_ok url_of (in_world (direct_fetch (s_config s1) url))
        (fun fetched => _ <-! store_in_caches url
             (mkCachedInlineData (fetched_mime_type fetched) (fetched_bytes fetched)) ;;
           ste_ok (mkFetchResult (fetched_mime_type fetched) (fetched_bytes fetched) false))
        (fun f => downloaded_from url (mkCachedInlineData (fetched_mime_type f) (fetched_bytes f)))
        (fun r => has_origin url (answer_of r))) with (s := s1) as [Hs2 Hr];
        [| |exact Hs1|split; [by exists url_of|exact Hr]].
      * apply keeps_world. intros w f Ef. rewrite Hc in Ef. exists w, (direct_fetch c url w).2, f.
        split; [by rewrite <- Ef, <- surjective_pairing|done].
      * intros f Hf. eapply keeps_then; [by apply keeps_store_in_caches; left|]. intros _ _.
        apply keeps_ret. intros r [= <-]. by left.
    + set (url_of' := fun task => if decide (task = next_task s1) then url else url_of task).
      destruct (keeps_wait_for_task url_of' url (next_task s1) (spawn_task url s1)
        (well_spawn url_of url s1 Hs1)) as [Hs2 Hr].
      split; [by exists url_of'|]. unfold url_of' in Hr. by rewrite decide_True in Hr.
  - split; [by exists url_of|done].
Qed.
End origin.

(** * Downloads *)

Section downloads.
#[local] Set Default Proof Using "Type".
Context `{UrlLib} `{HttpLib} `{ImageCodec} `{Displays} {W : Type} `{!HttpClient W} `{Clock W} `{Runtime W}.

(** The image of [url] is the answer, within the limit, of a permitted address: the URL's own, or the
    one that the external proxy has for it; or else it is a smaller encoding of that answer. *)
Definition genuine (c : ServiceConfig) (url : string) (image : CachedInlineData) : Prop :=
  exists target u response raw (w w' : W),
    maybe_wrap_external_proxy_url url (external_proxy_domains c) = Ok target /\
    url_parse target = Ok u /\ scheme_is_http u = true /\ url_host u <> EmptyString /\
    (allow_private_networks c = false -> is_forbidden_fetch_target u = false) /\
    http_get u w = (Ok response, w') /\ is_success (resp_status response) = true /\
    resp_bytes response = Ok (fetched_bytes raw) /\ (blen (fetched_bytes raw) <= max_image_bytes c)%Z /\
    optimized_from raw (mkFetchedInlineData (cached_mime_type image) (cached_bytes image)).

Lemma attempts_once c url attempts (w w' : W) f :
  fetch_attempts c url attempts w = (Ok f, w') -> exists w1 w2, fetch_once c url w1 = (Ok f, w2).
Proof.
  revert w. induction attempts as [|attempt attempts IH]; intros w; cbn [fetch_attempts]; [done|].
  unfold st_bind. destruct (fetch_once c url w) as [[f1|e] w1] eqn:E; [intros [= <- _]; by exists w, w1|].
  destruct (_ && _); [|done]. destruct (sleep _ w1) as [u w2]. apply IH.
Qed.

Lemma once_downloads c url (w w' : W) f :
  fetch_once c url w = (Ok f, w') -> exists raw w1 w2,
    fetch_image_as_inline_data_with_options url (max_image_bytes c) (allow_private_networks c) w1
      = (Ok raw, w2) /\ optimized_from raw f.
Proof.
  assert (Hpipeline : forall w, (raw <-? fetch_image_as_inline_data_with_options url (max_image_bytes c)
       (allow_private_networks c) ;;
     if optimize_large_png_as_webp c
     then maybe_convert_large_png_to_lossless_webp_with_timeout raw REQUEST_PNG_WEBP_OPTIMIZATION_TIMEOUT
     else ste_ok raw) w = (Ok f, w') -> exists raw w1 w2,
    fetch_image_as_inline_data_with_options url (max_image_bytes c) (allow_private_networks c) w1
      = (Ok raw, w2) /\ optimized_from raw f).
  { clear w. intros w (raw & w1 & Hraw & Hf)%ste_bind_Ok. exists raw, w, w1. split; [exact Hraw|].
    destruct (optimize_large_png_as_webp c); [by eapply convert_optimizes|]. injection Hf as -> _. by left. }
  unfold fetch_once, fetch_and_optimize_with_total_timeout. destruct (_ =? 0)%Z; [apply Hpipeline|].
  unfold st_bind. destruct (timeout_elapses _ w) as [[|] w1]; [done|apply Hpipeline].
Qed.

Lemma answer_genuine c url target raw f (w w' : W) :
  (0 <= max_image_bytes c)%Z -> maybe_wrap_external_proxy_url url (external_proxy_domains c) = Ok target ->
  fetch_image_as_inline_data_with_options target (max_image_bytes c) (allow_private_networks c) w
    = (Ok raw, w') ->
  optimized_from raw f -> genuine c url (mkCachedInlineData (fetched_mime_type f) (fetched_bytes f)).
Proof.
  intros Hmax Ht Hraw Hopt. destruct (fetch_image_run _ _ _ _ _ _ Hmax Hraw)
    as (u & response & Hp & Hs & Hh & Hforb & Hget & Hok & Hbytes & Hle).
  exists target, u, response, raw, w, w'. by split_and!.
Qed.

Lemma downloaded_genuine c url hit :
  (0 <= max_image_bytes c)%Z -> downloaded_from (W := W) c url hit -> genuine c url hit.
Proof.
  intros Hmax (w & w' & f & Hf & ->). unfold direct_fetch in Hf.
  apply ste_bind_Ok in Hf as (target & w1 & [Ht ->]%ste_lift_Ok & Hf).
  apply attempts_once in Hf as (w2 & w3 & Hf). apply once_downloads in Hf as (raw & w4 & w5 & Hraw & Hopt).
  by eapply answer_genuine.
Qed.
End downloads.

(** * Runs *)

Section runs.
#[local] Set Default Proof Using "All".
Context `{UrlLib} `{HttpLib} `{ImageCodec} `{JsonCodec} `{Digests} `{Displays}
  `{LruLaws MemoryEntry} {W : Type} `{!HttpClient W} `{FileSystem W} `{Directories W} `{Clock W}
  `{Runtime W}.
Abbreviation Svc := (@Service _ W).

(** A service after any number of requests to it, and of changes of its surroundings. *)
Inductive service_run (s0 : Svc) : Svc -> Prop :=
| run_new : service_run s0 s0
| run_fetch s url : service_run s0 s -> service_run s0 (fetch url s).2
| run_elsewhere s w : service_run s0 s -> service_run s0 (set_s_world w s).

Lemma new_service_well config (w : W) max allow optimize inflight bridge s :
  from_config_with_png_optimization config w max allow optimize inflight bridge = Some s ->
  service_well (s_config s) (disk_cache s) s.
Proof.
  unfold from_config_with_png_optimization. destruct (_ && _); [done|]. intros [= <-].
  exists (fun _ => EmptyString). split; [done|done| |].
  - unfold cached_well. simpl. intros m Hm. destruct (Z.ltb_spec 0 (inline_data_url_memory_cache_max_bytes config)); [|done].
    injection Hm as <-. destruct (cache_run_ok (inline_data_url_memory_cache_max_bytes config) _ _ ltac:(lia)
      (cache_new _)) as (Hok & _). split; [exact Hok|]. unfold entries. simpl. by rewrite lru_unbounded_entries.
  - split; simpl; [|constructor| |constructor]; intros ? ? Hl; by rewrite lookup_empty in Hl.
Qed.

Lemma run_well c disk s0 s : service_run s0 s -> service_well c disk s0 -> service_well c disk s.
Proof.
  intros Hrun Hnew. induction Hrun as [|s url _ IH|s w _ IH]; [done| |].
  - by apply fetch_keeps_well.
  - destruct IH as (url_of & [Hc Hd Hm [Hi Hsp Ht Ho]]). by exists url_of.
Qed.
End runs.

(** What a service answers after a run. *)
Lemma fetch_answers_run `{UrlLib} `{HttpLib} `{ImageCodec} `{JsonCodec} `{Digests} `{Displays}
    `{LruLaws MemoryEntry} {W} `{!HttpClient W} `{FileSystem W} `{Directories W} `{Clock W} `{Runtime W}
    config (w : W) max allow optimize inflight bridge s0 s url r s' :
  (0 <= max)%Z ->
  from_config_with_png_optimization config w max allow optimize inflight bridge = Some s0 ->
  service_run s0 s -> fetch url s = (Ok r, s') ->
  genuine (W := W) (s_config s0) url (answer_of r) \/
  found_on_disk (W := W) (disk_cache s0) url (answer_of r).
Proof.
  intros Hmax Hnew Hrun Hf. assert (Hwell := run_well _ _ _ _ Hrun (new_service_well _ _ _ _ _ _ _ _ Hnew)).
  destruct (fetch_keeps_well _ _ url s Hwell) as [_ Hr]. rewrite Hf in Hr.
  destruct (Hr r eq_refl) as [Hd|Hd]; [left|by right]. apply downloaded_genuine; [|exact Hd].
  revert Hnew. unfold from_config_with_png_optimization. destruct (_ && _); [done|]. by intros [= <-].
Qed.

(** * Theorem *)

(** C21: The caches never mix images up: whatever a fetch service was asked for before, however its
    downloads went, and though some may still be under way, what it answers for a URL is the answer of
    that URL's own address, which the checks have permitted and which is within the limit, or a
    smaller encoding of it; or it is what the file of that very URL in the disk cache held. *)
Theorem fetch_answers_are_genuine `{UrlLib} `{HttpLib} `{ImageCodec} `{JsonCodec} `{Digests} `{Displays}
    `{LruLaws MemoryEntry} {W} `{!HttpClient W} `{FileSystem W} `{Directories W} `{Clock W} `{Runtime W}
    config (w : W) max allow optimize inflight bridge s0 s url r s' :
  (0 <= max)%Z ->
  from_config_with_png_optimization config w max allow optimize inflight bridge = Some s0 ->
  service_run s0 s -> fetch url s = (Ok r, s') ->
  genuine (W := W) (s_config s0) url (answer_of r) \/
  found_on_disk (W := W) (disk_cache s0) url (answer_of r).
Proof. apply fetch_answers_run. Qed.

#[local] Existing Instance sample_codec.

(** The service of the tests, and an image it has downloaded before. *)
Definition sample_new_service : @Service _ SampleFs :=
  default sample_service (from_config test_config ∅ 100 false).

Definition sample_image_url : string := "https://img.example.com/a.png".

Definition sample_fetched : FetchResult := mkFetchResult "image/png" "abcd" true.

Lemma fetch_answers_are_genuine_witness :
  let again := fetch sample_image_url (fetch sample_image_url sample_new_service).2 in
  again.1 = Ok sample_fetched /\
  genuine (W := SampleFs) (s_config sample_new_service) sample_image_url (answer_of sample_fetched).
Proof.
  intros again. assert (Hagain : again.1 = Ok sample_fetched) by (vm_compute; reflexivity).
  split; [exact Hagain|].
  destruct (fetch_answers_are_genuine test_config ∅ 100 false false 128 true sample_new_service
    (fetch sample_image_url sample_new_service).2 sample_image_url sample_fetched again.2) as [Hg|Hd].
  - discriminate.
  - vm_compute. reflexivity.
  - apply run_fetch, run_new.
  - rewrite <- Hagain. apply surjective_pairing.
  - exact Hg.
  - exfalso. destruct Hd as (d & w & w' & Hdisk & _). vm_compute in Hdisk. discriminate Hdisk.
Defined.
