(* ===== verification/SingleFlight.v ===== *)
(** cache.rs: the interleavings of [fetch], [wait_for_task], the spawned download and the drop of a
    [FetchTaskWaiter].  One step is one critical section or atomic access; any number of requests
    for any URLs run at once, and a request may be cancelled at any suspension point. *)

From S2P Require Import Prelude RustStr.
From stdpp Require Import relations options.

(** * The system *)

(** How far the task of a download has come: it is in the table but not spawned; it downloads; its
    result is set and its waiters notified; it has left the table; the caches have its result; or the
    runtime dropped it after [abort]. *)
Inductive Stage := Created | Downloading | Published | Unregistered | Finished | Dropped.

Record Task := mkTask {
  t_url : string;
  t_stage : Stage;
  t_has_result : bool;
  t_waiters : Z;
  t_handle : bool;      (** [abort_handle] holds the handle *)
  t_abort : bool;       (** [AbortHandle::abort] was called *)
}.

(** A request in [fetch]: it has inserted a task; it has spawned its download; it has cloned a task out
    of the table, or made one, and is not counted; it is counted; it downloads for itself. *)
Inductive Waiter :=
| Inserted (url : string) (task : nat)
| Spawned (url : string) (task : nat)
| Holding (url : string) (task : nat)
| Waiting (url : string) (task : nat)
| Fetching (url : string).

Definition waiter_task (w : Waiter) : option nat :=
  match w with Inserted _ t | Spawned _ t | Holding _ t | Waiting _ t => Some t | Fetching _ => None end.

Record Flight := mkFlight {
  table : gmap string nat;      (** [inflight] *)
  flights : gmap nat Task;
  waiters : gmap nat Waiter;
  cleanups : list (string * nat);   (** drops that still have to take the lock of the table *)
}.

Definition set_stage (st : Stage) (result : bool) (t : Task) : Task :=
  mkTask (t_url t) st result (t_waiters t) (t_handle t) (t_abort t).

Definition set_count (n : Z) (t : Task) : Task :=
  mkTask (t_url t) (t_stage t) (t_has_result t) n (t_handle t) (t_abort t).

(** [*task.abort_handle.lock() = Some(..)] *)
Definition set_handle (t : Task) : Task :=
  mkTask (t_url t) (t_stage t) (t_has_result t) (t_waiters t) true (t_abort t).

(** [if let Some(handle) = abort_handle.lock().take() { handle.abort() }] *)
Definition take_handle (t : Task) : Task :=
  mkTask (t_url t) (t_stage t) (t_has_result t) (t_waiters t) false (t_handle t || t_abort t).

(** The stages in which the runtime can drop a task: once it is spawned and before it has ended. *)
Definition droppable (st : Stage) : bool :=
  match st with Downloading | Published | Unregistered => true | Created | Finished | Dropped => false end.

Section system.
Context (bridge : bool) (max_inflight : nat).

Inductive flight_step : Flight -> Flight -> Prop :=
(** [inflight.get(raw_url).map(Arc::clone)] of a task that is there *)
| flight_join s w url t :
    waiters s !! w = None -> table s !! url = Some t ->
    flight_step s (mkFlight (table s) (flights s) (<[w := Holding url t]> (waiters s)) (cleanups s))
(** no task, and no room in the table: the request downloads the image itself *)
| flight_direct s w url :
    waiters s !! w = None -> table s !! url = None -> (max_inflight <= size (table s))%nat ->
    flight_step s (mkFlight (table s) (flights s) (<[w := Fetching url]> (waiters s)) (cleanups s))
(** it is done, or cancelled *)
| flight_direct_end s w url :
    waiters s !! w = Some (Fetching url) ->
    flight_step s (mkFlight (table s) (flights s) (delete w (waiters s)) (cleanups s))
(** no task, room in the table: a new one is inserted *)
| flight_insert s w url t :
    waiters s !! w = None -> flights s !! t = None -> table s !! url = None ->
    (size (table s) < max_inflight)%nat ->
    flight_step s (mkFlight (<[url := t]> (table s))
                     (<[t := mkTask url Created false 0 false false]> (flights s))
                     (<[w := Inserted url t]> (waiters s)) (cleanups s))
(** [tokio::spawn], *)
| flight_spawn s w url t task :
    waiters s !! w = Some (Inserted url t) -> flights s !! t = Some task -> t_stage task = Created ->
    flight_step s (mkFlight (table s) (<[t := set_stage Downloading (t_has_result task) task]> (flights s))
                     (<[w := Spawned url t]> (waiters s)) (cleanups s))
(** and its handle is kept *)
| flight_handle s w url t task :
    waiters s !! w = Some (Spawned url t) -> flights s !! t = Some task ->
    flight_step s (mkFlight (table s) (<[t := set_handle task]> (flights s))
                     (<[w := Holding url t]> (waiters s)) (cleanups s))
(** [FetchTaskWaiter::new] *)
| flight_enter s w url t task :
    waiters s !! w = Some (Holding url t) -> flights s !! t = Some task ->
    flight_step s (mkFlight (table s) (<[t := set_count (t_waiters task + 1) task]> (flights s))
                     (<[w := Waiting url t]> (waiters s)) (cleanups s))
(** [FetchTaskWaiter::drop], at the end of the wait or at a cancellation *)
| flight_leave s w url t task :
    waiters s !! w = Some (Waiting url t) -> flights s !! t = Some task ->
    flight_step s
      (if negb (t_waiters task =? 1)%Z || bridge
       then mkFlight (table s) (<[t := set_count (t_waiters task - 1) task]> (flights s))
              (delete w (waiters s)) (cleanups s)
       else mkFlight (table s) (<[t := take_handle (set_count (t_waiters task - 1) task)]> (flights s))
              (delete w (waiters s)) ((url, t) :: cleanups s))
(** the drop's removal, under the lock: only if the table still holds this very task *)
| flight_cleanup s url t l1 l2 :
    cleanups s = l1 ++ (url, t) :: l2 ->
    flight_step s
      (mkFlight (if bool_decide (table s !! url = Some t) then delete url (table s) else table s)
         (flights s) (waiters s) (l1 ++ l2))
(** the download publishes its result and notifies *)
| flight_publish s t task :
    flights s !! t = Some task -> t_stage task = Downloading ->
    flight_step s (mkFlight (table s) (<[t := set_stage Published true task]> (flights s))
                     (waiters s) (cleanups s))
(** [service.inflight.lock().await.remove(&url)]: whatever task the table holds *)
| flight_unregister s t task :
    flights s !! t = Some task -> t_stage task = Published ->
    flight_step s (mkFlight (delete (t_url task) (table s))
                     (<[t := set_stage Unregistered (t_has_result task) task]> (flights s))
                     (waiters s) (cleanups s))
(** [store_in_caches], and its end *)
| flight_finish s t task :
    flights s !! t = Some task -> t_stage task = Unregistered ->
    flight_step s (mkFlight (table s) (<[t := set_stage Finished (t_has_result task) task]> (flights s))
                     (waiters s) (cleanups s))
(** an aborted download is dropped when it next suspends *)
| flight_drop s t task :
    flights s !! t = Some task -> t_abort task = true -> droppable (t_stage task) = true ->
    flight_step s (mkFlight (table s)
                     (<[t := set_stage Dropped (t_has_result task) task]> (flights s))
                     (waiters s) (cleanups s)).

Definition flight_init : Flight := mkFlight ∅ ∅ ∅ [].

Definition flight_reachable (s : Flight) : Prop := rtc flight_step flight_init s.
End system.

(** * Invariants *)

(** The download is in the table or on its way there: nobody needs to start another one. *)
Definition active (task : Task) : Prop :=
  t_stage task = Created \/ t_stage task = Downloading \/ t_stage task = Published.

#[export] Instance stage_eq_dec : EqDecision Stage.
Proof. solve_decision. Defined.
#[export] Instance active_dec task : Decision (active task).
Proof. unfold active. apply _. Defined.

Lemma flight_ind bridge max (P : Flight -> Prop) :
  P flight_init -> (forall s s', flight_step bridge max s s' -> P s -> P s') ->
  forall s, flight_reachable bridge max s -> P s.
Proof.
  intros Hinit Hstep s Hrun. unfold flight_reachable in Hrun. revert Hinit.
  induction Hrun as [s|s1 s2 s3 H12 _ IH]; [done|]. intros H1. by eapply IH, Hstep.
Qed.

(** The table never outgrows its bound. *)
Lemma table_bounded bridge max s :
  flight_reachable bridge max s -> (size (table s) <= max)%nat.
Proof.
  revert s. apply flight_ind; [simpl; rewrite map_size_empty; lia|]. intros s s' Hstep IH.
  destruct Hstep; simpl; try done.
  - rewrite map_size_insert_None by done. lia.
  - by case_match.
  - case_bool_decide; [|done]. rewrite map_size_delete. destruct (table s !! url); simpl; unfold id; lia.
  - rewrite map_size_delete. destruct (table s !! t_url task); simpl; unfold id; lia.
Qed.

(** With the background bridge, of the table and the tasks alone, *)
Record tabled (tb : gmap string nat) (fl : gmap nat Task) : Prop := {
  br_table : forall url t, tb !! url = Some t ->
    exists task, fl !! t = Some task /\ t_url task = url /\ active task;
  br_active : forall t task, fl !! t = Some task -> active task -> tb !! t_url task = Some t;
  br_tasks : forall t task, fl !! t = Some task ->
    t_abort task = false /\ t_stage task <> Dropped /\
    (t_stage task <> Created -> t_stage task <> Downloading -> t_has_result task = true);
}.

(** and with the requests: a task is there for all that have one, and a task that was not spawned is
    about to be. *)
Record bridged (s : Flight) : Prop := {
  br_tabled : tabled (table s) (flights s);
  br_waiters : forall w waiter t, waiters s !! w = Some waiter -> waiter_task waiter = Some t ->
    is_Some (flights s !! t);
  br_created : forall t task, flights s !! t = Some task -> t_stage task = Created ->
    exists w, waiters s !! w = Some (Inserted (t_url task) t);
  br_cleanups : cleanups s = [];
}.

Lemma bridged_init : bridged flight_init.
Proof. split; [split|..]; simpl; try done; intros *; by rewrite lookup_empty. Qed.

(** A step that changes no task's stage. *)
Lemma tabled_same tb fl t task task' :
  tabled tb fl -> fl !! t = Some task -> t_url task' = t_url task -> t_stage task' = t_stage task ->
  t_has_result task' = t_has_result task -> t_abort task' = false -> tabled tb (<[t := task']> fl).
Proof.
  intros [Htable Hactive Htasks] Ht Hu Hs Hr Ha. split.
  - intros url t' Hl. destruct (Htable url t' Hl) as (task0 & Ht' & Hu' & Hact).
    destruct (decide (t = t')) as [<-|Hne].
    + rewrite Ht in Ht'. injection Ht' as <-. rewrite lookup_insert_eq. exists task'.
      split; [done|]. split; [congruence|]. unfold active in *. by rewrite Hs.
    + rewrite lookup_insert_ne by done. by exists task0.
  - intros t' task0 [[<- <-]|[Hne Hl]]%lookup_insert_Some Hact; [|by apply Hactive].
    rewrite Hu. apply (Hactive t task Ht). unfold active in *. by rewrite <- Hs.
  - intros t' task0 [[<- <-]|[Hne Hl]]%lookup_insert_Some; [|by apply (Htasks t')].
    rewrite Hs, Hr. split; [done|]. apply (Htasks t task Ht).
Qed.

(** A step that moves a task on, which stays active, *)
Lemma tabled_on tb fl t task st result :
  tabled tb fl -> fl !! t = Some task -> active task -> st = Downloading \/ st = Published /\ result = true ->
  tabled tb (<[t := set_stage st result task]> fl).
Proof.
  intros [Htable Hactive Htasks] Ht Hact Hst. split.
  - intros url t' Hl. destruct (Htable url t' Hl) as (task0 & Ht' & Hu & Ha).
    destruct (decide (t = t')) as [<-|Hne].
    + rewrite Ht in Ht'. injection Ht' as <-. rewrite lookup_insert_eq. eexists. split; [done|].
      split; [done|]. unfold active. simpl. naive_solver.
    + rewrite lookup_insert_ne by done. by exists task0.
  - intros t' task0 [[<- <-]|[Hne Hl]]%lookup_insert_Some Ha; [exact (Hactive t task Ht Hact)|by apply Hactive].
  - intros t' task0 [[<- <-]|[Hne Hl]]%lookup_insert_Some; [|by apply (Htasks t')].
    destruct (Htasks t task Ht) as (? & _). simpl. naive_solver.
Qed.

(** which leaves the table, *)
Lemma tabled_off tb fl t task :
  tabled tb fl -> fl !! t = Some task -> t_stage task = Published ->
  tabled (delete (t_url task) tb) (<[t := set_stage Unregistered (t_has_result task) task]> fl).
Proof.
  intros [Htable Hactive Htasks] Ht Hst.
  assert (Htab := Hactive t task Ht ltac:(unfold active; by right; right)). split.
  - intros url t' [Hne Hl]%lookup_delete_Some. destruct (Htable url t' Hl) as (task0 & Ht' & Hu & Ha).
    rewrite lookup_insert_ne; [by exists task0|]. intros ->. rewrite Ht in Ht'. by injection Ht' as <-.
  - intros t' task0 [[<- <-]|[Hne Hl]]%lookup_insert_Some Ha; [unfold active in Ha; simpl in Ha; naive_solver|].
    assert (Htab' := Hactive t' task0 Hl Ha). rewrite lookup_delete_ne; [done|].
    intros Heq. rewrite Heq, Htab' in Htab. by injection Htab.
  - intros t' task0 [[<- <-]|[Hne Hl]]%lookup_insert_Some; [|by apply (Htasks t')].
    destruct (Htasks t task Ht) as (? & _ & Hr). simpl. split; [done|]. split; [done|].
    intros _ _. apply Hr; by rewrite Hst.
Qed.

(** or which has left it. *)
Lemma tabled_finish tb fl t task :
  tabled tb fl -> fl !! t = Some task -> t_stage task = Unregistered ->
  tabled tb (<[t := set_stage Finished (t_has_result task) task]> fl).
Proof.
  intros [Htable Hactive Htasks] Ht Hst. split.
  - intros url t' Hl. destruct (Htable url t' Hl) as (task0 & Ht' & Hu & Ha).
    rewrite lookup_insert_ne; [by exists task0|]. intros ->. rewrite Ht in Ht'. injection Ht' as <-.
    unfold active in Ha. rewrite Hst in Ha. naive_solver.
  - intros t' task0 [[<- <-]|[Hne Hl]]%lookup_insert_Some Ha; [unfold active in Ha; simpl in Ha; naive_solver|].
    by apply Hactive.
  - intros t' task0 [[<- <-]|[Hne Hl]]%lookup_insert_Some; [|by apply (Htasks t')].
    destruct (Htasks t task Ht) as (? & _ & Hr). simpl. split; [done|]. split; [done|].
    intros _ _. apply Hr; by rewrite Hst.
Qed.

(** A new task. *)
Lemma tabled_insert tb fl url t :
  tabled tb fl -> fl !! t = None -> tb !! url = None ->
  tabled (<[url := t]> tb) (<[t := mkTask url Created false 0 false false]> fl).
Proof.
  intros [Htable Hactive Htasks] Hfresh Hnone. split.
  - intros url' t' [[<- <-]|[Hne Hl]]%lookup_insert_Some.
    + rewrite lookup_insert_eq. eexists. split; [done|]. split; [done|]. by left.
    + destruct (Htable url' t' Hl) as (task & Ht & Hu & Ha).
      rewrite lookup_insert_ne by (intros ->; by rewrite Hfresh in Ht). by exists task.
  - intros t' task [[<- <-]|[Hne Hl]]%lookup_insert_Some Ha; [by rewrite lookup_insert_eq|].
    assert (Ht := Hactive t' task Hl Ha). rewrite lookup_insert_ne; [done|].
    intros ->. by rewrite Hnone in Ht.
  - intros t' task [[<- <-]|[Hne Hl]]%lookup_insert_Some; [done|by apply (Htasks t')].
Qed.

(** What a step leaves of the tasks and of the requests. *)
Lemma bridged_update s tb fl ws :
  bridged s -> tabled tb fl ->
  (forall t, is_Some (flights s !! t) -> is_Some (fl !! t)) ->
  (forall w waiter t, ws !! w = Some waiter -> waiter_task waiter = Some t ->
     waiters s !! w = Some waiter \/ is_Some (fl !! t)) ->
  (forall t task, fl !! t = Some task -> t_stage task = Created ->
     exists w, ws !! w = Some (Inserted (t_url task) t)) ->
  bridged (mkFlight tb fl ws (cleanups s)).
Proof.
  intros [_ Hw _ Hc] Htab Hkeep Hws Hcreated. split; simpl; [done| |done|done].
  intros w waiter t Hl Ht. destruct (Hws w waiter t Hl Ht) as [Hold|]; [|done].
  apply Hkeep. by eapply Hw.
Qed.

Lemma insert_keeps (fl : gmap nat Task) t task' : forall t', is_Some (fl !! t') -> is_Some (<[t := task']> fl !! t').
Proof. intros t' Ht'. destruct (decide (t = t')) as [<-|Hne]; [rewrite lookup_insert_eq; by eexists|by rewrite lookup_insert_ne]. Qed.

(** A request that is not about to spawn goes on or goes away, and one task changes, which is not a
    new one. *)
Lemma bridged_task s tb t task task' ws :
  bridged s -> flights s !! t = Some task -> tabled tb (<[t := task']> (flights s)) ->
  t_url task' = t_url task -> (t_stage task' = Created -> t_stage task = Created) ->
  (forall w waiter t', ws !! w = Some waiter -> waiter_task waiter = Some t' ->
     waiters s !! w = Some waiter \/ t' = t) ->
  (forall w url t', waiters s !! w = Some (Inserted url t') -> (t' = t -> t_stage task' = Created) ->
     ws !! w = Some (Inserted url t')) ->
  bridged (mkFlight tb (<[t := task']> (flights s)) ws (cleanups s)).
Proof.
  intros Hb Ht Htab Hu Hst Hws Hkept. apply (bridged_update s); [done|done|by apply insert_keeps|..].
  - intros w waiter t' Hl Ht'. destruct (Hws w waiter t' Hl Ht') as [Hold| ->]; [by left|right].
    rewrite lookup_insert_eq. by eexists.
  - intros t' task0 [[<- <-]|[Hne Hl]]%lookup_insert_Some Hc.
    + destruct (br_created s Hb t task Ht (Hst Hc)) as [w Hw]. exists w. rewrite Hu. by apply Hkept.
    + destruct (br_created s Hb t' task0 Hl Hc) as [w Hw]. exists w. apply Hkept; [exact Hw|congruence].
Qed.

Lemma bridged_step max s s' : flight_step true max s s' -> bridged s -> bridged s'.
Proof.
  intros Hstep Hb. assert (Htab := br_tabled s Hb). assert (Hclean := br_cleanups s Hb).
  destruct Hstep as [s w url t Hw Ht|s w url Hw Hnone Hfull|s w url Hw|s w url t Hw Hfresh Hnone Hroom|
    s w url t task Hw Ht Hst|s w url t task Hw Ht|s w url t task Hw Ht|s w url t task Hw Ht|s url t l1 l2 Hc|
    s t task Ht Hst|s t task Ht Hst|s t task Ht Hst|s t task Ht Ha Hd].
  - apply (bridged_update s); [done..| |].
    + intros w' waiter t' [[<- <-]|[_ Hl]]%lookup_insert_Some; [|by left]. intros [= <-]. right.
      destruct (br_table _ _ Htab url t Ht) as (task & -> & _). by eexists.
    + intros t' task Hl Hc. destruct (br_created s Hb t' task Hl Hc) as [w' Hw']. exists w'.
      rewrite lookup_insert_ne; [done|]. intros ->. by rewrite Hw in Hw'.
  - apply (bridged_update s); [done..| |].
    + intros w' waiter t' [[<- <-]|[_ Hl]]%lookup_insert_Some; [done|by left].
    + intros t' task Hl Hc. destruct (br_created s Hb t' task Hl Hc) as [w' Hw']. exists w'.
      rewrite lookup_insert_ne; [done|]. intros ->. by rewrite Hw in Hw'.
  - apply (bridged_update s); [done..| |].
    + intros w' waiter t' [_ Hl]%lookup_delete_Some. by left.
    + intros t' task Hl Hc. destruct (br_created s Hb t' task Hl Hc) as [w' Hw']. exists w'.
      rewrite lookup_delete_ne; [done|]. intros ->. by rewrite Hw in Hw'.
  - apply (bridged_update s); [done|by apply tabled_insert|by apply insert_keeps|..].
    + intros w' waiter t' [[<- <-]|[_ Hl]]%lookup_insert_Some; [|by left]. intros [= <-]. right.
      rewrite lookup_insert_eq. by eexists.
    + intros t' task [[<- <-]|[_ Hl]]%lookup_insert_Some Hc; [exists w; by rewrite lookup_insert_eq|].
      destruct (br_created s Hb t' task Hl Hc) as [w' Hw']. exists w'. rewrite lookup_insert_ne; [done|].
      intros ->. by rewrite Hw in Hw'.
  - apply (bridged_task s _ t task); [done|done| |done|done|..].
    + apply tabled_on; [done|done|by left|by left].
    + intros w' waiter t' [[<- <-]|[_ Hl]]%lookup_insert_Some; [intros [= <-]; by right|by left].
    + intros w' url' t' Hw' Hc. rewrite lookup_insert_ne; [done|]. intros ->. rewrite Hw in Hw'.
      injection Hw' as <- <-. by discriminate Hc.
  - apply (bridged_task s _ t task); [done|done| |done|done|..].
    + apply (tabled_same _ _ t task); [done..|]. by destruct (br_tasks _ _ Htab t task Ht).
    + intros w' waiter t' [[<- <-]|[_ Hl]]%lookup_insert_Some; [intros [= <-]; by right|by left].
    + intros w' url' t' Hw' _. rewrite lookup_insert_ne; [done|]. intros ->. by rewrite Hw in Hw'.
  - apply (bridged_task s _ t task); [done|done| |done|done|..].
    + apply (tabled_same _ _ t task); [done..|]. by destruct (br_tasks _ _ Htab t task Ht).
    + intros w' waiter t' [[<- <-]|[_ Hl]]%lookup_insert_Some; [intros [= <-]; by right|by left].
    + intros w' url' t' Hw' _. rewrite lookup_insert_ne; [done|]. intros ->. by rewrite Hw in Hw'.
  - rewrite orb_true_r. apply (bridged_task s _ t task); [done|done| |done|done|..].
    + apply (tabled_same _ _ t task); [done..|]. by destruct (br_tasks _ _ Htab t task Ht).
    + intros w' waiter t' [_ Hl]%lookup_delete_Some. by left.
    + intros w' url' t' Hw' _. rewrite lookup_delete_ne; [done|]. intros ->. by rewrite Hw in Hw'.
  - rewrite Hclean in Hc. by destruct l1.
  - apply (bridged_task s _ t task); [done|done| |done|done|by left|by intros].
    apply tabled_on; [done|done|by right; left|by right].
  - apply (bridged_task s _ t task); [done|done| |done|done|by left|].
    + by apply tabled_off.
    + by intros.
  - apply (bridged_task s _ t task); [done|done| |done|done|by left|by intros]. by apply tabled_finish.
  - destruct (br_tasks _ _ Htab t task Ht) as (Hf & _). by rewrite Hf in Ha.
Qed.

Lemma bridged_reachable max s : flight_reachable true max s -> bridged s.
Proof.
  revert s. apply flight_ind; [apply bridged_init|]. intros s s'. apply bridged_step.
Qed.

(** The tasks that are under way are in the table, one for each URL. *)
Lemma active_bounded tb fl :
  tabled tb fl -> (size (filter (fun kv => active kv.2) fl) <= size tb)%nat.
Proof.
  intros [_ Hactive _]. rewrite <- (length_map_to_list (filter _ fl)), <- size_dom.
  set (l := map_to_list (filter (fun kv => active kv.2) fl)).
  assert (Hl : forall kv, kv ∈ l -> fl !! kv.1 = Some kv.2 /\ active kv.2).
  { intros [t task] Hin%elem_of_map_to_list. by apply map_lookup_filter_Some in Hin. }
  assert (Hnd : NoDup l) by apply NoDup_map_to_list.
  rewrite <- (length_fmap (fun kv => t_url kv.2) l). unfold size, set_size.
  apply submseteq_length, NoDup_submseteq.
  - apply NoDup_fmap_2_strong; [|exact Hnd]. intros [t1 k1] [t2 k2] H1 H2 Heq.
    destruct (Hl _ H1) as [E1 A1]. destruct (Hl _ H2) as [E2 A2]. simpl in *.
    assert (T1 := Hactive _ _ E1 A1). assert (T2 := Hactive _ _ E2 A2). rewrite Heq, T2 in T1.
    injection T1 as ->. rewrite E1 in E2. by injection E2 as ->.
  - intros url ([t task] & -> & Hin)%list_elem_of_fmap. destruct (Hl _ Hin) as [E A].
    apply elem_of_elements, elem_of_dom. rewrite (Hactive _ _ E A). by eexists.
Qed.

(** The result of a task that is under way can be published by steps of its own. *)
Lemma can_publish max s t task :
  bridged s -> flights s !! t = Some task ->
  t_has_result task = true \/
  exists s', rtc (flight_step true max) s s' /\ (t_has_result <$> flights s' !! t) = Some true.
Proof.
  intros Hb Ht. destruct (br_tasks _ _ (br_tabled s Hb) t task Ht) as (_ & _ & Hr).
  destruct (decide (t_has_result task = true)) as [|Hn]; [by left|right].
  destruct (decide (t_stage task = Created)) as [Hc|Hc].
  - destruct (br_created s Hb t task Ht Hc) as [w Hw]. eexists. split.
    + eapply rtc_l; [by eapply (flight_spawn true max s w)|]. apply rtc_once.
      eapply (flight_publish true max _ t); [cbn [flights]; by rewrite lookup_insert_eq|done].
    + cbn [flights]. by rewrite lookup_insert_eq.
  - destruct (decide (t_stage task = Downloading)) as [Hd|Hd]; [|by rewrite Hr in Hn].
    eexists. split; [by apply rtc_once, (flight_publish true max s t task)|]. simpl. by rewrite lookup_insert_eq.
Qed.

(** A step to a state given by its normal form. *)
Lemma rtc_step_eq {A} (R : relation A) x y z w : R x y -> y = z -> rtc R z w -> rtc R x w.
Proof. intros Hxy <- Hzw. by eapply rtc_l. Qed.

(** The next step of a run. *)
Tactic Notation "fly" uconstr(step) := eapply rtc_step_eq; [eapply step|vm_compute; reflexivity|].

(** * Theorems *)

(** C8: Single flight with the background bridge: in every interleaving at most one shared download per
    URL is under way, the table holds exactly the shared downloads under way, and there are never
    more than [max_inflight] of them - a request that finds the table full downloads for itself,
    outside the table; and no waiter is lost: the download it waits for has a result, or can still
    be run to its end and then has one. *)
Theorem bridge_single_flight max s :
  flight_reachable true max s ->
  (size (table s) <= max)%nat /\
  (size (filter (fun kv => active kv.2) (flights s)) <= max)%nat /\
  (forall t1 t2 task1 task2, flights s !! t1 = Some task1 -> flights s !! t2 = Some task2 ->
     active task1 -> active task2 -> t_url task1 = t_url task2 -> t1 = t2) /\
  (forall url t, table s !! url = Some t <->
     exists task, flights s !! t = Some task /\ active task /\ t_url task = url) /\
  (forall w waiter t, waiters s !! w = Some waiter -> waiter_task waiter = Some t ->
     exists task, flights s !! t = Some task /\
       (t_has_result task = true \/
        exists s', rtc (flight_step true max) s s' /\ (t_has_result <$> flights s' !! t) = Some true)).
Proof.
  intros Hrun. assert (Hsize := table_bounded _ _ _ Hrun).
  assert (Hb := bridged_reachable max s Hrun). assert (Htab := br_tabled s Hb). split_and!.
  - done.
  - etrans; [by apply active_bounded|done].
  - intros t1 t2 task1 task2 H1 H2 A1 A2 Hu.
    assert (E1 := br_active _ _ Htab t1 task1 H1 A1). assert (E2 := br_active _ _ Htab t2 task2 H2 A2).
    rewrite Hu, E2 in E1. by injection E1.
  - intros url t. split.
    + intros Hl. destruct (br_table _ _ Htab url t Hl) as (task & ? & ? & ?). by exists task.
    + intros (task & Ht & Ha & <-). by apply (br_active _ _ Htab).
  - intros w waiter t Hw Hwt. destruct (br_waiters s Hb w waiter t Hw Hwt) as [task Ht]. exists task.
    split; [done|]. by apply can_publish.
Qed.

(** C38: without the bridge a waiter can be lost.  A request that cloned a task out of the table but
    is not counted yet does not keep it alive: if the only counted waiter goes away in between, the
    download is aborted, and the request then waits, without a timeout, for a notification that
    never comes. *)
Theorem no_bridge_waiter_can_be_lost :
  exists s w task, flight_reachable false 1 s /\
    waiters s !! w = Some (Waiting "u" 0) /\ flights s !! 0%nat = Some task /\
    t_stage task = Dropped /\ t_has_result task = false.
Proof.
  eexists _, 1%nat, _. split; [|split; [|split; [|split]]].
  - unfold flight_reachable.
    fly (flight_insert false 1 flight_init 0 "u" 0); [done..|vm_compute; lia|].
    fly (flight_spawn false 1 _ 0 "u" 0 (mkTask "u" Created false 0 false false)); [done..|].
    fly (flight_handle false 1 _ 0 "u" 0 (mkTask "u" Downloading false 0 false false)); [done..|].
    fly (flight_enter false 1 _ 0 "u" 0 (mkTask "u" Downloading false 0 true false)); [done..|].
    fly (flight_join false 1 _ 1 "u" 0); [done..|].
    fly (flight_leave false 1 _ 0 "u" 0 (mkTask "u" Downloading false 1 true false)); [done..|].
    fly (flight_enter false 1 _ 1 "u" 0 (mkTask "u" Downloading false 0 false true)); [done..|].
    fly (flight_drop false 1 _ 0 (mkTask "u" Downloading false 1 false true)); [done..|].
    apply rtc_refl.
  - reflexivity.
  - reflexivity.
  - reflexivity.
  - reflexivity.
Qed.

(** C39: without the bridge two downloads of one URL can be under way: the spawned download removes
    whatever the table holds under its URL, also the task of a later request that was inserted
    after the first one was abandoned, and a third request then starts another download. *)
Theorem no_bridge_double_flight :
  exists s task1 task2, flight_reachable false 1 s /\
    flights s !! 1%nat = Some task1 /\ flights s !! 2%nat = Some task2 /\
    t_url task1 = "u" /\ t_url task2 = "u" /\
    t_stage task1 = Downloading /\ t_stage task2 = Downloading.
Proof.
  eexists _, _, _. split; [|split; [|split; [|split; [|split; [|split]]]]].
  - unfold flight_reachable.
    fly (flight_insert false 1 flight_init 0 "u" 0); [done..|vm_compute; lia|].
    fly (flight_spawn false 1 _ 0 "u" 0 (mkTask "u" Created false 0 false false)); [done..|].
    fly (flight_handle false 1 _ 0 "u" 0 (mkTask "u" Downloading false 0 false false)); [done..|].
    fly (flight_enter false 1 _ 0 "u" 0 (mkTask "u" Downloading false 0 true false)); [done..|].
    fly (flight_publish false 1 _ 0 (mkTask "u" Downloading false 1 true false)); [done..|].
    fly (flight_leave false 1 _ 0 "u" 0 (mkTask "u" Published true 1 true false)); [done..|].
    fly (flight_cleanup false 1 _ "u" 0 [] []); [done..|].
    fly (flight_insert false 1 _ 1 "u" 1); [done..|vm_compute; lia|].
    fly (flight_spawn false 1 _ 1 "u" 1 (mkTask "u" Created false 0 false false)); [done..|].
    fly (flight_unregister false 1 _ 0 (mkTask "u" Published true 0 false true)); [done..|].
    fly (flight_insert false 1 _ 2 "u" 2); [done..|vm_compute; lia|].
    fly (flight_spawn false 1 _ 2 "u" 2 (mkTask "u" Created false 0 false false)); [done..|].
    apply rtc_refl.
  - reflexivity.
  - reflexivity.
  - reflexivity.
  - reflexivity.
  - reflexivity.
  - reflexivity.
Qed.

(** One request is about to spawn its download, and another, for another URL, downloads for itself. *)
Lemma bridge_single_flight_witness :
  let s := mkFlight {[ "u" := 0%nat ]} {[ 0%nat := mkTask "u" Created false 0 false false ]}
             (<[1%nat := Fetching "v"]> {[ 0%nat := Inserted "u" 0 ]}) [] in
  flight_reachable true 1 s /\ (size (table s) <= 1)%nat /\
  exists s', rtc (flight_step true 1) s s' /\ (t_has_result <$> flights s' !! 0%nat) = Some true.
Proof.
  intros s. assert (Hrun : flight_reachable true 1 s).
  { unfold flight_reachable. fly (flight_insert true 1 flight_init 0 "u" 0); [done..|vm_compute; lia|].
    fly (flight_direct true 1 _ 1 "v"); [done..|vm_compute; lia|]. apply rtc_refl. }
  destruct (bridge_single_flight 1 s Hrun) as (Hsize & _ & _ & _ & Hw).
  split; [exact Hrun|]. split; [exact Hsize|].
  destruct (Hw 0%nat (Inserted "u" 0) 0%nat eq_refl eq_refl) as (task & [= <-] & [Hr|Hr]); [done|exact Hr].
Defined.
