(* ===== verification/RequestMaterialize.v ===== *)
(** request_materialize.rs: every image URL of a request is downloaded once and stored as a blob.
    The client of the download service is written against its interface. *)

From S2P Require Import Prelude RustStr Json Pointer Ext Samples.
From S2P Require Import ImageIo RequestScan BlobRuntime RequestEncode FetchService.
From stdpp Require Import options.

(** * Interfaces *)

(** What the fetch service promises to its clients: [fetch_service.fetch(&url)]. *)
Class UrlFetcher (W : Type) := {
  fetch_url : string -> StE W FetchResult;
}.

(** Monotonic time in milliseconds ([Instant::now]). *)
Class Stopwatch (W : Type) := {
  instant_now : St W Z;
}.

(** The callback [cache_observer], told of every URL the fetch service answered. *)
Class CacheObserver (W : Type) := {
  observe_cache : string -> bool -> St W unit;
}.

(** The order in which the tasks of a [JoinSet] finish. *)
Class JoinOrder (W : Type) := {
  completion_order : list string -> St W (list string);
}.

(** None of them touches the blob files, and every task finishes once. *)
Class FetchLaws (W : Type) `{FileSystemLaws W} `{UrlFetcher W} `{UrlLib} `{!HttpClient W}
    `{Runtime W} `{Stopwatch W} `{JoinOrder W} : Prop := {
  fetch_url_frame : forall url w r w', fetch_url url w = (r, w') ->
    forall p, fs_content w' p = fs_content w p;
  http_get_frame : forall u w r w', http_get u w = (r, w') ->
    forall p, fs_content w' p = fs_content w p;
  elapses_frame : forall d w b w', timeout_elapses d w = (b, w') ->
    forall p, fs_content w' p = fs_content w p;
  joins_frame : forall w e w', join_error w = (e, w') ->
    forall p, fs_content w' p = fs_content w p;
  instant_now_frame : forall w t w', instant_now w = (t, w') ->
    forall p, fs_content w' p = fs_content w p;
  completion_order_perm : forall urls w urls' w', completion_order urls w = (urls', w') ->
    urls' ≡ₚ urls /\ forall p, fs_content w' p = fs_content w p;
}.

Class MaterializeLaws (W : Type) `{FetchLaws W} `{CacheObserver W} : Prop := {
  observe_cache_frame : forall url hit w r w', observe_cache url hit w = (r, w') ->
    forall p, fs_content w' p = fs_content w p;
}.

(** * The code *)

(** The semaphore lets four downloads run at once; it bounds the interleaving and nothing else. *)
Definition MAX_CONCURRENT_REQUEST_IMAGE_FETCHES : nat := 4.

Record FetchedBlob := mkFetchedBlob {
  blob_mime_type : string;
  fetched_blob : BlobHandle;
}.

Record RequestImageWorkDurations := mkDurations {
  fetch_work_ms : Z;
  store_work_ms : Z;
}.

Record MaterializedRequestImages := mkMaterialized {
  request : Value;
  replacements : list RequestReplacement;
  total_fetch_work_ms : Z;
  total_store_work_ms : Z;
}.

(** [fetch_service] and [cache_observer] are shared objects, which live in the world. *)
Record RequestMaterializeServices := mkMaterializeServices {
  services_max_image_bytes : Z;
  services_allow_private_networks : bool;
  enable_webp_optimization : bool;
  has_fetch_service : bool;
  has_cache_observer : bool;
}.

Section materialize.
Context {W : Type} `{FileSystem W} `{UrlFetcher W} `{UrlLib} `{HttpLib} `{!HttpClient W}
  `{Runtime W} `{ImageCodec} `{Stopwatch W} `{CacheObserver W} `{JoinOrder W}.
Abbreviation Rt := (BlobRuntimeInner W).

(** [if let Some(observer) = &services.cache_observer { observer(url, hit) }] *)
Definition notify (services : RequestMaterializeServices) (url : string) (hit : bool) : StE Rt unit :=
  if has_cache_observer services then
    (_ <-! on_world (observe_cache url hit) ;; ste_ok tt)
  else ste_ok tt.

(** [started.elapsed().as_millis() as i64] around a step *)
Definition timed {A} (m : StE Rt A) : StE Rt (A * Z) := fun s =>
  (started <-! on_world instant_now ;;
   a <-? m ;;
   now <-! on_world instant_now ;;
   ste_ok (a, i64_wrap (now - started))) s.

Definition fetch_request_image (url : string) (services : RequestMaterializeServices)
    : StE Rt (string * FetchedBlob * RequestImageWorkDurations) :=
  if has_fetch_service services then
    fetched_ms <-? timed (on_world (fetch_url url)) ;;
    let '(fetched, fetch_ms) := fetched_ms in
    _ <-? notify services url (from_cache fetched) ;;
    stored <-? timed (if from_cache fetched
                      then store_external_shared_bytes (result_bytes fetched) (result_mime_type fetched)
                      else store_shared_bytes (result_bytes fetched) (result_mime_type fetched)) ;;
    let '(blob, store_ms) := stored in
    ste_ok (url, mkFetchedBlob (result_mime_type fetched) blob, mkDurations fetch_ms store_ms)
  else
    fetched_ms <-? timed (on_world (fetch_image_as_inline_data_with_options url
                            (services_max_image_bytes services)
                            (services_allow_private_networks services))) ;;
    let '(fetched, fetch_ms) := fetched_ms in
    stored <-? timed
      (fetched <-? (if enable_webp_optimization services
                    then on_world (maybe_convert_large_png_to_lossless_webp_with_timeout fetched
                                     REQUEST_PNG_WEBP_OPTIMIZATION_TIMEOUT)
                    else ste_ok fetched) ;;
       blob <-? store_shared_bytes (fetched_bytes fetched) (fetched_mime_type fetched) ;;
       ste_ok (mkFetchedBlob (fetched_mime_type fetched) blob)) ;;
    let '(fetched, store_ms) := stored in
    ste_ok (url, fetched, mkDurations fetch_ms store_ms).

(** The URLs in order of first appearance. *)
Fixpoint unique_urls (seen : list string) (refs : list RequestImageRef) : list string :=
  match refs with
  | [] => []
  | image_ref :: refs =>
      if decide (RequestScan.url image_ref ∈ seen) then unique_urls seen refs
      else RequestScan.url image_ref :: unique_urls (RequestScan.url image_ref :: seen) refs
  end.

(** The loop over [fetches.join_next()]. *)
Definition join_fetches (services : RequestMaterializeServices) (urls : list string)
    : StE Rt (gmap string FetchedBlob * Z * Z) :=
  ste_for (fun acc url =>
    let '(fetched_by_url, fetch_ms, store_ms) := acc in
    result <-? fetch_request_image url services ;;
    let '(url, fetched, durations) := result in
    ste_ok (<[url := fetched]> fetched_by_url, i64_wrap (fetch_ms + fetch_work_ms durations),
            i64_wrap (store_ms + store_work_ms durations)))
    (∅, 0%Z, 0%Z) urls.

Definition build_replacements (fetched_by_url : gmap string FetchedBlob)
    : list RequestReplacement -> list RequestImageRef -> Result Error (list RequestReplacement) :=
  try_fold (fun acc image_ref =>
    let? fetched := ok_or (fetched_by_url !! RequestScan.url image_ref)
                      (Anyhow ("missing fetched blob for " +:+ RequestScan.url image_ref)) in
    Ok (acc ++ [mkRequestReplacement (RequestScan.json_pointer image_ref) (blob_mime_type fetched)
                  (fetched_blob fetched)])).

Definition materialize_request_images_with_services (req : Value)
    (services : RequestMaterializeServices) : StE Rt MaterializedRequestImages :=
  refs <-? ste_lift (scan_request_image_urls req) ;;
  order <-! on_world (completion_order (unique_urls [] refs)) ;;
  joined <-? join_fetches services order ;;
  let '(fetched_by_url, fetch_ms, store_ms) := joined in
  reps <-? ste_lift (build_replacements fetched_by_url [] refs) ;;
  ste_ok (mkMaterialized req reps fetch_ms store_ms).

Definition materialize_request_images (req : Value) : StE Rt MaterializedRequestImages :=
  materialize_request_images_with_services req
    (mkMaterializeServices REQUEST_MAX_IMAGE_BYTES true false false false).
End materialize.

(** * Lemmas *)

Lemma unique_urls_elem seen refs u :
  u ∈ unique_urls seen refs <-> u ∉ seen /\ u ∈ (RequestScan.url <$> refs).
Proof.
  revert seen. induction refs as [|r refs IH]; intros seen; csimpl.
  - split; [by intros ?%elem_of_nil|]. by intros [_ ?%elem_of_nil].
  - case_decide as Hd; rewrite ?elem_of_cons, IH, ?not_elem_of_cons; [naive_solver|].
    destruct (decide (u = RequestScan.url r)) as [->|]; naive_solver.
Qed.

Lemma unique_urls_NoDup seen refs : NoDup (unique_urls seen refs).
Proof.
  revert seen. induction refs as [|r refs IH]; intros seen; simpl; [constructor|].
  case_decide; [done|]. constructor; [|done]. rewrite unique_urls_elem. set_solver.
Qed.

Lemma unique_urls_length refs : (length (unique_urls [] refs) <= length refs)%nat.
Proof.
  rewrite <- (length_fmap RequestScan.url refs).
  apply submseteq_length, NoDup_submseteq; [apply unique_urls_NoDup|].
  intros u Hu. apply unique_urls_elem in Hu. by destruct Hu.
Qed.

(** A download and a conversion leave the files alone. *)
Lemma frames_fetch_image {W} `{FetchLaws W} `{HttpLib} url max allow :
  frames (fetch_image_as_inline_data_with_options (W := W) url max allow).
Proof.
  apply frames_ste_bind; [apply frames_ret|intros u].
  apply frames_ste_bind; [|intros; apply frames_ret].
  intros w a w'. destruct (http_get u w) as [r w1] eqn:E. intros [= <- <-]. by eapply http_get_frame.
Qed.

Lemma frames_webp {W} `{FetchLaws W} `{ImageCodec} fetched timeout :
  frames (maybe_convert_large_png_to_lossless_webp_with_timeout (W := W) fetched timeout).
Proof.
  intros w r w'.
  unfold maybe_convert_large_png_to_lossless_webp_with_timeout, maybe_convert_large_png_to_lossless_webp.
  destruct (timeout =? 0)%Z.
  - destruct (join_error w) as [j w1] eqn:E. destruct j; intros [= <- <-]; by eapply joins_frame.
  - destruct (timeout_elapses timeout w) as [b w1] eqn:E. assert (F1 := elapses_frame _ _ _ _ E).
    destruct b; [by intros [= <- <-]|].
    destruct (join_error w1) as [j w2] eqn:E2. assert (F2 := joins_frame _ _ _ E2).
    destruct j; intros [= <- <-] p; by rewrite F2.
Qed.

Section laws.
#[local] Set Default Proof Using "All".
Context {W : Type} `{MaterializeLaws W} `{HttpLib} `{ImageCodec}.
Abbreviation Rt := (BlobRuntimeInner W).
Implicit Types L : gmap Z (BlobHandle * bytes).

(** A step that keeps every live blob, may add some, and takes at most [n] identifiers. [Q] relates
    the live blobs before and after a success. *)
Definition grows {A} (n : Z) (m : StE Rt A)
    (Q : gmap Z (BlobHandle * bytes) -> gmap Z (BlobHandle * bytes) -> A -> Prop) : Prop :=
  forall s L r s', rep s L -> (next_id_counter s + n < u64_max)%Z -> m s = (r, s') ->
  exists L', L ⊆ L' /\ rep s' L' /\ (next_id_counter s' <= next_id_counter s + n)%Z /\
    match r with Ok a => Q L L' a | Err _ => True end.

(** No blob is added, and the result is such. *)
Definition same_with {A} (P : A -> Prop) (L L' : gmap Z (BlobHandle * bytes)) (a : A) : Prop :=
  L' = L /\ P a.

Lemma grows_ok {A} (a : A) : grows 0 (ste_ok a) (fun L L' b => L' = L /\ b = a).
Proof. intros s L r s' Hrep _ [= <- <-]. exists L. split_and!; [done..|lia|done|done]. Qed.

Lemma grows_bind {A B} n1 n2 (m : StE Rt A) (f : A -> StE Rt B) Q1 Q2 Q :
  (0 <= n2)%Z -> grows n1 m Q1 -> (forall a, grows n2 (f a) (Q2 a)) ->
  (forall L L1 L2 a b, L ⊆ L1 -> L1 ⊆ L2 -> Q1 L L1 a -> Q2 a L1 L2 b -> Q L L2 b) ->
  grows (n1 + n2) (ste_bind m f) Q.
Proof.
  intros Hn Hm Hf HQ s L r s' Hrep Hlt. unfold ste_bind. destruct (m s) as [r1 s1] eqn:E.
  destruct (Hm s L r1 s1 Hrep) as (L1 & Hsub1 & Hrep1 & Hn1 & Hr1); [lia|done|].
  destruct r1 as [a|e].
  - intros Hrun. destruct (Hf a s1 L1 r s' Hrep1) as (L2 & Hsub2 & Hrep2 & Hn2 & Hr2); [lia|done|].
    exists L2. split_and!; [by etrans|done|lia|]. destruct r; [by eapply HQ|done].
  - intros [= <- <-]. exists L1. split_and!; [done..|lia|done].
Qed.

Lemma grows_mono {A} n (m : StE Rt A) (Q Q' : gmap Z (BlobHandle * bytes) ->
    gmap Z (BlobHandle * bytes) -> A -> Prop) :
  grows n m Q -> (forall L L' a, Q L L' a -> Q' L L' a) -> grows n m Q'.
Proof.
  intros Hm HQ s L r s' Hrep Hlt E. destruct (Hm s L r s' Hrep Hlt E) as (L' & ? & ? & ? & Hr).
  exists L'. split_and!; try done. destruct r; [by apply HQ|done].
Qed.

(** Some call of the world has this result. *)
Definition seen {A} (m : StE W A) (a : A) : Prop := exists w w', m w = (Ok a, w').

(** An observation of the world that leaves the blob files alone. *)
Lemma grows_world {A} (m : StE W A) :
  (forall w r w', m w = (r, w') -> forall p, fs_content w' p = fs_content w p) ->
  grows 0 (on_world m) (same_with (seen m)).
Proof.
  intros Hframe s L r s' Hrep _. unfold on_world. destruct (m (world s)) as [r0 w] eqn:E.
  intros [= <- <-]. exists L. split_and!; [done| |simpl; lia|].
  - apply rep_set_world_same; [done|]. by eapply Hframe.
  - destruct r0 as [a|e]; [|done]. split; [done|]. by exists (world s), w.
Qed.

Lemma grows_notify services url hit : grows 0 (notify services url hit) (same_with (fun _ => True)).
Proof.
  unfold notify. destruct (has_cache_observer services).
  - intros s L r s' Hrep _. unfold st_bind, on_world.
    destruct (observe_cache url hit (world s)) as [u w] eqn:E. intros [= <- <-].
    exists L. split_and!; [done| |simpl; lia|done].
    apply rep_set_world_same; [done|]. by eapply observe_cache_frame.
  - eapply grows_mono; [apply grows_ok|]. by intros L L' a [-> _].
Qed.

Lemma grows_timed {A} n (m : StE Rt A) Q :
  (0 <= n)%Z -> grows n m Q -> grows n (timed m) (fun L L' a => Q L L' a.1).
Proof.
  intros Hn Hm s L r s' Hrep Hlt. unfold timed, st_bind, ste_bind, on_world.
  destruct (instant_now (world s)) as [t0 w0] eqn:E0.
  assert (Hrep0 : rep (set_world w0 s) L).
  { apply rep_set_world_same; [done|]. by eapply instant_now_frame. }
  destruct (m (set_world w0 s)) as [r1 s1] eqn:E1.
  destruct (Hm _ L r1 s1 Hrep0 Hlt E1) as (L1 & Hsub & Hrep1 & Hn1 & Hr1). simpl in Hn1.
  destruct r1 as [a|e]; [|intros [= <- <-]; by exists L1].
  destruct (instant_now (world s1)) as [t1 w1] eqn:E2. intros [= <- <-].
  exists L1. split_and!; [done| |done|done].
  apply rep_set_world_same; [done|]. by eapply instant_now_frame.
Qed.

Lemma grows_timed_world {A} (m : StE Rt A) P :
  grows 0 m (same_with P) -> grows 0 (timed m) (same_with (fun a => P a.1)).
Proof. intros Hm. by apply (grows_timed 0 m (same_with P)). Qed.

(** The blob is live and stands for these bytes. *)
Definition live_as (L : gmap Z (BlobHandle * bytes)) (h : BlobHandle) (mime : string) (bs : bytes) : Prop :=
  L !! blob_id h = Some (h, bs) /\ mime_type (meta h) = mime.

Lemma live_as_mono L L' h mime bs : L ⊆ L' -> live_as L h mime bs -> live_as L' h mime bs.
Proof. intros Hsub [Hl Hm]. split; [|done]. by eapply lookup_weaken. Qed.

(** The one new blob. *)
Definition stored_as (L L' : gmap Z (BlobHandle * bytes)) (h : BlobHandle) (mime : string) (bs : bytes)
    : Prop :=
  live_as L' h mime bs /\ L !! blob_id h = None /\ L' = <[blob_id h := (h, bs)]> L.

Lemma grows_store_shared bs mime :
  grows 1 (store_shared_bytes bs mime) (fun L L' h => stored_as L L' h mime bs).
Proof.
  intros s L r s' Hrep Hlt E.
  assert (Hspec := store_with_choice_spec s L bs mime r s' Hrep ltac:(lia) E).
  assert (Hn : (next_id_counter s' <= next_id_counter s + 1)%Z).
  { revert E. unfold store_shared_bytes, st_bind, ste_bind, next_id.
    match goal with |- context [choose_storage ?i ?b ?n ?s0] =>
      assert (Hc := choose_storage_next_id i b n s0); destruct (choose_storage i b n s0) as [r1 s1] end.
    simpl in Hc. rewrite u64_wrap_small in Hc by (destruct (rep_next _ _ Hrep); unfold in_u64; lia).
    destruct r1; intros [= <- <-]; lia. }
  destruct r as [h|e].
  - destruct Hspec as (Hm & Hnone & Hrep'). eexists. split_and!; [by apply insert_subseteq|done|done|].
    split; [split; [apply lookup_insert_eq|done]|by split].
  - by exists L.
Qed.

Lemma grows_store_external bs mime :
  grows 1 (store_external_shared_bytes bs mime) (fun L L' h => stored_as L L' h mime bs).
Proof.
  intros s L r s' Hrep Hlt E.
  assert (Hspec := store_external_spec s L bs mime r s' Hrep ltac:(lia) E).
  assert (Hn : (next_id_counter s' <= next_id_counter s + 1)%Z).
  { revert E. unfold store_external_shared_bytes, st_bind, next_id. intros [= <- <-]. simpl.
    rewrite u64_wrap_small by (destruct (rep_next _ _ Hrep); unfold in_u64; lia). lia. }
  destruct r as [h|e].
  - destruct Hspec as (Hm & Hnone & Hrep'). eexists. split_and!; [by apply insert_subseteq|done|done|].
    split; [split; [apply lookup_insert_eq|done]|by split].
  - by exists L.
Qed.

(** What the server of an image has answered, converted if the services say so. *)
Definition downloaded_directly (services : RequestMaterializeServices) (url mime : string) (bs : bytes)
    : Prop :=
  exists fetched,
    seen (fetch_image_as_inline_data_with_options url (services_max_image_bytes services)
            (services_allow_private_networks services)) fetched /\
    if enable_webp_optimization services
    then seen (maybe_convert_large_png_to_lossless_webp_with_timeout fetched
                 REQUEST_PNG_WEBP_OPTIMIZATION_TIMEOUT) (mkFetchedInlineData mime bs)
    else fetched = mkFetchedInlineData mime bs.

(** What a download of the URL can yield: this, or an answer of the fetch service. *)
Definition downloaded (services : RequestMaterializeServices) (url mime : string) (bs : bytes) : Prop :=
  if has_fetch_service services then exists hit, seen (fetch_url url) (mkFetchResult mime bs hit)
  else downloaded_directly services url mime bs.

(** A downloaded image whose blob is live with its MIME type, and the one that is new. *)
Definition fetched_live (services : RequestMaterializeServices) (url : string)
    (L : gmap Z (BlobHandle * bytes)) (fb : FetchedBlob) : Prop :=
  exists bs, live_as L (fetched_blob fb) (blob_mime_type fb) bs /\
    downloaded services url (blob_mime_type fb) bs.

Definition fetched_new (services : RequestMaterializeServices) (url : string)
    (L L' : gmap Z (BlobHandle * bytes)) (fb : FetchedBlob) : Prop :=
  exists bs, stored_as L L' (fetched_blob fb) (blob_mime_type fb) bs /\
    downloaded services url (blob_mime_type fb) bs.

Lemma fetched_live_mono services url L L' fb :
  L ⊆ L' -> fetched_live services url L fb -> fetched_live services url L' fb.
Proof. intros Hsub (bs & Hl & Hd). exists bs. split; [by eapply live_as_mono|done]. Qed.

Lemma fetched_new_live services url L L' fb :
  fetched_new services url L L' fb -> fetched_live services url L' fb.
Proof. intros (bs & [Hl _] & Hd). by exists bs. Qed.

Lemma grows_fetch_image url max allow :
  grows 0 (on_world (fetch_image_as_inline_data_with_options url max allow))
    (same_with (seen (fetch_image_as_inline_data_with_options url max allow))).
Proof. apply grows_world, frames_fetch_image. Qed.

Lemma grows_webp fetched timeout :
  grows 0 (on_world (maybe_convert_large_png_to_lossless_webp_with_timeout fetched timeout))
    (same_with (seen (maybe_convert_large_png_to_lossless_webp_with_timeout fetched timeout))).
Proof. apply grows_world, frames_webp. Qed.

(** A first step that adds nothing, and a last step that only returns. *)
Lemma grows_seq {A B} n (m : StE Rt A) (f : A -> StE Rt B) P Q :
  (0 <= n)%Z -> grows 0 m (same_with P) -> (forall a, P a -> grows n (f a) Q) -> grows n (ste_bind m f) Q.
Proof.
  intros Hn Hm Hf s L r s' Hrep Hlt. unfold ste_bind. destruct (m s) as [r1 s1] eqn:E.
  destruct (Hm s L r1 s1 Hrep) as (L1 & Hsub1 & Hrep1 & Hn1 & Hr1); [lia|done|].
  destruct r1 as [a|e]; [|intros [= <- <-]; exists L1; by split_and!; [..|lia|]].
  destruct Hr1 as [-> Ha]. intros Hrun.
  destruct (Hf a Ha s1 L r s' Hrep1) as (L2 & Hsub2 & Hrep2 & Hn2 & Hr2); [lia|done|].
  exists L2. split_and!; [done..|lia|done].
Qed.

Lemma grows_ret {A B} n (m : StE Rt A) (f : A -> StE Rt B) (g : A -> B) Q
    (Q' : gmap Z (BlobHandle * bytes) -> gmap Z (BlobHandle * bytes) -> B -> Prop) :
  grows n m Q -> (forall a, f a = ste_ok (g a)) -> (forall L L' a, Q L L' a -> Q' L L' (g a)) ->
  grows n (ste_bind m f) Q'.
Proof.
  intros Hm Hf HQ. replace n with (n + 0)%Z by lia.
  apply (grows_bind n 0 m f Q (fun a L L' b => L' = L /\ b = g a) Q'); [lia|done|..].
  - intros a. rewrite Hf. apply grows_ok.
  - intros L L1 L2 a b _ _ Ha [-> ->]. by apply HQ.
Qed.

Lemma grows_fetch_request_image url services :
  grows 1 (fetch_request_image url services)
    (fun L L' r => r.1.1 = url /\ fetched_new services url L L' r.1.2).
Proof.
  unfold fetch_request_image, fetched_new, downloaded. destruct (has_fetch_service services).
  - eapply grows_seq; [lia|apply grows_timed_world, grows_world, fetch_url_frame|].
    intros [fetched ms] Hseen. simpl in Hseen. eapply grows_seq; [lia|apply grows_notify|intros _ _].
    eapply (grows_ret 1 _ _ (fun p => (url, mkFetchedBlob (result_mime_type fetched) p.1, mkDurations ms p.2))
      (fun L L' a => stored_as L L' a.1 (result_mime_type fetched) (result_bytes fetched))).
    + apply (grows_timed 1 _ (fun L L' h => stored_as L L' h (result_mime_type fetched) (result_bytes fetched)));
        [lia|]. destruct (from_cache fetched); [apply grows_store_external|apply grows_store_shared].
    + by intros [h ms'].
    + intros L L' [h ms'] Hl. split; [done|]. exists (result_bytes fetched). split; [done|].
      exists (from_cache fetched). by destruct fetched.
  - eapply grows_seq; [lia|apply grows_timed_world, grows_fetch_image|].
    intros [fetched ms] Hseen. simpl in Hseen.
    set (Q := fun L L' (fb : FetchedBlob) => exists bs,
      stored_as L L' (fetched_blob fb) (blob_mime_type fb) bs /\
      downloaded_directly services url (blob_mime_type fb) bs).
    eapply (grows_ret 1 _ _ (fun p => (url, p.1, mkDurations ms p.2)) (fun L L' a => Q L L' a.1));
      [|by intros [fb ms']|by intros L L' [fb ms'] Hl].
    apply (grows_timed 1 _ Q); [lia|].
    apply (grows_seq 1 _ _ (fun f => if enable_webp_optimization services
      then seen (maybe_convert_large_png_to_lossless_webp_with_timeout fetched
                   REQUEST_PNG_WEBP_OPTIMIZATION_TIMEOUT) f else fetched = f)); [lia|..].
    + destruct (enable_webp_optimization services); [apply grows_webp|].
      eapply grows_mono; [apply grows_ok|]. by intros L L' a [-> ->].
    + intros f Hf. eapply grows_ret; [apply grows_store_shared|done|].
      intros L L' h Hl. exists (fetched_bytes f). split; [done|]. exists fetched. split; [done|].
      by destruct f.
Qed.

Definition all_live (services : RequestMaterializeServices) (L : gmap Z (BlobHandle * bytes))
    (m : gmap string FetchedBlob) : Prop :=
  forall u fb, m !! u = Some fb -> fetched_live services u L fb.

(** Every blob that was not live before is one of the downloaded ones. *)
Definition all_new (L L' : gmap Z (BlobHandle * bytes)) (m : gmap string FetchedBlob) : Prop :=
  forall id, is_Some (L' !! id) ->
    is_Some (L !! id) \/ exists u fb, m !! u = Some fb /\ blob_id (fetched_blob fb) = id.

(** And no downloaded blob was live before. *)
Definition all_fresh (L0 : gmap Z (BlobHandle * bytes)) (m : gmap string FetchedBlob) : Prop :=
  forall u fb, m !! u = Some fb -> L0 !! blob_id (fetched_blob fb) = None.

Lemma all_fresh_step services L0 L L' m u fb :
  L0 ⊆ L -> all_fresh L0 m -> fetched_new services u L L' fb -> all_fresh L0 (<[u := fb]> m).
Proof.
  intros Hsub Hm (bs & (_ & Hn & _) & _) v fv [[<- <-]|[_ Hl]]%lookup_insert_Some; [|by eapply Hm].
  by eapply lookup_weaken_None.
Qed.

Lemma all_new_step services L0 L L' m u fb :
  all_new L0 L m -> fetched_new services u L L' fb -> m !! u = None -> all_new L0 L' (<[u := fb]> m).
Proof.
  intros Hn (bs & (_ & _ & ->) & _) Hu id Hid. destruct (decide (blob_id (fetched_blob fb) = id)) as [<-|Hne].
  { right. exists u, fb. by rewrite lookup_insert_eq. }
  rewrite lookup_insert_ne in Hid by done. destruct (Hn id Hid) as [?|(v & fv & Hv & <-)]; [by left|].
  right. exists v, fv. rewrite lookup_insert_ne; [done|]. intros ->. congruence.
Qed.

Lemma join_loop services L0 l : forall m f1 f2 s L r s',
  NoDup l -> (forall u, u ∈ l -> m !! u = None) ->
  rep s L -> (next_id_counter s + Z.of_nat (length l) < u64_max)%Z -> all_live services L m -> all_new L0 L m ->
  L0 ⊆ L -> all_fresh L0 m ->
  ste_for (fun acc url =>
    let '(fetched_by_url, fetch_ms, store_ms) := acc in
    result <-? fetch_request_image url services ;;
    let '(url, fetched, durations) := result in
    ste_ok (<[url := fetched]> fetched_by_url, i64_wrap (fetch_ms + fetch_work_ms durations),
            i64_wrap (store_ms + store_work_ms durations))) (m, f1, f2) l s = (r, s') ->
  exists L', L ⊆ L' /\ rep s' L' /\
    (next_id_counter s' <= next_id_counter s + Z.of_nat (length l))%Z /\
    match r with
    | Ok a => all_live services L' a.1.1 /\ all_new L0 L' a.1.1 /\ all_fresh L0 a.1.1 /\
              (forall u, u ∈ l \/ is_Some (m !! u) <-> is_Some (a.1.1 !! u))
    | Err _ => True
    end.
Proof.
  induction l as [|u l IH]; intros m f1 f2 s L r s' Hnd Hfresh Hrep Hlt Hm Hnew Hsub0 Hf0.
  - intros [= <- <-]. exists L. split_and!; [done..|simpl; lia|done|done|done|].
    intros u. cbn [fst]. rewrite elem_of_nil. tauto.
  - apply NoDup_cons in Hnd as [Hul Hnd].
    cbn [ste_for]. unfold ste_bind. simpl length in Hlt.
    destruct (fetch_request_image u services s) as [r1 s1] eqn:E1.
    destruct (grows_fetch_request_image u services s L r1 s1 Hrep) as (L1 & Hsub & Hrep1 & Hn1 & Hr1);
      [lia|done|].
    destruct r1 as [[[u' fb] d]|e].
    2:{ intros [= <- <-]. exists L1. split_and!; [done..|simpl length; lia|done]. }
    destruct Hr1 as [Hu' Hfb]. simpl in Hu', Hfb. subst u'.
    assert (Hmu : m !! u = None) by (apply Hfresh; by left).
    intros Hrun. apply (IH _ _ _ s1 L1) in Hrun as (L2 & Hsub2 & Hrep2 & Hn2 & Hr2); [|done| |done|lia|..|by etrans|by eapply all_fresh_step].
    + exists L2. split_and!; [by etrans|done|simpl length; lia|].
      destruct r as [a|]; [|done]. destruct Hr2 as (Ha & Hna & Hfa & Hdom). split; [done|]. split; [done|]. split; [done|].
      intros v. rewrite <- Hdom, elem_of_cons. destruct (decide (u = v)) as [<-|Hne].
      * rewrite lookup_insert_eq. naive_solver.
      * rewrite lookup_insert_ne by done. naive_solver.
    + intros v Hv. rewrite lookup_insert_ne by (intros ->; done). apply Hfresh. by right.
    + intros v fv [[<- <-]|[_ Hl]]%lookup_insert_Some; [by eapply fetched_new_live|].
      eapply fetched_live_mono; [exact Hsub|]. by eapply Hm.
    + by eapply all_new_step.
Qed.

Lemma join_fetches_grows services urls :
  NoDup urls ->
  grows (Z.of_nat (length urls)) (join_fetches services urls)
    (fun L L' r => all_live services L' r.1.1 /\ all_new L L' r.1.1 /\ all_fresh L r.1.1 /\
                   forall u, u ∈ urls <-> is_Some (r.1.1 !! u)).
Proof.
  intros Hnd s L r s' Hrep Hlt E.
  apply (join_loop services L urls ∅ 0%Z 0%Z s L) in E as (L' & ? & ? & ? & Hr); try done.
  - exists L'. split_and!; [done..|]. destruct r as [a|]; [|done].
    destruct Hr as (Ha & Hn & Hf & Hd). split; [done|]. split; [done|]. split; [done|]. intros u. rewrite <- Hd, lookup_empty.
    split; [by left|]. by intros [?|[? ?]].
  - intros id Hid. by left.
Qed.

Lemma build_replacements_ok m refs :
  (forall r, r ∈ refs -> is_Some (m !! RequestScan.url r)) -> forall acc,
  exists reps, build_replacements m acc refs = Ok (acc ++ reps) /\
    Forall2 (fun r rep => json_pointer rep = RequestScan.json_pointer r /\
      exists fb, m !! RequestScan.url r = Some fb /\ replacement_blob rep = fetched_blob fb /\
        replacement_mime_type rep = blob_mime_type fb) refs reps.
Proof.
  induction refs as [|r refs IH]; intros Hall acc.
  - exists []. rewrite app_nil_r. split; [done|constructor].
  - destruct (Hall r) as [fb Hfb]; [left|].
    unfold build_replacements. rewrite try_fold_cons, Hfb. simpl and_then.
    destruct (IH (fun r' Hr' => Hall r' (list_elem_of_further _ _ _ Hr'))
      (acc ++ [mkRequestReplacement (RequestScan.json_pointer r) (blob_mime_type fb) (fetched_blob fb)]))
      as (reps & E & Hall2).
    unfold build_replacements in E. rewrite E.
    eexists (_ :: reps). rewrite <- app_assoc. split; [done|]. constructor; [|done].
    split; [done|]. exists fb. done.
Qed.

(** Every downloaded blob is in some replacement. *)
Lemma build_replacements_all (m : gmap string FetchedBlob) refs reps u fb :
  Forall2 (fun r rep => json_pointer rep = RequestScan.json_pointer r /\
    exists fb, m !! RequestScan.url r = Some fb /\ replacement_blob rep = fetched_blob fb /\
      replacement_mime_type rep = blob_mime_type fb) refs reps ->
  u ∈ (RequestScan.url <$> refs) -> m !! u = Some fb ->
  exists rep, rep ∈ reps /\ blob_id (replacement_blob rep) = blob_id (fetched_blob fb).
Proof.
  intros Hall (r & -> & Hr)%list_elem_of_fmap Hfb. induction Hall as [|r' rep refs reps Hhd Hall IH].
  { by apply not_elem_of_nil in Hr. }
  apply elem_of_cons in Hr as [<-|Hr].
  - destruct Hhd as (_ & fb' & Hfb' & Hb & _). exists rep. split; [left|]. rewrite Hb. congruence.
  - destruct (IH Hr) as (rep' & Hin & Hid). exists rep'. split; [by right|done].
Qed.
End laws.

(** * Theorems *)

Lemma materialize_request_images_run {W} `{MaterializeLaws W} `{HttpLib} `{ImageCodec}
    (s : BlobRuntimeInner W) L req services r s' :
  rep s L -> (next_id_counter s + 7 < u64_max)%Z ->
  materialize_request_images_with_services req services s = (r, s') ->
  exists L', L ⊆ L' /\ rep s' L' /\ (next_id_counter s' <= next_id_counter s + 7)%Z /\
    match r with
    | Err _ => True
    | Ok m =>
        request m = req /\
        (forall id, is_Some (L' !! id) -> is_Some (L !! id) \/
           exists rep, rep ∈ replacements m /\ blob_id (replacement_blob rep) = id) /\
        Forall (fun rep => L !! blob_id (replacement_blob rep) = None) (replacements m) /\
        exists refs, scan_request_image_urls req = Ok refs /\
          exists blob_of : string -> BlobHandle,
            Forall2 (fun r rep =>
              json_pointer rep = RequestScan.json_pointer r /\
              replacement_blob rep = blob_of (RequestScan.url r) /\
              exists bs, live_as L' (replacement_blob rep) (replacement_mime_type rep) bs /\
                downloaded services (RequestScan.url r) (replacement_mime_type rep) bs)
              refs (replacements m)
    end.
Proof.
  intros Hrep Hlt. unfold materialize_request_images_with_services, ste_bind, st_bind, on_world, ste_lift.
  destruct (scan_request_image_urls req) as [refs|e] eqn:Escan;
    [|intros [= <- <-]; exists L; by split_and!; [..|lia|]].
  destruct (completion_order _ (world s)) as [order w] eqn:Eo.
  destruct (completion_order_perm _ _ _ _ Eo) as [Hperm Hw].
  assert (Hrep1 : rep (set_world w s) L) by (by apply rep_set_world_same).
  assert (Hlen : (length order <= 7)%nat).
  { rewrite Hperm. rewrite scan_spec in Escan. apply capped_Ok in Escan as [-> Hlen].
    by etrans; [apply unique_urls_length|]. }
  destruct (join_fetches services order (set_world w s)) as [joined s1] eqn:Ej.
  assert (Hnd : NoDup order) by (rewrite Hperm; apply unique_urls_NoDup).
  destruct (join_fetches_grows services order Hnd (set_world w s) L joined s1 Hrep1) as
    (L' & Hsub & Hrep2 & Hid & Hj); [simpl; lia|done|].
  simpl in Hid. assert (Hid7 : (next_id_counter s1 <= next_id_counter s + 7)%Z) by lia.
  destruct joined as [[[m f1] f2]|e]; [|intros [= <- <-]; by exists L'].
  destruct Hj as (Hlive & Hnew & Hfresh & Hdom). simpl in Hlive, Hnew, Hfresh, Hdom.
  destruct (build_replacements_ok m refs) with (acc := @nil RequestReplacement) as (reps & Eb & Hreps).
  { intros r0 Hr0. apply Hdom. rewrite Hperm. apply unique_urls_elem. split; [set_solver|].
    apply list_elem_of_fmap. by exists r0. }
  rewrite Eb. intros [= <- <-]. exists L'. split_and!; [done..| | |].
  { simpl. intros id Hlid. destruct (Hnew id Hlid) as [?|(u & fb & Hu & <-)]; [by left|right].
    apply (build_replacements_all m refs reps u); [done| |done].
    assert (Hin : u ∈ order) by (apply Hdom; by exists fb).
    rewrite Hperm in Hin. by apply unique_urls_elem in Hin as [_ ?]. }
  { simpl. clear -Hreps Hfresh. induction Hreps as [|r0 rep0 refs reps (_ & fb & Hfb & Hb & _) _ IH];
      constructor; [rewrite Hb; by eapply Hfresh|done]. }
  exists refs. split; [done|].
  exists (fun u => from_option fetched_blob (mkBlobHandle 0 (mkBlobMeta EmptyString 0) (Inline EmptyString))
                     (m !! u)).
  simpl. eapply Forall2_impl; [exact Hreps|].
  intros r0 rep0 (Hp & fb & Hfb & Hb & Hm). split; [done|]. rewrite Hfb. split; [done|].
  destruct (Hlive _ _ Hfb) as (bs & Hl & Hd). exists bs. by rewrite Hb, Hm.
Qed.

(** C32: materializing a request keeps the store consistent and misses nothing: whatever the downloads,
    the disk and the scheduler do, blobs that were live stay live; and on success the request is
    returned unchanged with one replacement per scanned image URL, in scan order and at its
    pointer, whose blob is live, whose MIME type is the blob's and whose content is what a
    download of the URL has yielded - the same blob for the same URL - and the new blobs are exactly the replacements', so that the caller that releases
    the replacements' blobs releases all of them. *)
Theorem materialize_request_images_correct {W} `{MaterializeLaws W} `{HttpLib} `{ImageCodec}
    (s : BlobRuntimeInner W) L req services r s' :
  rep s L -> (next_id_counter s + 7 < u64_max)%Z ->
  materialize_request_images_with_services req services s = (r, s') ->
  exists L', L ⊆ L' /\ rep s' L' /\ (next_id_counter s' <= next_id_counter s + 7)%Z /\
    match r with
    | Err _ => True
    | Ok m =>
        request m = req /\
        (forall id, is_Some (L' !! id) -> is_Some (L !! id) \/
           exists rep, rep ∈ replacements m /\ blob_id (replacement_blob rep) = id) /\
        Forall (fun rep => L !! blob_id (replacement_blob rep) = None) (replacements m) /\
        exists refs, scan_request_image_urls req = Ok refs /\
          exists blob_of : string -> BlobHandle,
            Forall2 (fun r rep =>
              json_pointer rep = RequestScan.json_pointer r /\
              replacement_blob rep = blob_of (RequestScan.url r) /\
              exists bs, live_as L' (replacement_blob rep) (replacement_mime_type rep) bs /\
                downloaded services (RequestScan.url r) (replacement_mime_type rep) bs)
              refs (replacements m)
    end.
Proof. apply materialize_request_images_run. Qed.

(** * A concrete request, for the witnesses *)

#[export] Instance sample_fetcher : UrlFetcher SampleFs := {|
  fetch_url url w := (Ok (mkFetchResult "image/png" "cached" true), w);
|}.
#[export] Instance sample_stopwatch : Stopwatch SampleFs := {| instant_now w := (0%Z, w) |}.
#[export] Instance sample_observer : CacheObserver SampleFs := {| observe_cache _ _ w := (tt, w) |}.
#[export] Instance sample_join_order : JoinOrder SampleFs := {|
  completion_order urls w := (urls, w);
|}.
#[export] Instance sample_fetch_laws : FetchLaws SampleFs.
Proof. split; simpl; intros; simplify_eq; done. Qed.
#[export] Instance sample_materialize_laws : MaterializeLaws SampleFs.
Proof. split. simpl. intros. simplify_eq. done. Qed.

#[local] Existing Instance sample_codec.

Definition sample_images (second : string) : Value :=
  Object [("inlineData", Object [("data", Str "https://h.example/a.png")]);
          ("more", Array [Object [("inlineData", Object [("data", Str second)])]])].

Definition sample_services : RequestMaterializeServices := mkMaterializeServices 100 false false false false.

Lemma materialize_request_images_correct_witness :
  let result := materialize_request_images_with_services (sample_images "https://h.example/a.png")
                  sample_services sample_roomy in
  exists m h, result.1 = Ok m /\
    replacements m = [mkRequestReplacement "/inlineData" "image/png" h;
                      mkRequestReplacement "/more/0/inlineData" "image/png" h] /\
    exists L', sample_live1 ⊆ L' /\ rep result.2 L'.
Proof.
  intros result.
  exists (mkMaterialized (sample_images "https://h.example/a.png")
            [mkRequestReplacement "/inlineData" "image/png"
               (mkBlobHandle 2 (mkBlobMeta "image/png" 4) (Inline "abcd"));
             mkRequestReplacement "/more/0/inlineData" "image/png"
               (mkBlobHandle 2 (mkBlobMeta "image/png" 4) (Inline "abcd"))] 0 0),
    (mkBlobHandle 2 (mkBlobMeta "image/png" 4) (Inline "abcd")).
  split; [vm_compute; reflexivity|]. split; [reflexivity|].
  destruct (materialize_request_images_correct sample_roomy sample_live1
    (sample_images "https://h.example/a.png") sample_services result.1 result.2 sample_roomy_rep)
    as (L' & Hsub & Hrep & _ & _).
  - vm_compute. reflexivity.
  - apply surjective_pairing.
  - by exists L'.
Defined.

(** A request that fails half way leaks memory budget: with two images of which the second is
    refused, the first image's blob stays reserved (4 bytes here) in the runtime although the error
    carries no handle that could release it. *)
Theorem materialize_failure_leaks :
  exists e s', materialize_request_images_with_services (sample_images "http://127.0.0.1/b.png")
                 sample_services (runtime_new sample_roomy_config (∅ : SampleFs)) = (Err e, s') /\
    global_hot_bytes s' = 4%Z /\ removed s' = ∅.
Proof. eexists _, _. split; [vm_compute; reflexivity|]. split; vm_compute; reflexivity. Qed.
