(* ===== verification/ImageBlob.v ===== *)
(** [fetch_image_into_blob] (image_io.rs): an image downloaded straight into the blob store, without
    the fetch service: the composition of the guarded download, the re-encoding of large PNGs under a
    deadline, and the store. *)

From S2P Require Import Prelude RustStr Json Pointer Ext Samples.
From S2P Require Import ImageIo BlobRuntime RequestMaterialize.
From stdpp Require Import options.

Section into_blob.
Context `{UrlLib} `{HttpLib} `{ImageCodec} {W : Type} `{FileSystem W} `{!HttpClient W} `{!Runtime W}.

Definition fetch_image_into_blob (raw_url : string) (max_image_bytes : Z)
    (allow_private_networks : bool) : StE (BlobRuntimeInner W) FetchedBlob :=
  fetched <-? on_world (fetch_image_as_inline_data_with_options raw_url max_image_bytes
                          allow_private_networks) ;;
  fetched <-? on_world (maybe_convert_large_png_to_lossless_webp_with_timeout fetched
                          REQUEST_PNG_WEBP_OPTIMIZATION_TIMEOUT) ;;
  let mime_type := fetched_mime_type fetched in
  blob <-? store_shared_bytes (fetched_bytes fetched) mime_type ;;
  ste_ok (mkFetchedBlob mime_type blob).
End into_blob.

(** * Lemmas *)

Section laws.
#[local] Set Default Proof Using "All".
Context `{UrlLib} `{HttpLib} `{ImageCodec} {W : Type} `{FileSystemLaws W} `{!HttpClient W} `{!Runtime W}.
Context (http_frame : forall u (w : W) r w', http_get u w = (r, w') ->
  forall p, fs_content w' p = fs_content w p).
Context (timeout_frame : forall d (w : W) b w', timeout_elapses d w = (b, w') ->
  forall p, fs_content w' p = fs_content w p).
Context (join_frame : forall (w : W) e w', join_error w = (e, w') ->
  forall p, fs_content w' p = fs_content w p).

Lemma convert_frame f timeout (w w' : W) r :
  maybe_convert_large_png_to_lossless_webp_with_timeout f timeout w = (r, w') ->
  forall p, fs_content w' p = fs_content w p.
Proof.
  assert (Hrun : forall w w' r, maybe_convert_large_png_to_lossless_webp f w = (r, w') ->
    forall p, fs_content w' p = fs_content w p).
  { clear w w' r. intros w w' r. unfold maybe_convert_large_png_to_lossless_webp.
    destruct (join_error w) as [e w1] eqn:Ej. assert (Hj := join_frame _ _ _ Ej).
    by destruct e; intros [= <- <-]. }
  unfold maybe_convert_large_png_to_lossless_webp_with_timeout.
  destruct (timeout =? 0)%Z; [apply Hrun|].
  destruct (timeout_elapses timeout w) as [b w1] eqn:Et. assert (Ht := timeout_frame _ _ _ _ Et).
  destruct b; [by intros [= <- <-]|]. intros E p. by rewrite (Hrun _ _ _ E).
Qed.

Lemma download_frame url max allow (w w' : W) r :
  fetch_image_as_inline_data_with_options url max allow w = (r, w') ->
  forall p, fs_content w' p = fs_content w p.
Proof.
  unfold fetch_image_as_inline_data_with_options, ste_bind, ste_lift.
  destruct (check_fetch_target url allow) as [u|e]; [|by intros [= <- <-]].
  destruct (http_get u w) as [[resp|e] w1] eqn:Eg; simpl; intros [= <- <-]; by eapply http_frame.
Qed.

(** A blob made this way holds what a guarded download of its URL yielded, or a smaller re-encoding of
    it; it is never larger than the limit, and the store stays consistent whatever fails. *)
Lemma fetch_image_into_blob_spec s L url max allow r s' :
  rep s L -> (next_id_counter s < u64_max)%Z -> (0 <= max)%Z ->
  fetch_image_into_blob url max allow s = (r, s') ->
  match r with
  | Ok blob => exists fetched bs w,
      fetch_image_as_inline_data_with_options url max allow (world s) = (Ok fetched, w) /\
      optimized_from fetched (mkFetchedInlineData (blob_mime_type blob) bs) /\
      (blen bs <= max)%Z /\
      mime_type (meta (fetched_blob blob)) = blob_mime_type blob /\
      L !! blob_id (fetched_blob blob) = None /\
      rep s' (<[blob_id (fetched_blob blob) := (fetched_blob blob, bs)]> L)
  | Err _ => rep s' L
  end.
Proof.
  intros Hrep Hroom Hmax. unfold fetch_image_into_blob, ste_bind, on_world.
  destruct (fetch_image_as_inline_data_with_options url max allow (world s)) as [r1 w1] eqn:Ef.
  assert (Hrep1 := rep_set_world_same s L w1 Hrep (download_frame _ _ _ _ _ _ Ef)).
  destruct r1 as [f|e]; [|by intros [= <- <-]]. cbn [world set_world].
  destruct (maybe_convert_large_png_to_lossless_webp_with_timeout _ _ _) as [r2 w2] eqn:Eo.
  assert (Hrep2 := rep_set_world_same _ L w2 Hrep1 (convert_frame _ _ _ _ _ Eo)).
  destruct r2 as [o|e]; [|by intros [= <- <-]]. assert (Hopt := convert_optimizes _ _ _ _ _ Eo).
  destruct (store_shared_bytes _ _ _) as [r3 s3] eqn:Es.
  assert (Hst := store_with_choice_spec _ L _ _ _ _ Hrep2 Hroom Es).
  destruct r3 as [h|e]; intros [= <- <-]; [|done]. destruct Hst as (Hm & Hn & Hrep3). simpl.
  exists f, (fetched_bytes o), w1. split; [done|]. split; [by destruct o|].
  split; [|done]. destruct (fetch_image_run url max allow (world s) w1 f Hmax Ef)
    as (? & ? & _ & _ & _ & _ & _ & _ & _ & Hle).
  destruct Hopt as [->|(_ & _ & Hlt)]; lia.
Qed.
End laws.
