(* ===== verification/RequestRewrite.v ===== *)
(** request_rewrite.rs: the request document with its image URLs replaced by image data, and the
    translation of a request for the AI API Dev upstream (snake_case keys, [file_data] and
    [inline_data] parts). *)

From S2P Require Import Prelude RustStr Json Pointer Ext Samples.
From S2P Require Import ImageIo RequestScan BlobRuntime RequestEncode FetchService RequestMaterialize.
From stdpp Require Import options.

(** * Scan *)

Record InlineDataScan := mkInlineDataScan {
  scan_unique_urls : gset string;   (** the [HashSet], whose order is unspecified *)
  total_refs : nat;
}.

Definition scan_inline_data_urls (body : Value) : Result Error InlineDataScan :=
  let? refs := scan_request_image_urls body in
  if (MAX_INLINE_DATA_URLS <? length refs)%nat then Err (Anyhow "too many inlineData URLs") else
  Ok (mkInlineDataScan (list_to_set (RequestScan.url <$> refs)) (length refs)).

(** * Inlining, on a runtime of its own *)

Record RewriteServices := mkRewriteServices {
  rewrite_max_image_bytes : Z;
  rewrite_allow_private_networks : bool;
  rewrite_has_fetch_service : bool;
  rewrite_has_cache_observer : bool;
}.

Definition rewrite_services_default : RewriteServices :=
  mkRewriteServices REQUEST_MAX_IMAGE_BYTES false false false.

(** The static counter of [compat_blob_runtime] and the world. *)
Record Compat (W : Type) := mkCompat {
  compat_next_id : Z;
  compat_world : W;
}.
Arguments mkCompat {W}.
Arguments compat_next_id {W}.
Arguments compat_world {W}.

Section rewrite.
Context {W : Type} `{FileSystem W} `{UrlFetcher W} `{UrlLib} `{HttpLib} `{!HttpClient W}
  `{Runtime W} `{ImageCodec} `{Stopwatch W} `{CacheObserver W} `{JoinOrder W} `{JsonCodec} `{Base64} `{DuplexPipe W}
  `{Clock W}.
Context (temp_dir : string).

Definition compat_blob_runtime : St (Compat W) (BlobRuntimeInner W) := fun c =>
  let id := compat_next_id c in
  let '(unix_ms, w) := now_unix_ms (compat_world c) in
  (runtime_new (mkBlobRuntimeConfig (8 * 1024 * 1024) (24 * 1024 * 1024) (384 * 1024 * 1024)
     (path_join temp_dir ("rust-sync-proxy-request-rewrite-" +:+ fmt_Z unix_ms +:+ "-" +:+ fmt_Z id))) w,
   mkCompat (u64_wrap (id + 1)) w).

Definition remove_all (replacements : list RequestReplacement) : StE (BlobRuntimeInner W) unit :=
  ste_for (fun _ replacement => remove (replacement_blob replacement)) tt replacements.

Definition rewrite_request_inline_data (body : Value) (services : RewriteServices)
    : StE (Compat W) Value := fun c =>
  match scan_inline_data_urls body with
  | Err e => (Err e, c)
  | Ok scan =>
      if (total_refs scan =? 0)%nat then (Ok body, c) else
      let '(runtime, c) := compat_blob_runtime c in
      let '(r, runtime) :=
        (materialized <-? materialize_request_images_with_services body
           (mkMaterializeServices (rewrite_max_image_bytes services)
              (rewrite_allow_private_networks services) false (rewrite_has_fetch_service services)
              (rewrite_has_cache_observer services)) ;;
         encoded <-? encode_request_body (request materialized) (replacements materialized) ;;
         bs <-? read_bytes (body_blob encoded) ;;
         _ <-? remove_all (replacements materialized) ;;
         _ <-? remove (body_blob encoded) ;;
         ste_lift (map_err ExternalError (from_slice bs))) runtime in
      (r, mkCompat (compat_next_id c) (world runtime))
  end.
End rewrite.

(** * The AI API Dev request *)

Definition escape_json_pointer_token (token : string) : string :=
  replace_char "/" "~1" (replace_char "~" "~0" token).

Definition is_http_url (value : string) : bool :=
  starts_with value "http://" || starts_with value "https://".

Definition rewrite_aiapidev_key (key : string) : string :=
  if String.eqb key "generationConfig" then "generation_config"
  else if String.eqb key "imageConfig" then "image_config"
  else if String.eqb key "responseModalities" then "response_modalities"
  else if String.eqb key "aspectRatio" then "aspect_ratio"
  else if String.eqb key "imageSize" then "image_size"
  else key.

Definition strip_output_fields (body : Value) : Value :=
  let body := remove_key "output" body in
  foldl (fun body pointer => pointer_update (remove_key "output") pointer body) body
    ["/generationConfig/imageConfig"; "/generation_config/image_config"].

Definition is_already_wrapped_external_proxy_url (raw_url external_proxy_prefix : string) : bool :=
  starts_with raw_url external_proxy_prefix.

Section aiapidev.
Context `{UrlLib}.
Context (external_proxy_prefix : string) (external_proxy_domains : list string).

Definition maybe_wrap_aiapidev_file_uri (raw_url : string) : string :=
  if is_empty external_proxy_prefix || bool_decide (external_proxy_domains = [])
     || is_already_wrapped_external_proxy_url raw_url external_proxy_prefix
  then raw_url else
  match url_parse raw_url with
  | Err _ => raw_url
  | Ok parsed =>
      let hostname := url_host parsed in
      if negb (hostname_matches_domain_patterns hostname external_proxy_domains) then raw_url else
      let parsed := url_set_fragment None (url_set_query None parsed) in
      external_proxy_prefix +:+ byte_serialize (url_to_string parsed)
  end.

Definition rewrite_inline_data_payload (map : Map) : option (string * Value) :=
  inline_data ← match map_get "inlineData" map with
                | Some v => as_object v
                | None => map_get "inline_data" map ≫= as_object
                end;
  data ← obj_str "data" inline_data;
  let mime_type := default "image/png"
    (match map_get "mimeType" inline_data with
     | Some v => as_str v
     | None => map_get "mime_type" inline_data ≫= as_str
     end) in
  Some (if is_http_url data
        then ("file_data", Object [("file_uri", Str (maybe_wrap_aiapidev_file_uri data));
                                   ("mime_type", Str mime_type)])
        else ("inline_data", Object [("data", Str data); ("mime_type", Str mime_type)])).

(** The object of the rewritten children, in the order the code inserts them: under [/contents/] the
    role and the parts first. *)
Definition collect_children (in_contents : bool) (children : Map) : Map :=
  let out :=
    if in_contents then
      let out := match map_get "role" children with Some v => map_insert "role" v [] | None => [] end in
      match map_get "parts" children with Some v => map_insert "parts" v out | None => out end
    else [] in
  foldl (fun out kv =>
    if in_contents && (String.eqb kv.1 "role" || String.eqb kv.1 "parts") then out
    else map_insert (rewrite_aiapidev_key kv.1) kv.2 out) out children.

Fixpoint rewrite_aiapidev_value (value : Value) (path : string) : Value :=
  match value with
  | Object map =>
      match rewrite_inline_data_payload map with
      | Some (key, payload) => Object (map_insert key payload [])
      | None =>
          Object (collect_children (starts_with path "/contents/")
            ((fun kv => (kv.1, rewrite_aiapidev_value kv.2
                (path +:+ "/" +:+ escape_json_pointer_token (rewrite_aiapidev_key kv.1)))) <$> map))
      end
  | Array items =>
      Array ((fix go index items :=
                match items with
                | [] => []
                | item :: items =>
                    rewrite_aiapidev_value item (path +:+ "/" +:+ fmt_nat index) :: go (S index) items
                end) 0%nat items)
  | primitive => primitive
  end.

Definition rewrite_aiapidev_request_body (body : Value) : Value :=
  rewrite_aiapidev_value (strip_output_fields body) EmptyString.
End aiapidev.

(** * Lemmas *)

(** [P] holds of every key of every object in a document. *)
Fixpoint all_keys (P : string -> Prop) (v : Value) : Prop :=
  match v with
  | Object m => foldr (fun kv Q => P (fst kv) /\ all_keys P (snd kv) /\ Q) True m
  | Array l => foldr (fun x Q => all_keys P x /\ Q) True l
  | _ => True
  end.

Lemma all_keys_object P m :
  all_keys P (Object m) <-> Forall (fun kv => P kv.1 /\ all_keys P kv.2) m.
Proof.
  simpl. induction m as [|kv m IH]; simpl; [by split|]. rewrite Forall_cons, IH. tauto.
Qed.

Lemma all_keys_array P l : all_keys P (Array l) <-> Forall (all_keys P) l.
Proof. simpl. induction l as [|x l IH]; simpl; [by split|]. by rewrite Forall_cons, IH. Qed.

Definition camel_keys : list string :=
  ["generationConfig"; "imageConfig"; "responseModalities"; "aspectRatio"; "imageSize"].

Definition not_camel (k : string) : Prop := k ∉ camel_keys.

Lemma rewrite_key_not_camel k : not_camel (rewrite_aiapidev_key k).
Proof.
  unfold rewrite_aiapidev_key, not_camel, camel_keys.
  repeat match goal with |- context [String.eqb k ?s] => destruct (String.eqb_spec k s) end;
    rewrite !not_elem_of_cons; split_and!; try done; apply not_elem_of_nil.
Qed.

Lemma key_is_not_camel k : bool_decide (k ∈ camel_keys) = false -> not_camel k.
Proof. apply bool_decide_eq_false. Qed.

(** What holds of a rewritten map: it is well formed and free of the rewritten keys. *)
Definition clean (m : Map) : Prop :=
  wf_map m /\ Forall (fun kv => not_camel kv.1 /\ all_keys not_camel kv.2) m.

Lemma clean_insert k v m :
  clean m -> wf_value v -> not_camel k -> all_keys not_camel v -> clean (map_insert k v m).
Proof.
  intros [Hwf Hall] Hv Hk Hkv. split; [by apply wf_map_insert|].
  apply Forall_forall. intros kv [->|Hin]%map_insert_in; [done|].
  exact (proj1 (Forall_forall _ _) Hall _ Hin).
Qed.

Lemma clean_nil : clean [].
Proof. split; [split; [apply NoDup_nil_2|apply Forall_nil_2]|apply Forall_nil_2]. Qed.

Lemma collect_children_clean in_contents m :
  wf_map m -> Forall (fun kv => all_keys not_camel kv.2) m -> clean (collect_children in_contents m).
Proof.
  intros Hwf Hall. unfold collect_children.
  assert (Hget : forall k v, map_get k m = Some v -> wf_value v /\ all_keys not_camel v).
  { intros k v Hg. split; [by eapply map_get_wf|]. apply map_get_Some_in in Hg.
    exact (proj1 (Forall_forall _ _) Hall _ Hg). }
  set (out := if in_contents then _ else _).
  assert (Hout : clean out).
  { unfold out. destruct in_contents; [|apply clean_nil].
    destruct (map_get "role" m) as [v1|] eqn:E1; destruct (map_get "parts" m) as [v2|] eqn:E2;
      try apply Hget in E1 as [? ?]; try apply Hget in E2 as [? ?];
      repeat apply clean_insert; try apply clean_nil; try done; by apply key_is_not_camel. }
  clearbody out. destruct Hwf as [_ Hwf]. clear Hget. revert out Hout.
  induction m as [|[k v] m IH]; intros out Hout; simpl; [done|].
  apply Forall_cons in Hwf as [Hv Hwf], Hall as [Hk Hall]. apply IH; [done..|].
  destruct (_ && _); [done|]. apply clean_insert; try done. apply rewrite_key_not_camel.
Qed.

Section aiapidev_lemmas.
Context `{UrlLib} (prefix : string) (domains : list string).

Lemma payload_clean m k payload :
  rewrite_inline_data_payload prefix domains m = Some (k, payload) ->
  wf_value payload /\ not_camel k /\ all_keys not_camel payload.
Proof.
  unfold rewrite_inline_data_payload. intros (inl & _ & Hp)%bind_Some.
  apply bind_Some in Hp as (data & _ & Hp).
  destruct (is_http_url data); injection Hp as <- <-.
  all: split; [by apply wf_valueb_true|]; split; [by apply key_is_not_camel|].
  all: simpl; split_and!; try done; by apply key_is_not_camel.
Qed.

Lemma rewrite_value_clean v path :
  wf_value v ->
  let v' := rewrite_aiapidev_value prefix domains v path in
  wf_value v' /\ all_keys not_camel v'.
Proof.
  revert path. induction v as [| | | |l IH|m IH] using Value_ind'; intros path Hwf; try done.
  - cbn [rewrite_aiapidev_value]. apply wf_array in Hwf as [Hlen Hwf].
    set (go := fix go index items := match items with [] => [] | item :: items' => _ end).
    assert (Hgo : forall i, length (go i l) = length l /\ Forall wf_value (go i l) /\
                            Forall (all_keys not_camel) (go i l)).
    { clear Hlen. induction l as [|x l IHl]; intros i; [done|].
      apply Forall_cons in IH as [Hx IH], Hwf as [Hwx Hwf]. simpl.
      destruct (IHl IH Hwf (S i)) as (-> & ? & ?). destruct (Hx (path +:+ "/" +:+ fmt_nat i) Hwx).
      split; [done|]. by split; constructor. }
    destruct (Hgo 0%nat) as (Hl & ? & ?). split.
    + apply wf_array. by rewrite Hl.
    + by apply all_keys_array.
  - cbn [rewrite_aiapidev_value].
    destruct (rewrite_inline_data_payload prefix domains m) as [[k payload]|] eqn:Ep.
    + destruct (payload_clean _ _ _ Ep) as (? & ? & ?). simpl map_insert. split.
      * apply wf_object. split; [apply NoDup_singleton|by constructor].
      * apply all_keys_object. by constructor.
    + apply wf_object in Hwf as [Hnd Hwf].
      set (f := fun kv : string * Value => (kv.1, _)).
      assert (Hf : Forall (fun kv => wf_value kv.2 /\ all_keys not_camel kv.2) (f <$> m)).
      { apply Forall_fmap. apply Forall_forall. intros kv Hin. simpl.
        eapply Forall_forall in IH; [|exact Hin]. eapply Forall_forall in Hwf; [|exact Hin].
        by apply IH. }
      apply Forall_and in Hf as [Hf1 Hf2].
      assert (Hkeys : (f <$> m).*1 = m.*1) by (rewrite <- list_fmap_compose; by apply list_fmap_ext).
      assert (Hwfm : wf_map (f <$> m)) by (split; [by rewrite Hkeys|done]).
      destruct (collect_children_clean (starts_with path "/contents/") (f <$> m) Hwfm Hf2) as [Hcw Hck].
      split; [by apply wf_object|by apply all_keys_object].
Qed.
End aiapidev_lemmas.

(** * Theorems *)

Lemma strip_output_fields_wf body : wf_value body -> wf_value (strip_output_fields body).
Proof.
  intros Hwf. unfold strip_output_fields. cbn [foldl].
  repeat apply pointer_update_wf; intros; by repeat apply remove_key_wf.
Qed.

(** A translated request is clean: for any well-formed request the AI API Dev body is well formed
    (no object has two entries of one key, also when both spellings were present) and none of its
    objects, at any depth, has one of the five camelCase keys that the upstream does not know. *)
Theorem aiapidev_request_clean `{UrlLib} prefix domains body :
  wf_value body ->
  let body' := rewrite_aiapidev_request_body prefix domains body in
  wf_value body' /\ all_keys (fun k => k ∉ camel_keys) body'.
Proof.
  intros Hwf. apply rewrite_value_clean. by apply strip_output_fields_wf.
Qed.

Lemma aiapidev_request_clean_witness :
  let body := Object
    [("contents", Array [Object [("parts", Array [Object [("inlineData",
        Object [("data", Str "https://img.example.com/a.png?x=1")])]]); ("role", Str "user")]]);
     ("generationConfig", Object [("imageConfig", Object [("output", Str "url"); ("imageSize", Str "4K")])])] in
  let body' := rewrite_aiapidev_request_body "https://p/?u=" [".example.com"] body in
  body' = Object
    [("contents", Array [Object [("role", Str "user"); ("parts", Array [Object [("file_data",
        Object [("file_uri", Str "https://p/?u=https%3A%2F%2Fimg.example.com%2Fa.png");
                ("mime_type", Str "image/png")])]])]]);
     ("generation_config", Object [("image_config", Object [("image_size", Str "4K")])])] /\
  all_keys (fun k => k ∉ camel_keys) body'.
Proof.
  intros body body'. split; [vm_compute; reflexivity|].
  apply (aiapidev_request_clean "https://p/?u=" [".example.com"] body).
  apply wf_valueb_true. reflexivity.
Defined.
