(* ===== verification/RequestSteps.v ===== *)
(** request_materialize.rs and request_encode.rs, one access at a time: the images of a request fetched
    and stored, its body encoded and stored, and its blobs removed, as sequences of accesses to what
    requests share.  Each is proved to do, when it is left alone, what the function of the same name
    does, and to end. *)

From S2P Require Import Prelude RustStr Json Pointer Ext Samples Interleave Inside ImageIo RequestScan.
From S2P Require Import BlobRuntime BlobSteps RequestEncode FetchService RequestMaterialize RequestRewrite.
From stdpp Require Import relations options.

(** [for x in list { acc = body(acc, x)?; }] *)
Definition prog_for {S E A B} (f : A -> B -> Prog S (Result E A)) : A -> list B -> Prog S (Result E A) :=
  fix go acc l :=
    match l with
    | [] => Ret (Ok acc)
    | x :: l' => bind_ok (f acc x) (fun acc => go acc l')
    end.

(** * The steps *)

Section steps.
Context {W : Type} `{FileSystem W}.
Abbreviation Rt := (BlobRuntimeInner W).
Context (c : BlobRuntimeConfig).

(** An access to the surroundings, awaited or not. *)
Definition net {A} (m : St W A) : Prog Rt A := awaited (on_world m).
Definition glance {A} (m : St W A) : Prog Rt A := atomic (on_world m).

Section materialize.
Context `{UrlFetcher W} `{UrlLib} `{HttpLib} `{!HttpClient W} `{Runtime W} `{ImageCodec}
  `{Stopwatch W} `{CacheObserver W} `{JoinOrder W}.

Definition notify_steps (services : RequestMaterializeServices) (url : string) (hit : bool)
    : Prog Rt (Result Error unit) :=
  if has_cache_observer services then (_ <~ glance (observe_cache url hit) ;; Ret (Ok tt))
  else Ret (Ok tt).

Definition timed_steps {A} (p : Prog Rt (Result Error A)) : Prog Rt (Result Error (A * Z)) :=
  started <~ glance instant_now ;;
  a <~? p ;;
  now <~ glance instant_now ;;
  Ret (Ok (a, i64_wrap (now - started))).

Definition store_fetched_steps (services : RequestMaterializeServices) (fetched : FetchedInlineData)
    : Prog Rt (Result Error FetchedBlob) :=
  fetched <~? (if enable_webp_optimization services
               then net (maybe_convert_large_png_to_lossless_webp_with_timeout fetched
                           REQUEST_PNG_WEBP_OPTIMIZATION_TIMEOUT)
               else Ret (Ok fetched)) ;;
  blob <~? store_shared_bytes_steps c (fetched_bytes fetched) (fetched_mime_type fetched) ;;
  Ret (Ok (mkFetchedBlob (fetched_mime_type fetched) blob)).

Definition fetch_request_image_steps (url : string) (services : RequestMaterializeServices)
    : Prog Rt (Result Error (string * FetchedBlob * RequestImageWorkDurations)) :=
  if has_fetch_service services then
    fetched_ms <~? timed_steps (net (fetch_url url)) ;;
    let '(fetched, fetch_ms) := fetched_ms in
    _ <~? notify_steps services url (from_cache fetched) ;;
    stored <~? timed_steps
      (if from_cache fetched
       then store_external_shared_bytes_steps (result_bytes fetched) (result_mime_type fetched)
       else store_shared_bytes_steps c (result_bytes fetched) (result_mime_type fetched)) ;;
    let '(blob, store_ms) := stored in
    Ret (Ok (url, mkFetchedBlob (result_mime_type fetched) blob, mkDurations fetch_ms store_ms))
  else
    fetched_ms <~? timed_steps (net (fetch_image_as_inline_data_with_options url
                                       (services_max_image_bytes services)
                                       (services_allow_private_networks services))) ;;
    let '(fetched, fetch_ms) := fetched_ms in
    stored <~? timed_steps (store_fetched_steps services fetched) ;;
    let '(fetched, store_ms) := stored in
    Ret (Ok (url, fetched, mkDurations fetch_ms store_ms)).

Definition join_fetches_steps (services : RequestMaterializeServices) (urls : list string)
    : Prog Rt (Result Error (gmap string FetchedBlob * Z * Z)) :=
  prog_for (fun acc url =>
    let '(fetched_by_url, fetch_ms, store_ms) := acc in
    result <~? fetch_request_image_steps url services ;;
    let '(url, fetched, durations) := result in
    Ret (Ok (<[url := fetched]> fetched_by_url, i64_wrap (fetch_ms + fetch_work_ms durations),
             i64_wrap (store_ms + store_work_ms durations))))
    (∅, 0%Z, 0%Z) urls.

Definition materialize_steps (req : Value) (services : RequestMaterializeServices)
    : Prog Rt (Result Error MaterializedRequestImages) :=
  match scan_request_image_urls req with
  | Err e => Ret (Err e)
  | Ok refs =>
      order <~ glance (completion_order (unique_urls [] refs)) ;;
      joined <~? join_fetches_steps services order ;;
      let '(fetched_by_url, fetch_ms, store_ms) := joined in
      Ret (let? reps := build_replacements fetched_by_url [] refs in
           Ok (mkMaterialized req reps fetch_ms store_ms))
  end.
End materialize.

Section encode.
Context `{JsonCodec} `{Base64} `{Runtime W} `{DuplexPipe W}.

(** The writer: what it has written, and the count. *)
Fixpoint write_steps {A} (p : Writing A) (out : bytes * Z) : Prog Rt (Result Error A * (bytes * Z)) :=
  match p with
  | Written a => Ret (Ok a, out)
  | WriteFailed e => Ret (Err e, out)
  | WriteOut bs k => write_steps k (out.1 +:+ bs, u64_wrap (out.2 + blen bs))
  | OpenForRead handle n k =>
      opened <~ open_reader_steps handle n ;;
      match opened with
      | Ok stream => write_steps (k stream) out
      | Err e => Ret (Err e, out)
      end
  end.

Definition abort_store_steps (written : bytes) : Prog Rt unit :=
  progress <~ glance (abort_progress written) ;;
  match progress with
  | None => Ret tt
  | Some chunks =>
      let inline_limit := Z.min (inline_max_bytes c) (request_hot_budget_bytes c) in
      id <~ atomic next_id ;;
      _ <~ stream_loop_steps c id inline_limit chunks None EmptyString None ;;
      Ret tt
  end.

Definition encode_request_body_steps (request : Value) (replacements : list RequestReplacement)
    : Prog Rt (Result Error EncodedRequestBody) :=
  let request := strip_output_from_value request in
  let replacements := replacement_map replacements in
  written <~ write_steps (write_json_value EmptyString request replacements) (EmptyString, 0%Z) ;;
  let '(write_result, (out, length)) := written in
  match write_result with
  | Ok _ =>
      chunks <~ glance (duplex_chunks out) ;;
      stored <~ store_stream_steps c (mkReadStream chunks None) "application/json" ;;
      panicked <~ glance join_error ;;
      Ret match panicked with
          | Some e => Err (ExternalError e)
          | None =>
              let? body_blob := stored in
              Ok (mkEncodedRequestBody body_blob length)
          end
  | Err err => _ <~ abort_store_steps out ;; Ret (Err err)
  end.
End encode.

Definition remove_all_steps (replacements : list RequestReplacement) : Prog Rt (Result Error unit) :=
  prog_for (fun _ replacement => remove_steps (replacement_blob replacement)) tt replacements.
End steps.

(** * Without interference *)

Section alone.
#[local] Set Default Proof Using "Type".
Context {W : Type} `{FileSystem W}.
Abbreviation Rt := (BlobRuntimeInner W).
Context (c : BlobRuntimeConfig).

Abbreviation does := (does (fun s : Rt => cfg s = c)).

Lemma rt_does_ret {A} (a : A) : does (Ret a) (st_ret a).
Proof. apply Interleave.does_ret. Qed.

Lemma rt_does_bind {A B} (p : Prog Rt A) (f : A -> Prog Rt B) m g :
  does p m -> (forall a, does (f a) (g a)) -> does (bind p f) (st_bind m g).
Proof. apply Interleave.does_bind. Qed.

Lemma rt_does_bind_ok {A B} (p : Prog Rt (Result Error A)) (f : A -> Prog Rt (Result Error B)) m g :
  does p m -> (forall a, does (f a) (g a)) -> does (bind_ok p f) (ste_bind m g).
Proof. apply Interleave.does_bind_ok. Qed.

Lemma does_world {A} aw (m : St W A) : does (Act aw (on_world m) Ret) (on_world m).
Proof. apply does_act. intros s Hs. unfold on_world. by destruct (m (world s)). Qed.

Lemma does_for {A B} (f : A -> B -> Prog Rt (Result Error A)) g acc l :
  (forall acc x, does (f acc x) (g acc x)) -> does (prog_for f acc l) (ste_for g acc l).
Proof.
  intros Hf. revert acc. induction l as [|x l IH]; intros acc; cbn [prog_for ste_for]; [apply rt_does_ret|].
  by apply rt_does_bind_ok.
Qed.

#[local] Hint Resolve rt_does_ret rt_does_bind rt_does_bind_ok does_world does_store does_read does_open
  does_remove does_next_id does_stream_loop : alone.

Section materialize.
Context `{UrlFetcher W} `{UrlLib} `{HttpLib} `{!HttpClient W} `{Runtime W} `{ImageCodec}
  `{Stopwatch W} `{CacheObserver W} `{JoinOrder W}.

Lemma does_notify services url hit : does (notify_steps services url hit) (notify services url hit).
Proof.
  unfold notify_steps, notify. destruct (has_cache_observer services); [|apply rt_does_ret].
  apply rt_does_bind; [apply does_world|]. intros []. apply rt_does_ret.
Qed.

Lemma does_timed {A} (p : Prog Rt (Result Error A)) m : does p m -> does (timed_steps p) (timed m).
Proof.
  intros Hp. apply (rt_does_bind _ _ (on_world instant_now) (fun started => ste_bind m (fun a =>
    st_bind (on_world instant_now) (fun now => ste_ok (a, i64_wrap (now - started)))))); [apply does_world|].
  intros started. apply rt_does_bind_ok; [done|]. intros a. apply rt_does_bind; [apply does_world|].
  intros now. apply rt_does_ret.
Qed.

Lemma does_fetch_request_image url services :
  does (fetch_request_image_steps c url services) (fetch_request_image url services).
Proof.
  unfold fetch_request_image_steps, fetch_request_image. destruct (has_fetch_service services).
  - apply rt_does_bind_ok; [apply does_timed, does_world|]. intros [fetched ms].
    apply rt_does_bind_ok; [apply does_notify|]. intros _.
    apply rt_does_bind_ok; [|intros [blob ms']; apply rt_does_ret]. apply does_timed.
    destruct (from_cache fetched);
      [apply (does_store c (CallExternal (result_bytes fetched)))|apply (does_store c (CallShared (result_bytes fetched)))].
  - apply rt_does_bind_ok; [apply does_timed, does_world|]. intros [fetched ms].
    apply rt_does_bind_ok; [|intros [blob ms']; apply rt_does_ret]. apply does_timed.
    apply rt_does_bind_ok; [destruct (enable_webp_optimization services); [apply does_world|apply rt_does_ret]|].
    intros f. apply rt_does_bind_ok; [apply (does_store c (CallShared (fetched_bytes f)))|]. intros blob. apply rt_does_ret.
Qed.

Lemma does_join_fetches services urls :
  does (join_fetches_steps c services urls) (join_fetches services urls).
Proof.
  apply does_for. intros [[m f1] f2] url. apply rt_does_bind_ok; [apply does_fetch_request_image|].
  intros [[u fetched] durations]. apply rt_does_ret.
Qed.

Lemma does_materialize req services :
  does (materialize_steps c req services) (materialize_request_images_with_services req services).
Proof.
  unfold materialize_steps, materialize_request_images_with_services, ste_lift.
  destruct (scan_request_image_urls req) as [refs|e]; [|apply rt_does_ret].
  apply (rt_does_bind _ _ (on_world (completion_order (unique_urls [] refs)))); [apply does_world|]. intros order.
  apply rt_does_bind_ok; [apply does_join_fetches|]. intros [[m f1] f2].
  eapply does_ext; [|apply rt_does_ret]. intros s Hs. unfold ste_bind.
  by destruct (build_replacements m [] refs).
Qed.
End materialize.

Section encode.
Context `{JsonCodec} `{Base64} `{Runtime W} `{DuplexPipe W}.

Lemma write_steps_solo {A} (p : Writing A) out s :
  cfg s = c ->
  let '(r, wr) := run_writing p (mkWriter s out.1 out.2) in
  solo (write_steps p out) s (r, (wr_out wr, wr_length wr)) (wr_runtime wr) /\ cfg (wr_runtime wr) = c.
Proof.
  revert out s. induction p as [a|e|bs p IH|h n k IH]; intros out s Hs; cbn [run_writing write_steps].
  - split; [|done]. destruct out. apply solo_ret.
  - split; [|done]. destruct out. apply solo_ret.
  - apply (IH (_, _)). done.
  - unfold ste_bind, RequestEncode.on_runtime. cbn [wr_runtime].
    destruct (does_open c h n s Hs) as [Hsolo Hc]. destruct (open_reader h n s) as [[stream|e] rt].
    + specialize (IH stream out rt Hc). destruct (run_writing _ _) as [r wr]. destruct IH as [Hk ?].
      split; [|done]. by eapply solo_bind.
    + split; [|done]. eapply solo_bind; [exact Hsolo|]. destruct out. apply solo_ret.
Qed.

Lemma does_abort_store written : does (abort_store_steps c written) (abort_store written).
Proof.
  eapply does_ext; [intros s Hs; unfold abort_store; rewrite Hs; reflexivity|].
  apply rt_does_bind; [apply does_world|]. intros [chunks|]; [|apply rt_does_ret].
  apply rt_does_bind; [apply does_next_id|]. intros id.
  apply rt_does_bind; [apply does_stream_loop|]. intros _. apply rt_does_ret.
Qed.

Lemma does_encode request reps :
  does (encode_request_body_steps c request reps) (encode_request_body request reps).
Proof.
  intros s Hs. unfold encode_request_body_steps, encode_request_body.
  assert (Hw := write_steps_solo (write_json_value EmptyString (strip_output_from_value request)
    (replacement_map reps)) (EmptyString, 0%Z) s Hs). cbn [fst snd] in Hw.
  destruct (run_writing _ _) as [r wr]. destruct Hw as [Hsolo Hc].
  assert (Hrest : forall B (f : _ -> Prog Rt B) m,
    does (f (r, (wr_out wr, wr_length wr))) m ->
    solo (bind (write_steps (write_json_value EmptyString (strip_output_from_value request)
      (replacement_map reps)) (EmptyString, 0%Z)) f) s (m (wr_runtime wr)).1 (m (wr_runtime wr)).2 /\
    cfg (m (wr_runtime wr)).2 = c).
  { intros B f m Hf. destruct (Hf _ Hc) as [Hf' ?]. split; [|done]. by eapply solo_bind. }
  destruct r as [u|err]; apply Hrest.
  - apply rt_does_bind; [apply does_world|]. intros chunks.
    apply rt_does_bind; [apply (does_store c (CallStream (mkReadStream chunks None)))|]. intros stored.
    apply rt_does_bind; [apply does_world|]. intros [e|]; [apply rt_does_ret|].
    eapply does_ext; [|apply rt_does_ret]. intros s1 _. by destruct stored.
  - apply rt_does_bind; [apply does_abort_store|]. intros []. apply rt_does_ret.
Qed.
End encode.

Lemma does_remove_all reps : does (remove_all_steps reps) (remove_all reps).
Proof. apply does_for. intros _ x. apply does_remove. Qed.
End alone.

Lemma every_for {S E A B} (P : relation S) (f : A -> B -> Prog S (Result E A)) acc l :
  (forall acc x, every P (f acc x)) -> every P (prog_for f acc l).
Proof.
  intros Hf. revert acc. induction l as [|x l IH]; intros acc; cbn [prog_for]; [done|]. by apply every_bind_ok.
Qed.

(** * Every program ends when it is left alone *)

Lemma ends_for {S E A B} (f : A -> B -> Prog S (Result E A)) acc l :
  (forall acc x, ends (f acc x)) -> ends (prog_for f acc l).
Proof.
  intros Hf. revert acc. induction l as [|x l IH]; intros acc; cbn [prog_for]; [done|]. by apply ends_bind_ok.
Qed.

Section ending.
#[local] Set Default Proof Using "Type".
Context {W : Type} `{FileSystem W}.
Abbreviation Rt := (BlobRuntimeInner W).
Context (c : BlobRuntimeConfig).

Lemma ends_store_shared bs mime : ends (store_shared_bytes_steps c bs mime : Prog Rt _).
Proof. apply (ends_store c (CallShared bs)). Qed.

Lemma ends_store_external bs mime : ends (store_external_shared_bytes_steps bs mime : Prog Rt _).
Proof. done. Qed.
#[local] Hint Resolve ends_store_shared ends_store_external : core.

Section materialize.
Context `{UrlFetcher W} `{UrlLib} `{HttpLib} `{!HttpClient W} `{Runtime W} `{ImageCodec}
  `{Stopwatch W} `{CacheObserver W} `{JoinOrder W}.

Lemma ends_timed {A} (p : Prog Rt (Result Error A)) : ends p -> ends (timed_steps p).
Proof. intros Hp t0. by apply ends_bind_ok. Qed.

Lemma ends_fetch_request_image url services : ends (fetch_request_image_steps c url services : Prog Rt _).
Proof.
  unfold fetch_request_image_steps. destruct (has_fetch_service services).
  - apply ends_bind_ok; [by apply ends_timed|]. intros [fetched ms]. apply ends_bind_ok.
    { unfold notify_steps. by destruct (has_cache_observer services). }
    intros _. apply ends_bind_ok; [|by intros []]. apply ends_timed. by destruct (from_cache fetched).
  - apply ends_bind_ok; [by apply ends_timed|]. intros [fetched ms].
    apply ends_bind_ok; [|by intros []]. apply ends_timed.
    apply ends_bind_ok; [by destruct (enable_webp_optimization services)|]. intros f.
    by apply ends_bind_ok.
Qed.

Lemma ends_materialize req services : ends (materialize_steps c req services : Prog Rt _).
Proof.
  unfold materialize_steps. destruct (scan_request_image_urls req) as [refs|e]; [|done].
  intros order. apply ends_bind_ok; [|by intros [[]]]. apply ends_for. intros [[m f1] f2] url.
  apply ends_bind_ok; [apply ends_fetch_request_image|]. by intros [[]].
Qed.
End materialize.

Section encode.
Context `{JsonCodec} `{Base64} `{Runtime W} `{DuplexPipe W}.

Lemma ends_write {A} (p : Writing A) out : ends (write_steps p out : Prog Rt _).
Proof.
  revert out. induction p as [a|e|bs p IH|h n k IH]; intros out; [done|done|apply IH|].
  apply ends_bind; [apply ends_open|]. intros [stream|e]; [apply IH|done].
Qed.

Lemma ends_encode request reps : ends (encode_request_body_steps c request reps : Prog Rt _).
Proof.
  apply ends_bind; [apply ends_write|]. intros [[u|e] [out length]].
  - apply ends_bind; [done|intros chunks].
    apply ends_bind; [apply (ends_store c (CallStream (mkReadStream chunks None)))|]. intros stored.
    by apply ends_bind.
  - apply ends_bind; [|done]. apply ends_bind; [done|]. intros [chunks|]; [|done].
    apply ends_bind; [done|intros id]. apply ends_bind; [apply ends_stream_loop|done].
Qed.
End encode.

Lemma ends_remove_all reps : ends (remove_all_steps reps : Prog Rt _).
Proof. apply ends_for. intros _ x. apply ends_remove. Qed.
End ending.
