(* ===== verification/RequestLogic.v ===== *)
(** What a request does to the blob store, when it shares it with others: the rules of BlobLogic.v for
    the programs of RequestSteps.v.  A request owns the blobs of its images and of its body, so what
    it is told about them stays true whatever other requests do: the images are stored as they were
    downloaded, the body that is stored is the request's document with its own images in place, and
    in the end every blob is removed. *)

From S2P Require Import Prelude RustStr Json Pointer Ext Samples Interleave ImageIo RequestScan.
From S2P Require Import BlobRuntime BlobSteps BlobLogic RequestEncode FetchService RequestMaterialize.
From S2P Require Import RequestRewrite RequestSteps.
From stdpp Require Import relations options.

(** * Triples

    From what a task owns at the start to its result and what it owns then; the others may do
    anything.  A task that is dropped may leave blobs behind. *)

Section triples.
#[local] Set Default Proof Using "Type".
Context {W : Type} `{FileSystemLaws W}.
Abbreviation Rt := (BlobRuntimeInner W).
Context (c : BlobRuntimeConfig).

Abbreviation wpr := (wp (blob_inv c) blob_ext (fun _ => True)).

Definition triple {A} (r : Held) (p : Prog Rt A) (Q : A -> Held -> Prop) : Prop :=
  forall w, wpr p w r (fun _ => Q).

Lemma triple_mono {A} r (p : Prog Rt A) (Q Q' : A -> Held -> Prop) :
  triple r p Q -> (forall a r', Q a r' -> Q' a r') -> triple r p Q'.
Proof. intros Hp HQ w. eapply wp_conseq; [apply _| |apply Hp]. auto. Qed.

Lemma triple_ret {A} r (a : A) (Q : A -> Held -> Prop) : Q a r -> triple r (Ret a) Q.
Proof. by intros HQ w. Qed.

Lemma triple_bind {A B} r (p : Prog Rt A) (f : A -> Prog Rt B) R Q :
  triple r p R -> (forall a r', R a r' -> triple r' (f a) Q) -> triple r (bind p f) Q.
Proof.
  intros Hp Hf w. apply blob_bind. eapply wp_conseq; [apply _| |apply Hp]. simpl. intros w' a r' HR.
  by apply (Hf a r' HR).
Qed.

(** After an error nothing is claimed. *)
Definition ok_or_fail {A} (Q : A -> Held -> Prop) (res : Result Error A) (r : Held) : Prop :=
  match res with Ok a => Q a r | Err _ => True end.

Lemma triple_bind_ok {A B} r (p : Prog Rt (Result Error A)) (f : A -> Prog Rt (Result Error B)) R Q :
  triple r p (ok_or_fail R) -> (forall a r', R a r' -> triple r' (f a) (ok_or_fail Q)) ->
  triple r (bind_ok p f) (ok_or_fail Q).
Proof.
  intros Hp Hf. eapply triple_bind; [exact Hp|]. intros [a|e] r' HR; [by apply Hf|by apply triple_ret].
Qed.

Lemma triple_world {A} aw (m : St W A) r (Q : A -> Held -> Prop) :
  frames m -> (forall x a x', m x = (a, x') -> Q a r) -> triple r (Act aw (on_world m) Ret) Q.
Proof.
  intros Hframe HQ w. destruct r as [t l].
  apply (wp_frame c (fun _ => True) t l aw m Ret w []); [done|done|].
  intros g s others res x' _ _ Em. by eapply HQ.
Qed.

(** The rules of the store, with the blobs [B] besides. *)
Lemma triple_store k B call mime :
  (0 <= k)%Z ->
  triple (mkHeld (1 + k) B) (store_steps c call mime) (stored_own c k B (store_content call) mime).
Proof. intros Hk w. by apply wp_store. Qed.

Lemma triple_open k B h bs n :
  slot_of h bs ∈ B -> made c (blob_id h) h bs -> (0 < n)%nat ->
  triple (mkHeld k B) (open_reader_steps h n)
    (fun res r => r = mkHeld k B /\
       match res with Ok stream => stream_reads h n bs False stream | Err _ => True end).
Proof.
  intros Hin Hm Hn w. eapply wp_conseq; [apply _| |apply (wp_open c _ k B);
    [done|by apply readable_own|done]].
  simpl. intros w' [stream|e] r [-> Hr]; [|done]. split; [done|]. destruct Hr as [? ? Hj].
  split; [done..|]. intros Hend. left. by destruct (Hj Hend) as [|[]].
Qed.

Lemma triple_read k B h bs :
  slot_of h bs ∈ B -> made c (blob_id h) h bs ->
  triple (mkHeld k B) (read_bytes_steps h)
    (fun res r => r = mkHeld k B /\ forall b, res = Ok b -> b = bs).
Proof.
  intros Hin Hm w. eapply wp_conseq; [apply _| |apply (wp_read c _ k B); [done|by apply readable_own]].
  simpl. intros w' res r [-> Hr]. split; [done|]. intros b Hb. by destruct (Hr b Hb) as [|[]].
Qed.

Lemma triple_remove k B h bs :
  (0 <= k)%Z -> made c (blob_id h) h bs ->
  triple (mkHeld k (slot_of h bs :: B)) (remove_steps h) (fun _ r => r = mkHeld k B).
Proof.
  intros Hk Hm w. eapply wp_conseq; [apply _| |by apply (wp_remove_own c _ k B Hk) with (bs := bs)].
  by intros w' res r [-> _].
Qed.

Lemma triple_for {A B} (f : A -> B -> Prog Rt (Result Error A)) (I : list B -> A -> Held -> Prop) l acc r :
  (forall x l acc r, I (x :: l) acc r -> triple r (f acc x) (ok_or_fail (I l))) ->
  I l acc r -> triple r (prog_for f acc l) (ok_or_fail (I [])).
Proof.
  intros Hf. revert acc r. induction l as [|x l IH]; intros acc r HI; cbn [prog_for]; [by apply triple_ret|].
  eapply triple_bind_ok; [by apply Hf|]. simpl. intros a r' Hr. by apply IH.
Qed.
End triples.

(** * The images of a request *)

(** An image that a request has stored: the URL it came from, its blob, and its bytes. *)
Record Image := mkImage {
  image_url : string;
  image_blob : FetchedBlob;
  image_bytes : bytes;
}.

Definition handle_of (x : Image) : BlobHandle := fetched_blob (image_blob x).

Definition slots_of (own : list Image) : list Slot :=
  (fun x => slot_of (handle_of x) (image_bytes x)) <$> own.

Definition by_url (own : list Image) : gmap string FetchedBlob :=
  list_to_map ((fun x => (image_url x, image_blob x)) <$> own).

(** The content of an image's blob. *)
Definition content_of (own : list Image) (h : BlobHandle) : bytes :=
  default EmptyString
    ((list_to_map ((fun x => (blob_id (handle_of x), image_bytes x)) <$> own) : gmap Z bytes) !! blob_id h).

Lemma slots_of_ids own : omap slot_id (slots_of own) = (fun x => blob_id (handle_of x)) <$> own.
Proof. induction own as [|x own IH]; [done|]. csimpl. by rewrite IH. Qed.

Lemma content_of_image own x :
  NoDup ((fun x => blob_id (handle_of x)) <$> own) -> x ∈ own ->
  content_of own (handle_of x) = image_bytes x.
Proof.
  intros Hnd Hin. unfold content_of.
  rewrite (elem_of_list_to_map_1 _ (blob_id (handle_of x)) (image_bytes x)); [done| |].
  - by rewrite <- list_fmap_compose.
  - apply list_elem_of_fmap. by exists x.
Qed.

Lemma by_url_lookup own u fb :
  by_url own !! u = Some fb -> exists x, x ∈ own /\ image_url x = u /\ image_blob x = fb.
Proof.
  intros Hl%elem_of_list_to_map_2. apply list_elem_of_fmap in Hl as (x & [= -> ->] & Hin). by exists x.
Qed.

Lemma by_url_is_Some own u : u ∈ image_url <$> own -> is_Some (by_url own !! u).
Proof.
  intros (x & -> & Hin)%list_elem_of_fmap. destruct (by_url own !! image_url x) as [fb|] eqn:E; [by exists fb|].
  apply not_elem_of_list_to_map_2 in E. destruct E. rewrite <- list_fmap_compose.
  apply list_elem_of_fmap. by exists x.
Qed.

Lemma by_url_of own x : NoDup (image_url <$> own) -> x ∈ own -> by_url own !! image_url x = Some (image_blob x).
Proof.
  intros Hnd Hin. apply elem_of_list_to_map_1; [by rewrite <- list_fmap_compose|].
  apply list_elem_of_fmap. by exists x.
Qed.

Section materialize.
#[local] Set Default Proof Using "All".
Context {W : Type} `{MaterializeLaws W} `{HttpLib} `{ImageCodec}.
Abbreviation Rt := (BlobRuntimeInner W).
Context (c : BlobRuntimeConfig) (services : RequestMaterializeServices).

Abbreviation triple := (triple (W := W) c).

(** The image is stored as it was downloaded. *)
Definition image_ok (x : Image) : Prop :=
  made c (blob_id (handle_of x)) (handle_of x) (image_bytes x) /\
  downloaded (W := W) services (image_url x) (blob_mime_type (image_blob x)) (image_bytes x).

(** The images are all that the request owns. *)
Record holds_images (own : list Image) : Prop := {
  hi_images : Forall image_ok own;
  hi_ids : NoDup ((fun x => blob_id (handle_of x)) <$> own);
}.

Lemma triple_timed {A} r (p : Prog Rt (Result Error A)) (Q : A -> Held -> Prop) :
  triple r p (ok_or_fail Q) -> triple r (timed_steps p) (ok_or_fail (fun a => Q a.1)).
Proof.
  intros Hp. eapply triple_bind; [apply (triple_world _ _ _ _ (fun _ r' => r' = r)); [exact instant_now_frame|done]|].
  intros started r' ->. eapply triple_bind_ok; [exact Hp|]. intros a r' Ha.
  eapply triple_bind; [apply (triple_world _ _ _ _ (fun _ r1 => r1 = r')); [exact instant_now_frame|done]|].
  intros now r1 ->. by apply triple_ret.
Qed.

Lemma triple_net {A} (m : StE W A) r :
  frames m -> triple r (net m) (ok_or_fail (fun a r' => r' = r /\ seen m a)).
Proof.
  intros Hm. apply triple_world; [done|]. intros x [a|e] x' Em; [|done]. split; [done|]. by exists x, x'.
Qed.



Lemma triple_notify url hit r : triple r (notify_steps services url hit) (ok_or_fail (fun _ r' => r' = r)).
Proof.
  unfold notify_steps. destruct (has_cache_observer services); [|by apply triple_ret].
  eapply triple_bind; [apply (triple_world _ _ _ _ (fun _ r' => r' = r)); [exact (observe_cache_frame url hit)|done]|].
  intros a r' ->. by apply triple_ret.
Qed.

(** One image more than the blobs [B]. *)
Definition one_more (k : Z) (B : list Slot) (url : string) (fb : FetchedBlob) (r : Held) : Prop :=
  exists bs, image_ok (mkImage url fb bs) /\ blob_id (fetched_blob fb) ∉ omap slot_id B /\
    r = mkHeld k (slot_of (fetched_blob fb) bs :: B).

Lemma triple_fetch k B url :
  (0 <= k)%Z ->
  triple (mkHeld (1 + k) B) (fetch_request_image_steps c url services)
    (ok_or_fail (fun res r => res.1.1 = url /\ one_more k B url res.1.2 r)).
Proof.
  intros Hk. unfold fetch_request_image_steps, one_more, image_ok, downloaded.
  destruct (has_fetch_service services).
  - eapply triple_bind_ok; [apply triple_timed, triple_net; intros w r w' E; by eapply fetch_url_frame|].
    intros [fetched ms] r (-> & Hseen). simpl in Hseen.
    eapply triple_bind_ok; [apply triple_notify|]. intros _ r ->.
    eapply triple_bind_ok.
    { apply (triple_timed _ _ (fun h r => stored_own c k B (result_bytes fetched) (result_mime_type fetched) (Ok h) r)).
      assert (Hst : forall call, store_content call = result_bytes fetched ->
        triple (mkHeld (1 + k) B) (store_steps c call (result_mime_type fetched))
          (ok_or_fail (fun h r => stored_own c k B (result_bytes fetched) (result_mime_type fetched) (Ok h) r))).
      { intros call <-. eapply triple_mono; [by apply triple_store|]. by intros [h|e] r'. }
      destruct (from_cache fetched); [by apply (Hst (CallExternal _))|by apply (Hst (CallShared _))]. }
    intros [h ms'] r (_ & Hm & Hid & ->). apply triple_ret. split; [done|]. exists (result_bytes fetched).
    split; [|done]. split; [done|]. exists (from_cache fetched). by destruct fetched.
  - eapply triple_bind_ok; [apply triple_timed, triple_net, frames_fetch_image|].
    intros [fetched ms] r (-> & Hseen). simpl in Hseen.
    set (Q := fun (fb : FetchedBlob) r => exists bs,
      made c (blob_id (fetched_blob fb)) (fetched_blob fb) bs /\
      downloaded_directly (W := W) services url (blob_mime_type fb) bs /\
      blob_id (fetched_blob fb) ∉ omap slot_id B /\ r = mkHeld k (slot_of (fetched_blob fb) bs :: B)).
    apply (triple_bind_ok _ _ _ _ (fun a r => Q a.1 r)).
    2: { intros [fb ms'] r (bs & Hm & Hd & Hid & ->). apply triple_ret. split; [done|]. by exists bs. }
    apply (triple_timed _ _ Q).
    eapply (triple_bind_ok _ _ _ _ (fun f r => r = mkHeld (1 + k) B /\
      if enable_webp_optimization services
      then seen (maybe_convert_large_png_to_lossless_webp_with_timeout (W := W) fetched
                   REQUEST_PNG_WEBP_OPTIMIZATION_TIMEOUT) f else fetched = f)).
    { destruct (enable_webp_optimization services); [apply triple_net, frames_webp|by apply triple_ret]. }
    intros f r [-> Hf]. eapply triple_bind_ok.
    { eapply (triple_mono _ _ _ _ (ok_or_fail (fun h r => stored_own c k B (fetched_bytes f) (fetched_mime_type f) (Ok h) r)));
        [by apply (triple_store _ _ _ (CallShared (fetched_bytes f)))|]. by intros [h|e] r'. }
    intros h r (_ & Hm & Hid & ->). apply triple_ret. exists (fetched_bytes f). split; [done|].
    split; [|done]. exists fetched. split; [done|]. by destruct f.
Qed.

(** The loop over the downloads. *)
Definition joining (k : Z) (urls l : list string) (acc : gmap string FetchedBlob * Z * Z) (r : Held) : Prop :=
  exists own, r = mkHeld (Z.of_nat (length l) + k) (slots_of own) /\ holds_images own /\
    acc.1.1 = by_url own /\ urls ≡ₚ l ++ (image_url <$> own).

Lemma triple_join k urls :
  (0 <= k)%Z ->
  triple (mkHeld (Z.of_nat (length urls) + k) []) (join_fetches_steps c services urls)
    (ok_or_fail (joining k urls [])).
Proof.
  intros Hk. apply (triple_for c _ (joining k urls)).
  - intros url l [[m f1] f2] r (own & -> & [Hok Hnd] & Hm & Hurls).
    replace (Z.of_nat (length (url :: l)) + k)%Z with (1 + (Z.of_nat (length l) + k))%Z by (simpl length; lia).
    eapply triple_bind_ok; [apply triple_fetch; lia|].
    intros [[u fb] ds] r [Hu (bs & Hi & Hid & ->)]. simpl in Hu, Hi, Hid, Hm. subst u. apply triple_ret.
    exists (mkImage url fb bs :: own). split; [done|]. split; [|split].
    + rewrite slots_of_ids in Hid. split; [by constructor|]. by constructor.
    + simpl. by rewrite Hm.
    + rewrite Hurls. csimpl. apply Permutation_middle.
  - exists []. split; [done|]. split; [by split; [constructor|apply NoDup_nil_2]|]. split; [done|].
    by rewrite app_nil_r.
Qed.

(** The replacements, and the images that are owned for them. *)
Definition materialized_as (req : Value) (m : MaterializedRequestImages) (own : list Image) : Prop :=
  RequestMaterialize.request m = req /\ holds_images own /\
  (exists refs, scan_request_image_urls req = Ok refs /\
     Forall2 (fun ref x => json_pointer x = RequestScan.json_pointer ref /\
       exists im, im ∈ own /\ image_url im = RequestScan.url ref /\
         replacement_blob x = handle_of im /\ replacement_mime_type x = blob_mime_type (image_blob im))
       refs (replacements m)) /\
  forall im, im ∈ own -> exists x, x ∈ replacements m /\ replacement_blob x = handle_of im.

Lemma triple_materialize req k :
  (0 <= k)%Z ->
  triple (mkHeld (7 + k) []) (materialize_steps c req services)
    (ok_or_fail (fun m r => exists t own, (k <= t)%Z /\ r = mkHeld t (slots_of own) /\ materialized_as req m own)).
Proof.
  intros Hk. unfold materialize_steps. destruct (scan_request_image_urls req) as [refs|e] eqn:Escan;
    [|by apply triple_ret].
  eapply triple_bind.
  { apply (triple_world c _ _ _ (fun order r => r = mkHeld (7 + k) [] /\ order ≡ₚ unique_urls [] refs)).
    - intros x order x' E p. by destruct (completion_order_perm _ _ _ _ E) as [_ ?].
    - intros x order x' E. by destruct (completion_order_perm _ _ _ _ E) as [? _]. }
  intros order r [-> Hperm].
  assert (Hlen : (length order <= 7)%nat).
  { rewrite Hperm. rewrite scan_spec in Escan. apply capped_Ok in Escan as [-> Hlen].
    by etrans; [apply unique_urls_length|]. }
  assert (Hnd : NoDup order) by (rewrite Hperm; apply unique_urls_NoDup).
  replace (7 + k)%Z with (Z.of_nat (length order) + (7 - Z.of_nat (length order) + k))%Z by lia.
  eapply triple_bind_ok; [apply triple_join; lia|].
  intros [[m f1] f2] r (own & -> & Hown & Hm & Hurls). simpl in Hm, Hurls. subst m. apply triple_ret.
  assert (Hndu : NoDup (image_url <$> own)) by (by rewrite <- Hurls).
  assert (Hdom : forall u, u ∈ (RequestScan.url <$> refs) <-> u ∈ (image_url <$> own)).
  { intros u. rewrite <- Hurls, Hperm, unique_urls_elem. set_solver. }
  destruct (build_replacements_ok (by_url own) refs) with (acc := @nil RequestReplacement) as (reps & Eb & Hreps).
  { intros ref Hin. apply by_url_is_Some, Hdom, list_elem_of_fmap. by exists ref. }
  rewrite Eb. simpl. eexists _, own. split; [|split; [done|]]; [lia|].
  split; [done|]. split; [done|]. simpl. split.
  - exists refs. split; [done|]. eapply Forall2_impl; [exact Hreps|].
    intros ref x (Hp & fb & Hfb & Hb & Hmime). split; [done|].
    apply by_url_lookup in Hfb as (im & Hin & Hu & <-). by exists im.
  - intros im Hin.
    assert (Hu : image_url im ∈ (RequestScan.url <$> refs)) by (apply Hdom, list_elem_of_fmap; by exists im).
    apply list_elem_of_fmap in Hu as (ref & Hu & Href).
    apply list_elem_of_lookup in Href as [i Hi].
    destruct (Forall2_lookup_l _ _ _ _ _ Hreps Hi) as (x & Hx & _ & fb & Hfb & Hb & _).
    exists x. split; [by eapply list_elem_of_lookup_2|]. rewrite Hb. f_equal.
    rewrite <- Hu, (by_url_of own im Hndu Hin) in Hfb. by injection Hfb as <-.
Qed.
End materialize.

(** * The body *)

Section encode.
#[local] Set Default Proof Using "All".
Context {W : Type} `{FileSystemLaws W} `{JsonCompact} `{Base64Laws} `{Runtime W} `{DuplexLaws W}
  `{!SchedulerLaws W}.
Abbreviation Rt := (BlobRuntimeInner W).
Context (c : BlobRuntimeConfig).

Abbreviation triple := (triple (W := W) c).

(** The writer knows the blobs that the request owns. *)
Definition known_to (l : list Slot) (h : BlobHandle) (bs : bytes) : Prop :=
  slot_of h bs ∈ l /\ made c (blob_id h) h bs.

Lemma triple_write {A} k l (p : Writing A) Q out :
  writes_such (known_to l) True p Q -> out.2 = u64_wrap (blen out.1) ->
  triple (mkHeld k l) (write_steps p out) (fun res r => r = mkHeld k l /\
    match res.1 with
    | Ok a => exists b, Q b a /\ res.2 = (out.1 +:+ b, u64_wrap (blen (out.1 +:+ b)))
    | Err _ => True
    end).
Proof.
  revert Q out. induction p as [a|e|bs p IH|h n p IH]; intros Q [o len]; cbn [write_steps]; simpl.
  - intros HQ ->. apply triple_ret. split; [done|]. exists EmptyString. by rewrite string_app_nil_r.
  - intros _ _. by apply triple_ret.
  - intros Hp ->. eapply triple_mono; [apply (IH _ _ Hp); simpl|].
    { rewrite blen_app. unfold u64_wrap. by rewrite Zplus_mod_idemp_l. }
    intros [[a|e] o'] r [-> Hr]; (split; [done|]); [|done]. destruct Hr as (b & HQ & Ho). simpl in Ho.
    exists (bs +:+ b). split; [done|]. by rewrite Ho, string_app_assoc.
  - intros (bs & [Hin Hm] & Hn & _ & Hp) Hlen. eapply triple_bind; [by apply triple_open|].
    intros [stream|e] r [-> Hs]; [|by apply triple_ret].
    apply (IH stream Q (o, len)); [by apply Hp|done].
Qed.

Lemma triple_abort k l written : (0 <= k)%Z -> triple (mkHeld (1 + k) l) (abort_store_steps c written) (fun _ _ => True).
Proof.
  intros Hk. eapply triple_bind.
  { apply (triple_world c _ _ _ (fun _ r => r = mkHeld (1 + k) l)); [exact (abort_progress_frame written)|done]. }
  intros [chunks|] r ->; [|by apply triple_ret]. intros w. apply wp_next_id; [done|]. intros w1 id _ _.
  apply blob_bind. by apply (wp_stream_loop c _ k l Hk (fun _ _ => I) _ _ _ _ EmptyString _ _ None).
Qed.

(** The encoded body: it belongs to the request like its images. *)
Definition encoded_as (request : Value) (reps : list RequestReplacement) (content : BlobHandle -> bytes)
    (enc : EncodedRequestBody) (doc : bytes) (own : list Slot) : Prop :=
  to_vec (encoded_document content request reps) = Ok doc /\
  content_length enc = u64_wrap (blen doc) /\
  made c (blob_id (body_blob enc)) (body_blob enc) doc /\ blob_id (body_blob enc) ∉ omap slot_id own.

Lemma triple_encode k own request reps :
  (0 <= k)%Z -> NoDup ((fun x => blob_id (handle_of x)) <$> own) ->
  Forall (fun x => made c (blob_id (handle_of x)) (handle_of x) (image_bytes x)) own ->
  Forall (fun x => exists im, im ∈ own /\ replacement_blob x = handle_of im) reps ->
  triple (mkHeld (1 + k) (slots_of own)) (encode_request_body_steps c request reps)
    (ok_or_fail (fun enc r => exists doc, encoded_as request reps (content_of own) enc doc (slots_of own) /\
       r = mkHeld k (slot_of (body_blob enc) doc :: slots_of own))).
Proof.
  intros Hk Hnd Hmade Hreps.
  destruct (document_emitted (known_to (slots_of own)) True (content_of own) request reps) as (doc & Hdoc & Hemit).
  { intros h bs b [_ (_ & _ & Hm)] Hst. by rewrite Hst in Hm. }
  { intros p x Hx%replacement_map_elem. rewrite Forall_forall in Hreps.
    destruct (Hreps x Hx) as (im & Hin & ->). split; [|done]. rewrite content_of_image by done.
    split; [apply list_elem_of_fmap; by exists im|]. rewrite Forall_forall in Hmade. by apply Hmade. }
  unfold encode_request_body_steps.
  eapply triple_bind; [by apply (triple_write _ _ _ _ (EmptyString, 0%Z) Hemit)|].
  intros [[u|e] [out len]] r [-> Hr]; cbn [fst snd] in Hr.
  2: { eapply triple_bind; [by apply triple_abort|]. intros a r _. by apply triple_ret. }
  destruct Hr as (b & [-> _] & [= -> ->]). rewrite string_app_nil_l.
  eapply triple_bind.
  { apply (triple_world c _ _ _ (fun chunks r => r = mkHeld (1 + k) (slots_of own) /\ joined chunks = doc)).
    - intros x chunks x' E p. by destruct (duplex_chunks_ok _ _ _ _ E) as [_ ->].
    - intros x chunks x' E. by destruct (duplex_chunks_ok _ _ _ _ E) as [? _]. }
  intros chunks r [-> Hjoin].
  eapply triple_bind; [by apply (triple_store c k (slots_of own) (CallStream (mkReadStream chunks None)))|].
  intros stored r Hst. eapply triple_bind.
  { apply (triple_world c _ _ _ (fun _ r' => r' = r)); [exact join_error_frame|done]. }
  intros [e|] r' ->; apply triple_ret; [done|]. destruct stored as [h|e]; [|done].
  change (store_content (CallStream (mkReadStream chunks None))) with (joined chunks) in Hst. rewrite Hjoin in Hst.
  destruct Hst as (_ & Hm & Hid & ->). exists doc. by split_and!.
Qed.

(** ** Removing the images *)

Abbreviation wpr := (wp (blob_inv c) blob_ext (fun _ => True)).

(** The images that are still owned are in none of the replacements. *)
Definition all_removed (k : Z) (kept : Slot) (own : list Image) (reps : list RequestReplacement)
    (res : Result Error unit) (r : Held) : Prop :=
  match res with
  | Ok _ => exists own', r = mkHeld k (kept :: slots_of own') /\
      forall im, im ∈ own' -> im ∈ own /\ Forall (fun x => replacement_blob x <> handle_of im) reps
  | Err _ => True
  end.

Definition still_owned (own : list Image) (h : BlobHandle) : Prop := Exists (fun im => h = handle_of im) own.

(** A replacement's blob is removed: it is owned, or it was removed for another replacement. *)
Lemma wp_remove_one k kept h w own :
  (0 <= k)%Z -> NoDup ((fun x => blob_id (handle_of x)) <$> own) ->
  Forall (fun x => made c (blob_id (handle_of x)) (handle_of x) (image_bytes x)) own ->
  still_owned own h \/ blob_id h ∈ removed w.2 ->
  wpr (remove_steps h : Prog Rt _) w (mkHeld k (kept :: slots_of own))
    (fun w' _ r => blob_ext w w' /\ blob_id h ∈ removed w'.2 /\ exists own',
       r = mkHeld k (kept :: slots_of own') /\ own' ⊆+ own /\
       (forall im, im ∈ own -> im ∈ own' \/ h = handle_of im) /\ (forall im, im ∈ own' -> h <> handle_of im)).
Proof.
  intros Hk Hnd Hmade Hh. destruct (decide (still_owned own h)) as [Ho|Hn].
  - apply Exists_exists in Ho as (im & Him & ->).
    assert (Hm : made c (blob_id (handle_of im)) (handle_of im) (image_bytes im)).
    { rewrite Forall_forall in Hmade. by apply Hmade. }
    apply elem_of_Permutation in Him as [own1 Hp]. rewrite Hp in Hnd. apply NoDup_cons in Hnd as [Hnin _].
    eapply wp_conseq; [apply _| |apply wp_ext; [apply _|done|
      apply (wp_remove_own c _ k (kept :: slots_of own1) Hk (fun _ _ => I)) with (bs := image_bytes im); [|done]]].
    + intros w' res r (He & -> & Hin). split; [done|]. split; [done|]. exists own1. split; [done|].
      rewrite Hp. split; [by apply submseteq_cons|]. split.
      * intros im'. rewrite Hp. intros [->|?]%elem_of_cons; [by right|by left].
      * intros im' Him' Heq. apply Hnin. rewrite Heq. apply list_elem_of_fmap. by exists im'.
    + unfold slots_of. rewrite Hp. csimpl. apply Permutation_swap.
  - destruct Hh as [|Hin]; [done|].
    eapply wp_conseq; [apply _| |apply wp_ext; [apply _|done|by apply (wp_remove_again c)]].
    intros w' res r (He & -> & Hin'). split; [done|]. split; [done|]. exists own. split; [done|].
    split; [done|]. split; [by left|]. intros im Him Heq. apply Hn, Exists_exists. by exists im.
Qed.

Lemma wp_remove_all k kept reps : forall w own,
  (0 <= k)%Z -> NoDup ((fun x => blob_id (handle_of x)) <$> own) ->
  Forall (fun x => made c (blob_id (handle_of x)) (handle_of x) (image_bytes x)) own ->
  Forall (fun x => still_owned own (replacement_blob x) \/ blob_id (replacement_blob x) ∈ removed w.2) reps ->
  wpr (remove_all_steps reps : Prog Rt _) w (mkHeld k (kept :: slots_of own))
    (fun _ => all_removed k kept own reps).
Proof.
  induction reps as [|x reps IH]; intros w own Hk Hnd Hmade Hall.
  { exists own. split; [done|]. intros im Him. split; [done|constructor]. }
  apply Forall_cons in Hall as [Hx Hall]. apply wp_bind_ok.
  eapply wp_conseq; [apply _| |by apply wp_remove_one].
  intros w' [[]|e] r ((_ & Hflags & _) & Hin & own' & -> & Hsub & Hfew & Hgone); [|done].
  eapply wp_conseq; [apply _| |apply (IH w' own' Hk)].
  - intros w1 [[]|e] r; [|done]. intros (own2 & -> & Hown2). exists own2. split; [done|].
    intros im Him. destruct (Hown2 im Him) as [Him' Hne]. split; [by eapply elem_of_submseteq|].
    constructor; [by apply Hgone|done].
  - apply (fmap_submseteq (fun x => blob_id (handle_of x))), submseteq_Permutation in Hsub as [rest Hp].
    rewrite Hp in Hnd. by apply NoDup_app in Hnd as (? & _ & _).
  - apply Forall_forall. intros im Him. rewrite Forall_forall in Hmade. apply Hmade. by eapply elem_of_submseteq.
  - eapply Forall_impl; [exact Hall|]. simpl. intros y [Ho|Hrm]; [|right; set_solver].
    apply Exists_exists in Ho as (im & Him & Hb). destruct (Hfew im Him) as [?|He].
    + left. apply Exists_exists. by exists im.
    + right. by rewrite Hb, <- He.
Qed.
End encode.
