(* ===== verification/OpenaiImage.v ===== *)
(** openai_image.rs: validation and normalization of an OpenAI image generation request, and the
    response payload with its fixed usage numbers. *)

From S2P Require Import Prelude RustStr Json Ext Samples.
From stdpp Require Import options.

(** * The code *)

Definition IMAGE_FIELD_ALIASES : list string := ["reference_images"; "images"; "image"].

Record UploadedImage := mkUploadedImage { uploaded_url : string }.

Definition build_fixed_usage : Value :=
  let num n := Num (PosInt n) in
  Object [("input_tokens", num 1024%Z);
          ("input_tokens_details", Object [("image_tokens", num 1000%Z); ("text_tokens", num 24%Z)]);
          ("output_tokens", num 1024%Z);
          ("total_tokens", num 2048%Z);
          ("output_tokens_details", Object [("image_tokens", num 1024%Z); ("text_tokens", num 0%Z)])].

(** [serde_json::Number::from] of an [i64] *)
Definition num_of_i64 (n : Z) : Value := Num (if (n <? 0)%Z then NegInt n else PosInt n).

Definition build_response_payload (upstream_body : Value) (uploaded : list UploadedImage)
    (fallback_created : Z) : Result Error Value :=
  let created := default fallback_created (value_get "created" upstream_body ≫= as_i64) in
  Ok (Object [("created", num_of_i64 created);
              ("data", Array ((fun u => Object [("url", Str (uploaded_url u))]) <$> uploaded));
              ("usage", build_fixed_usage)]).

Section openai.
Context `{UrlLib}.

Definition validate_reference_image_url (raw : string) : Result Error unit :=
  match url_parse raw with
  | Err _ => Err (Anyhow "reference image must be an absolute url")
  | Ok parsed =>
      if negb (scheme_is_http parsed) then Err (Anyhow "reference image must use http or https")
      else if is_empty (trim (url_host parsed)) then Err (Anyhow "reference image host is required")
      else Ok tt
  end.

(** The loop over one alias' items. *)
Definition collect_items (alias : string) : list string -> list Value -> Result Error (list string) :=
  try_fold (fun images item =>
    let? raw := ok_or (as_str item) (Anyhow (alias +:+ " items must be strings")) in
    let? _ := validate_reference_image_url raw in
    Ok (images ++ [raw])).

(** [collect_reference_images]: the map after the removals, and the images. *)
Definition collect_reference_images (object : Map) : Result Error (Map * list string) :=
  try_fold (fun acc alias =>
    let '(object, images) := acc in
    match map_get alias object with
    | None => Ok (object, images)
    | Some value =>
        let object := map_remove alias object in
        let? array := ok_or (as_array value) (Anyhow (alias +:+ " must be an array")) in
        let? images := collect_items alias images array in
        Ok (object, images)
    end) (object, []) IMAGE_FIELD_ALIASES.

Definition normalize_request_body (body : Value) : Result Error Value :=
  let? object := ok_or (as_object body) (Anyhow "request body must be a json object") in
  let response_format := default "url" (obj_str "response_format" object) in
  if negb (eq_ignore_ascii_case response_format "url")
  then Err (Anyhow "response_format must be url when provided") else
  let? collected := collect_reference_images object in
  let '(object, reference_images) := collected in
  let object := map_insert "reference_images" (Array (Str <$> reference_images)) object in
  let object := map_insert "response_format" (Str "b64_json") object in
  Ok (Object object).

(** * Specification *)

Definition valid_image_url (raw : string) : Prop :=
  exists u, url_parse raw = Ok u /\ scheme_is_http u = true /\ trim (url_host u) <> EmptyString.

Lemma validate_ok raw : validate_reference_image_url raw = Ok tt <-> valid_image_url raw.
Proof.
  unfold validate_reference_image_url, valid_image_url.
  destruct (url_parse raw) as [u|e]; [|split; [done|by intros (? & ? & _)]].
  destruct (scheme_is_http u) eqn:Es; simpl.
  2:{ split; [done|]. intros (u' & [= <-] & Hs & _). by rewrite Hs in Es. }
  destruct (trim (url_host u)) as [|a t] eqn:Eh; simpl.
  - split; [done|]. intros (u' & [= <-] & _ & Hne). by rewrite Eh in Hne.
  - split; [|done]. intros _. exists u. split_and!; [done|done|by rewrite Eh].
Qed.

(** The strings of an array value. *)
Definition strings_of (v : Value) : list string := omap as_str (default [] (as_array v)).

(** The images of the aliases of a map, in the order of the aliases. *)
Definition images_of (m : Map) (aliases : list string) : list string :=
  concat ((fun alias => default [] (strings_of <$> map_get alias m)) <$> aliases).

Definition alias_ok (m : Map) (alias : string) : Prop :=
  forall v, map_get alias m = Some v ->
    exists raws, v = Array (Str <$> raws) /\ Forall valid_image_url raws.

Lemma collect_items_ok alias images items images' :
  collect_items alias images items = Ok images' <->
  exists raws, items = Str <$> raws /\ Forall valid_image_url raws /\ images' = images ++ raws.
Proof.
  revert images. induction items as [|item items IH]; intros images.
  - split.
    + intros [= <-]. exists []. by rewrite app_nil_r.
    + intros (raws & Heq & _ & ->). destruct raws; [|done]. by rewrite app_nil_r.
  - unfold collect_items. rewrite try_fold_cons. destruct item as [| | |raw| |]; simpl;
      try (split; [done|]; intros ([|? ?] & [=] & _)).
    destruct (validate_reference_image_url raw) as [[]|e] eqn:Ev; simpl.
    + fold (collect_items alias (images ++ [raw]) items). rewrite IH. apply validate_ok in Ev.
      split.
      * intros (raws & -> & Hall & ->). exists (raw :: raws). rewrite <- app_assoc.
        split; [done|]. split; [by constructor|done].
      * intros ([|r raws] & [= -> ->] & Hall & ->). apply Forall_cons in Hall as [_ Hall].
        exists raws. by rewrite <- app_assoc.
    + split; [done|]. intros ([|r raws] & [= -> ->] & Hall & _).
      apply Forall_cons in Hall as [Hv%validate_ok _]. by rewrite Hv in Ev.
Qed.

(** The step of [collect_reference_images]. *)
Lemma collect_step_ok alias object images object' images' :
  NoDup (object.*1) ->
  (match map_get alias object with
   | None => Ok (object, images)
   | Some value =>
       let object := map_remove alias object in
       let? array := ok_or (as_array value) (Anyhow (alias +:+ " must be an array")) in
       let? images := collect_items alias images array in
       Ok (object, images)
   end = Ok (object', images')) <->
  alias_ok object alias /\
  images' = images ++ default [] (strings_of <$> map_get alias object) /\
  object' = (if map_contains_key alias object then map_remove alias object else object).
Proof.
  intros Hnd. unfold alias_ok, map_contains_key. destruct (map_get alias object) as [v|]; simpl.
  2:{ rewrite app_nil_r. naive_solver. }
  destruct v as [| | | |items|]; simpl; try (split; [done|intros [Ha _]; naive_solver]).
  destruct (collect_items alias images items) as [im|e] eqn:Ec; simpl.
  - apply collect_items_ok in Ec as (raws & -> & Hall & ->).
    assert (Hs : omap as_str (Str <$> raws) = raws) by (induction raws; [done|]; simpl; f_equal;
      apply IHraws; by apply Forall_cons in Hall as [_ ?]).
    unfold strings_of. simpl. rewrite Hs. split.
    + intros [= <- <-]. split; [|done]. intros v [= <-]. eauto.
    + intros (_ & -> & ->). done.
  - split; [done|]. intros (Ha & _). destruct (Ha _ eq_refl) as (raws & [= ->] & Hall).
    assert (Hok : collect_items alias images (Str <$> raws) = Ok (images ++ raws))
      by (apply collect_items_ok; eauto).
    by rewrite Hok in Ec.
Qed.

(** What the removals of the aliases leave. *)
Definition without_aliases (m : Map) (aliases : list string) : Map :=
  foldl (fun m alias => if map_contains_key alias m then map_remove alias m else m) m aliases.

Lemma without_step_get alias m k :
  NoDup (m.*1) ->
  map_get k (if map_contains_key alias m then map_remove alias m else m) =
  (if String.eqb alias k then None else map_get k m).
Proof.
  intros Hnd. unfold map_contains_key. destruct (String.eqb_spec alias k) as [->|Hne].
  - destruct (map_get k m) eqn:Eg; [by apply map_get_remove_eq|done].
  - destruct (map_get alias m); [|done]. by apply map_get_remove_ne.
Qed.

Lemma without_step_NoDup alias m :
  NoDup (m.*1) -> NoDup ((if map_contains_key alias m then map_remove alias m else m).*1).
Proof. destruct (map_contains_key alias m); [apply map_remove_keys_NoDup|done]. Qed.

Lemma without_aliases_get m aliases k :
  NoDup (m.*1) ->
  map_get k (without_aliases m aliases) = (if existsb (String.eqb k) aliases then None else map_get k m).
Proof.
  revert m. induction aliases as [|alias aliases IH]; intros m Hnd; simpl; [done|].
  rewrite IH by by apply without_step_NoDup.
  rewrite without_step_get by done. rewrite (String.eqb_sym k alias).
  by destruct (alias =? k)%string, (existsb (String.eqb k) aliases).
Qed.

Lemma collect_ok_aux m images aliases m' images' :
  NoDup (m.*1) -> NoDup aliases ->
  try_fold (fun acc alias =>
    let '(object, images) := acc in
    match map_get alias object with
    | None => Ok (object, images)
    | Some value =>
        let object := map_remove alias object in
        let? array := ok_or (as_array value) (Anyhow (alias +:+ " must be an array")) in
        let? images := collect_items alias images array in
        Ok (object, images)
    end) (m, images) aliases = Ok (m', images') <->
  Forall (alias_ok m) aliases /\ m' = without_aliases m aliases /\
  images' = images ++ images_of m aliases.
Proof.
  revert m images. induction aliases as [|alias aliases IH]; intros m images Hnd Hnda.
  - unfold images_of. simpl. rewrite app_nil_r. split; [intros [= <- <-]; by split_and!|].
    by intros (_ & -> & ->).
  - apply NoDup_cons in Hnda as [Hni Hnda]. rewrite try_fold_cons.
    match goal with |- context [and_then ?r _] => destruct r as [[m1 im1]|e] eqn:Er end; simpl.
    + apply (collect_step_ok alias m images m1 im1 Hnd) in Er as (Ha & -> & ->).
      rewrite IH by (by apply without_step_NoDup || done).
      assert (Hsame : forall a, a ∈ aliases ->
        map_get a (if map_contains_key alias m then map_remove alias m else m) = map_get a m).
      { intros a Hin. rewrite without_step_get by done.
        destruct (String.eqb_spec alias a) as [->|]; [done|done]. }
      rewrite Forall_cons.
      assert (HF : Forall (alias_ok (if map_contains_key alias m then map_remove alias m else m))
                     aliases <-> Forall (alias_ok m) aliases).
      { rewrite !Forall_forall. unfold alias_ok.
        split; intros HF a Hin; specialize (HF a Hin); rewrite Hsame in * by done; done. }
      assert (HI : images_of (if map_contains_key alias m then map_remove alias m else m) aliases =
                   images_of m aliases).
      { unfold images_of. f_equal. apply list_fmap_ext. intros i a Hl%list_elem_of_lookup_2. by rewrite Hsame. }
      rewrite HF, HI. unfold images_of at 2. simpl. rewrite <- app_assoc. naive_solver.
    + split; [done|]. intros (Hall & _ & _). apply Forall_cons in Hall as [Ha _].
      assert (Hok := proj2 (collect_step_ok alias m images _ _ Hnd)
        (conj Ha (conj eq_refl eq_refl))).
      by rewrite Hok in Er.
Qed.

Lemma collect_reference_images_ok m m' images :
  NoDup (m.*1) ->
  collect_reference_images m = Ok (m', images) <->
  Forall (alias_ok m) IMAGE_FIELD_ALIASES /\ m' = without_aliases m IMAGE_FIELD_ALIASES /\
  images = images_of m IMAGE_FIELD_ALIASES.
Proof.
  intros Hnd. apply (collect_ok_aux m [] IMAGE_FIELD_ALIASES m' images Hnd).
  unfold IMAGE_FIELD_ALIASES. repeat constructor; set_solver.
Qed.

Definition asks_for_url (m : Map) : Prop :=
  eq_ignore_ascii_case (default "url" (obj_str "response_format" m)) "url" = true.

(** [out] is the normalized form of [m]. *)
Record normalized (m out : Map) : Prop := {
  norm_images : map_get "reference_images" out = Some (Array (Str <$> images_of m IMAGE_FIELD_ALIASES));
  norm_format : map_get "response_format" out = Some (Str "b64_json");
  norm_no_images : map_get "images" out = None;
  norm_no_image : map_get "image" out = None;
  norm_others : forall k, k <> "response_format" -> k ∉ IMAGE_FIELD_ALIASES ->
    map_get k out = map_get k m }.

(** * Properties *)

(** [openai_image::normalize_request_body] accepts exactly the objects that ask for URLs (in
    any case, or do not say) and whose image fields, under each of the three names, are arrays of
    absolute http(s) URLs with a host. What it returns then asks upstream for base64, holds under
    the one name [reference_images] the URLs of the three fields in the order of the names, no
    longer has the two other names, and is the request unchanged at every other key. *)
Theorem normalize_request_body_spec m :
  NoDup (m.*1) ->
  (asks_for_url m /\ Forall (alias_ok m) IMAGE_FIELD_ALIASES <->
   exists r, normalize_request_body (Object m) = Ok r) /\
  (forall r, normalize_request_body (Object m) = Ok r -> exists out, r = Object out /\ normalized m out).
Proof.
  intros Hnd. unfold normalize_request_body, asks_for_url. simpl.
  destruct (eq_ignore_ascii_case _ _); simpl; [|naive_solver].
  destruct (collect_reference_images m) as [[m' images]|e] eqn:Ec; simpl.
  - apply (collect_reference_images_ok m m' images Hnd) in Ec as (Hall & -> & ->).
    split; [by split; [eauto|]|]. intros r [= <-]. eexists. split; [done|].
    assert (Hother : forall k, k <> "response_format" -> k <> "reference_images" ->
      map_get k (map_insert "response_format" (Str "b64_json")
        (map_insert "reference_images" (Array (Str <$> images_of m IMAGE_FIELD_ALIASES))
          (without_aliases m IMAGE_FIELD_ALIASES))) =
      map_get k (without_aliases m IMAGE_FIELD_ALIASES)).
    { intros k H1 H2. by rewrite !map_get_insert_ne by congruence. }
    split.
    + rewrite map_get_insert_ne by done. apply map_get_insert_eq.
    + apply map_get_insert_eq.
    + rewrite Hother by done. by rewrite without_aliases_get.
    + rewrite Hother by done. by rewrite without_aliases_get.
    + intros k Hf Hk. rewrite Hother by (done || (intros ->; apply Hk; by left)).
      rewrite without_aliases_get by done. destruct (existsb _ _) eqn:Ex; [|done].
      apply existsb_exists in Ex as (a & Hin & ->%String.eqb_eq). destruct Hk. by apply list_elem_of_In.
  - split; [|done]. split; [|naive_solver]. intros [_ Hall].
    assert (Hok := proj2 (collect_reference_images_ok m _ _ Hnd)
      (conj Hall (conj eq_refl eq_refl))).
    by rewrite Hok in Ec.
Qed.
End openai.

Definition sample_image_request : Map :=
  [("image", Array [Str "https://a.example/1.png"]); ("prompt", Str "cat");
   ("images", Array [Str "http://b.example/2.png"]); ("response_format", Str "URL")].

Lemma normalize_request_body_spec_witness :
  exists r out, normalize_request_body (H := sample_url) (Object sample_image_request) = Ok r /\
    r = Object out /\ normalized sample_image_request out.
Proof.
  destruct (normalize_request_body_spec (H := sample_url) sample_image_request) as [_ Hr].
  - apply (bool_decide_eq_true (NoDup _)). reflexivity.
  - destruct (Hr (Object [("response_format", Str "b64_json");
      ("prompt", Str "cat");
      ("reference_images", Array [Str "http://b.example/2.png"; Str "https://a.example/1.png"])])) as (out & Heq & Hn).
    + vm_compute. reflexivity.
    + eexists _, out. split; [|split; [exact Heq|exact Hn]]. vm_compute. reflexivity.
Defined.
