(* ===== verification/Http.v ===== *)
(** Replies of the server, as axum builds them, and the proxy's own error body. *)

From S2P Require Import Prelude RustStr Json Ext.
From stdpp Require Import options.

(** [axum::response::Response] *)
Record Reply := mkReply {
  reply_status : Z;
  reply_headers : HeaderMap;
  reply_body : bytes;
}.

(** [headers_mut().insert] *)
Fixpoint header_set (name : string) (value : bytes) (headers : HeaderMap) : HeaderMap :=
  match headers with
  | [] => [(name, value)]
  | (n, v) :: headers' =>
      if String.eqb n name then (n, value) :: headers' else (n, v) :: header_set name value headers'
  end.

(** [StatusCode::FOUND.into_response()] and the like *)
Definition status_reply (status : Z) : Reply := mkReply status [] EmptyString.

(** [(status, Json(v)).into_response()]; axum answers 500 when the body cannot be serialized. *)
Definition json_reply `{JsonCodec} (status : Z) (v : Value) : Reply :=
  match to_vec v with
  | Ok body => mkReply status [("content-type", "application/json")] body
  | Err e => mkReply 500 [("content-type", "text/plain; charset=utf-8")] e
  end.

(** [json!(n)] of an unsigned integer *)
Definition json_uint (n : Z) : Value := Num (PosInt n).

(** [json!({"error": {"code": code, "message": message}})] *)
Definition plain_error_json (code : Z) (message : string) : Value :=
  Object [("error", Object [("code", json_uint code); ("message", Str message)])].

Definition proxy_error_json (code : Z) (message source stage kind : string) : Value :=
  Object [("error", Object [("code", json_uint code); ("message", Str message);
                            ("source", Str source); ("stage", Str stage); ("kind", Str kind)])].

Definition proxy_error_response `{JsonCodec} (status : Z) (message stage kind : string) : Reply :=
  json_reply status (proxy_error_json status message "proxy" stage kind).
