(* ===== verification/Admin.v ===== *)
(** admin.rs: the log of the last requests, the statistics, the authentication of the admin pages and
    the redaction of logged bodies.  The page itself is HTML and JavaScript text. *)

From S2P Require Import Prelude RustStr Utf8 Json JsonMaps.
From S2P Require Import Pointer Ext Samples Http OpenaiImage BlobRuntime.
From stdpp Require Import options.

Definition ADMIN_MAX_BODY_BYTES_PER_ENTRY : nat := 64 * 1024.
Definition ADMIN_LOG_CAPACITY : nat := 100.

Record SanitizedAdminLog := mkSanitizedAdminLog {
  pretty_text : string;
  image_urls : list string;
}.

(** * A log entry *)

Record AdminLogEntry := mkAdminLogEntry {
  entry_id : Z;
  entry_created_at : string;
  entry_method : string;
  entry_path : string;
  entry_query : string;
  entry_remote_addr : string;
  entry_is_stream : bool;
  entry_output_mode : string;
  entry_status_code : Z;
  entry_duration_ms : Z;
  entry_request_parse_ms : Z;
  entry_request_image_prepare_ms : Z;
  entry_request_image_materialize_ms : Z;
  entry_request_image_fetch_work_ms : Z;
  entry_request_image_store_work_ms : Z;
  entry_request_encode_ms : Z;
  entry_upstream_build_ms : Z;
  entry_response_process_ms : Z;
  entry_upload_ms : Z;
  entry_finish_reason : string;
  entry_request_raw : string;
  entry_request_raw_images : list string;
  entry_request_raw_image_cache_hits : list string;
  entry_request_upstream : string;
  entry_request_upstream_images : list string;
  entry_response_downstream : string;
  entry_response_images : list string;
  entry_error_source : string;
  entry_error_stage : string;
  entry_error_kind : string;
  entry_error_message : string;
  entry_error_detail : string;
  entry_upstream_status_code : Z;
  entry_upstream_error_body : string;
}.

(** [AdminLogEntry::default()] *)
Definition entry_default : AdminLogEntry :=
  mkAdminLogEntry
    0 EmptyString EmptyString EmptyString EmptyString EmptyString false EmptyString 0 0 0 0 0 0
    0 0 0 0 0 EmptyString EmptyString [] [] EmptyString [] EmptyString [] EmptyString
    EmptyString EmptyString EmptyString EmptyString 0 EmptyString.

Definition entry_eta (e : AdminLogEntry) : AdminLogEntry :=
  mkAdminLogEntry
    (entry_id e) (entry_created_at e) (entry_method e) (entry_path e) (entry_query e)
    (entry_remote_addr e) (entry_is_stream e) (entry_output_mode e) (entry_status_code e)
    (entry_duration_ms e) (entry_request_parse_ms e) (entry_request_image_prepare_ms e)
    (entry_request_image_materialize_ms e) (entry_request_image_fetch_work_ms e)
    (entry_request_image_store_work_ms e) (entry_request_encode_ms e)
    (entry_upstream_build_ms e) (entry_response_process_ms e) (entry_upload_ms e)
    (entry_finish_reason e) (entry_request_raw e) (entry_request_raw_images e)
    (entry_request_raw_image_cache_hits e) (entry_request_upstream e)
    (entry_request_upstream_images e) (entry_response_downstream e) (entry_response_images e)
    (entry_error_source e) (entry_error_stage e) (entry_error_kind e) (entry_error_message e)
    (entry_error_detail e) (entry_upstream_status_code e) (entry_upstream_error_body e).

(** Assignment to a field: the record rebuilt with one projection replaced. *)
Ltac update_field eta proj e v :=
  let t := eval cbv beta delta [eta] in (eta e) in
  match eval pattern (proj e) in t with ?f _ => let u := eval cbv beta in (f v) in exact u end.

Definition with_id (v : Z) (e : AdminLogEntry) : AdminLogEntry :=
  ltac:(update_field entry_eta entry_id e v).
Definition with_created_at (v : string) (e : AdminLogEntry) : AdminLogEntry :=
  ltac:(update_field entry_eta entry_created_at e v).
Definition with_method (v : string) (e : AdminLogEntry) : AdminLogEntry :=
  ltac:(update_field entry_eta entry_method e v).
Definition with_path (v : string) (e : AdminLogEntry) : AdminLogEntry :=
  ltac:(update_field entry_eta entry_path e v).
Definition with_query (v : string) (e : AdminLogEntry) : AdminLogEntry :=
  ltac:(update_field entry_eta entry_query e v).
Definition with_remote_addr (v : string) (e : AdminLogEntry) : AdminLogEntry :=
  ltac:(update_field entry_eta entry_remote_addr e v).
Definition with_is_stream (v : bool) (e : AdminLogEntry) : AdminLogEntry :=
  ltac:(update_field entry_eta entry_is_stream e v).
Definition with_output_mode (v : string) (e : AdminLogEntry) : AdminLogEntry :=
  ltac:(update_field entry_eta entry_output_mode e v).
Definition with_status_code (v : Z) (e : AdminLogEntry) : AdminLogEntry :=
  ltac:(update_field entry_eta entry_status_code e v).
Definition with_duration_ms (v : Z) (e : AdminLogEntry) : AdminLogEntry :=
  ltac:(update_field entry_eta entry_duration_ms e v).
Definition with_request_parse_ms (v : Z) (e : AdminLogEntry) : AdminLogEntry :=
  ltac:(update_field entry_eta entry_request_parse_ms e v).
Definition with_request_image_prepare_ms (v : Z) (e : AdminLogEntry) : AdminLogEntry :=
  ltac:(update_field entry_eta entry_request_image_prepare_ms e v).
Definition with_request_image_materialize_ms (v : Z) (e : AdminLogEntry) : AdminLogEntry :=
  ltac:(update_field entry_eta entry_request_image_materialize_ms e v).
Definition with_request_image_fetch_work_ms (v : Z) (e : AdminLogEntry) : AdminLogEntry :=
  ltac:(update_field entry_eta entry_request_image_fetch_work_ms e v).
Definition with_request_image_store_work_ms (v : Z) (e : AdminLogEntry) : AdminLogEntry :=
  ltac:(update_field entry_eta entry_request_image_store_work_ms e v).
Definition with_request_encode_ms (v : Z) (e : AdminLogEntry) : AdminLogEntry :=
  ltac:(update_field entry_eta entry_request_encode_ms e v).
Definition with_upstream_build_ms (v : Z) (e : AdminLogEntry) : AdminLogEntry :=
  ltac:(update_field entry_eta entry_upstream_build_ms e v).
Definition with_response_process_ms (v : Z) (e : AdminLogEntry) : AdminLogEntry :=
  ltac:(update_field entry_eta entry_response_process_ms e v).
Definition with_upload_ms (v : Z) (e : AdminLogEntry) : AdminLogEntry :=
  ltac:(update_field entry_eta entry_upload_ms e v).
Definition with_finish_reason (v : string) (e : AdminLogEntry) : AdminLogEntry :=
  ltac:(update_field entry_eta entry_finish_reason e v).
Definition with_request_raw (v : string) (e : AdminLogEntry) : AdminLogEntry :=
  ltac:(update_field entry_eta entry_request_raw e v).
Definition with_request_raw_images (v : list string) (e : AdminLogEntry) : AdminLogEntry :=
  ltac:(update_field entry_eta entry_request_raw_images e v).
Definition with_request_raw_image_cache_hits (v : list string) (e : AdminLogEntry) : AdminLogEntry :=
  ltac:(update_field entry_eta entry_request_raw_image_cache_hits e v).
Definition with_request_upstream (v : string) (e : AdminLogEntry) : AdminLogEntry :=
  ltac:(update_field entry_eta entry_request_upstream e v).
Definition with_request_upstream_images (v : list string) (e : AdminLogEntry) : AdminLogEntry :=
  ltac:(update_field entry_eta entry_request_upstream_images e v).
Definition with_response_downstream (v : string) (e : AdminLogEntry) : AdminLogEntry :=
  ltac:(update_field entry_eta entry_response_downstream e v).
Definition with_response_images (v : list string) (e : AdminLogEntry) : AdminLogEntry :=
  ltac:(update_field entry_eta entry_response_images e v).
Definition with_error_source (v : string) (e : AdminLogEntry) : AdminLogEntry :=
  ltac:(update_field entry_eta entry_error_source e v).
Definition with_error_stage (v : string) (e : AdminLogEntry) : AdminLogEntry :=
  ltac:(update_field entry_eta entry_error_stage e v).
Definition with_error_kind (v : string) (e : AdminLogEntry) : AdminLogEntry :=
  ltac:(update_field entry_eta entry_error_kind e v).
Definition with_error_message (v : string) (e : AdminLogEntry) : AdminLogEntry :=
  ltac:(update_field entry_eta entry_error_message e v).
Definition with_error_detail (v : string) (e : AdminLogEntry) : AdminLogEntry :=
  ltac:(update_field entry_eta entry_error_detail e v).
Definition with_upstream_status_code (v : Z) (e : AdminLogEntry) : AdminLogEntry :=
  ltac:(update_field entry_eta entry_upstream_status_code e v).
Definition with_upstream_error_body (v : string) (e : AdminLogEntry) : AdminLogEntry :=
  ltac:(update_field entry_eta entry_upstream_error_body e v).

(** serde's camelCase serialization *)
Definition entry_json (e : AdminLogEntry) : Value :=
  let int := num_of_i64 in
  Object [("id", int (entry_id e));
          ("createdAt", Str (entry_created_at e));
          ("method", Str (entry_method e));
          ("path", Str (entry_path e));
          ("query", Str (entry_query e));
          ("remoteAddr", Str (entry_remote_addr e));
          ("isStream", Bool (entry_is_stream e));
          ("outputMode", Str (entry_output_mode e));
          ("statusCode", int (entry_status_code e));
          ("durationMs", int (entry_duration_ms e));
          ("requestParseMs", int (entry_request_parse_ms e));
          ("requestImagePrepareMs", int (entry_request_image_prepare_ms e));
          ("requestImageMaterializeMs", int (entry_request_image_materialize_ms e));
          ("requestImageFetchWorkMs", int (entry_request_image_fetch_work_ms e));
          ("requestImageStoreWorkMs", int (entry_request_image_store_work_ms e));
          ("requestEncodeMs", int (entry_request_encode_ms e));
          ("upstreamBuildMs", int (entry_upstream_build_ms e));
          ("responseProcessMs", int (entry_response_process_ms e));
          ("uploadMs", int (entry_upload_ms e));
          ("finishReason", Str (entry_finish_reason e));
          ("requestRaw", Str (entry_request_raw e));
          ("requestRawImages", Array (Str <$> entry_request_raw_images e));
          ("requestRawImageCacheHits", Array (Str <$> entry_request_raw_image_cache_hits e));
          ("requestUpstream", Str (entry_request_upstream e));
          ("requestUpstreamImages", Array (Str <$> entry_request_upstream_images e));
          ("responseDownstream", Str (entry_response_downstream e));
          ("responseImages", Array (Str <$> entry_response_images e));
          ("errorSource", Str (entry_error_source e));
          ("errorStage", Str (entry_error_stage e));
          ("errorKind", Str (entry_error_kind e));
          ("errorMessage", Str (entry_error_message e));
          ("errorDetail", Str (entry_error_detail e));
          ("upstreamStatusCode", int (entry_upstream_status_code e));
          ("upstreamErrorBody", Str (entry_upstream_error_body e))].

(** * Statistics: counters that wrap around *)

Record AdminStats := mkAdminStats {
  stats_total_requests : Z;
  stats_error_requests : Z;
  stats_total_duration_ms : Z;
  stats_request_parse_ms : Z;
  stats_request_image_prepare_ms : Z;
  stats_request_image_materialize_ms : Z;
  stats_request_image_fetch_work_ms : Z;
  stats_request_image_store_work_ms : Z;
  stats_request_encode_ms : Z;
  stats_upstream_build_ms : Z;
  stats_response_process_ms : Z;
  stats_upload_ms : Z;
  stats_cache_hits : Z;
}.

Definition stats_default : AdminStats := mkAdminStats 0 0 0 0 0 0 0 0 0 0 0 0 0.

(** [fetch_add] *)
Definition bump (counter by_ : Z) : Z := i64_wrap (counter + by_).

Definition apply_admin_stats (stats : AdminStats) (entry : AdminLogEntry) : AdminStats :=
  mkAdminStats
    (bump (stats_total_requests stats) 1)
    (if (400 <=? entry_status_code entry)%Z then bump (stats_error_requests stats) 1
     else stats_error_requests stats)
    (bump (stats_total_duration_ms stats) (entry_duration_ms entry))
    (bump (stats_request_parse_ms stats) (entry_request_parse_ms entry))
    (bump (stats_request_image_prepare_ms stats) (entry_request_image_prepare_ms entry))
    (bump (stats_request_image_materialize_ms stats) (entry_request_image_materialize_ms entry))
    (bump (stats_request_image_fetch_work_ms stats) (entry_request_image_fetch_work_ms entry))
    (bump (stats_request_image_store_work_ms stats) (entry_request_image_store_work_ms entry))
    (bump (stats_request_encode_ms stats) (entry_request_encode_ms entry))
    (bump (stats_upstream_build_ms stats) (entry_upstream_build_ms entry))
    (bump (stats_response_process_ms stats) (entry_response_process_ms entry))
    (bump (stats_upload_ms stats) (entry_upload_ms entry))
    (stats_cache_hits stats).

(** The counter that the request cache observer adds to. *)
Definition bump_cache_hits (stats : AdminStats) : AdminStats :=
  mkAdminStats (stats_total_requests stats) (stats_error_requests stats) (stats_total_duration_ms stats) (stats_request_parse_ms stats) (stats_request_image_prepare_ms stats) (stats_request_image_materialize_ms stats)
    (stats_request_image_fetch_work_ms stats) (stats_request_image_store_work_ms stats) (stats_request_encode_ms stats) (stats_upstream_build_ms stats) (stats_response_process_ms stats) (stats_upload_ms stats)
    (bump (stats_cache_hits stats) 1).

Definition stats_payload (stats : AdminStats) (runtime_stats : BlobRuntimeStatsSnapshot) : Value :=
  Object [("totalRequests", num_of_i64 (stats_total_requests stats));
          ("errorRequests", num_of_i64 (stats_error_requests stats));
          ("totalDurationMs", num_of_i64 (stats_total_duration_ms stats));
          ("requestParseMs", num_of_i64 (stats_request_parse_ms stats));
          ("requestImagePrepareMs", num_of_i64 (stats_request_image_prepare_ms stats));
          ("requestImageMaterializeMs", num_of_i64 (stats_request_image_materialize_ms stats));
          ("requestImageFetchWorkMs", num_of_i64 (stats_request_image_fetch_work_ms stats));
          ("requestImageStoreWorkMs", num_of_i64 (stats_request_image_store_work_ms stats));
          ("requestEncodeMs", num_of_i64 (stats_request_encode_ms stats));
          ("upstreamBuildMs", num_of_i64 (stats_upstream_build_ms stats));
          ("responseProcessMs", num_of_i64 (stats_response_process_ms stats));
          ("uploadMs", num_of_i64 (stats_upload_ms stats));
          ("cacheHits", num_of_i64 (stats_cache_hits stats));
          ("spillCount", json_uint (snapshot_spill_count runtime_stats));
          ("spillBytesTotal", json_uint (snapshot_spill_bytes_total runtime_stats))].

(** * The log and the state *)

Record AdminLogBuffer := mkAdminLogBuffer {
  log_next_id : Z;
  log_entries : list AdminLogEntry;   (** newest first *)
}.

Record AdminState := mkAdminState {
  password : string;
  logs : AdminLogBuffer;
  stats : AdminStats;
}.

Definition admin_new (password : string) : AdminState :=
  mkAdminState password (mkAdminLogBuffer 0 []) stats_default.

Definition enabled (self : AdminState) : bool := negb (is_empty (trim (password self))).

(** [while guard.len() > ADMIN_LOG_CAPACITY { guard.pop_back(); }]: every turn shortens the list. *)
Fixpoint pop_excess (fuel : nat) (entries : list AdminLogEntry) : list AdminLogEntry :=
  match fuel with
  | O => entries
  | S fuel =>
      if (ADMIN_LOG_CAPACITY <? length entries)%nat then pop_excess fuel (removelast entries)
      else entries
  end.

Definition record (self : AdminState) (entry : AdminLogEntry) : AdminState :=
  let id := i64_wrap (log_next_id (logs self) + 1) in
  let entries := with_id id entry :: log_entries (logs self) in
  mkAdminState (password self) (mkAdminLogBuffer id (pop_excess (length entries) entries)) (stats self).

Definition snapshot_logs (self : AdminState) : list AdminLogEntry := log_entries (logs self).

(** Strings equal up to surrounding white space are kept once, blank ones not at all. *)
Fixpoint dedup_strings (seen : list string) (v : list string) : list string :=
  match v with
  | [] => []
  | s :: v =>
      let trimmed := trim s in
      if is_empty trimmed then dedup_strings seen v
      else if decide (trimmed ∈ seen) then dedup_strings seen v
      else s :: dedup_strings (trimmed :: seen) v
  end.

Definition dedup_entry (entry : AdminLogEntry) : AdminLogEntry :=
  with_response_images (dedup_strings [] (entry_response_images entry))
    (with_request_upstream_images (dedup_strings [] (entry_request_upstream_images entry))
      (with_request_raw_image_cache_hits (dedup_strings [] (entry_request_raw_image_cache_hits entry))
        (with_request_raw_images (dedup_strings [] (entry_request_raw_images entry)) entry))).

Definition extract_finish_reason (body : Value) : option string :=
  candidates ← value_get "candidates" body ≫= as_array;
  candidate ← head candidates;
  value_get "finishReason" candidate ≫= as_str.

(** The longest prefix of whole characters whose last one starts at [max_bytes] or before, without
    that character. *)
Fixpoint last_boundary (index boundary max_bytes : nat) (s : string) : nat :=
  match s with
  | EmptyString => boundary
  | String a s =>
      if is_continuation a then last_boundary (S index) boundary max_bytes s
      else if (max_bytes <? index)%nat then boundary
      else last_boundary (S index) index max_bytes s
  end.

Definition newline : string := String "010" EmptyString.

Definition truncate_for_admin_log (input : string) (max_bytes : nat) : string :=
  if (String.length input <=? max_bytes)%nat then input
  else str_take (last_boundary 0 0 max_bytes input) input +:+ newline +:+ "...[truncated]".

Definition is_image_url (value : string) : bool :=
  starts_with value "http://" || starts_with value "https://" || starts_with value "/proxy/image".

(** * Redaction *)

Definition omitted (data : string) : string :=
  "[base64 omitted len=" +:+ fmt_nat (String.length data) +:+ "]".

(** One of the two keys of inline data: the value in its place, and the URLs. [seen] is the set of
    the URLs. *)
Definition redact_value (v : Value) : Value :=
  match v with
  | Object inline =>
      match map_get "data" inline with
      | Some (Str data) =>
          let trimmed := trim data in
          if is_image_url trimmed then v
          else if negb (is_empty trimmed) then Object (map_insert "data" (Str (omitted data)) inline)
          else v
      | _ => v
      end
  | _ => v
  end.

Definition push_url (url : string) (urls : list string) : list string :=
  let trimmed := trim url in
  if is_image_url trimmed then if decide (trimmed ∈ urls) then urls else urls ++ [trimmed] else urls.

(** The string at a key of the object at a key. *)
Definition inner_string (outer inner : string) (map : Map) : list string :=
  match map_get outer map with
  | Some (Object m) => option_list (obj_str inner m)
  | _ => []
  end.

(** The candidates of an object itself, in the order they are looked at. *)
Definition own_strings (map : Map) : list string :=
  inner_string "inlineData" "data" map ++ inner_string "inline_data" "data" map
  ++ inner_string "file_data" "file_uri" map.

Definition redact_own (map : Map) : Map :=
  map_alter redact_value "inline_data" (map_alter redact_value "inlineData" map).

(** The code replaces the data of an object before it visits the values. The data is a string, which
    the visit leaves alone, so the values can be visited first ([walk_own_first]). *)
Fixpoint walk (node : Value) (urls : list string) : Value * list string :=
  match node with
  | Object map =>
      let urls := foldl (fun urls s => push_url s urls) urls (own_strings map) in
      let '(map, urls) :=
        (fix go map urls :=
           match map with
           | [] => ([], urls)
           | (k, child) :: map =>
               let '(child, urls) := walk child urls in
               let '(map, urls) := go map urls in ((k, child) :: map, urls)
           end) map urls in
      (Object (redact_own map), urls)
  | Array items =>
      let '(items, urls) :=
        (fix go items urls :=
           match items with
           | [] => ([], urls)
           | child :: items =>
               let '(child, urls) := walk child urls in
               let '(items, urls) := go items urls in (child :: items, urls)
           end) items urls in
      (Array items, urls)
  | _ => (node, urls)
  end.

Definition redact_inline_data_and_collect_image_urls (root : Value) : Value * list string :=
  walk root [].

Section admin_http.
Context `{JsonCodec}.

Definition sanitize_json_for_log (raw : bytes) : SanitizedAdminLog :=
  if is_empty raw then mkSanitizedAdminLog EmptyString [] else
  match from_slice raw with
  | Err _ =>
      mkSanitizedAdminLog (truncate_for_admin_log (from_utf8_lossy raw) ADMIN_MAX_BODY_BYTES_PER_ENTRY) []
  | Ok root =>
      let '(root, image_urls) := redact_inline_data_and_collect_image_urls root in
      let pretty :=
        match to_string_pretty root with
        | Ok text => truncate_for_admin_log text ADMIN_MAX_BODY_BYTES_PER_ENTRY
        | Err _ => truncate_for_admin_log (from_utf8_lossy raw) ADMIN_MAX_BODY_BYTES_PER_ENTRY
        end in
      mkSanitizedAdminLog pretty image_urls
  end.

Definition maybe_sanitize_json_for_log (raw : bytes) (enabled : bool) : option SanitizedAdminLog :=
  if enabled then Some (sanitize_json_for_log raw) else None.

(** * The admin pages *)

Definition unauthorized_response (self : AdminState) : Reply :=
  let response := json_reply 401 (plain_error_json 401 "Unauthorized") in
  mkReply (reply_status response)
    (header_set "www-authenticate" ("Basic realm=" +:+ dquote +:+ "banana-proxy-admin" +:+ dquote)
       (reply_headers response))
    (reply_body response).

Definition admin_logs_response (state : AdminState) : Reply :=
  json_reply 200 (Object [("items", Array (entry_json ∘ dedup_entry <$> snapshot_logs state))]).

Definition admin_stats_response (state : AdminState) (runtime_stats : BlobRuntimeStatsSnapshot)
    : Reply :=
  json_reply 200 (stats_payload (stats state) runtime_stats).
End admin_http.

Definition check_basic_auth `{HttpLib} `{Base64} (self : AdminState) (headers : HeaderMap) : bool :=
  if negb (enabled self) then false else
  match header_get "authorization" headers with
  | None => false
  | Some raw =>
      match header_to_str raw with
      | None => false
      | Some raw =>
          match strip_prefix "Basic " raw with
          | None => false
          | Some encoded =>
              match b64_decode (trim encoded) with
              | Err _ => false
              | Ok decoded =>
                  match from_utf8 decoded with
                  | None => false
                  | Some decoded =>
                      match split_once ":" decoded with
                      | None => false
                      | Some (_, given) => String.eqb given (password self)
                      end
                  end
              end
          end
      end
  end.

(** * Lemmas *)

Lemma removelast_take {A} (l : list A) : removelast l = take (length l - 1) l.
Proof.
  induction l as [|x l IH] using rev_ind; [done|].
  rewrite removelast_last, length_app, take_app_le by (simpl; lia).
  by rewrite take_ge by (simpl; lia).
Qed.

Lemma pop_excess_take fuel l :
  (length l <= ADMIN_LOG_CAPACITY + fuel)%nat -> pop_excess fuel l = take ADMIN_LOG_CAPACITY l.
Proof.
  revert l. induction fuel as [|fuel IH]; intros l Hl; cbn [pop_excess].
  - by rewrite take_ge by lia.
  - destruct (Nat.ltb_spec ADMIN_LOG_CAPACITY (length l)) as [Hlt|Hge].
    + rewrite removelast_take, IH by (rewrite length_take; lia).
      by rewrite take_take, Nat.min_l by lia.
    + by rewrite take_ge by lia.
Qed.

Lemma record_entries self entry :
  log_entries (logs (record self entry)) =
  take ADMIN_LOG_CAPACITY (with_id (i64_wrap (log_next_id (logs self) + 1)) entry :: log_entries (logs self)).
Proof. apply pop_excess_take. lia. Qed.

Lemma record_all_spec password entries :
  (Z.of_nat (length entries) <= i64_max)%Z ->
  log_next_id (logs (foldl record (admin_new password) entries)) = Z.of_nat (length entries) /\
  log_entries (logs (foldl record (admin_new password) entries)) =
    take ADMIN_LOG_CAPACITY (reverse (imap (fun i e => with_id (Z.of_nat i + 1) e) entries)).
Proof.
  induction entries as [|e entries IH] using rev_ind; intros Hlen; [done|].
  rewrite length_app in Hlen. simpl length in Hlen.
  destruct IH as [Hid Hl]; [lia|]. rewrite foldl_app. cbn [foldl].
  assert (Hwrap : i64_wrap (Z.of_nat (length entries) + 1) = (Z.of_nat (length entries) + 1)%Z)
    by (apply i64_wrap_small; unfold i64_min, i64_max in *; lia).
  split.
  - cbn [record logs log_next_id]. rewrite Hid, Hwrap, length_app. simpl. lia.
  - rewrite record_entries, Hid, Hl, Hwrap, imap_app, reverse_app. cbn [imap].
    rewrite Nat.add_0_r. change (reverse [?x]) with [x]. unfold ADMIN_LOG_CAPACITY.
    change (take 100 (?x :: ?l)) with (x :: take 99 l). simpl app.
    change (take 100 (?x :: ?l)) with (x :: take 99 l). by rewrite take_take.
Qed.

(** ** Redaction *)

Fixpoint redact (node : Value) : Value :=
  match node with
  | Object map => Object (redact_own (on_values redact map))
  | Array items => Array (redact <$> items)
  | _ => node
  end.

(** Every string of a document that may be an image URL, in the order of the visit. *)
Fixpoint image_strings (node : Value) : list string :=
  match node with
  | Object map => own_strings map ++ concat ((fun kv => image_strings kv.2) <$> map)
  | Array items => concat (image_strings <$> items)
  | _ => []
  end.

Abbreviation push_urls := (foldl (fun urls s => push_url s urls)).

Lemma log_walk_spec v urls : walk v urls = (redact v, push_urls urls (image_strings v)).
Proof.
  revert urls. induction v as [| | | |l IH|m IH] using Value_ind'; intros urls; try done.
  - cbn [walk redact image_strings].
    match goal with |- context [?go l urls] => set (loop := go) end.
    assert (Hl : loop l urls = (redact <$> l, push_urls urls (concat (image_strings <$> l)))).
    { revert urls. induction IH as [|x l Hx _ IHl]; intros urls; [done|].
      change (loop (x :: l) urls) with
        (let '(child, urls) := walk x urls in let '(items, urls) := loop l urls in (child :: items, urls)).
      rewrite Hx, IHl, !fmap_cons. simpl concat. by rewrite foldl_app. }
    by rewrite Hl.
  - cbn [walk redact image_strings]. rewrite foldl_app. generalize (push_urls urls (own_strings m)).
    clear urls. intros urls.
    match goal with |- context [?go m urls] => set (loop := go) end.
    assert (Hl : loop m urls =
      (on_values redact m, push_urls urls (concat ((fun kv => image_strings kv.2) <$> m)))).
    { revert urls. induction IH as [|[k x] m Hx _ IHm]; intros urls; [done|].
      change (loop ((k, x) :: m) urls) with
        (let '(child, urls) := walk x urls in let '(map, urls) := loop m urls in
         ((k, child) :: map, urls)).
      cbn [snd] in Hx. rewrite Hx, IHm, !fmap_cons. simpl concat. by rewrite foldl_app. }
    by rewrite Hl.
Qed.

(** [P] of every object of a document. *)
Fixpoint all_objects (P : Map -> Prop) (v : Value) : Prop :=
  match v with
  | Object m => P m /\ foldr (fun kv Q => all_objects P (snd kv) /\ Q) True m
  | Array l => foldr (fun x Q => all_objects P x /\ Q) True l
  | _ => True
  end.

Lemma all_objects_object P m :
  all_objects P (Object m) <-> P m /\ Forall (fun kv => all_objects P kv.2) m.
Proof.
  simpl. apply and_iff_compat_l. induction m as [|kv m IH]; simpl; [by split|].
  by rewrite Forall_cons, IH.
Qed.

Lemma all_objects_array P l : all_objects P (Array l) <-> Forall (all_objects P) l.
Proof. simpl. induction l as [|x l IH]; simpl; [by split|]. by rewrite Forall_cons, IH. Qed.

(** What a string of inline data may be in the log. *)
Definition loggable (data : string) : Prop :=
  is_image_url (trim data) = true \/ trim data = EmptyString \/ exists image, data = omitted image.

(** No image data at the two keys of an object. *)
Definition redacted_object (m : Map) : Prop :=
  forall key inline data, key ∈ ["inlineData"; "inline_data"] ->
    map_get key m = Some (Object inline) -> map_get "data" inline = Some (Str data) -> loggable data.

Lemma redact_value_loggable v inline data :
  redact_value v = Object inline -> map_get "data" inline = Some (Str data) -> loggable data.
Proof.
  destruct v as [| | | | |d]; try done. cbn [redact_value].
  destruct (map_get "data" d) as [[| | |s| |]|] eqn:Ed; try (intros [= <-] Hd; by rewrite Ed in Hd).
  destruct (is_image_url (trim s)) eqn:Eu.
  { intros [= <-] Hd. rewrite Ed in Hd. injection Hd as ->. by left. }
  destruct (is_empty (trim s)) eqn:Ee; cbn [negb].
  - intros [= <-] Hd. rewrite Ed in Hd. injection Hd as ->. right. left. by destruct (trim data).
  - intros [= <-]. rewrite map_get_insert_eq. intros [= <-]. right. right. by eexists.
Qed.

Lemma redact_own_redacted m : redacted_object (redact_own m).
Proof.
  assert (Hv : forall o inline data, redact_value <$> o = Some (Object inline) ->
    map_get "data" inline = Some (Str data) -> loggable data).
  { intros o inline data (v & _ & Hv)%fmap_Some. by eapply redact_value_loggable. }
  intros key inline data [->|[->|?%elem_of_nil]%elem_of_cons]%elem_of_cons; [..|done]; unfold redact_own.
  - rewrite map_get_alter_ne, map_get_alter_eq by done. apply Hv.
  - rewrite map_get_alter_eq. apply Hv.
Qed.

Lemma redact_value_objects v :
  all_objects redacted_object v -> all_objects redacted_object (redact_value v).
Proof.
  destruct v as [| | | | |d]; try done. cbn [redact_value].
  destruct (map_get "data" d) as [[| | |s| |]|]; try done.
  destruct (is_image_url (trim s)); [done|]. destruct (negb _); [|done].
  rewrite !all_objects_object. intros [Hd Hall]. split.
  - intros key inline data Hk Hg. apply (Hd key inline data Hk).
    rewrite map_get_insert_ne in Hg; [done|]. intros <-. set_solver.
  - apply Forall_forall. intros kv [->|Hin]%map_insert_in; [done|]. by eapply Forall_forall in Hall.
Qed.

Lemma redact_redacted v : all_objects redacted_object (redact v).
Proof.
  induction v as [| | | |l IH|m IH] using Value_ind'; try done; cbn [redact].
  - apply all_objects_array. by rewrite Forall_fmap.
  - apply all_objects_object. split; [apply redact_own_redacted|]. unfold redact_own.
    apply map_alter_Forall; [apply map_alter_Forall|]; [|intros v; apply redact_value_objects..].
    by rewrite Forall_fmap.
Qed.

(** A value is redacted before it is visited in the code: it makes no difference. *)
Lemma redact_redact_value v : redact (redact_value v) = redact_value (redact v).
Proof.
  destruct v as [| | | | |d]; try done. cbn [redact_value redact].
  assert (Hg : map_get "data" (redact_own (on_values redact d)) = redact <$> map_get "data" d).
  { unfold redact_own. rewrite !map_get_alter_ne by done. apply on_values_get. }
  rewrite Hg. destruct (map_get "data" d) as [[| | |s| |]|]; try done. cbn [fmap option_fmap option_map redact].
  destruct (is_image_url (trim s)); [done|]. destruct (negb _); [|done]. cbn [redact]. f_equal.
  unfold redact_own. by rewrite on_values_insert, !map_alter_insert_ne by done.
Qed.

Lemma walk_own_first m : redact (Object m) = Object (on_values redact (redact_own m)).
Proof.
  cbn [redact]. unfold redact_own. rewrite !on_values_alter by (intros; apply redact_redact_value). done.
Qed.

Lemma push_urls_spec l urls :
  NoDup urls ->
  NoDup (push_urls urls l) /\
  forall u, u ∈ push_urls urls l <->
    u ∈ urls \/ is_image_url u = true /\ exists s, s ∈ l /\ trim s = u.
Proof.
  revert urls. induction l as [|x l IH]; intros urls Hnd; cbn [foldl].
  { split; [done|]. intros u. split; [by left|]. intros [?|(_ & s & ?%elem_of_nil & _)]; done. }
  assert (Hx : NoDup (push_url x urls) /\ forall u, u ∈ push_url x urls <->
    u ∈ urls \/ is_image_url u = true /\ trim x = u).
  { unfold push_url. destruct (is_image_url (trim x)) eqn:Ex; [case_decide as Hin|].
    - split; [done|]. intros u. split; [by left|]. by intros [?|[_ <-]].
    - split; [apply NoDup_app; split_and!; [done|set_solver|apply NoDup_singleton]|].
      intros u. rewrite elem_of_app, list_elem_of_singleton. split; [|naive_solver].
      intros [?| ->]; [by left|by right].
    - split; [done|]. intros u. split; [by left|]. intros [?|[Hu <-]]; [done|congruence]. }
  destruct Hx as [Hnd' Hx]. destruct (IH _ Hnd') as [Hnd'' Hin]. split; [done|].
  intros u. rewrite Hin, Hx. setoid_rewrite elem_of_cons. naive_solver.
Qed.

Lemma last_boundary_le index boundary max s :
  (boundary <= max)%nat -> (last_boundary index boundary max s <= max)%nat.
Proof.
  revert index boundary. induction s as [|a s IH]; intros index boundary Hb; [done|].
  cbn [last_boundary]. destruct (is_continuation a); [auto|].
  destruct (Nat.ltb_spec max index); [done|]. auto.
Qed.

(** The cut comes where a character starts. *)
Lemma last_boundary_start index boundary max s :
  let b := last_boundary index boundary max s in
  b = boundary \/ (index <= b)%nat /\
    exists a rest, str_drop (b - index) s = String a rest /\ is_continuation a = false.
Proof.
  revert index boundary. induction s as [|a s IH]; intros index boundary; [by left|].
  cbn [last_boundary]. destruct (is_continuation a) eqn:Ea.
  - destruct (IH (S index) boundary) as [->|(Hle & x & rest & Hd & Hx)]; [by left|]. right.
    split; [lia|]. exists x, rest. split; [|done].
    replace (last_boundary (S index) boundary max s - index)%nat
      with (S (last_boundary (S index) boundary max s - S index)) by lia. done.
  - destruct (max <? index)%nat; [by left|].
    destruct (IH (S index) index) as [->|(Hle & x & rest & Hd & Hx)].
    + right. split; [lia|]. rewrite Nat.sub_diag. by exists a, s.
    + right. split; [lia|]. exists x, rest. split; [|done].
      replace (last_boundary (S index) index max s - index)%nat
        with (S (last_boundary (S index) index max s - S index)) by lia. done.
Qed.

Lemma truncate_length input max :
  (String.length (truncate_for_admin_log input max) <= max + 15)%nat.
Proof.
  unfold truncate_for_admin_log. destruct (Nat.leb_spec (String.length input) max); [lia|].
  rewrite string_length_app, str_take_length.
  assert (Hb := last_boundary_le 0 0 max input ltac:(lia)).
  assert (Hs : String.length (newline +:+ "...[truncated]") = 15%nat) by reflexivity. lia.
Qed.

(** * Properties *)

(** C29: The admin log holds the last hundred recorded entries and no more, newest first, and numbers
    the entries from one in the order they were recorded. *)
Theorem admin_log_keeps_last_entries password entries :
  (Z.of_nat (length entries) <= i64_max)%Z ->
  let log := snapshot_logs (foldl record (admin_new password) entries) in
  log = take 100 (reverse (imap (fun i e => with_id (Z.of_nat i + 1) e) entries)) /\
  (length log <= 100)%nat /\
  stats (foldl record (admin_new password) entries) = stats_default.
Proof.
  intros Hlen. cbv zeta. unfold snapshot_logs.
  destruct (record_all_spec password entries Hlen) as [_ ->]. split; [done|].
  split; [rewrite length_take; unfold ADMIN_LOG_CAPACITY; lia|]. clear Hlen.
  assert (Hs : forall es self, stats (foldl record self es) = stats self)
    by (induction es as [|e es IH]; intros self; [done|exact (IH (record self e))]).
  apply Hs.
Qed.

Definition sample_entries : list AdminLogEntry :=
  (fun p => with_path p entry_default) <$> ["/a"; "/b"; "/c"].

Lemma admin_log_keeps_last_entries_witness :
  (Z.of_nat (length sample_entries) <= i64_max)%Z /\
  (fun e => (entry_id e, entry_path e)) <$> snapshot_logs (foldl record (admin_new "pw") sample_entries)
  = [(3%Z, "/c"); (2%Z, "/b"); (1%Z, "/a")].
Proof.
  split; [vm_compute; discriminate|].
  destruct (admin_log_keeps_last_entries "pw" sample_entries) as [-> _];
    [vm_compute; discriminate|reflexivity].
Defined.

(** C28: What is logged of a JSON body is the body with the data of every inline image, at either
    spelling of the key and at any depth, replaced by a note of its length unless it is a URL; it is
    cut to the limit of an entry; and the image URLs listed with it are exactly those of the body's
    inline data and file references, each once. *)
Theorem sanitize_json_for_log_spec `{JsonCodec} raw root :
  is_empty raw = false -> from_slice raw = Ok root ->
  let log := sanitize_json_for_log raw in
  (exists logged, all_objects redacted_object logged /\ logged = redact root /\
     forall text, to_string_pretty logged = Ok text ->
       pretty_text log = truncate_for_admin_log text ADMIN_MAX_BODY_BYTES_PER_ENTRY) /\
  (String.length (pretty_text log) <= ADMIN_MAX_BODY_BYTES_PER_ENTRY + 15)%nat /\
  NoDup (image_urls log) /\
  (forall u, u ∈ image_urls log <->
     is_image_url u = true /\ exists s, s ∈ image_strings root /\ trim s = u).
Proof.
  intros He Hr. cbv zeta. unfold sanitize_json_for_log. rewrite He, Hr.
  unfold redact_inline_data_and_collect_image_urls. rewrite log_walk_spec. cbn [pretty_text image_urls].
  destruct (push_urls_spec (image_strings root) []) as [Hnd Hin]; [constructor|].
  split; [|split; [|split; [done|]]].
  - exists (redact root). split; [apply redact_redacted|]. split; [done|]. by intros text ->.
  - destruct (to_string_pretty (redact root)); apply truncate_length.
  - intros u. rewrite Hin, elem_of_nil. tauto.
Qed.

(** A codec for the example: every body reads as one document. *)
Definition sample_logged : Value :=
  Object [("inlineData", Object [("data", Str "AAAA"); ("mimeType", Str "image/png")]);
          ("contents", Array [Object [("inline_data", Object [("data", Str "https://a.example/1")])]])].
Definition sample_log_codec : JsonCodec := {|
  from_slice _ := Ok sample_logged;
  to_vec _ := Ok EmptyString;
  to_string_pretty v :=
    Ok (default "none" ((value_get "inlineData" v ≫= value_get "data") ≫= as_str));
|}.

Lemma sanitize_json_for_log_spec_witness :
  exists log, log = sanitize_json_for_log (H := sample_log_codec) "{}" /\
    pretty_text log = "[base64 omitted len=4]" /\ image_urls log = ["https://a.example/1"].
Proof.
  destruct (sanitize_json_for_log_spec (H := sample_log_codec) "{}" sample_logged eq_refl eq_refl)
    as ((logged & _ & -> & Hp) & _ & _ & _).
  eexists. split; [reflexivity|]. split.
  - rewrite (Hp "[base64 omitted len=4]"); [reflexivity|vm_compute; reflexivity].
  - reflexivity.
Defined.

(** The admin pages accept a request exactly when a password is configured and the request
    carries HTTP basic credentials, base64 of UTF-8 text with a colon, whose part after the first
    colon is that password. *)
Theorem check_basic_auth_exact `{HttpLib} `{Base64} self headers :
  check_basic_auth self headers = true <->
  trim (password self) <> EmptyString /\
  exists raw value encoded decoded user,
    header_get "authorization" headers = Some raw /\ header_to_str raw = Some value /\
    value = "Basic " +:+ encoded /\ b64_decode (trim encoded) = Ok decoded /\
    valid_utf8 decoded = true /\ split_once ":" decoded = Some (user, password self).
Proof.
  unfold check_basic_auth, enabled. split.
  - destruct (is_empty (trim (password self))) eqn:Ep; cbn [negb]; [done|]. intros Hc.
    split; [intros Hp; by rewrite Hp in Ep|].
    destruct (header_get "authorization" headers) as [raw|] eqn:Eh; [|done].
    destruct (header_to_str raw) as [value|] eqn:Ev; [|done].
    destruct (strip_prefix "Basic " value) as [encoded|] eqn:Es; [|done].
    destruct (b64_decode (trim encoded)) as [decoded|] eqn:Ed; [|done].
    unfold from_utf8 in Hc. destruct (valid_utf8 decoded) eqn:Eu; [|done].
    destruct (split_once ":" decoded) as [[user given]|] eqn:Ec; [|done].
    apply String.eqb_eq in Hc as ->. apply strip_prefix_Some in Es.
    exists raw, value, encoded, decoded, user. by split_and!.
  - intros (Hp & raw & value & encoded & decoded & user & -> & -> & -> & Hd & Hu & Hc).
    destruct (trim (password self)) as [|a t]; [done|]. cbn [is_empty negb].
    rewrite strip_prefix_app, Hd. unfold from_utf8. rewrite Hu, Hc. apply String.eqb_refl.
Qed.
