(* ===== verification/AdminShared.v ===== *)
(** admin.rs under concurrency: requests in flight share the counters and the log. One step is one
    [fetch_add], or the push under the lock of the log; the requests' steps interleave freely. *)

From S2P Require Import Prelude RustStr Json JsonMaps Ext Samples Http Admin.
From stdpp Require Import relations options.

(** * The system *)

(** The counters of [AdminStats]. *)
Inductive Counter :=
| TotalRequests | ErrorRequests | TotalDurationMs | RequestParseMs | RequestImagePrepareMs
| RequestImageMaterializeMs | RequestImageFetchWorkMs | RequestImageStoreWorkMs | RequestEncodeMs
| UpstreamBuildMs | ResponseProcessMs | UploadMs | CacheHits.

#[export] Instance counter_eq_dec : EqDecision Counter.
Proof. solve_decision. Defined.

(** The value of the counter [c] after an addition to [counter]. *)
Definition add_at (counter : Counter) (by_ : Z) (c : Counter) (v : Z) : Z :=
  if decide (counter = c) then bump v by_ else v.

(** [stats.counter.fetch_add(by, Ordering::Relaxed)] *)
Definition fetch_add (counter : Counter) (by_ : Z) (s : AdminStats) : AdminStats :=
  let add := add_at counter by_ in
  mkAdminStats
    (add TotalRequests (stats_total_requests s))
    (add ErrorRequests (stats_error_requests s))
    (add TotalDurationMs (stats_total_duration_ms s))
    (add RequestParseMs (stats_request_parse_ms s))
    (add RequestImagePrepareMs (stats_request_image_prepare_ms s))
    (add RequestImageMaterializeMs (stats_request_image_materialize_ms s))
    (add RequestImageFetchWorkMs (stats_request_image_fetch_work_ms s))
    (add RequestImageStoreWorkMs (stats_request_image_store_work_ms s))
    (add RequestEncodeMs (stats_request_encode_ms s))
    (add UpstreamBuildMs (stats_upstream_build_ms s))
    (add ResponseProcessMs (stats_response_process_ms s))
    (add UploadMs (stats_upload_ms s))
    (add CacheHits (stats_cache_hits s)).

(** The calls of [apply_admin_stats], in its order. *)
Definition adds_of (entry : AdminLogEntry) : list (Counter * Z) :=
  [(TotalRequests, 1%Z)]
  ++ (if (400 <=? entry_status_code entry)%Z then [(ErrorRequests, 1%Z)] else [])
  ++ [(TotalDurationMs, entry_duration_ms entry); (RequestParseMs, entry_request_parse_ms entry);
      (RequestImagePrepareMs, entry_request_image_prepare_ms entry);
      (RequestImageMaterializeMs, entry_request_image_materialize_ms entry);
      (RequestImageFetchWorkMs, entry_request_image_fetch_work_ms entry);
      (RequestImageStoreWorkMs, entry_request_image_store_work_ms entry);
      (RequestEncodeMs, entry_request_encode_ms entry); (UpstreamBuildMs, entry_upstream_build_ms entry);
      (ResponseProcessMs, entry_response_process_ms entry); (UploadMs, entry_upload_ms entry)].

(** How far a request has come in [finalize_admin_response]: the counters it has still to add to, the
    identifier it has taken, its entry in the log. *)
Inductive Finishing :=
| Counting (entry : AdminLogEntry) (todo : list (Counter * Z))
| Numbered (entry : AdminLogEntry)
| Recorded (entry : AdminLogEntry).

Record SharedAdmin := mkSharedAdmin {
  shared : AdminState;
  finishing : gmap nat Finishing;
  arrived : list AdminLogEntry;   (** the entries of all requests that came, newest first *)
  hits : nat;                     (** how often an observer has seen a cache hit *)
}.

Definition set_stats (s : AdminStats) (a : AdminState) : AdminState :=
  mkAdminState (password a) (logs a) s.

(** [self.logs.next_id.fetch_add(1, Ordering::Relaxed) + 1] *)
Definition take_id (a : AdminState) : Z * AdminState :=
  let id := i64_wrap (log_next_id (logs a) + 1) in
  (id, mkAdminState (password a) (mkAdminLogBuffer id (log_entries (logs a))) (stats a)).

(** What is done under the lock. *)
Definition push_entry (entry : AdminLogEntry) (a : AdminState) : AdminState :=
  let entries := entry :: log_entries (logs a) in
  mkAdminState (password a)
    (mkAdminLogBuffer (log_next_id (logs a)) (pop_excess (length entries) entries)) (stats a).

Inductive log_step : SharedAdmin -> SharedAdmin -> Prop :=
| step_hit s :
    log_step s (mkSharedAdmin (set_stats (fetch_add CacheHits 1 (stats (shared s))) (shared s))
                  (finishing s) (arrived s) (S (hits s)))
| step_arrive s t entry :
    finishing s !! t = None ->
    log_step s (mkSharedAdmin (shared s) (<[t := Counting entry (adds_of entry)]> (finishing s))
                  (entry :: arrived s) (hits s))
| step_add s t entry counter by_ todo :
    finishing s !! t = Some (Counting entry ((counter, by_) :: todo)) ->
    log_step s (mkSharedAdmin (set_stats (fetch_add counter by_ (stats (shared s))) (shared s))
                  (<[t := Counting entry todo]> (finishing s)) (arrived s) (hits s))
| step_number s t entry id a :
    finishing s !! t = Some (Counting entry []) -> take_id (shared s) = (id, a) ->
    log_step s (mkSharedAdmin a (<[t := Numbered (with_id id entry)]> (finishing s)) (arrived s) (hits s))
| step_push s t entry :
    finishing s !! t = Some (Numbered entry) ->
    log_step s (mkSharedAdmin (push_entry entry (shared s)) (<[t := Recorded entry]> (finishing s))
                  (arrived s) (hits s)).

Definition at_start (secret : string) : SharedAdmin := mkSharedAdmin (admin_new secret) ∅ [] 0.

Definition runs_to (secret : string) (s : SharedAdmin) : Prop := rtc log_step (at_start secret) s.

(** Every request that came is done. *)
Definition quiescent (s : SharedAdmin) : Prop :=
  forall t f, finishing s !! t = Some f -> exists entry, f = Recorded entry.

(** * Lemmas: the counters *)

Definition add_all (l : list (Counter * Z)) (s : AdminStats) : AdminStats :=
  foldr (fun add s => fetch_add add.1 add.2 s) s l.

Lemma bump_bump c x y : bump (bump c x) y = bump (bump c y) x.
Proof.
  unfold bump, i64_wrap. generalize u64_modulus as m, i64_min as k. intros m k.
  assert (Hadd : forall a b : Z, (((a - k) mod m + k + b - k) mod m = (a + b - k) mod m)%Z).
  { intros a b. replace ((a - k) mod m + k + b - k)%Z with ((a - k) mod m + b)%Z by lia.
    rewrite Zplus_mod_idemp_l. f_equal. lia. }
  rewrite (Hadd (c + x)%Z y), (Hadd (c + y)%Z x). do 2 f_equal. lia.
Qed.

Lemma add_at_comm c1 v1 c2 v2 c v :
  add_at c1 v1 c (add_at c2 v2 c v) = add_at c2 v2 c (add_at c1 v1 c v).
Proof. unfold add_at. destruct (decide (c1 = c)), (decide (c2 = c)); [apply bump_bump|done..]. Qed.

Lemma fetch_add_comm c1 v1 c2 v2 s :
  fetch_add c1 v1 (fetch_add c2 v2 s) = fetch_add c2 v2 (fetch_add c1 v1 s).
Proof.
  unfold fetch_add. cbn -[add_at]. by rewrite !(add_at_comm c1 v1 c2 v2).
Qed.

Lemma add_all_perm l1 l2 s : l1 ≡ₚ l2 -> add_all l1 s = add_all l2 s.
Proof.
  induction 1 as [|x l1 l2 _ IH|x y l|l1 l2 l3 _ IH1 _ IH2]; [done| | |congruence].
  - cbn [add_all foldr]. by f_equal.
  - apply fetch_add_comm.
Qed.

Lemma add_all_app l1 l2 s : add_all (l1 ++ l2) s = add_all l1 (add_all l2 s).
Proof. apply foldr_app. Qed.

Lemma apply_admin_stats_adds stats entry : apply_admin_stats stats entry = add_all (adds_of entry) stats.
Proof. unfold apply_admin_stats, adds_of. by destruct (400 <=? entry_status_code entry)%Z. Qed.

Lemma bump_cache_hits_add stats : bump_cache_hits stats = fetch_add CacheHits 1 stats.
Proof. done. Qed.

Lemma record_steps a entry :
  record a entry = push_entry (with_id (take_id a).1 entry) (take_id a).2.
Proof. done. Qed.

(** * Lemmas: what the requests in flight hold *)

Definition gather {B} (f : Finishing -> list B) (m : gmap nat Finishing) : list B :=
  map_to_list m ≫= (fun kv => f kv.2).

Lemma gather_new {B} (f : Finishing -> list B) m t x :
  m !! t = None -> gather f (<[t := x]> m) ≡ₚ f x ++ gather f m.
Proof. intros Hn. unfold gather. by rewrite map_to_list_insert. Qed.

Lemma gather_update {B} (f : Finishing -> list B) m t x y :
  m !! t = Some x -> exists rest,
    gather f m ≡ₚ f x ++ rest /\ gather f (<[t := y]> m) ≡ₚ f y ++ rest.
Proof.
  intros Hx. exists (gather f (delete t m)). split.
  - rewrite <- (insert_delete_id m t x Hx) at 1. apply gather_new, lookup_delete_eq.
  - rewrite <- insert_delete_eq. apply gather_new, lookup_delete_eq.
Qed.

Definition todo_of (f : Finishing) : list (Counter * Z) :=
  match f with Counting _ todo => todo | _ => [] end.

(** The identifiers of entries that are not yet in the log. *)
Definition id_of (f : Finishing) : list Z :=
  match f with Numbered entry => [entry_id entry] | _ => [] end.

Definition numbered_of (f : Finishing) : list unit :=
  match f with Counting _ _ => [] | _ => [tt] end.

Definition recorded_of (f : Finishing) : list unit :=
  match f with Recorded _ => [tt] | _ => [] end.

Definition entry_of (f : Finishing) : AdminLogEntry :=
  match f with Counting entry _ | Numbered entry | Recorded entry => entry end.

Lemma gather_length f m :
  (forall x, length (f x) <= 1)%nat -> (length (gather (B := unit) f m) <= size m)%nat.
Proof.
  intros Hf. unfold gather. rewrite <- length_map_to_list.
  induction (map_to_list m) as [|kv l IH]; [simpl; lia|].
  rewrite bind_cons, length_app. specialize (Hf kv.2). cbn [length]. lia.
Qed.

Lemma gather_quiescent {B} (f : Finishing -> list B) s :
  quiescent s -> (forall e, f (Recorded e) = []) -> gather f (finishing s) = [].
Proof.
  intros Hq Hf. unfold gather. assert (Hl : forall kv, kv ∈ map_to_list (finishing s) -> f kv.2 = []).
  { intros [t x] Hx%elem_of_map_to_list. destruct (Hq t x Hx) as [e He]. simpl. by rewrite He. }
  induction (map_to_list (finishing s)) as [|kv l IH]; [done|]. rewrite bind_cons, Hl by (by left).
  apply IH. intros kv' Hin. apply Hl. by right.
Qed.

Lemma gather_all_recorded s :
  quiescent s -> length (gather recorded_of (finishing s)) = size (finishing s) /\
                 length (gather numbered_of (finishing s)) = size (finishing s).
Proof.
  intros Hq. unfold gather. rewrite <- length_map_to_list.
  assert (Hl : forall kv, kv ∈ map_to_list (finishing s) -> exists e, kv.2 = Recorded e).
  { intros [t x] Hx%elem_of_map_to_list. exact (Hq t x Hx). }
  induction (map_to_list (finishing s)) as [|kv l IH]; [done|].
  rewrite !bind_cons, !length_app. destruct (Hl kv) as [e ->]; [by left|].
  destruct IH as [IH1 IH2]; [intros kv' Hin; apply Hl; by right|]. cbn [length recorded_of numbered_of]. lia.
Qed.

(** * The invariant *)

(** The entry is one of a request that came, with an identifier. *)
Definition of_request (s : SharedAdmin) (entry : AdminLogEntry) : Prop :=
  exists e, e ∈ arrived s /\ entry = with_id (entry_id entry) e.

(** Every identifier that is held or in the log. *)
Definition ids (s : SharedAdmin) : list Z :=
  gather id_of (finishing s) ++ (entry_id <$> log_entries (logs (shared s))).

Record log_inv (secret : string) (s : SharedAdmin) : Prop := {
  inv_password : password (shared s) = secret;
  inv_stats : exists done, stats (shared s) = add_all done stats_default /\
    done ++ gather todo_of (finishing s) ≡ₚ
      replicate (hits s) (CacheHits, 1%Z) ++ (arrived s ≫= adds_of);
  inv_size : size (finishing s) = length (arrived s);
  inv_next : log_next_id (logs (shared s)) = Z.of_nat (length (gather numbered_of (finishing s)));
  inv_ids : NoDup (ids s);
  inv_range : Forall (fun id => 1 <= id <= log_next_id (logs (shared s)))%Z (ids s);
  inv_length : length (log_entries (logs (shared s))) =
    Nat.min (length (gather recorded_of (finishing s))) ADMIN_LOG_CAPACITY;
  inv_held : forall t f, finishing s !! t = Some f -> of_request s (entry_of f);
  inv_logged : Forall (of_request s) (log_entries (logs (shared s)));
}.

Lemma start_inv secret : log_inv secret (at_start secret).
Proof. split; simpl; [done|by exists []|done|done|constructor|constructor|done|done|constructor]. Qed.

Lemma of_request_same e s : e ∈ arrived s -> of_request s e.
Proof. intros He. exists e. split; [done|]. by destruct e. Qed.

Lemma of_request_more e new s s' :
  arrived s' = new :: arrived s -> of_request s e -> of_request s' e.
Proof. intros Ha (e0 & He & ->). exists e0. rewrite Ha. split; [by right|done]. Qed.

Lemma gather_same {B} (f : Finishing -> list B) m t x y :
  m !! t = Some x -> f x = f y -> gather f (<[t := y]> m) ≡ₚ gather f m.
Proof. intros Hx Hf. destruct (gather_update f m t x y Hx) as (rest & -> & ->). by rewrite Hf. Qed.

Lemma size_update (m : gmap nat Finishing) t x y : m !! t = Some x -> size (<[t := y]> m) = size m.
Proof. intros Hx. apply map_size_insert_Some. by eexists. Qed.

Lemma held_update s s' t x y :
  finishing s !! t = Some x -> arrived s' = arrived s ->
  (forall t f, finishing s !! t = Some f -> of_request s (entry_of f)) ->
  finishing s' = <[t := y]> (finishing s) ->
  (of_request s (entry_of x) -> of_request s (entry_of y)) ->
  forall t f, finishing s' !! t = Some f -> of_request s' (entry_of f).
Proof.
  intros Hx Ha Hheld -> Hy t' f Hf. unfold of_request in *. rewrite Ha.
  apply lookup_insert_Some in Hf as [[<- <-]|[_ Hf]]; [by apply Hy, (Hheld _ _ Hx)|by apply (Hheld _ _ Hf)].
Qed.

Lemma hit_inv secret s :
  log_inv secret s ->
  log_inv secret (mkSharedAdmin (set_stats (fetch_add CacheHits 1 (stats (shared s))) (shared s))
                    (finishing s) (arrived s) (S (hits s))).
Proof.
  intros [Hp (done_ & Hst & Hperm) Hsz Hn Hnd Hr Hlen Hheld Hlog]. split; try done.
  exists ((CacheHits, 1%Z) :: done_). split; [by simpl; rewrite Hst|]. simpl. by rewrite Hperm.
Qed.

Lemma arrive_inv secret s t entry :
  finishing s !! t = None -> log_inv secret s ->
  log_inv secret (mkSharedAdmin (shared s) (<[t := Counting entry (adds_of entry)]> (finishing s))
                    (entry :: arrived s) (hits s)).
Proof.
  intros Ht [Hp (done_ & Hst & Hperm) Hsz Hn Hnd Hr Hlen Hheld Hlog].
  split; unfold ids in *; cbn [shared finishing arrived hits]; rewrite ?gather_new by done;
    cbn [id_of numbered_of recorded_of todo_of app]; try done.
  - exists done_. split; [done|]. rewrite bind_cons, gather_new by done. cbn [todo_of].
    rewrite (Permutation_app_swap_app done_), Hperm. apply Permutation_app_swap_app.
  - rewrite map_size_insert_None by done. simpl. by rewrite Hsz.
  - intros t' f [[<- <-]|[_ Hf]]%lookup_insert_Some; [apply of_request_same; by left|].
    eapply of_request_more; [|by eapply Hheld]. done.
  - eapply Forall_impl; [exact Hlog|]. intros e. by apply of_request_more with (new := entry).
Qed.

Lemma add_inv secret s t entry c v todo :
  finishing s !! t = Some (Counting entry ((c, v) :: todo)) -> log_inv secret s ->
  log_inv secret (mkSharedAdmin (set_stats (fetch_add c v (stats (shared s))) (shared s))
                    (<[t := Counting entry todo]> (finishing s)) (arrived s) (hits s)).
Proof.
  intros Ht [Hp (done_ & Hst & Hperm) Hsz Hn Hnd Hr Hlen Hheld Hlog].
  split; unfold ids in *; cbn [shared finishing arrived hits set_stats logs stats password];
    rewrite ?(gather_same _ _ _ _ (Counting entry todo) Ht) by done; try done.
  - exists ((c, v) :: done_). split; [simpl; by rewrite Hst|].
    destruct (gather_update todo_of _ t _ (Counting entry todo) Ht) as (rest & Hold & ->).
    rewrite <- Hperm, Hold. cbn [todo_of app]. by rewrite Permutation_middle.
  - by rewrite (size_update _ _ _ _ Ht).
  - refine (held_update s (mkSharedAdmin _ _ (arrived s) _) t _ _ Ht eq_refl Hheld eq_refl _). done.
Qed.

Lemma number_inv secret s t entry id a :
  finishing s !! t = Some (Counting entry []) -> take_id (shared s) = (id, a) ->
  (Z.of_nat (length (arrived s)) <= i64_max)%Z -> log_inv secret s ->
  log_inv secret (mkSharedAdmin a (<[t := Numbered (with_id id entry)]> (finishing s)) (arrived s) (hits s)).
Proof.
  intros Ht Hid Hmax [Hp (done_ & Hst & Hperm) Hsz Hn Hnd Hr Hlen Hheld Hlog].
  set (y := Numbered (with_id id entry)).
  destruct (gather_update id_of _ t _ y Ht) as (rest & Hold & Hnew).
  destruct (gather_update numbered_of _ t _ y Ht) as (nrest & Hnold & Hnnew).
  assert (Hnext : id = (log_next_id (logs (shared s)) + 1)%Z /\
    (log_next_id (logs (shared s)) + 1)%Z = Z.of_nat (length (gather numbered_of (<[t := y]> (finishing s))))).
  { assert (Hsize := gather_length numbered_of (<[t := y]> (finishing s)) ltac:(intros []; simpl; lia)).
    rewrite (size_update _ _ _ _ Ht), Hsz in Hsize. injection Hid as Hid _. rewrite Hnnew in Hsize |- *.
    rewrite Hnold in Hn. cbn [numbered_of app length y] in Hn, Hsize |- *.
    rewrite i64_wrap_small in Hid by (unfold i64_min, i64_max in *; lia). split; [by subst id|]. lia. }
  destruct Hnext as [-> Hnext]. injection Hid as Hw <-. rewrite Hw. clear Hw.
  split; unfold ids in *; cbn [shared finishing arrived hits logs stats password log_next_id log_entries];
    try done.
  - exists done_. split; [done|]. rewrite <- Hperm.
    by rewrite (gather_same todo_of _ _ _ y Ht).
  - by rewrite (size_update _ _ _ _ Ht).
  - rewrite Hnew. rewrite Hold in Hnd, Hr. cbn [id_of app entry_id y] in *. constructor; [|done].
    intros Hin. rewrite Forall_forall in Hr. specialize (Hr _ Hin). simpl in Hr. lia.
  - rewrite Hnew. rewrite Hold in Hr. cbn [id_of app y] in *. constructor; [simpl; lia|].
    eapply Forall_impl; [exact Hr|]. simpl. lia.
  - by rewrite (gather_same recorded_of _ _ _ y Ht).
  - refine (held_update s (mkSharedAdmin _ _ (arrived s) _) t _ _ Ht eq_refl Hheld eq_refl _).
    intros (e & He & Heq). exists e. split; [done|]. cbn [entry_of y] in *. by rewrite Heq at 1.
Qed.

Lemma push_inv secret s t entry :
  finishing s !! t = Some (Numbered entry) -> log_inv secret s ->
  log_inv secret (mkSharedAdmin (push_entry entry (shared s)) (<[t := Recorded entry]> (finishing s))
                    (arrived s) (hits s)).
Proof.
  intros Ht [Hp (done_ & Hst & Hperm) Hsz Hn Hnd Hr Hlen Hheld Hlog].
  destruct (gather_update id_of _ t _ (Recorded entry) Ht) as (rest & Hold & Hnew).
  destruct (gather_update recorded_of _ t _ (Recorded entry) Ht) as (rrest & Hrold & Hrnew).
  assert (Hents : log_entries (logs (push_entry entry (shared s))) =
    take ADMIN_LOG_CAPACITY (entry :: log_entries (logs (shared s)))) by (apply pop_excess_take; lia).
  assert (Hsub : rest ++ (entry_id <$> take ADMIN_LOG_CAPACITY (entry :: log_entries (logs (shared s)))) ⊆+ ids s).
  { unfold ids. rewrite Hold. cbn [id_of app]. rewrite Permutation_middle.
    apply submseteq_skips_l. rewrite fmap_take. apply sublist_submseteq, sublist_take. }
  split; unfold ids in *; cbn [shared finishing arrived hits]; rewrite ?Hents;
    cbn [push_entry logs stats password log_next_id]; try done.
  - exists done_. split; [done|]. rewrite <- Hperm.
    by rewrite (gather_same todo_of _ _ _ (Recorded entry) Ht).
  - by rewrite (size_update _ _ _ _ Ht).
  - by rewrite (gather_same numbered_of _ _ _ (Recorded entry) Ht).
  - rewrite Hnew. apply submseteq_Permutation in Hsub as [l Hl]. rewrite Hl in Hnd.
    apply NoDup_app in Hnd as [Hnd _]. exact Hnd.
  - rewrite Hnew. apply Forall_forall. intros id Hin. rewrite Forall_forall in Hr. apply Hr.
    by eapply elem_of_submseteq.
  - rewrite length_take, Hrnew. cbn [length recorded_of app]. rewrite Hlen, Hrold. cbn [recorded_of app]. lia.
  - refine (held_update s (mkSharedAdmin _ _ (arrived s) _) t _ _ Ht eq_refl Hheld eq_refl _). done.
  - apply Forall_take. constructor; [exact (Hheld _ _ Ht)|exact Hlog].
Qed.

Lemma step_inv secret s s' :
  log_step s s' -> (Z.of_nat (length (arrived s')) <= i64_max)%Z -> log_inv secret s -> log_inv secret s'.
Proof.
  intros Hstep Hmax Hinv. destruct Hstep;
    eauto using hit_inv, arrive_inv, add_inv, number_inv, push_inv.
Qed.

Lemma step_arrived s s' : log_step s s' -> (length (arrived s) <= length (arrived s'))%nat.
Proof. intros []; simpl; lia. Qed.

Lemma runs_inv secret s :
  runs_to secret s -> (Z.of_nat (length (arrived s)) <= i64_max)%Z -> log_inv secret s.
Proof.
  unfold runs_to. intros Hrun. revert s Hrun. apply (rtc_ind_r (fun s =>
    (Z.of_nat (length (arrived s)) <= i64_max)%Z -> log_inv secret s)); [intros _; apply start_inv|].
  intros s s' _ Hstep IH Hmax. eapply step_inv; [exact Hstep|done|]. apply IH. assert (Hle := step_arrived _ _ Hstep). lia.
Qed.

(** What the counters hold when the requests are counted one after another. *)
Definition counted_in_turn (hits : nat) (entries : list AdminLogEntry) : AdminStats :=
  foldr (fun entry stats => apply_admin_stats stats entry)
    (Nat.iter hits bump_cache_hits stats_default) entries.

Lemma counted_adds hits entries :
  counted_in_turn hits entries =
  add_all (replicate hits (CacheHits, 1%Z) ++ (entries ≫= adds_of)) stats_default.
Proof.
  rewrite (add_all_perm _ ((entries ≫= adds_of) ++ replicate hits (CacheHits, 1%Z)))
    by apply Permutation_app_comm.
  induction entries as [|entry entries IH].
  - unfold counted_in_turn. cbn [foldr mbind list_bind app].
    induction hits as [|n IH]; [done|]. simpl. by rewrite IH.
  - rewrite bind_cons, <- app_assoc, add_all_app, <- IH. apply apply_admin_stats_adds.
Qed.

(** What is right once some requests came, and once all of them are done. *)
Lemma logged_run secret s :
  runs_to secret s -> (Z.of_nat (length (arrived s)) <= i64_max)%Z ->
  let log := log_entries (logs (shared s)) in
  password (shared s) = secret /\
  NoDup (entry_id <$> log) /\ (length log <= 100)%nat /\
  Forall (fun entry => of_request s entry /\ (1 <= entry_id entry <= log_next_id (logs (shared s)))%Z) log /\
  (quiescent s ->
     stats (shared s) = counted_in_turn (hits s) (arrived s) /\
     log_next_id (logs (shared s)) = Z.of_nat (length (arrived s)) /\
     length log = Nat.min (length (arrived s)) 100).
Proof.
  intros Hrun Hmax log. destruct (runs_inv _ _ Hrun Hmax) as [Hp (done_ & Hst & Hperm) Hsz Hn Hnd Hr Hlen _ Hlog].
  unfold ids in Hnd, Hr. split; [done|]. split; [by apply NoDup_app in Hnd as (_ & _ & ?)|].
  split; [subst log; rewrite Hlen; unfold ADMIN_LOG_CAPACITY; lia|]. split.
  - apply Forall_app in Hr as [_ Hr]. rewrite Forall_fmap in Hr. by apply Forall_and.
  - intros Hq. destruct (gather_all_recorded s Hq) as [Hrec Hnum].
    split; [|rewrite Hn, Hnum, Hsz; split; [done|subst log; by rewrite Hlen, Hrec, Hsz]].
    rewrite Hst, counted_adds. apply add_all_perm. rewrite <- Hperm.
    rewrite gather_quiescent by done. by rewrite app_nil_r.
Qed.

(** * The requests in flight

    For the programs that log: the admin state, and what each request is doing to it. *)

Definition values (m : gmap nat Finishing) : list Finishing := (map_to_list m).*2.

Lemma values_new m t x : m !! t = None -> values (<[t := x]> m) ≡ₚ x :: values m.
Proof. intros Hn. unfold values. by rewrite map_to_list_insert. Qed.

Lemma values_pick m x l :
  values m ≡ₚ x :: l -> exists t, m !! t = Some x /\ forall y, values (<[t := y]> m) ≡ₚ y :: l.
Proof.
  intros Hm. assert (Hin : x ∈ values m) by (rewrite Hm; by left).
  apply list_elem_of_fmap in Hin as ([t x'] & -> & Ht%elem_of_map_to_list). exists t. split; [done|].
  intros y. rewrite <- insert_delete_eq, values_new by apply lookup_delete_eq. f_equiv.
  rewrite <- (insert_delete_id m t x' Ht), values_new in Hm by apply lookup_delete_eq.
  by apply Permutation_cons_inv in Hm.
Qed.

(** [a] is a state that requests bring a new log to, when they are now at [l]. *)
Definition logging (secret : string) (a : AdminState) (l : list Finishing) : Prop :=
  exists s, runs_to secret s /\ shared s = a /\ values (finishing s) ≡ₚ l.

Lemma logging_new secret : logging secret (admin_new secret) [].
Proof. exists (at_start secret). split; [apply rtc_refl|done]. Qed.

Lemma logging_password secret a l : logging secret a l -> password a = secret.
Proof.
  intros (s & Hs & <- & _). unfold runs_to in Hs. revert s Hs.
  apply (rtc_ind_r (fun s => password (shared s) = secret)); [done|].
  intros s s' _ Hstep IH. destruct Hstep as [| | |s t entry id a Ht Hid|]; try done.
  unfold take_id in Hid. by injection Hid as _ <-.
Qed.

Lemma logging_perm secret a l l' : l ≡ₚ l' -> logging secret a l -> logging secret a l'.
Proof. intros Hl (s & Hs & Ha & Hv). exists s. split; [done|]. split; [done|]. by rewrite Hv. Qed.

Lemma logging_step secret s s' a l :
  runs_to secret s -> log_step s s' -> shared s' = a -> values (finishing s') ≡ₚ l -> logging secret a l.
Proof. intros Hs Hstep Ha Hv. exists s'. split; [by eapply rtc_r|done]. Qed.

Lemma logging_hits secret n a l :
  logging secret a l -> logging secret (set_stats (Nat.iter n bump_cache_hits (stats a)) a) l.
Proof.
  intros Hl. induction n as [|n (s & Hs & Ha & Hv)]; [by destruct a|].
  eapply logging_step; [exact Hs|apply step_hit| |exact Hv]. cbn [shared]. by rewrite Ha.
Qed.

Lemma logging_arrive secret a l entry :
  logging secret a l -> logging secret a (Counting entry (adds_of entry) :: l).
Proof.
  intros (s & Hs & Ha & Hv). set (t := fresh (dom (finishing s))).
  assert (Ht : finishing s !! t = None) by (apply not_elem_of_dom, is_fresh).
  eapply logging_step; [exact Hs|exact (step_arrive s t entry Ht)|exact Ha|].
  cbn [finishing]. by rewrite values_new, Hv.
Qed.

Lemma logging_add secret a l entry counter by_ todo :
  logging secret a (Counting entry ((counter, by_) :: todo) :: l) ->
  logging secret (set_stats (fetch_add counter by_ (stats a)) a) (Counting entry todo :: l).
Proof.
  intros (s & Hs & <- & Hv). apply values_pick in Hv as (t & Ht & Hv).
  eapply logging_step; [exact Hs|exact (step_add s t entry counter by_ todo Ht)|done|apply Hv].
Qed.

Lemma logging_number secret a l entry :
  logging secret a (Counting entry [] :: l) ->
  logging secret (take_id a).2 (Numbered (with_id (take_id a).1 entry) :: l).
Proof.
  intros (s & Hs & <- & Hv). apply values_pick in Hv as (t & Ht & Hv).
  eapply logging_step; [exact Hs|exact (step_number s t entry _ _ Ht (surjective_pairing _))|done|apply Hv].
Qed.

Lemma logging_push secret a l entry :
  logging secret a (Numbered entry :: l) -> logging secret (push_entry entry a) (Recorded entry :: l).
Proof.
  intros (s & Hs & <- & Hv). apply values_pick in Hv as (t & Ht & Hv).
  eapply logging_step; [exact Hs|exact (step_push s t entry Ht)|done|apply Hv].
Qed.

(** ** What is in the log *)

Lemma gather_values {B} (f : Finishing -> list B) m : gather f m = values m ≫= f.
Proof.
  unfold gather, values. induction (map_to_list m) as [|kv l IH]; [done|]. csimpl. by rewrite IH.
Qed.

Definition pushed_of (f : Finishing) : list AdminLogEntry :=
  match f with Recorded entry => [entry] | _ => [] end.

(** The log holds the latest hundred of the entries that were pushed, each once. *)
Lemma log_pushed secret s :
  runs_to secret s -> exists pushed,
    log_entries (logs (shared s)) = take ADMIN_LOG_CAPACITY pushed /\
    pushed ≡ₚ gather pushed_of (finishing s).
Proof.
  unfold runs_to. revert s. apply (rtc_ind_r (fun s => exists pushed,
    log_entries (logs (shared s)) = take ADMIN_LOG_CAPACITY pushed /\
    pushed ≡ₚ gather pushed_of (finishing s))); [by exists []|].
  intros s s' _ Hstep (pushed & Hlog & Hp).
  destruct Hstep as [s|s t entry Ht|s t entry c v todo Ht|s t entry id a Ht Hid|s t entry Ht];
    cbn [shared finishing set_stats logs log_entries].
  - by exists pushed.
  - exists pushed. by rewrite gather_new.
  - exists pushed. by rewrite (gather_same _ _ _ _ _ Ht).
  - exists pushed. injection Hid as _ <-. by rewrite (gather_same _ _ _ _ _ Ht).
  - exists (entry :: pushed). split.
    + cbn [push_entry logs log_entries]. rewrite pop_excess_take by lia. rewrite Hlog.
      change ADMIN_LOG_CAPACITY with (S 99). by rewrite !firstn_cons, take_take.
    + destruct (gather_update pushed_of _ t _ (Recorded entry) Ht) as (rest & Hold & ->).
      by rewrite Hp, Hold.
Qed.

Lemma logging_pushed secret a l :
  logging secret a l -> exists pushed,
    log_entries (logs a) = take ADMIN_LOG_CAPACITY pushed /\ pushed ≡ₚ l ≫= pushed_of.
Proof.
  intros (s & Hs & <- & Hv). destruct (log_pushed _ _ Hs) as (pushed & Hlog & Hp). exists pushed.
  split; [exact Hlog|]. by rewrite Hp, gather_values, Hv.
Qed.

(** ** When they are done *)

Lemma arrived_statuses secret s :
  runs_to secret s ->
  entry_status_code <$> arrived s ≡ₚ (fun f => entry_status_code (entry_of f)) <$> values (finishing s).
Proof.
  unfold runs_to. intros Hrun. revert s Hrun. apply (rtc_ind_r (fun s => entry_status_code <$> arrived s ≡ₚ
    (fun f => entry_status_code (entry_of f)) <$> values (finishing s))); [done|].
  assert (Hsame : forall m t x y, m !! t = Some x ->
    entry_status_code (entry_of y) = entry_status_code (entry_of x) ->
    (fun f => entry_status_code (entry_of f)) <$> values (<[t := y]> m) ≡ₚ
    (fun f => entry_status_code (entry_of f)) <$> values m).
  { intros m t x y Hx Hst. rewrite <- insert_delete_eq, values_new by apply lookup_delete_eq.
    rewrite <- (insert_delete_id m t x Hx) at 2. rewrite values_new by apply lookup_delete_eq.
    csimpl. by rewrite Hst. }
  intros s s' _ Hstep IH. destruct Hstep; cbn [arrived finishing]; [done| |by rewrite IH, (Hsame _ _ _ _ H)..].
  rewrite values_new by done. csimpl. by rewrite IH.
Qed.

(** How many of the statuses are errors. *)
Definition errors_in (statuses : list Z) : nat := length (filter (fun status => 400 <= status)%Z statuses).

Lemma counted_totals hits entries :
  (Z.of_nat (length entries) <= i64_max)%Z ->
  stats_total_requests (counted_in_turn hits entries) = Z.of_nat (length entries) /\
  stats_error_requests (counted_in_turn hits entries) = Z.of_nat (errors_in (entry_status_code <$> entries)).
Proof.
  assert (Hbump : forall n, (Z.of_nat (S n) <= i64_max)%Z -> bump (Z.of_nat n) 1 = Z.of_nat (S n)).
  { intros n Hn. unfold bump. rewrite i64_wrap_small; [lia|]. unfold i64_min, i64_max in *. lia. }
  induction entries as [|entry entries IH]; intros Hlen.
  - unfold counted_in_turn. cbn [foldr]. by induction hits as [|n IHn].
  - cbn [length] in Hlen. destruct IH as [Ht He]; [lia|].
    assert (Herr : (errors_in (entry_status_code <$> entries) <= length entries)%nat).
    { unfold errors_in. etrans; [apply length_filter|]. by rewrite length_fmap. }
    cbn [counted_in_turn foldr apply_admin_stats stats_total_requests stats_error_requests].
    fold (counted_in_turn hits entries). rewrite Ht, He, Hbump by done. split; [done|].
    unfold errors_in in *. rewrite fmap_cons, filter_cons.
    destruct (Z.leb_spec 400 (entry_status_code entry)).
    + rewrite decide_True by done. cbn [length]. by rewrite Hbump by lia.
    + by rewrite decide_False by lia.
Qed.

Lemma bind_const {A B} (f : A -> list B) (b : list B) l :
  (forall x, x ∈ l -> f x = b) -> l ≫= f = concat (replicate (length l) b).
Proof.
  induction l as [|x l IH]; intros Hf; [done|]. cbn [length replicate concat]. rewrite bind_cons, Hf by (by left).
  f_equal. apply IH. intros y Hy. apply Hf. by right.
Qed.

Lemma concat_units n : length (concat (replicate n [tt])) = n.
Proof. induction n as [|n IH]; [done|]. simpl. by rewrite IH. Qed.

Lemma concat_nothing {B} n : concat (replicate n ([] : list B)) = [].
Proof. by induction n. Qed.

Lemma bind_ret_all {A} (l : list A) : l ≫= (fun x => [x]) = l.
Proof. induction l as [|x l IH]; [done|]. by rewrite bind_cons, IH. Qed.

(** The numbers in the log differ. *)
Lemma logging_ids secret a l :
  logging secret a l -> (Z.of_nat (length l) <= i64_max)%Z -> NoDup (entry_id <$> log_entries (logs a)).
Proof.
  intros (s & Hs & <- & Hv) Hmax. assert (Hst := arrived_statuses _ _ Hs).
  apply Permutation_length in Hst. rewrite !length_fmap, (Permutation_length Hv) in Hst.
  destruct (runs_inv _ _ Hs) as [_ _ _ _ Hnd _ _ _ _]; [by rewrite Hst|].
  by apply NoDup_app in Hnd as (_ & _ & ?).
Qed.

(** ** While they are not done

    A request adds to the number of requests once, and to that of errors if it is one. *)
Definition tallied (errors_only : bool) (status : Z) : nat :=
  if errors_only then (if (400 <=? status)%Z then 1 else 0)%nat else 1%nat.

Definition tally (errors_only : bool) (stats : AdminStats) : Z :=
  if errors_only then stats_error_requests stats else stats_total_requests stats.

Definition tally_counter (errors_only : bool) : Counter :=
  if errors_only then ErrorRequests else TotalRequests.

(** The additions to this counter. *)
Definition adds_to (b : bool) (l : list (Counter * Z)) : nat :=
  length (filter (fun a => a.1 = tally_counter b) l).

Lemma adds_to_app b l l' : adds_to b (l ++ l') = (adds_to b l + adds_to b l')%nat.
Proof. unfold adds_to. by rewrite filter_app, length_app. Qed.

#[export] Instance adds_to_proper b : Proper ((≡ₚ) ==> (=)) (adds_to b).
Proof. intros l l' Hl. unfold adds_to. by rewrite Hl. Qed.

Lemma adds_to_bind {A} b (f : A -> list (Counter * Z)) l :
  adds_to b (l ≫= f) = sum_list_with (fun x => adds_to b (f x)) l.
Proof. induction l as [|x l IH]; [done|]. rewrite bind_cons, adds_to_app, IH. done. Qed.

Lemma adds_to_entry b entry : adds_to b (adds_of entry) = tallied b (entry_status_code entry).
Proof. unfold adds_of, tallied. by destruct b, (400 <=? entry_status_code entry)%Z. Qed.

Lemma adds_to_hits b n : adds_to b (replicate n (CacheHits, 1%Z)) = 0%nat.
Proof. induction n as [|n IH]; [done|]. by destruct b. Qed.

(** Each adds one. *)
Lemma tally_adds b l :
  Forall (fun a => a.1 = tally_counter b -> a.2 = 1%Z) l -> (Z.of_nat (adds_to b l) <= i64_max)%Z ->
  tally b (add_all l stats_default) = Z.of_nat (adds_to b l).
Proof.
  induction 1 as [|[counter v] l Hv _ IH]; intros Hmax; [by destruct b|]. unfold adds_to in *.
  assert (Hstep : tally b (add_all ((counter, v) :: l) stats_default) =
    add_at counter v (tally_counter b) (tally b (add_all l stats_default))) by (by destruct b).
  rewrite Hstep. unfold add_at. rewrite filter_cons in *. cbn [fst snd] in *.
  destruct (decide (counter = tally_counter b)) as [Heq|Hne]; [|by apply IH].
  cbn [length] in *. rewrite IH, Hv by (done || lia). unfold bump.
  rewrite i64_wrap_small by (unfold i64_min, i64_max in *; lia). lia.
Qed.

Lemma adds_ones b entry : Forall (fun a => a.1 = tally_counter b -> a.2 = 1%Z) (adds_of entry).
Proof.
  unfold adds_of. destruct (400 <=? entry_status_code entry)%Z, b; cbn [app tally_counter];
    repeat apply Forall_cons_2; try apply Forall_nil_2; by intros [=].
Qed.

(** What a request has still to add is part of what it adds. *)
Lemma todo_left secret s t entry todo :
  runs_to secret s -> finishing s !! t = Some (Counting entry todo) ->
  (forall b, adds_to b todo <= adds_to b (adds_of entry))%nat.
Proof.
  unfold runs_to. intros Hrun. revert s Hrun t entry todo. apply (rtc_ind_r (fun s => forall t entry todo,
    finishing s !! t = Some (Counting entry todo) ->
    forall b, (adds_to b todo <= adds_to b (adds_of entry))%nat)); [done|].
  intros s s' _ Hstep IH t entry todo.
  destruct Hstep as [s|s t' e Ht|s t' e c v l Ht|s t' e id a Ht Hid|s t' e Ht]; cbn [finishing]; [by apply IH|..];
    intros [[-> [=]]|[_ Hl]]%lookup_insert_Some; subst; try (by apply (IH t)); [done|].
  intros b. specialize (IH _ _ _ Ht b). change ((c, v) :: todo) with ([(c, v)] ++ todo) in IH.
  rewrite adds_to_app in IH. lia.
Qed.

(** What the request has added so far. *)
Definition added (b : bool) (f : Finishing) : nat :=
  (tallied b (entry_status_code (entry_of f)) - adds_to b (todo_of f))%nat.

Lemma added_most b f : (added b f <= 1)%nat.
Proof. unfold added, tallied. destruct b; [case_match|]; lia. Qed.

Lemma sum_minus {A} (f g : A -> nat) l :
  (forall x, x ∈ l -> g x <= f x)%nat ->
  (sum_list_with (fun x => f x - g x)%nat l + sum_list_with g l = sum_list_with f l)%nat.
Proof.
  induction l as [|x l IH]; intros Hle; [done|]. cbn [sum_list_with].
  assert (g x <= f x)%nat by (apply Hle; by left). specialize (IH ltac:(intros y Hy; apply Hle; by right)). lia.
Qed.

Lemma sum_ext {A} (f g : A -> nat) l : (forall x, f x = g x) -> sum_list_with f l = sum_list_with g l.
Proof. intros Hfg. induction l as [|x l IH]; [done|]. cbn [sum_list_with]. by rewrite Hfg, IH. Qed.

Lemma sum_fmap {A B} (f : B -> nat) (g : A -> B) l :
  sum_list_with f (g <$> l) = sum_list_with (fun x => f (g x)) l.
Proof. induction l as [|x l IH]; [done|]. by rewrite fmap_cons; cbn [sum_list_with]; rewrite IH. Qed.

(** The counters are the sums of what the requests have added. *)
Lemma logging_tally secret a l b :
  logging secret a l -> (Z.of_nat (length l) <= i64_max)%Z ->
  tally b (stats a) = Z.of_nat (sum_list_with (added b) l).
Proof.
  intros (s & Hs & <- & Hv) Hmax. assert (Hst := arrived_statuses _ _ Hs).
  assert (Hlen : length (arrived s) = length l).
  { apply Permutation_length in Hst. by rewrite !length_fmap, (Permutation_length Hv) in Hst. }
  destruct (runs_inv _ _ Hs) as [_ (done_ & -> & Hperm) _ _ _ _ _ _ _]; [by rewrite Hlen|].
  assert (Hleft : forall f, f ∈ l -> (adds_to b (todo_of f) <= tallied b (entry_status_code (entry_of f)))%nat).
  { intros f Hf. rewrite <- Hv in Hf. apply list_elem_of_fmap in Hf as ([t f'] & -> & Ht%elem_of_map_to_list).
    rewrite <- adds_to_entry. destruct f' as [entry todo|entry|entry]; simpl; [|unfold adds_to; simpl; lia..].
    by apply (todo_left secret s t). }
  assert (Hsum : (adds_to b done_ + sum_list_with (fun f => adds_to b (todo_of f)) l =
    sum_list_with (fun f => tallied b (entry_status_code (entry_of f))) l)%nat).
  { assert (Hcount : adds_to b (done_ ++ gather todo_of (finishing s)) = adds_to b
      (replicate (hits s) (CacheHits, 1%Z) ++ (arrived s ≫= adds_of))) by (by rewrite Hperm).
    rewrite !adds_to_app, adds_to_hits, gather_values, !adds_to_bind, Hv in Hcount. rewrite Hcount. simpl.
    transitivity (sum_list_with (tallied b) (entry_status_code <$> arrived s)).
    - rewrite sum_fmap. apply sum_ext. intros e. apply adds_to_entry.
    - by rewrite Hst, Hv, sum_fmap. }
  assert (Hminus := sum_minus _ _ l Hleft). fold (added b) in Hminus.
  assert (Hdone : adds_to b done_ = sum_list_with (added b) l) by (unfold added; lia).
  assert (Hsmall : forall l, (sum_list_with (added b) l <= length l)%nat).
  { clear. induction l as [|f l IH]; [done|]. cbn [sum_list_with length]. assert (Hf := added_most b f). lia. }
  specialize (Hsmall l). rewrite <- Hdone in *. apply tally_adds; [|lia].
  assert (Hall : Forall (fun a => a.1 = tally_counter b -> a.2 = 1%Z) (done_ ++ gather todo_of (finishing s))).
  { rewrite Hperm. apply Forall_app. split; [apply Forall_replicate; by destruct b|].
    apply Forall_bind, Forall_forall. intros e _. apply adds_ones. }
  by apply Forall_app in Hall as [Hall _].
Qed.

Lemma tallied_statuses statuses :
  sum_list_with (tallied false) statuses = length statuses /\
  sum_list_with (tallied true) statuses = errors_in statuses.
Proof.
  induction statuses as [|st l [IH1 IH2]]; [done|]. cbn [sum_list_with length]. rewrite IH1, IH2.
  split; [done|]. unfold errors_in, tallied. rewrite filter_cons.
  destruct (Z.leb_spec 400 st); [by rewrite decide_True|by rewrite decide_False by lia].
Qed.

(** With [l] in flight, [entries] in the log and [unlogged] beside it, a counter is at least that of the
    latter, and at most one more for each in flight. *)
Lemma logging_between secret a l entries unlogged b :
  logging secret a (l ++ (Recorded <$> entries) ++ (Numbered <$> unlogged)) ->
  (Z.of_nat (length l + length entries + length unlogged) <= i64_max)%Z ->
  let n := sum_list_with (tallied b) (entry_status_code <$> entries ++ unlogged) in
  (Z.of_nat n <= tally b (stats a) <= Z.of_nat (n + length l))%Z.
Proof.
  intros Hl Hmax n. rewrite (logging_tally _ _ _ b Hl) by (rewrite !length_app, !length_fmap; lia).
  rewrite !sum_list_with_app, !sum_fmap.
  assert (Hn : n = (sum_list_with (fun e => added b (Recorded e)) entries +
                    sum_list_with (fun e => added b (Numbered e)) unlogged)%nat).
  { unfold n. rewrite fmap_app, sum_list_with_app, !sum_fmap.
    f_equal; apply sum_ext; intros e; unfold added; simpl; unfold adds_to; simpl; lia. }
  assert (Hsmall : (sum_list_with (added b) l <= length l)%nat).
  { clear. induction l as [|f l IH]; [done|]. cbn [sum_list_with length]. assert (Hf := added_most b f). lia. }
  lia.
Qed.

(** Nothing is left to count: of the requests that came, those in [entries] are in the log, and those in
    [unlogged] have a number only. *)
Lemma logging_done secret a entries unlogged :
  logging secret a ((Recorded <$> entries) ++ (Numbered <$> unlogged)) ->
  (Z.of_nat (length (entries ++ unlogged)) <= i64_max)%Z ->
  NoDup (entry_id <$> log_entries (logs a)) /\
  length (log_entries (logs a)) = Nat.min (length entries) 100 /\
  log_next_id (logs a) = Z.of_nat (length (entries ++ unlogged)) /\
  stats_total_requests (stats a) = Z.of_nat (length (entries ++ unlogged)) /\
  stats_error_requests (stats a) = Z.of_nat (errors_in (entry_status_code <$> entries ++ unlogged)).
Proof.
  intros (s & Hs & <- & Hv) Hmax. assert (Hst := arrived_statuses _ _ Hs).
  assert (Hfin : (fun f => entry_status_code (entry_of f)) <$> values (finishing s) ≡ₚ
    entry_status_code <$> entries ++ unlogged).
  { rewrite Hv, !fmap_app, <- !list_fmap_compose. done. }
  rewrite Hfin in Hst. assert (Hlen : length (arrived s) = length (entries ++ unlogged)).
  { apply Permutation_length in Hst. by rewrite !length_fmap in Hst. }
  destruct (runs_inv _ _ Hs) as [_ (done_ & Hstats & Hperm) _ Hn Hnd _ Hlog _ _]; [by rewrite Hlen|].
  assert (Hg : forall B (f : Finishing -> list B), gather f (finishing s) ≡ₚ
    (entries ≫= f ∘ Recorded) ++ (unlogged ≫= f ∘ Numbered)).
  { intros B f. by rewrite gather_values, Hv, bind_app, !list_fmap_bind. }
  rewrite Hg, (bind_const _ [tt]), (bind_const _ [tt]), length_app, !concat_units, <- length_app in Hn by done.
  rewrite Hg, (bind_const _ [tt]), (bind_const _ []), concat_nothing, app_nil_r, concat_units in Hlog by done.
  rewrite Hg, (bind_const _ []), (bind_const _ []), !concat_nothing, !app_nil_r in Hperm by done.
  assert (Hall : stats (shared s) = counted_in_turn (hits s) (arrived s)).
  { rewrite Hstats, counted_adds. by apply add_all_perm. }
  destruct (counted_totals (hits s) (arrived s)) as [Ht He]; [by rewrite Hlen|].
  rewrite Hall, Ht, He, Hlen. split; [by apply NoDup_app in Hnd as (_ & _ & ?)|].
  split; [exact Hlog|]. split; [exact Hn|]. split; [done|]. unfold errors_in. by rewrite Hst.
Qed.

(** * Properties *)

(** C14: The counters and the log are right under any interleaving: however the additions, the
    identifiers and the pushes of any number of requests in flight interleave, every entry in the
    log is a request's with an identifier of its own, no two share one, and there are at most a
    hundred; and once every request is done, the counters are what they would be had the requests
    been counted one after another, every identifier up to the number of requests was given out,
    and the log holds a hundred entries or those of all requests. *)
Theorem concurrent_requests_logged secret s :
  runs_to secret s -> (Z.of_nat (length (arrived s)) <= i64_max)%Z ->
  let log := log_entries (logs (shared s)) in
  password (shared s) = secret /\
  NoDup (entry_id <$> log) /\ (length log <= 100)%nat /\
  Forall (fun entry => of_request s entry /\ (1 <= entry_id entry <= log_next_id (logs (shared s)))%Z) log /\
  (quiescent s ->
     stats (shared s) = counted_in_turn (hits s) (arrived s) /\
     log_next_id (logs (shared s)) = Z.of_nat (length (arrived s)) /\
     length log = Nat.min (length (arrived s)) 100).
Proof. apply logged_run. Qed.

(** * A concrete run, for the witness *)

(** One turn of a scheduler. *)
Inductive Turn := Hit | Arrive (t : nat) (entry : AdminLogEntry) | Advance (t : nat).

Definition turn (e : Turn) (s : SharedAdmin) : option SharedAdmin :=
  match e with
  | Hit => Some (mkSharedAdmin (set_stats (fetch_add CacheHits 1 (stats (shared s))) (shared s))
                   (finishing s) (arrived s) (S (hits s)))
  | Arrive t entry =>
      match finishing s !! t with
      | Some _ => None
      | None => Some (mkSharedAdmin (shared s) (<[t := Counting entry (adds_of entry)]> (finishing s))
                        (entry :: arrived s) (hits s))
      end
  | Advance t =>
      match finishing s !! t with
      | Some (Counting entry ((counter, by_) :: todo)) =>
          Some (mkSharedAdmin (set_stats (fetch_add counter by_ (stats (shared s))) (shared s))
                  (<[t := Counting entry todo]> (finishing s)) (arrived s) (hits s))
      | Some (Counting entry []) =>
          Some (mkSharedAdmin (take_id (shared s)).2
                  (<[t := Numbered (with_id (take_id (shared s)).1 entry)]> (finishing s)) (arrived s) (hits s))
      | Some (Numbered entry) =>
          Some (mkSharedAdmin (push_entry entry (shared s)) (<[t := Recorded entry]> (finishing s))
                  (arrived s) (hits s))
      | _ => None
      end
  end.

Fixpoint turns (l : list Turn) (s : SharedAdmin) : option SharedAdmin :=
  match l with
  | [] => Some s
  | e :: l => s ← turn e s; turns l s
  end.

Lemma turn_step e s s' : turn e s = Some s' -> log_step s s'.
Proof.
  destruct e as [|t entry|t]; simpl.
  - intros [= <-]. apply step_hit.
  - destruct (finishing s !! t) eqn:E; [done|]. intros [= <-]. by apply step_arrive.
  - destruct (finishing s !! t) as [[entry [|[c v] todo]|entry|entry]|] eqn:E; intros [= <-].
    + eapply step_number; [exact E|apply surjective_pairing].
    + by eapply step_add.
    + by apply step_push.
Qed.

Lemma turns_run l s s' : turns l s = Some s' -> rtc log_step s s'.
Proof.
  revert s. induction l as [|e l IH]; intros s; simpl; [intros [= ->]; apply rtc_refl|].
  destruct (turn e s) as [s1|] eqn:E; [|done]. intros Hl.
  eapply rtc_l; [by eapply turn_step|by apply IH].
Qed.

Definition quiescentb (s : SharedAdmin) : bool :=
  forallb (fun kv => match kv.2 with Recorded _ => true | _ => false end) (map_to_list (finishing s)).

Lemma quiescentb_true s : quiescentb s = true -> quiescent s.
Proof.
  unfold quiescentb. rewrite forallb_forall. intros Hall t f Hf.
  specialize (Hall (t, f)). destruct f as [| |entry]; [| |by exists entry];
    (assert (false = true) as [=]; apply Hall, list_elem_of_In, elem_of_map_to_list, Hf).
Qed.

(** Two requests count in turns; the second takes its number first and is pushed last. *)
Definition sample_turns : list Turn :=
  [Arrive 0 (with_status_code 502 (with_duration_ms 30 entry_default));
   Arrive 1 (with_status_code 200 (with_duration_ms 12 entry_default)); Hit]
  ++ concat (replicate 11 [Advance 0; Advance 1]) ++ [Advance 0; Advance 1]
  ++ [Advance 0; Advance 0; Advance 1].

Definition sample_end : SharedAdmin := default (at_start "pw") (turns sample_turns (at_start "pw")).

Lemma concurrent_requests_logged_witness :
  turns sample_turns (at_start "pw") = Some sample_end /\
  entry_id <$> log_entries (logs (shared sample_end)) = [1; 2]%Z /\
  stats_total_requests (stats (shared sample_end)) = 2%Z /\
  stats_error_requests (stats (shared sample_end)) = 1%Z /\
  stats_total_duration_ms (stats (shared sample_end)) = 42%Z /\
  stats (shared sample_end) = counted_in_turn 1 (arrived sample_end).
Proof.
  assert (Hrun : turns sample_turns (at_start "pw") = Some sample_end) by (vm_compute; reflexivity).
  destruct (concurrent_requests_logged "pw" sample_end (turns_run _ _ _ Hrun)
    ltac:(vm_compute; discriminate)) as (_ & _ & _ & _ & Hq).
  destruct (Hq (quiescentb_true sample_end ltac:(vm_compute; reflexivity))) as [Hst _].
  split; [exact Hrun|]. split_and!; [vm_compute; reflexivity..|].
  assert (Hhits : hits sample_end = 1%nat) by (vm_compute; reflexivity).
  rewrite Hhits in Hst. exact Hst.
Defined.
