(* ===== verification/Upload.v ===== *)
(** upload.rs: uploads of generated images to the legacy hosts or to an R2 bucket (AWS signature v4),
    from bytes, from a blob, or streamed out of base64 text by a reader of its own. *)

From S2P Require Import Prelude RustStr Json Ext Samples Config BlobRuntime.
From stdpp Require Import options.

(** * Data *)

Inductive ImageHostMode := Legacy | R2 | R2ThenLegacy.

Record UploadResult := mkUploadResult {
  upload_url : string;
  provider : string;
}.

(** The stream of decoded bytes: [offset] characters of the text are decoded, and the bytes of
    [pending] from [pending_offset] on are not delivered yet. *)
Record Base64DecodedReader := mkBase64DecodedReader {
  data_base64 : string;
  offset : nat;
  pending : bytes;
  pending_offset : nat;
}.

Definition UPLOAD_USER_AGENT : string := "ComfyUI-Banana/1.0".
Definition BASE64_STREAM_INPUT_CHARS : nat := 32 * 1024.
(** The buffer of [ReaderStream::new]. *)
Definition READER_STREAM_BYTES : nat := 4096.

(** * Interfaces *)

(** The [time] crate: the components of a moment in UTC that the program reads. *)
Record OffsetDateTime := mkOffsetDateTime {
  dt_year : Z;
  dt_month : Z;
  dt_day : Z;
  dt_hour : Z;
  dt_minute : Z;
  dt_second : Z;
  unix_timestamp_nanos : Z;
}.

Class UtcClock (W : Type) := { now_utc : St W OffsetDateTime }.

(** [rand::rng().fill] of some bytes *)
Class Rng (W : Type) := { rng_fill : nat -> St W bytes }.

(** [reqwest] requests: what a streamed body reads from. *)
Inductive BodySource :=
| FromBase64 (reader : Base64DecodedReader)
| FromBlob (stream : ReadStream).

Inductive PartContent :=
| PartBytes (bs : bytes)
| PartStream (source : BodySource) (content_length : Z).

Record Part := mkPart {
  part_field : string;
  part_file_name : string;
  part_mime : string;
  part_content : PartContent;
}.

Inductive HttpBody :=
| BodyBytes (bs : bytes)
| BodyStream (source : BodySource)
| BodyMultipart (part : Part).

Record HttpRequest := mkHttpRequest {
  req_method : string;
  req_url : string;
  req_headers : list (string * string);
  req_body : HttpBody;
}.

Class HttpSender (W : Type) := {
  (** [request.send()] *)
  send_request : HttpRequest -> St W (Result ReqwestError HttpResponse);
  (** [Part::mime_str]: the error for a media type that does not parse *)
  mime_str : string -> Result ReqwestError unit;
  (** [response.text()] *)
  response_text : HttpResponse -> Result ReqwestError string;
}.

(** serde's [Deserialize], used by [serde_json::from_str] on the answers of the hosts *)
Class Deserialize (A : Type) := { from_str : string -> Result string A }.

Record UguuFile := mkUguuFile { uguu_file_url : string }.
Record UguuResponse := mkUguuResponse { uguu_success : bool; uguu_files : list UguuFile }.
Record KefanResponse := mkKefanResponse { kefan_success : bool; kefan_data : string }.

(** * Strings *)

Definition newline : string := String "010" EmptyString.

(** [format!("{:0w$}")] of a signed integer *)
Fixpoint zeros (n : nat) : string := match n with O => EmptyString | S n => String "0" (zeros n) end.
Definition pad_zeros (width : nat) (s : string) : string := zeros (width - String.length s) +:+ s.
Definition fmt_padded (width : nat) (z : Z) : string :=
  if (z <? 0)%Z then "-" +:+ pad_zeros (width - 1) (fmt_Z (- z)) else pad_zeros width (fmt_Z z).

(** [[year]] in a format description: four digits after the sign *)
Definition fmt_year (z : Z) : string :=
  if (z <? 0)%Z then "-" +:+ pad_zeros 4 (fmt_Z (- z)) else pad_zeros 4 (fmt_Z z).

Definition date_stamp_of (now : OffsetDateTime) : string :=
  fmt_year (dt_year now) +:+ fmt_padded 2 (dt_month now) +:+ fmt_padded 2 (dt_day now).

Definition amz_date_of (now : OffsetDateTime) : string :=
  date_stamp_of now +:+ "T" +:+ fmt_padded 2 (dt_hour now) +:+ fmt_padded 2 (dt_minute now)
  +:+ fmt_padded 2 (dt_second now) +:+ "Z".

Definition parse_image_host_mode (raw : string) : Result Error ImageHostMode :=
  let mode := to_ascii_lowercase (trim raw) in
  if String.eqb mode EmptyString || String.eqb mode "legacy" then Ok Legacy
  else if String.eqb mode "r2" then Ok R2
  else if String.eqb mode "r2_then_legacy" then Ok R2ThenLegacy
  else Err (Anyhow ("unsupported IMAGE_HOST_MODE " +:+ mode)).

Definition wrap_external_proxy_url `{UrlLib} (external_proxy_prefix target_url : string) : string :=
  trim external_proxy_prefix +:+ byte_serialize target_url.

Definition extension_from_mime (mime_type : string) : string :=
  if String.eqb mime_type "image/jpeg" then ".jpg"
  else if String.eqb mime_type "image/webp" then ".webp"
  else if String.eqb mime_type "image/gif" then ".gif"
  else ".png".

Definition build_r2_object_key (prefix mime_type : string) (now : OffsetDateTime)
    (random_hex : string) : string :=
  let prefix := trim_matches "/" (trim prefix) in
  let prefix := if is_empty prefix then "images" else prefix in
  prefix +:+ "/" +:+ fmt_padded 4 (dt_year now) +:+ "/" +:+ fmt_padded 2 (dt_month now)
  +:+ "/" +:+ fmt_padded 2 (dt_day now) +:+ "/" +:+ fmt_Z (Z.quot (unix_timestamp_nanos now) 1000000)
  +:+ "-" +:+ random_hex +:+ "." +:+ trim_start_matches "." (extension_from_mime mime_type).

Definition build_r2_object_url `{UrlLib} (endpoint : Url) (bucket key : string) : string * string :=
  let bucket := trim bucket in
  let key := trim_start_matches "/" (trim key) in
  let plain_path := "/" +:+ bucket +:+ "/" +:+ key in
  let canonical_uri := "/" +:+ byte_serialize bucket +:+ "/"
                       +:+ join "/" (byte_serialize <$> split_char "/" key) in
  let object_url := url_set_path (trim_end_matches "/" (url_path endpoint) +:+ plain_path) endpoint in
  (url_to_string object_url, canonical_uri).

(** * Base64 text *)

Definition decoded_base64_len (data_base64 : string) : Result Error Z :=
  if is_empty data_base64 then Ok 0%Z
  else if negb (String.length data_base64 mod 4 =? 0)%nat then Err (Anyhow "invalid base64 length")
  else
    let padding := if ends_with data_base64 "==" then 2%Z
                   else if ends_with data_base64 "=" then 1%Z else 0%Z in
    Ok (Z.of_nat (String.length data_base64 / 4 * 3) - padding)%Z.

Definition next_base64_chunk_end (total_len offset : nat) : nat :=
  let remaining := (total_len - offset)%nat in
  if (remaining <=? BASE64_STREAM_INPUT_CHARS)%nat then total_len
  else (offset + BASE64_STREAM_INPUT_CHARS)%nat.

(** [&s[from..to]] *)
Definition byte_slice (from to : nat) (s : bytes) : bytes := str_take (to - from) (str_drop from s).

Section base64.
Context `{Base64} `{Digests}.

Definition sha256_hex (data : bytes) : string := hex_encode (sha256 data).

(** [decode_slice] into a buffer of [chunk.len() / 4 * 3] bytes *)
Definition decode_base64_chunk (chunk : bytes) : Result Error bytes :=
  let? decoded := map_err ExternalError (b64_decode chunk) in
  if (String.length chunk / 4 * 3 <? String.length decoded)%nat
  then Err (ExternalError "Output slice is too small") else Ok decoded.

(** The [while] loop, with the bytes the hasher has been given. Each turn moves [offset] forward. *)
Fixpoint sha256_base64_loop (fuel offset : nat) (hashed : bytes) (data_base64 : string)
    : Result Error bytes :=
  match fuel with
  | O => Ok hashed
  | S fuel =>
      if (offset <? String.length data_base64)%nat then
        let end_ := next_base64_chunk_end (String.length data_base64) offset in
        let? decoded := decode_base64_chunk (byte_slice offset end_ data_base64) in
        sha256_base64_loop fuel end_ (hashed +:+ decoded) data_base64
      else Ok hashed
  end.

Definition sha256_hex_base64 (data_base64 : string) : Result Error string :=
  let? hashed := sha256_base64_loop (String.length data_base64) 0 EmptyString data_base64 in
  Ok (sha256_hex hashed).

Definition reader_new (data_base64 : string) : Base64DecodedReader :=
  mkBase64DecodedReader data_base64 0 EmptyString 0.

(** [poll_read] with [remaining] free bytes in the buffer and [out] put into it so far. *)
Fixpoint poll_loop (fuel : nat) (self : Base64DecodedReader) (remaining : nat) (out : bytes)
    : Result Error bytes * Base64DecodedReader :=
  match fuel with
  | O => (Ok out, self)
  | S fuel =>
      if (0 <? remaining)%nat then
        if (pending_offset self <? String.length (pending self))%nat then
          let available := (String.length (pending self) - pending_offset self)%nat in
          let to_copy := Nat.min available remaining in
          let out := out +:+ byte_slice (pending_offset self) (pending_offset self + to_copy)
                               (pending self) in
          let pending_offset' := (pending_offset self + to_copy)%nat in
          if (pending_offset' <? String.length (pending self))%nat then
            (Ok out, mkBase64DecodedReader (data_base64 self) (offset self) (pending self) pending_offset')
          else
            poll_loop fuel (mkBase64DecodedReader (data_base64 self) (offset self) EmptyString 0)
              (remaining - to_copy) out
        else if (String.length (data_base64 self) <=? offset self)%nat then (Ok out, self)
        else
          let end_ := next_base64_chunk_end (String.length (data_base64 self)) (offset self) in
          match decode_base64_chunk (byte_slice (offset self) end_ (data_base64 self)) with
          | Err e => (Err e, self)
          | Ok decoded =>
              poll_loop fuel
                (mkBase64DecodedReader (data_base64 self) end_ decoded (pending_offset self))
                remaining out
          end
      else (Ok out, self)
  end.

(** Every decoded chunk moves [offset], and is copied at most once: two turns per character. *)
Definition poll_read (self : Base64DecodedReader) (buf_len : nat)
    : Result Error bytes * Base64DecodedReader :=
  poll_loop (2 * (String.length (data_base64 self) - offset self) + 2) self buf_len EmptyString.
End base64.

(** [HmacSha256::new_from_slice] takes keys of any length. *)
Definition hmac `{Digests} (key : bytes) (data : string) : Result Error bytes :=
  Ok (hmac_sha256 key data).

(** [result.unwrap_or_default()] of bytes *)
Definition unwrap_or_default (r : Result Error bytes) : bytes :=
  match r with Ok b => b | Err _ => EmptyString end.

Definition derive_aws_v4_signing_key `{Digests} (secret_access_key date_stamp region service : string)
    : bytes :=
  let k_date := unwrap_or_default (hmac ("AWS4" +:+ secret_access_key) date_stamp) in
  let k_region := unwrap_or_default (hmac k_date region) in
  let k_service := unwrap_or_default (hmac k_region service) in
  unwrap_or_default (hmac k_service "aws4_request").

(** * Uploads *)

Section uploader.
Context `{UrlLib} `{Base64} `{Digests} `{Displays} `{Deserialize UguuResponse}
  `{Deserialize KefanResponse} {W : Type} `{UtcClock W} `{Rng W} `{HttpSender W}.

Definition random_hex (bytes_len : nat) : St W string := fun w =>
  let '(bs, w') := rng_fill bytes_len w in (hex_encode bs, w').

(** [request.send().await?] and [response.text().await?] *)
Definition send (request : HttpRequest) : StE W HttpResponse := fun w =>
  let '(r, w') := send_request request w in (map_err ReqwestErr r, w').
Definition text (response : HttpResponse) : Result Error string :=
  map_err ReqwestErr (response_text response).

(** ** The legacy hosts *)

(** What is read from the answer of uguu, and of kefan. *)
Definition uguu_url (response : HttpResponse) : Result Error string :=
  let status := resp_status response in
  let? body := text response in
  if negb (is_success status) then
    Err (Anyhow ("uguu status " +:+ status_display status +:+ ": " +:+ trim body))
  else
    let? parsed := map_err (fun err => Anyhow ("uguu invalid json: " +:+ err +:+ ": " +:+ trim body))
                     (from_str (A := UguuResponse) body) in
    match uguu_files parsed with
    | file :: _ =>
        if negb (uguu_success parsed) || is_empty (trim (uguu_file_url file))
        then Err (Anyhow ("uguu upload failed: " +:+ trim body))
        else Ok (uguu_file_url file)
    | [] => Err (Anyhow ("uguu upload failed: " +:+ trim body))
    end.

Definition kefan_url (response : HttpResponse) : Result Error string :=
  let? body := text response in
  let? parsed := map_err (fun err => Anyhow ("kefan invalid json: " +:+ err +:+ ": " +:+ trim body))
                   (from_str (A := KefanResponse) body) in
  if negb (kefan_success parsed) || is_empty (trim (kefan_data parsed))
  then Err (Anyhow ("kefan upload failed: " +:+ trim body))
  else Ok (kefan_data parsed).

Definition image_part (field mime_type : string) (content : PartContent) : Result Error Part :=
  let? _ := map_err ReqwestErr (mime_str mime_type) in
  Ok (mkPart field ("image" +:+ extension_from_mime mime_type) mime_type content).

Definition upload_to_uguu (target_url : string) (data : bytes) (mime_type : string) : StE W string :=
  part <-? ste_lift (image_part "files[]" mime_type (PartBytes data)) ;;
  response <-? send (mkHttpRequest "POST" target_url
    [("user-agent", UPLOAD_USER_AGENT); ("accept", "application/json")] (BodyMultipart part)) ;;
  ste_lift (uguu_url response).

Definition upload_to_kefan (target_url : string) (data : bytes) (mime_type : string) : StE W string :=
  part <-? ste_lift (image_part "file" mime_type (PartBytes data)) ;;
  response <-? send (mkHttpRequest "POST" target_url [("user-agent", UPLOAD_USER_AGENT)]
    (BodyMultipart part)) ;;
  ste_lift (kefan_url response).

Definition send_streaming_multipart_reader (reader : BodySource) (content_length : Z)
    (target_url field_name mime_type : string) (accept_json : bool) : StE W HttpResponse :=
  part <-? ste_lift (image_part field_name mime_type (PartStream reader content_length)) ;;
  let headers := [("user-agent", UPLOAD_USER_AGENT)]
                 ++ (if accept_json then [("accept", "application/json")] else []) in
  send (mkHttpRequest "POST" target_url headers (BodyMultipart part)).

Definition upload_base64_to_uguu (config : Config) (data_base64 mime_type : string) : StE W string :=
  decoded_len <-? ste_lift (decoded_base64_len data_base64) ;;
  response <-? send_streaming_multipart_reader (FromBase64 (reader_new data_base64)) decoded_len
                 (legacy_uguu_upload_url config) "files[]" mime_type true ;;
  ste_lift (uguu_url response).

Definition upload_base64_to_kefan (config : Config) (data_base64 mime_type : string) : StE W string :=
  decoded_len <-? ste_lift (decoded_base64_len data_base64) ;;
  response <-? send_streaming_multipart_reader (FromBase64 (reader_new data_base64)) decoded_len
                 (legacy_kefan_upload_url config) "file" mime_type false ;;
  ste_lift (kefan_url response).

(** ** Combination of two hosts: the second runs in the world the first left when it fails *)

Definition or_else {S A} (first second : StE S A) : StE S A := fun s =>
  match first s with
  | (Ok a, s') => (Ok a, s')
  | (Err _, s') => second s'
  end.

Definition as_legacy {S} (m : StE S string) : StE S UploadResult :=
  url <-? m ;; ste_ok (mkUploadResult url "legacy").

Definition upload_legacy (config : Config) (data : bytes) (mime_type : string) : StE W UploadResult :=
  or_else (as_legacy (upload_to_uguu (legacy_uguu_upload_url config) data mime_type))
    (as_legacy (upload_to_kefan (legacy_kefan_upload_url config) data mime_type)).

Definition upload_legacy_base64 (config : Config) (data_base64 mime_type : string)
    : StE W UploadResult :=
  or_else (as_legacy (upload_base64_to_uguu config data_base64 mime_type))
    (as_legacy (upload_base64_to_kefan config data_base64 mime_type)).

(** ** R2 *)

(** What is computed before the payload is hashed. *)
Record R2Target := mkR2Target {
  r2_target_endpoint : Url;
  r2_key : string;
  r2_object_url : string;
  r2_canonical_uri : string;
  r2_now : OffsetDateTime;
}.

Definition r2_target (config : Config) (mime_type : string) : StE W R2Target :=
  endpoint <-? ste_lift (map_err ExternalError (url_parse (r2_endpoint config))) ;;
  now <-! now_utc ;;
  suffix <-! random_hex 4 ;;
  let key := build_r2_object_key (r2_object_prefix config) mime_type now suffix in
  let '(object_url, canonical_uri) := build_r2_object_url endpoint (r2_bucket config) key in
  now <-! now_utc ;;
  ste_ok (mkR2Target endpoint key object_url canonical_uri now).

(** The [Authorization] header (AWS signature version 4). *)
Definition r2_authorization (config : Config) (target : R2Target) (mime_type payload_hash : string)
    : Result Error string :=
  let amz_date := amz_date_of (r2_now target) in
  let date_stamp := date_stamp_of (r2_now target) in
  let canonical_headers :=
    "content-type:" +:+ mime_type +:+ newline
    +:+ "host:" +:+ url_host (r2_target_endpoint target) +:+ newline
    +:+ "x-amz-content-sha256:" +:+ payload_hash +:+ newline
    +:+ "x-amz-date:" +:+ amz_date +:+ newline in
  let signed_headers := "content-type;host;x-amz-content-sha256;x-amz-date" in
  let canonical_request :=
    "PUT" +:+ newline +:+ r2_canonical_uri target +:+ newline +:+ newline
    +:+ canonical_headers +:+ newline +:+ signed_headers +:+ newline +:+ payload_hash in
  let credential_scope := date_stamp +:+ "/auto/s3/aws4_request" in
  let string_to_sign :=
    "AWS4-HMAC-SHA256" +:+ newline +:+ amz_date +:+ newline +:+ credential_scope +:+ newline
    +:+ sha256_hex canonical_request in
  let signing_key := derive_aws_v4_signing_key (r2_secret_access_key config) date_stamp "auto" "s3" in
  let? mac := hmac signing_key string_to_sign in
  let signature := hex_encode mac in
  Ok ("AWS4-HMAC-SHA256 Credential=" +:+ r2_access_key_id config +:+ "/" +:+ credential_scope
      +:+ ", SignedHeaders=" +:+ signed_headers +:+ ", Signature=" +:+ signature).

(** What is read from the answer. *)
Definition r2_result (config : Config) (target : R2Target) (response : HttpResponse)
    : Result Error UploadResult :=
  let status := resp_status response in
  if negb (is_success status) then
    let body := unwrap_or_default (text response) in
    Err (Anyhow ("r2 put object failed: status " +:+ status_display status +:+ ": " +:+ trim body))
  else
    Ok (mkUploadResult
          (trim_end_matches "/" (r2_public_base_url config) +:+ "/" +:+ r2_key target) "r2").

Definition upload_r2 (config : Config) (data : bytes) (mime_type : string) : StE W UploadResult :=
  target <-? r2_target config mime_type ;;
  let payload_hash := sha256_hex data in
  authorization <-? ste_lift (r2_authorization config target mime_type payload_hash) ;;
  response <-? send (mkHttpRequest "PUT" (r2_object_url target)
    [("content-type", mime_type); ("x-amz-content-sha256", payload_hash);
     ("x-amz-date", amz_date_of (r2_now target)); ("authorization", authorization)]
    (BodyBytes data)) ;;
  ste_lift (r2_result config target response).

Definition put_object_stream (object_url authorization amz_date payload_hash mime_type : string)
    (content_length : Z) (reader : BodySource) : StE W HttpResponse :=
  send (mkHttpRequest "PUT" object_url
    [("content-type", mime_type); ("content-length", fmt_Z content_length);
     ("x-amz-content-sha256", payload_hash); ("x-amz-date", amz_date);
     ("authorization", authorization)] (BodyStream reader)).

Definition upload_r2_base64 (config : Config) (data_base64 mime_type : string) : StE W UploadResult :=
  target <-? r2_target config mime_type ;;
  payload_hash <-? ste_lift (sha256_hex_base64 data_base64) ;;
  content_length <-? ste_lift (decoded_base64_len data_base64) ;;
  authorization <-? ste_lift (r2_authorization config target mime_type payload_hash) ;;
  response <-? put_object_stream (r2_object_url target) authorization (amz_date_of (r2_now target))
                 payload_hash mime_type content_length (FromBase64 (reader_new data_base64)) ;;
  ste_lift (r2_result config target response).

(** ** Dispatch *)

Definition by_mode {S A} (config : Config) (legacy r2 : StE S A) : StE S A :=
  mode <-? ste_lift (parse_image_host_mode (image_host_mode config)) ;;
  match mode with
  | Legacy => legacy
  | R2 => r2
  | R2ThenLegacy => or_else r2 legacy
  end.

Definition upload_image (config : Config) (data : bytes) (mime_type : string) : StE W UploadResult :=
  by_mode config (upload_legacy config data mime_type) (upload_r2 config data mime_type).

Definition upload_inline_data_base64 (config : Config) (data_base64 mime_type : string)
    : StE W UploadResult :=
  by_mode config (upload_legacy_base64 config data_base64 mime_type)
    (upload_r2_base64 config data_base64 mime_type).

Definition upload_image_with_mode (mode : ImageHostMode) (data : bytes) (mime_type : string)
    (r2_uploader legacy_uploader : bytes -> string -> StE W UploadResult) : StE W UploadResult :=
  match mode with
  | Legacy => legacy_uploader data mime_type
  | R2 => r2_uploader data mime_type
  | R2ThenLegacy => or_else (r2_uploader data mime_type) (legacy_uploader data mime_type)
  end.

(** ** Blobs: the same over the blob runtime *)

Context `{FileSystem W}.
Abbreviation Rt := (BlobRuntimeInner W).

(** A step of the uploader's, from the blob runtime's world *)
Definition out {A} (m : StE W A) : StE Rt A := on_world m.

Definition send_streaming_multipart (blob : BlobHandle) (target_url field_name mime_type : string)
    (accept_json : bool) : StE Rt HttpResponse :=
  reader <-? open_reader blob READER_STREAM_BYTES ;;
  out (send_streaming_multipart_reader (FromBlob reader) (size_bytes (meta blob)) target_url
         field_name mime_type accept_json).

Definition upload_blob_to_uguu (config : Config) (blob : BlobHandle) (mime_type : string)
    : StE Rt string :=
  response <-? send_streaming_multipart blob (legacy_uguu_upload_url config) "files[]" mime_type true ;;
  ste_lift (uguu_url response).

Definition upload_blob_to_kefan (config : Config) (blob : BlobHandle) (mime_type : string)
    : StE Rt string :=
  response <-? send_streaming_multipart blob (legacy_kefan_upload_url config) "file" mime_type false ;;
  ste_lift (kefan_url response).

Definition upload_legacy_blob (config : Config) (blob : BlobHandle) (mime_type : string)
    : StE Rt UploadResult :=
  or_else (as_legacy (upload_blob_to_uguu config blob mime_type))
    (as_legacy (upload_blob_to_kefan config blob mime_type)).

(** The chunks of a spilled blob are hashed as they are read. *)
Definition sha256_hex_blob (blob : BlobHandle) : StE Rt string :=
  match storage blob with
  | Inline bs | Shared bs => ste_ok (sha256_hex bs)
  | Spilled _ =>
      reader <-? open_reader blob (16 * 1024) ;;
      ste_lift (match read_error reader with
                | Some e => Err (ExternalError (io_display e))
                | None => Ok (sha256_hex (foldl String.append EmptyString (read_chunks_of reader)))
                end)
  end.

Definition upload_r2_blob (config : Config) (blob : BlobHandle) (mime_type : string)
    : StE Rt UploadResult :=
  target <-? out (r2_target config mime_type) ;;
  payload_hash <-? sha256_hex_blob blob ;;
  authorization <-? ste_lift (r2_authorization config target mime_type payload_hash) ;;
  reader <-? open_reader blob READER_STREAM_BYTES ;;
  response <-? out (put_object_stream (r2_object_url target) authorization
                      (amz_date_of (r2_now target)) payload_hash mime_type
                      (size_bytes (meta blob)) (FromBlob reader)) ;;
  ste_lift (r2_result config target response).

Definition upload_blob (config : Config) (blob : BlobHandle) (mime_type : string)
    : StE Rt UploadResult :=
  by_mode config (upload_legacy_blob config blob mime_type) (upload_r2_blob config blob mime_type).
End uploader.

(** * Lemmas *)

(** ** The reader of base64 text *)

Section base64_lemmas.
#[local] Set Default Proof Using "All".
Context `{Base64Laws} `{Digests}.

(** A chunk is [4 * CHUNK_UNITS] characters, [3 * CHUNK_UNITS] bytes. *)
Definition CHUNK_UNITS : nat := 8 * 1024.

Lemma chunk_chars : BASE64_STREAM_INPUT_CHARS = (4 * CHUNK_UNITS)%nat.
Proof. unfold BASE64_STREAM_INPUT_CHARS, CHUNK_UNITS. lia. Qed.

Lemma chunk_units_pos : (0 < CHUNK_UNITS)%nat.
Proof. unfold CHUNK_UNITS. lia. Qed.

#[local] Opaque CHUNK_UNITS BASE64_STREAM_INPUT_CHARS.

(** Groups of three bytes. *)
Lemma groups_bound n : (n <= (n + 2) / 3 * 3 < n + 3)%nat.
Proof.
  pose proof (Nat.div_mod_eq (n + 2) 3). pose proof (Nat.mod_upper_bound (n + 2) 3). lia.
Qed.

Lemma encode_nonempty bs : bs <> EmptyString -> (0 < String.length (b64_encode bs))%nat.
Proof.
  intros Hne. rewrite b64_encode_length. pose proof (groups_bound (String.length bs)).
  destruct bs; [done|]. simpl String.length in *. lia.
Qed.

Lemma decode_chunk_encode bs : decode_base64_chunk (b64_encode bs) = Ok bs.
Proof.
  unfold decode_base64_chunk. rewrite b64_decode_encode, b64_encode_length. cbn [map_err and_then].
  rewrite (Nat.mul_comm 4), Nat.div_mul by lia.
  pose proof (groups_bound (String.length bs)).
  destruct (Nat.ltb_spec ((String.length bs + 2) / 3 * 3) (String.length bs)); [lia|done].
Qed.

(** What the next chunk of a text decodes to, when the rest of the text encodes some bytes. *)
Lemma chunk_step data off rest :
  (off <= String.length data)%nat -> str_drop off data = b64_encode rest -> rest <> EmptyString ->
  let end_ := next_base64_chunk_end (String.length data) off in
  (off < end_ <= String.length data)%nat /\
  exists a b, rest = a +:+ b /\ decode_base64_chunk (byte_slice off end_ data) = Ok a /\
    str_drop end_ data = b64_encode b.
Proof.
  intros Hoff Hdrop Hne end_. assert (Hlen := f_equal String.length Hdrop).
  rewrite str_drop_length in Hlen. assert (Hpos := encode_nonempty rest Hne).
  unfold end_, next_base64_chunk_end, byte_slice. rewrite Hdrop.
  destruct (Nat.leb_spec (String.length data - off) BASE64_STREAM_INPUT_CHARS) as [Hle|Hgt].
  - split; [lia|]. exists rest, EmptyString. rewrite string_app_nil_r.
    split; [done|]. rewrite str_take_all by lia. split; [apply decode_chunk_encode|].
    rewrite str_drop_all by lia. symmetry. apply string_length_zero.
    by rewrite b64_encode_length.
  - assert (Hu := chunk_units_pos). rewrite chunk_chars in *. rewrite b64_encode_length in Hlen.
    pose proof (groups_bound (String.length rest)) as Hg.
    set (a := str_take (3 * CHUNK_UNITS) rest). set (b := str_drop (3 * CHUNK_UNITS) rest).
    assert (Ha : String.length a = (3 * CHUNK_UNITS)%nat)
      by (unfold a; rewrite str_take_length; lia).
    assert (Henc : b64_encode rest = b64_encode a +:+ b64_encode b).
    { rewrite <- b64_encode_app; [by unfold a, b; rewrite str_take_drop|].
      rewrite Ha, Nat.mul_comm. apply Nat.Div0.mod_mul. }
    assert (Hea : String.length (b64_encode a) = (4 * CHUNK_UNITS)%nat).
    { rewrite b64_encode_length, Ha. pose proof (groups_bound (3 * CHUNK_UNITS)). lia. }
    split; [lia|]. exists a, b. split; [unfold a, b; by rewrite str_take_drop|].
    replace (off + 4 * CHUNK_UNITS - off)%nat with (4 * CHUNK_UNITS)%nat by lia. split.
    + rewrite Henc, str_take_app, Hea, Nat.sub_diag, str_take_0, string_app_nil_r.
      rewrite str_take_all by lia. apply decode_chunk_encode.
    + rewrite <- str_drop_drop, Hdrop, Henc, str_drop_app, Hea, Nat.sub_diag, str_drop_0.
      by rewrite str_drop_all by lia.
Qed.

(** [rest] is what the reader has still to deliver. *)
Definition reader_rep (r : Base64DecodedReader) (rest : bytes) : Prop :=
  (pending_offset r < String.length (pending r) \/ pending_offset r = 0)%nat /\
  (offset r <= String.length (data_base64 r))%nat /\
  exists tail, str_drop (offset r) (data_base64 r) = b64_encode tail /\
    rest = str_drop (pending_offset r) (pending r) +:+ tail.

Definition reader_measure (r : Base64DecodedReader) : nat :=
  (2 * (String.length (data_base64 r) - offset r)
   + (if (pending_offset r <? String.length (pending r)) then 1 else 0) + 1)%nat.

Lemma reader_new_rep bs : reader_rep (reader_new (b64_encode bs)) bs.
Proof.
  split; [by right|]. split; [simpl; lia|]. exists bs. simpl. by rewrite ?str_drop_0.
Qed.

(** The data left to decode is empty exactly at the end of the text. *)
Lemma tail_at_end r tail :
  (offset r <= String.length (data_base64 r))%nat -> str_drop (offset r) (data_base64 r) = b64_encode tail ->
  (tail = EmptyString <-> (String.length (data_base64 r) <= offset r)%nat).
Proof.
  intros Hoff Hdrop. assert (Hl := f_equal String.length Hdrop). rewrite str_drop_length in Hl. split.
  - intros ->. rewrite b64_encode_length in Hl. simpl in Hl. lia.
  - intros Hend. destruct tail as [|x tail]; [done|].
    assert (Hpos := encode_nonempty (String x tail) ltac:(done)). lia.
Qed.

(** A read that takes part of the pending bytes. *)
Lemma pending_part r tail remaining :
  let p := str_drop (pending_offset r) (pending r) in
  (pending_offset r + remaining < String.length (pending r))%nat ->
  (offset r <= String.length (data_base64 r))%nat -> str_drop (offset r) (data_base64 r) = b64_encode tail ->
  str_take remaining (p +:+ tail) = str_take remaining p /\
  reader_rep (mkBase64DecodedReader (data_base64 r) (offset r) (pending r) (pending_offset r + remaining))
    (str_drop remaining (p +:+ tail)).
Proof.
  intros p Hlt Hoff Hdrop.
  assert (Hlp : String.length p = (String.length (pending r) - pending_offset r)%nat)
    by apply str_drop_length.
  rewrite str_take_app, str_drop_app. replace (remaining - String.length p)%nat with 0%nat by lia.
  rewrite str_take_0, str_drop_0, string_app_nil_r. split; [done|].
  split; [left; simpl; lia|]. split; [done|]. exists tail. split; [done|]. simpl.
  unfold p. by rewrite str_drop_drop.
Qed.

Lemma poll_loop_spec fuel r rest remaining out :
  reader_rep r rest -> (reader_measure r <= fuel)%nat ->
  exists r', poll_loop fuel r remaining out = (Ok (out +:+ str_take remaining rest), r') /\
    reader_rep r' (str_drop remaining rest).
Proof.
  revert r rest remaining out. induction fuel as [|fuel IH]; intros r rest remaining out Hrep Hfuel.
  { unfold reader_measure in Hfuel. lia. }
  destruct Hrep as (Hpo & Hoff & tail & Hdrop & ->). simpl poll_loop.
  destruct (Nat.ltb_spec 0 remaining) as [Hrem|Hrem].
  2:{ replace remaining with 0%nat by lia. exists r. rewrite str_take_0, str_drop_0, string_app_nil_r.
      split; [done|]. by split; [|split; [|exists tail]]. }
  unfold reader_measure in Hfuel.
  destruct (Nat.ltb_spec (pending_offset r) (String.length (pending r))) as [Hp|Hp].
  - set (p := str_drop (pending_offset r) (pending r)).
    assert (Hlp : String.length p = (String.length (pending r) - pending_offset r)%nat)
      by apply str_drop_length.
    unfold byte_slice. fold p. rewrite <- Hlp.
    replace (pending_offset r + Nat.min (String.length p) remaining - pending_offset r)%nat
      with (Nat.min (String.length p) remaining) by lia.
    destruct (Nat.ltb_spec (pending_offset r + Nat.min (String.length p) remaining)
      (String.length (pending r))) as [Hpart|Hfull].
    + rewrite Nat.min_r by lia. rewrite Nat.min_r in Hpart by lia.
      destruct (pending_part r tail remaining Hpart Hoff Hdrop) as [Htake Hrep]. fold p in Htake, Hrep.
      rewrite Htake. by eexists.
    + rewrite Nat.min_l by lia.
      destruct (IH (mkBase64DecodedReader (data_base64 r) (offset r) EmptyString 0) tail
        (remaining - String.length p)%nat (out +:+ str_take (String.length p) p)) as (r' & Hr & Hrep).
      { split; [by right|]. split; [done|]. exists tail. by split. }
      { unfold reader_measure. simpl. lia. }
      exists r'. rewrite Hr. rewrite (str_take_all (String.length p) p) by lia.
      rewrite str_take_app, str_drop_app, string_app_assoc.
      by rewrite (str_take_all remaining p), (str_drop_all remaining p), string_app_nil_l by lia.
  - destruct Hpo as [Hpo|Hpo]; [lia|]. rewrite Hpo in *.
    rewrite (string_length_zero (pending r)) by lia. rewrite str_drop_0, string_app_nil_l.
    destruct (Nat.leb_spec (String.length (data_base64 r)) (offset r)) as [Hend|Hmore].
    + apply (tail_at_end r tail Hoff Hdrop) in Hend as Ht. subst tail.
      exists r. rewrite str_take_all, str_drop_all, string_app_nil_r by (simpl; lia).
      split; [done|]. split; [by right|]. split; [done|]. exists EmptyString. split; [done|].
      rewrite (string_length_zero (pending r)) by lia. by rewrite str_drop_all by (simpl; lia).
    + assert (Hne : tail <> EmptyString) by (intros Ht%(tail_at_end r tail Hoff Hdrop); lia).
      destruct (chunk_step _ _ _ Hoff Hdrop Hne) as (Hend & a & b & -> & -> & Hdrop').
      destruct (IH (mkBase64DecodedReader (data_base64 r)
        (next_base64_chunk_end (String.length (data_base64 r)) (offset r)) a 0) (a +:+ b)
        remaining out) as (r' & Hr & Hrep).
      { split; [by right|]. split; [simpl; lia|]. exists b. simpl. by rewrite ?str_drop_0. }
      { unfold reader_measure. simpl.
        destruct (0 <? String.length a)%nat; lia. }
      exists r'. by rewrite Hr.
Qed.

Lemma poll_read_ok r rest n :
  reader_rep r rest ->
  exists r', poll_read r n = (Ok (str_take n rest), r') /\ reader_rep r' (str_drop n rest).
Proof.
  intros Hrep. unfold poll_read.
  destruct (poll_loop_spec (2 * (String.length (data_base64 r) - offset r) + 2) r rest n
    EmptyString Hrep) as (r' & Hr & Hrep').
  - unfold reader_measure. destruct (_ <? _)%nat; lia.
  - exists r'. by rewrite Hr, string_app_nil_l.
Qed.

Lemma decoded_base64_len_encode bs : decoded_base64_len (b64_encode bs) = Ok (blen bs).
Proof.
  unfold decoded_base64_len, blen. destruct bs as [|x bs].
  { rewrite (string_length_zero (b64_encode EmptyString)); [done|]. by rewrite b64_encode_length. }
  set (s := String x bs). assert (Hpos : (0 < String.length s)%nat) by (simpl; lia).
  clearbody s. destruct (b64_encode_padding s) as [-> ->]. rewrite b64_encode_length.
  destruct (is_empty (b64_encode s)) eqn:He.
  { assert (Hne : s <> EmptyString) by (intros ->; simpl in Hpos; lia). apply encode_nonempty in Hne.
    destruct (b64_encode s); [simpl in Hne; lia|done]. }
  rewrite (Nat.mul_comm 4), Nat.Div0.mod_mul, Nat.div_mul by lia. cbn [Nat.eqb negb].
  f_equal. pose proof (Nat.div_mod_eq (String.length s) 3) as Hd.
  pose proof (Nat.mod_upper_bound (String.length s) 3) as Hm.
  pose proof (Nat.div_mod_eq (String.length s + 2) 3) as Hd2.
  pose proof (Nat.mod_upper_bound (String.length s + 2) 3) as Hm2.
  destruct (Nat.eqb_spec (String.length s mod 3) 1), (Nat.eqb_spec (String.length s mod 3) 0);
    cbn [negb]; lia.
Qed.

Lemma sha_loop_spec fuel off hashed data rest :
  (off <= String.length data)%nat -> str_drop off data = b64_encode rest ->
  (String.length data - off <= fuel)%nat ->
  sha256_base64_loop fuel off hashed data = Ok (hashed +:+ rest).
Proof.
  revert off hashed rest. induction fuel as [|fuel IH]; intros off hashed rest Hoff Hdrop Hfuel.
  all: assert (Hcase : rest = EmptyString \/ rest <> EmptyString) by (destruct rest; auto).
  all: assert (Hlen := f_equal String.length Hdrop); rewrite str_drop_length in Hlen.
  - destruct Hcase as [->|Hne]; [by rewrite string_app_nil_r|].
    apply encode_nonempty in Hne. lia.
  - simpl. destruct Hcase as [->|Hne].
    + rewrite b64_encode_length in Hlen. simpl in Hlen. rewrite string_app_nil_r.
      destruct (Nat.ltb_spec off (String.length data)); [lia|done].
    + assert (Hpos := encode_nonempty rest Hne).
      destruct (Nat.ltb_spec off (String.length data)); [|lia].
      destruct (chunk_step _ _ _ Hoff Hdrop Hne) as (Hend & a & b & -> & -> & Hdrop'). simpl.
      rewrite (IH _ _ b) by (done || lia). by rewrite string_app_assoc.
Qed.

Lemma sha256_hex_base64_encode bs : sha256_hex_base64 (b64_encode bs) = Ok (sha256_hex bs).
Proof.
  unfold sha256_hex_base64. rewrite (sha_loop_spec _ _ _ _ bs); [done|lia| |lia].
  by rewrite str_drop_0.
Qed.
End base64_lemmas.

(** ** What a successful upload has sent *)

(** A successful run of the combinators, taken apart. *)
Ltac ste_inv :=
  repeat match goal with
  | H : ste_bind _ _ _ = (Ok _, _) |- _ =>
      apply ste_bind_Ok in H as (? & ? & ? & H); cbv beta in H
  | H : st_bind _ _ _ = (_, _) |- _ => apply st_bind_Ok in H as (? & ? & ? & H); cbv beta in H
  | H : ste_lift _ _ = (Ok _, _) |- _ => apply ste_lift_Ok in H as [? ->]
  | H : ste_ok _ _ = (Ok _, _) |- _ => injection H as ? ?; subst
  | H : map_err _ _ = Ok _ |- _ => apply map_err_Ok in H
  end.

Section uploads.
#[local] Set Default Proof Using "All".
Context `{UrlLib} `{Base64Laws} `{Digests} `{Displays} `{Deserialize UguuResponse}
  `{Deserialize KefanResponse} {W : Type} `{UtcClock W} `{Rng W} `{HttpSender W}.

Definition source_carries (source : BodySource) (bs : bytes) : Prop :=
  match source with
  | FromBase64 reader => reader_rep reader bs
  | FromBlob stream => read_error stream = None -> joined (read_chunks_of stream) = bs
  end.

(** A request for the object of [target], signed for the content [bs], that delivers [bs]. *)
Record signed_put (config : Config) (mime : string) (bs : bytes) (target : R2Target)
    (request : HttpRequest) : Prop := {
  put_method : req_method request = "PUT";
  put_url : req_url request = r2_object_url target;
  put_hash : ("x-amz-content-sha256", sha256_hex bs) ∈ req_headers request;
  put_mime : ("content-type", mime) ∈ req_headers request;
  put_signature : exists authorization,
    r2_authorization config target mime (sha256_hex bs) = Ok authorization /\
    ("authorization", authorization) ∈ req_headers request;
  put_length : forall n, ("content-length", n) ∈ req_headers request -> n = fmt_Z (blen bs);
  put_body : match req_body request with
             | BodyBytes b => b = bs
             | BodyStream source => source_carries source bs
             | BodyMultipart _ => False
             end;
}.

(** [target] was computed from the configuration for an object under its prefix. *)
Definition target_of (config : Config) (mime : string) (target : R2Target) : Prop :=
  exists endpoint now suffix,
    url_parse (r2_endpoint config) = Ok endpoint /\ r2_target_endpoint target = endpoint /\
    r2_key target = build_r2_object_key (r2_object_prefix config) mime now suffix /\
    (r2_object_url target, r2_canonical_uri target) =
      build_r2_object_url endpoint (r2_bucket config) (r2_key target).

Definition stored_in_r2 (config : Config) (mime : string) (bs : bytes) (result : UploadResult) : Prop :=
  exists target request response w w',
    target_of config mime target /\ signed_put config mime bs target request /\
    send_request request w = (Ok response, w') /\ is_success (resp_status response) = true /\
    result = mkUploadResult
      (trim_end_matches "/" (r2_public_base_url config) +:+ "/" +:+ r2_key target) "r2".

Definition posted_part (bs : bytes) (part : Part) : Prop :=
  match part_content part with
  | PartBytes b => b = bs
  | PartStream source n => source_carries source bs /\ n = blen bs
  end.

(** Some host of the two was posted the content and answered with the URL. *)
Definition stored_in_legacy (config : Config) (mime : string) (bs : bytes) (result : UploadResult)
    : Prop :=
  exists part request response w w',
    req_body request = BodyMultipart part /\ posted_part bs part /\ part_mime part = mime /\
    send_request request w = (Ok response, w') /\
    (req_url request = legacy_uguu_upload_url config /\ uguu_url response = Ok (upload_url result) \/
     req_url request = legacy_kefan_upload_url config /\ kefan_url response = Ok (upload_url result)) /\
    provider result = "legacy".

Lemma send_Ok request (w w' : W) response :
  send request w = (Ok response, w') -> send_request request w = (Ok response, w').
Proof.
  unfold send. destruct (send_request request w) as [r w1]. intros [= Hr ->].
  by apply map_err_Ok in Hr as ->.
Qed.

Lemma r2_target_Ok config mime (w w' : W) target :
  r2_target config mime w = (Ok target, w') -> target_of config mime target.
Proof.
  unfold r2_target. intros Hr. ste_inv. 
  destruct (build_r2_object_url _ _ _) as [url uri] eqn:Eb. ste_inv.
  unfold target_of. simpl. eauto 10.
Qed.

Lemma r2_result_Ok config target response result :
  r2_result config target response = Ok result ->
  is_success (resp_status response) = true /\
  result = mkUploadResult
    (trim_end_matches "/" (r2_public_base_url config) +:+ "/" +:+ r2_key target) "r2".
Proof. unfold r2_result. destruct (is_success _); [|done]. by intros [= <-]. Qed.

Lemma upload_r2_Ok config bs mime (w w' : W) result :
  upload_r2 config bs mime w = (Ok result, w') -> stored_in_r2 config mime bs result.
Proof.
  unfold upload_r2. intros Hr. ste_inv.
  match goal with H : r2_target _ _ _ = _ |- _ => apply r2_target_Ok in H as Ht end.
  match goal with H : send _ _ = _ |- _ => apply send_Ok in H as Hs end.
  match goal with H : r2_result _ _ _ = _ |- _ => apply r2_result_Ok in H as [Hst ->] end.
  eexists _, _, _, _, _. split; [exact Ht|]. split; [|by split_and!].
  split; simpl; try done; [set_solver..| |set_solver].
  eexists. split; [eassumption|set_solver].
Qed.

(** The request of [put_object_stream] when the hash and the length are those of the content. *)
Lemma put_stream_Ok config target mime bs authorization source (w w' : W) response result :
  target_of config mime target ->
  r2_authorization config target mime (sha256_hex bs) = Ok authorization ->
  source_carries source bs ->
  put_object_stream (r2_object_url target) authorization (amz_date_of (r2_now target))
    (sha256_hex bs) mime (blen bs) source w = (Ok response, w') ->
  r2_result config target response = Ok result ->
  stored_in_r2 config mime bs result.
Proof.
  intros Ht Ha Hc Hs%send_Ok [Hst ->]%r2_result_Ok.
  eexists _, _, _, _, _. split; [exact Ht|]. split; [|by split_and!].
  split; simpl; try done; [set_solver..| |intros n; set_solver].
  eexists. split; [eassumption|set_solver].
Qed.

Lemma upload_r2_base64_Ok config bs mime (w w' : W) result :
  upload_r2_base64 config (b64_encode bs) mime w = (Ok result, w') ->
  stored_in_r2 config mime bs result.
Proof.
  unfold upload_r2_base64. rewrite sha256_hex_base64_encode, decoded_base64_len_encode.
  intros Hr. ste_inv. simplify_eq.
  match goal with H : r2_target _ _ _ = _ |- _ => apply r2_target_Ok in H as Ht end.
  eapply put_stream_Ok; [exact Ht|eassumption| |eassumption|eassumption].
  apply reader_new_rep.
Qed.

Lemma image_part_Ok field mime content part :
  image_part field mime content = Ok part ->
  part_content part = content /\ part_mime part = mime.
Proof. unfold image_part. destruct (mime_str mime); [by intros [= <-]|done]. Qed.

Lemma as_legacy_Ok {S} (m : StE S string) (s s' : S) result :
  as_legacy m s = (Ok result, s') ->
  exists url, m s = (Ok url, s') /\ result = mkUploadResult url "legacy".
Proof. unfold as_legacy. intros Hr. ste_inv. eauto. Qed.

Lemma or_else_Ok {S A} (first second : StE S A) (s s' : S) a :
  or_else first second s = (Ok a, s') ->
  first s = (Ok a, s') \/ exists e s1, first s = (Err e, s1) /\ second s1 = (Ok a, s').
Proof. unfold or_else. destruct (first s) as [[b|e] s1]; [naive_solver|eauto 10]. Qed.

(** One post of a part with the content, to either host. *)
Lemma posted_Ok config mime bs field content part request url (w w' : W) response :
  image_part field mime content = Ok part -> posted_part bs (mkPart field EmptyString mime content) ->
  req_body request = BodyMultipart part ->
  (req_url request = legacy_uguu_upload_url config /\ uguu_url response = Ok url \/
   req_url request = legacy_kefan_upload_url config /\ kefan_url response = Ok url) ->
  send request w = (Ok response, w') ->
  stored_in_legacy config mime bs (mkUploadResult url "legacy").
Proof.
  intros [Hc Hm]%image_part_Ok Hp Hb Hu Hs%send_Ok.
  exists part, request, response, w, w'. unfold posted_part in *. rewrite Hc. by split_and!.
Qed.

Lemma upload_legacy_Ok config bs mime (w w' : W) result :
  upload_legacy config bs mime w = (Ok result, w') -> stored_in_legacy config mime bs result.
Proof.
  unfold upload_legacy. intros [Hr|(e & w1 & _ & Hr)]%or_else_Ok;
    apply as_legacy_Ok in Hr as (url & Hr & ->);
    unfold upload_to_uguu, upload_to_kefan in Hr; ste_inv;
    eapply posted_Ok; try eassumption; try done; [by left|by right].
Qed.

Lemma upload_legacy_base64_Ok config bs mime (w w' : W) result :
  upload_legacy_base64 config (b64_encode bs) mime w = (Ok result, w') ->
  stored_in_legacy config mime bs result.
Proof.
  unfold upload_legacy_base64. intros [Hr|(e & w1 & _ & Hr)]%or_else_Ok;
    apply as_legacy_Ok in Hr as (url & Hr & ->);
    unfold upload_base64_to_uguu, upload_base64_to_kefan in Hr;
    rewrite decoded_base64_len_encode in Hr; ste_inv; simplify_eq;
    unfold send_streaming_multipart_reader in *; ste_inv;
    eapply posted_Ok; try eassumption; try done.
  1,3: split; [apply reader_new_rep|done].
  - by left.
  - by right.
Qed.

Lemma by_mode_Ok {S A} config (legacy r2 : StE S A) (s s' : S) a :
  by_mode config legacy r2 s = (Ok a, s') ->
  exists mode, parse_image_host_mode (image_host_mode config) = Ok mode /\
    (mode <> Legacy /\ r2 s = (Ok a, s') \/
     mode = Legacy /\ legacy s = (Ok a, s') \/
     mode = R2ThenLegacy /\ exists e s1, r2 s = (Err e, s1) /\ legacy s1 = (Ok a, s')).
Proof.
  unfold by_mode. intros Hr. ste_inv. exists x. split; [done|]. destruct x; [naive_solver..|].
  apply or_else_Ok in Hr as [Hr|Hr]; [left|right; right]; by split.
Qed.
End uploads.

(** ** The same for blobs *)

(** The clock, the generator and the network do not touch files. *)
Class UploadFrames (W : Type) `{FileSystemLaws W} `{UtcClock W} `{Rng W} `{HttpSender W} : Prop := {
  now_utc_frame : forall w a w', now_utc w = (a, w') -> forall p, fs_content w' p = fs_content w p;
  rng_fill_frame : forall n w a w', rng_fill n w = (a, w') ->
    forall p, fs_content w' p = fs_content w p;
  send_request_frame : forall request w r w', send_request request w = (r, w') ->
    forall p, fs_content w' p = fs_content w p;
}.

Section blob_uploads.
#[local] Set Default Proof Using "All".
Context `{UrlLib} `{Base64Laws} `{Digests} `{Displays} `{Deserialize UguuResponse}
  `{Deserialize KefanResponse} {W : Type} `{UploadFrames W}.
Abbreviation Rt := (BlobRuntimeInner W).

Lemma out_inv {A} (m : StE W A) (s s' : Rt) r :
  out m s = (r, s') -> exists w', m (world s) = (r, w') /\ s' = set_world w' s.
Proof. unfold out, on_world. destruct (m (world s)) as [a w']. intros [= <- <-]. eauto. Qed.

Lemma r2_target_frame config mime (w w' : W) r :
  r2_target config mime w = (r, w') -> forall p, fs_content w' p = fs_content w p.
Proof.
  unfold r2_target, ste_bind, st_bind, ste_lift, random_hex.
  destruct (map_err _ _) as [endpoint|]; [|by intros [= _ <-]].
  destruct (now_utc w) as [t1 w1] eqn:E1. destruct (rng_fill 4 w1) as [b w2] eqn:E2.
  destruct (build_r2_object_url _ _ _) as [url uri]. destruct (now_utc w2) as [t3 w3] eqn:E3.
  intros [= _ <-] p.
  by rewrite (now_utc_frame _ _ _ E3), (rng_fill_frame _ _ _ _ E2), (now_utc_frame _ _ _ E1).
Qed.

Lemma foldl_joined acc cs : foldl String.append acc cs = acc +:+ joined cs.
Proof.
  revert acc. induction cs as [|c cs IH]; intros acc; simpl.
  - by rewrite string_app_nil_r.
  - rewrite IH. unfold joined. simpl. apply string_app_assoc.
Qed.

Lemma sha256_hex_blob_Ok s L id h bs hash (s' : Rt) :
  rep s L -> L !! id = Some (h, bs) -> sha256_hex_blob h s = (Ok hash, s') ->
  rep s' L /\ hash = sha256_hex bs.
Proof.
  intros Hrep Hl. destruct (rep_stored s L Hrep _ _ _ Hl) as (_ & _ & Hst).
  unfold sha256_hex_blob.
  destruct (storage h) as [b|b|path] eqn:Es; [by intros [= <- <-]; subst b..|].
  intros (reader & s1 & Hopen & Hr)%ste_bind_Ok.
  destruct (open_reader_spec _ _ _ _ _ (16 * 1024) _ _ Hrep Hl ltac:(lia) Hopen) as [Hrep1 Hj].
  destruct (read_error reader) eqn:He; [done|]. injection Hr as <- <-.
  split; [done|]. by rewrite foldl_joined, (Hj _ eq_refl He).
Qed.

Lemma upload_r2_blob_Ok config s L id h bs mime result (s' : Rt) :
  rep s L -> L !! id = Some (h, bs) -> upload_r2_blob config h mime s = (Ok result, s') ->
  rep s' L /\ stored_in_r2 config mime bs result.
Proof.
  intros Hrep Hl Hr. destruct (rep_stored s L Hrep _ _ _ Hl) as (_ & Hsize & _).
  unfold upload_r2_blob in Hr.
  apply ste_bind_Ok in Hr as (target & s1 & (w1 & Ht & ->)%out_inv & Hr).
  assert (Hrep1 : rep (set_world w1 s) L)
    by (apply rep_set_world_same; [done|]; by eapply r2_target_frame).
  apply ste_bind_Ok in Hr as (hash & s2 & Hh & Hr).
  destruct (sha256_hex_blob_Ok _ _ _ _ _ _ _ Hrep1 Hl Hh) as [Hrep2 ->].
  apply ste_bind_Ok in Hr as (authorization & s3 & [Ha ->]%ste_lift_Ok & Hr).
  apply ste_bind_Ok in Hr as (stream & s4 & Ho & Hr).
  destruct (open_reader_spec _ _ _ _ _ READER_STREAM_BYTES _ _ Hrep2 Hl
    ltac:(unfold READER_STREAM_BYTES; lia) Ho) as [Hrep4 Hj].
  apply ste_bind_Ok in Hr as (response & s5 & (w5 & Hp & ->)%out_inv & [Hres ->]%ste_lift_Ok).
  split.
  - apply rep_set_world_same; [done|]. apply send_Ok in Hp. by eapply send_request_frame.
  - rewrite Hsize in Hp. apply r2_target_Ok in Ht.
    eapply put_stream_Ok; [exact Ht|exact Ha| |exact Hp|exact Hres].
    intros He. by apply Hj.
Qed.

(** A step that keeps the blob store, whatever its result. *)
Definition keeps {A} (L : gmap Z (BlobHandle * bytes)) (m : StE Rt A) : Prop :=
  forall s r s', rep s L -> m s = (r, s') -> rep s' L.

Lemma keeps_bind {A B} L (m : StE Rt A) (f : A -> StE Rt B) :
  keeps L m -> (forall a, keeps L (f a)) -> keeps L (ste_bind m f).
Proof.
  intros Hm Hf s r s' Hrep. unfold ste_bind. destruct (m s) as [[a|e] s1] eqn:E.
  - apply Hf. by eapply Hm.
  - intros [= _ <-]. by eapply Hm.
Qed.

Lemma keeps_lift {A} L (r : Result Error A) : keeps L (ste_lift r).
Proof. by intros s r' s' Hrep [= _ <-]. Qed.

Lemma keeps_out {A} L (m : StE W A) :
  (forall w r w', m w = (r, w') -> forall p, fs_content w' p = fs_content w p) -> keeps L (out m).
Proof. intros Hf s r s' Hrep (w' & Hm & ->)%out_inv. apply rep_set_world_same; eauto. Qed.

Lemma keeps_open L id h bs n :
  L !! id = Some (h, bs) -> (0 < n)%nat -> keeps L (open_reader h n).
Proof. intros Hl Hn s r s' Hrep Ho. by eapply open_reader_spec. Qed.

Lemma send_frame request (w w' : W) r :
  send request w = (r, w') -> forall p, fs_content w' p = fs_content w p.
Proof.
  unfold send. destruct (send_request request w) as [r1 w1] eqn:E. intros [= _ <-].
  by eapply send_request_frame.
Qed.

Lemma streaming_frame reader n url field mime json (w w' : W) r :
  send_streaming_multipart_reader reader n url field mime json w = (r, w') ->
  forall p, fs_content w' p = fs_content w p.
Proof.
  unfold send_streaming_multipart_reader, ste_bind, ste_lift.
  destruct (image_part _ _ _); [apply send_frame|by intros [= _ <-]].
Qed.

Lemma keeps_sha L id h bs : L !! id = Some (h, bs) -> keeps L (sha256_hex_blob h).
Proof.
  intros Hl. unfold sha256_hex_blob.
  destruct (storage h); [by intros s r s' Hrep [= _ <-]..|].
  apply keeps_bind; [eapply keeps_open; [done|lia]|intros; apply keeps_lift].
Qed.

Lemma keeps_r2_blob config L id h bs mime :
  L !! id = Some (h, bs) -> keeps L (upload_r2_blob config h mime).
Proof.
  intros Hl. unfold upload_r2_blob.
  apply keeps_bind; [apply keeps_out; intros ???; apply r2_target_frame|intros target].
  apply keeps_bind; [by eapply keeps_sha|intros hash].
  apply keeps_bind; [apply keeps_lift|intros authorization].
  apply keeps_bind; [eapply keeps_open; [done|unfold READER_STREAM_BYTES; lia]|intros stream].
  apply keeps_bind; [apply keeps_out; intros ???; apply send_frame|intros; apply keeps_lift].
Qed.

Lemma keeps_streaming L id h bs url field mime json :
  L !! id = Some (h, bs) -> keeps L (send_streaming_multipart h url field mime json).
Proof.
  intros Hl. unfold send_streaming_multipart.
  apply keeps_bind; [eapply keeps_open; [done|unfold READER_STREAM_BYTES; lia]|intros stream].
  apply keeps_out. intros ???. apply streaming_frame.
Qed.

(** A host that is posted the blob gets the blob's bytes. *)
Lemma streaming_posts s L id h bs url field mime json response (s' : Rt) :
  rep s L -> L !! id = Some (h, bs) ->
  send_streaming_multipart h url field mime json s = (Ok response, s') ->
  exists part request w w', image_part field mime (part_content part) = Ok part /\
    posted_part bs part /\ req_body request = BodyMultipart part /\ req_url request = url /\
    send request w = (Ok response, w').
Proof.
  intros Hrep Hl Hr. destruct (rep_stored s L Hrep _ _ _ Hl) as (_ & Hsize & _).
  unfold send_streaming_multipart in Hr.
  apply ste_bind_Ok in Hr as (stream & s1 & Ho & (w1 & Hp & ->)%out_inv).
  destruct (open_reader_spec _ _ _ _ _ READER_STREAM_BYTES _ _ Hrep Hl
    ltac:(unfold READER_STREAM_BYTES; lia) Ho) as [_ Hj].
  unfold send_streaming_multipart_reader in Hp.
  apply ste_bind_Ok in Hp as (part & w2 & [Hpart ->]%ste_lift_Ok & Hs).
  destruct (image_part_Ok _ _ _ _ Hpart) as [Hc Hm]. eexists part, _, _, _.
  rewrite Hc. split; [done|]. split; [|split; [|split; [|exact Hs]]]; [|done..].
  unfold posted_part. rewrite Hc. split; [|done]. intros He. by apply Hj.
Qed.

Lemma upload_legacy_blob_Ok config s L id h bs mime result (s' : Rt) :
  rep s L -> L !! id = Some (h, bs) -> upload_legacy_blob config h mime s = (Ok result, s') ->
  stored_in_legacy config mime bs result.
Proof.
  intros Hrep Hl [Hr|(e & s1 & He & Hr)]%or_else_Ok.
  2: assert (Hrep1 : rep s1 L).
  2:{ unfold as_legacy, upload_blob_to_uguu in He.
      refine (keeps_bind L _ _ _ _ s _ s1 Hrep He); [|by intros ? ? ? ? ? [= _ <-]].
      apply keeps_bind; [by eapply keeps_streaming|intros; apply keeps_lift]. }
  all: apply as_legacy_Ok in Hr as (url & Hr & ->);
    apply ste_bind_Ok in Hr as (response & s2 & Hs & [Hu ->]%ste_lift_Ok);
    apply (streaming_posts _ L id h bs) in Hs as (part & request & w & w' & Hp & Hpp & Hb & Hurl & Hs);
    try done;
    eapply (posted_Ok config mime bs); [exact Hp| |exact Hb| |exact Hs];
    [exact Hpp|rewrite Hurl; by auto].
Qed.

Lemma keeps_legacy_blob config L id h bs mime :
  L !! id = Some (h, bs) -> keeps L (upload_legacy_blob config h mime).
Proof.
  intros Hl.
  assert (Hone : forall url field json (f : HttpResponse -> Result Error string),
    keeps L (as_legacy (response <-? send_streaming_multipart h url field mime json ;;
                        ste_lift (f response)))).
  { intros. apply keeps_bind; [|by intros ? ? ? ? ? [= _ <-]].
    apply keeps_bind; [by eapply keeps_streaming|intros; apply keeps_lift]. }
  intros s r s' Hrep. unfold upload_legacy_blob, or_else.
  destruct (as_legacy (upload_blob_to_uguu config h mime) s) as [[a|e] s1] eqn:E.
  - intros [= _ <-]. by eapply Hone.
  - intros Hr. assert (Hrep1 : rep s1 L) by by eapply Hone. by eapply Hone.
Qed.
End blob_uploads.

(** * Properties *)

(** ** Base64 text *)

(** Reads with buffers of the given lengths, one after the other: what each delivers. *)
Fixpoint reads `{Base64} (caps : list nat) (r : Base64DecodedReader) : list (Result Error bytes) :=
  match caps with
  | [] => []
  | n :: caps => let '(out, r') := poll_read r n in out :: reads caps r'
  end.

(** The bytes cut into pieces of the given lengths. *)
Fixpoint pieces (caps : list nat) (bs : bytes) : list (Result Error bytes) :=
  match caps with
  | [] => []
  | n :: caps => Ok (str_take n bs) :: pieces caps (str_drop n bs)
  end.

(** C17: The upload of base64 text never decodes it whole, and yet behaves as if it had: the reader
    delivers exactly the decoded bytes, each read filling its buffer as long as bytes are left, for
    every sequence of buffer lengths; the announced length is their number and the payload hash is
    their SHA-256. *)
Theorem base64_streaming_equals_decoding `{Base64Laws} `{Digests} bs :
  (forall caps, reads caps (reader_new (b64_encode bs)) = pieces caps bs) /\
  decoded_base64_len (b64_encode bs) = Ok (blen bs) /\
  sha256_hex_base64 (b64_encode bs) = Ok (sha256_hex bs).
Proof.
  split_and!; [|apply decoded_base64_len_encode|apply sha256_hex_base64_encode].
  intros caps. assert (Hrep := reader_new_rep bs). revert Hrep.
  generalize (reader_new (b64_encode bs)) as r. generalize bs as rest. clear bs.
  induction caps as [|n caps IH]; intros rest r Hrep; [done|]. simpl.
  destruct (poll_read_ok r rest n Hrep) as (r' & -> & Hrep'). f_equal. by apply IH.
Qed.

Lemma base64_streaming_equals_decoding_witness :
  reads [2; 3; 9]%nat (reader_new "aGVsbG8=") = [Ok "he"; Ok "llo"; Ok EmptyString] /\
  decoded_base64_len "aGVsbG8=" = Ok 5%Z.
Proof.
  destruct (base64_streaming_equals_decoding "hello") as (Hr & Hl & _).
  split; [exact (Hr [2; 3; 9]%nat)|exact Hl].
Defined.

(** ** Who is contacted *)

Section contacts.
#[local] Set Default Proof Using "All".
Context `{UrlLib} `{Base64} `{Digests} `{Displays} `{Deserialize UguuResponse}
  `{Deserialize KefanResponse} {W : Type} `{UtcClock W} `{Rng W} `{HttpSender W}.

(** [m] sends only requests of [P]: what those requests, the clock and the generator preserve, [m]
    preserves. *)
Definition sends_only {A} (P : HttpRequest -> Prop) (m : StE W A) : Prop :=
  forall I : W -> Prop,
    (forall w a w', now_utc w = (a, w') -> I w -> I w') ->
    (forall n w a w', rng_fill n w = (a, w') -> I w -> I w') ->
    (forall request w r w', P request -> send_request request w = (r, w') -> I w -> I w') ->
    forall w r w', m w = (r, w') -> I w -> I w'.

(** The requests that a mode allows. *)
Definition allowed (config : Config) (mode : ImageHostMode) (request : HttpRequest) : Prop :=
  (mode <> R2 /\ req_method request = "POST" /\
   req_url request ∈ [legacy_uguu_upload_url config; legacy_kefan_upload_url config]) \/
  (mode <> Legacy /\ req_method request = "PUT" /\
   exists mime target, target_of config mime target /\ req_url request = r2_object_url target).

Lemma sends_bind {A B} P (m : StE W A) (f : A -> StE W B) :
  sends_only P m -> (forall a w w', m w = (Ok a, w') -> sends_only P (f a)) ->
  sends_only P (ste_bind m f).
Proof.
  intros Hm Hf I Hc Hr Hs w r w'. unfold ste_bind. destruct (m w) as [[a|e] w1] eqn:E.
  - intros Hfa Hi. eapply (Hf _ _ _ E I); eauto. eapply (Hm I); eauto.
  - intros [= _ <-] Hi. eapply (Hm I); eauto.
Qed.

Lemma sends_lift {A} P (r : Result Error A) : sends_only P (ste_lift r).
Proof. by intros I _ _ _ w r' w' [= _ <-]. Qed.

Lemma sends_send (P : HttpRequest -> Prop) request : P request -> sends_only P (send request).
Proof.
  intros Hp I _ _ Hs w r w'. unfold send. destruct (send_request request w) as [r1 w1] eqn:E.
  intros [= _ <-]. by eapply Hs.
Qed.

Lemma sends_or_else {A} P (m1 m2 : StE W A) :
  sends_only P m1 -> sends_only P m2 -> sends_only P (or_else m1 m2).
Proof.
  intros Hm1 Hm2 I Hc Hr Hs w r w'. unfold or_else. destruct (m1 w) as [[a|e] w1] eqn:E.
  - intros [= _ <-] Hi. eapply (Hm1 I); eauto.
  - intros E2 Hi. eapply (Hm2 I); eauto. eapply (Hm1 I); eauto.
Qed.

Lemma sends_as_legacy P (m : StE W string) : sends_only P m -> sends_only P (as_legacy m).
Proof. intros Hm. apply sends_bind; [done|]. by intros url _ _ _ I _ _ _ w r w' [= _ <-]. Qed.

Lemma sends_target P config mime : sends_only P (r2_target config mime).
Proof.
  intros I Hc Hr _ w r w'. unfold r2_target, ste_bind, st_bind, ste_lift, random_hex.
  destruct (map_err _ _) as [endpoint|]; [|by intros [= _ <-]].
  destruct (now_utc w) as [t1 w1] eqn:E1. destruct (rng_fill 4 w1) as [b w2] eqn:E2.
  destruct (build_r2_object_url _ _ _) as [url uri]. destruct (now_utc w2) as [t3 w3] eqn:E3.
  intros [= _ <-] Hi. eauto.
Qed.

Lemma sends_r2 config mode mime (rest : R2Target -> StE W UploadResult) :
  (forall target, target_of config mime target -> sends_only (allowed config mode) (rest target)) ->
  sends_only (allowed config mode) (ste_bind (r2_target config mime) rest).
Proof.
  intros Hrest. apply sends_bind; [apply sends_target|].
  intros target w w' Ht%r2_target_Ok. by apply Hrest.
Qed.

Lemma sends_upload_r2 config mode data mime :
  mode <> Legacy -> sends_only (allowed config mode) (upload_r2 config data mime).
Proof.
  intros Hm. apply sends_r2. intros target Ht. apply sends_bind; [apply sends_lift|].
  intros authorization _ _ _. apply sends_bind; [|intros; apply sends_lift].
  apply sends_send. right.
  split; [done|]. split; [done|]. by exists mime, target.
Qed.

Lemma sends_upload_r2_base64 config mode data mime :
  mode <> Legacy -> sends_only (allowed config mode) (upload_r2_base64 config data mime).
Proof.
  intros Hm. apply sends_r2. intros target Ht.
  do 3 (apply sends_bind; [apply sends_lift|intros ? _ _ _]).
  apply sends_bind; [|intros; apply sends_lift]. apply sends_send. right.
  split; [done|]. split; [done|]. by exists mime, target.
Qed.

(** A post of a part to one of the two hosts. *)
Lemma sends_post config mode {A B} (before : Result Error A) (request : A -> HttpRequest)
    (after : HttpResponse -> StE W B) :
  mode <> R2 ->
  (forall a, req_method (request a) = "POST" /\
     req_url (request a) ∈ [legacy_uguu_upload_url config; legacy_kefan_upload_url config]) ->
  (forall response, sends_only (allowed config mode) (after response)) ->
  sends_only (allowed config mode)
    (a <-? ste_lift before ;; response <-? send (request a) ;; after response).
Proof.
  intros Hm Hr Ha. apply sends_bind; [apply sends_lift|intros a _ _ _].
  apply sends_bind; [|intros; apply Ha]. apply sends_send. left. by destruct (Hr a).
Qed.

Lemma sends_streaming config mode reader n url field mime json :
  mode <> R2 -> url ∈ [legacy_uguu_upload_url config; legacy_kefan_upload_url config] ->
  sends_only (allowed config mode) (send_streaming_multipart_reader reader n url field mime json).
Proof.
  intros Hm Hu. apply sends_bind; [apply sends_lift|intros part _ _ _].
  apply sends_send. by left.
Qed.

Lemma sends_upload_legacy config mode data mime :
  mode <> R2 -> sends_only (allowed config mode) (upload_legacy config data mime).
Proof.
  intros Hm. apply sends_or_else; apply sends_as_legacy; apply sends_post; try done;
    try (intros; apply sends_lift); intros; split; simpl; set_solver.
Qed.

Lemma sends_upload_legacy_base64 config mode data mime :
  mode <> R2 -> sends_only (allowed config mode) (upload_legacy_base64 config data mime).
Proof.
  intros Hm. apply sends_or_else; apply sends_as_legacy;
    (apply sends_bind; [apply sends_lift|intros ? _ _ _]);
    (apply sends_bind; [apply sends_streaming; set_solver|intros; apply sends_lift]).
Qed.

Lemma sends_by_mode {A} config mode (legacy r2 : StE W A) :
  parse_image_host_mode (image_host_mode config) = Ok mode ->
  (mode <> R2 -> sends_only (allowed config mode) legacy) ->
  (mode <> Legacy -> sends_only (allowed config mode) r2) ->
  sends_only (allowed config mode) (by_mode config legacy r2).
Proof.
  intros Hp Hl Hr. unfold by_mode. rewrite Hp.
  apply sends_bind; [apply sends_lift|]. intros a w w' [= -> _].
  destruct a; [auto..|]. apply sends_or_else; auto.
Qed.

(** C37: The configured host mode decides who is contacted: an upload in [legacy] mode sends nothing
    but POSTs to the two configured legacy URLs, one in [r2] mode nothing but PUTs of an object
    under the configured endpoint and bucket, and only [r2_then_legacy] may do both. *)
Theorem upload_contacts_only_configured_hosts config mode data mime :
  parse_image_host_mode (image_host_mode config) = Ok mode ->
  sends_only (allowed config mode) (upload_image config data mime) /\
  sends_only (allowed config mode) (upload_inline_data_base64 config data mime).
Proof.
  intros Hp. split; apply sends_by_mode; auto using sends_upload_legacy, sends_upload_r2,
    sends_upload_legacy_base64, sends_upload_r2_base64.
Qed.
End contacts.

(** ** What the hosts receive *)

Definition placed `{UrlLib} `{Base64} `{Digests} `{Displays} `{Deserialize UguuResponse}
    `{Deserialize KefanResponse} {W} `{HttpSender W} (config : Config) (mime : string) (bs : bytes)
    (result : UploadResult) : Prop :=
  exists mode, parse_image_host_mode (image_host_mode config) = Ok mode /\
    (mode <> Legacy /\ stored_in_r2 config mime bs result \/
     mode <> R2 /\ stored_in_legacy config mime bs result).

(** C11: Whichever way an image comes - bytes, base64 text, or a blob in memory or on disk - an upload
    that succeeds has had a host of the configured mode accept exactly the image's bytes: either an
    R2 object whose signature, hash and length headers are those of the bytes and whose key makes
    the public URL returned, or a form part posted to a legacy host that answered with the URL
    returned. Uploading a blob leaves the blob store as it was. *)
Theorem uploads_deliver_the_image `{UrlLib} `{Base64Laws} `{Digests} `{Displays}
    `{Deserialize UguuResponse} `{Deserialize KefanResponse} {W} `{UploadFrames W} config bs mime :
  (forall (w w' : W) result, upload_image config bs mime w = (Ok result, w') ->
     placed (W := W) config mime bs result) /\
  (forall (w w' : W) result, upload_inline_data_base64 config (b64_encode bs) mime w = (Ok result, w') ->
     placed (W := W) config mime bs result) /\
  (forall (s : BlobRuntimeInner W) s' L id h result, rep s L -> L !! id = Some (h, bs) ->
     upload_blob config h mime s = (Ok result, s') -> placed (W := W) config mime bs result /\ rep s' L).
Proof.
  split_and!.
  - intros w w' result (mode & Hp & Hr)%by_mode_Ok. exists mode. split; [done|].
    destruct Hr as [[Hm Hr]|[[-> Hr]|(-> & e & w1 & _ & Hr)]].
    + left. split; [done|]. by eapply upload_r2_Ok.
    + right. split; [done|]. by eapply upload_legacy_Ok.
    + right. split; [done|]. by eapply upload_legacy_Ok.
  - intros w w' result (mode & Hp & Hr)%by_mode_Ok. exists mode. split; [done|].
    destruct Hr as [[Hm Hr]|[[-> Hr]|(-> & e & w1 & _ & Hr)]].
    + left. split; [done|]. by eapply upload_r2_base64_Ok.
    + right. split; [done|]. by eapply upload_legacy_base64_Ok.
    + right. split; [done|]. by eapply upload_legacy_base64_Ok.
  - intros s s' L id h result Hrep Hl (mode & Hp & Hr)%by_mode_Ok.
    destruct Hr as [[Hm Hr]|[[-> Hr]|(-> & e & s1 & He & Hr)]].
    + destruct (upload_r2_blob_Ok _ _ _ _ _ _ _ _ _ Hrep Hl Hr) as [? ?].
      split; [|done]. exists mode. auto.
    + split; [|by eapply keeps_legacy_blob]. eexists. split; [done|]. right. split; [done|].
      by eapply upload_legacy_blob_Ok.
    + assert (Hrep1 : rep s1 L) by by eapply keeps_r2_blob.
      split; [|by eapply keeps_legacy_blob]. eexists. split; [done|]. right. split; [done|].
      by eapply upload_legacy_blob_Ok.
Qed.

(** The signature covers the endpoint's host without its port, and a path without the endpoint's:
    two endpoints that differ in both get the same signature for an object, while the requests go to
    different URLs. A server that checks the [Host] header and the path it received refuses one. *)
Lemma r2_signature_ignores_port_and_path `{UrlLib} `{Digests} config mime hash now bucket key
    (e1 e2 : Url) :
  url_host e1 = url_host e2 ->
  let target e := let '(url, uri) := build_r2_object_url e bucket key in mkR2Target e key url uri now in
  r2_authorization config (target e1) mime hash = r2_authorization config (target e2) mime hash.
Proof. intros Hh. unfold r2_authorization, build_r2_object_url. simpl. by rewrite Hh. Qed.

(** * A network for the examples: R2 answers 503, the legacy hosts 200 with the URL *)

Definition sample_answer (request : HttpRequest) : HttpResponse :=
  if String.eqb (req_method request) "PUT" then mkHttpResponse 503 [] None ["busy"] None
  else mkHttpResponse 200 [] None ["https://uguu.se/a.png"] None.

#[local] Instance sample_utc {W} : UtcClock W :=
  {| now_utc w := (mkOffsetDateTime 2025 3 9 8 7 6 1741507626000000000, w) |}.
#[local] Instance sample_rng {W} : Rng W := {| rng_fill n w := ("abcd", w) |}.
#[local] Instance sample_uguu : Deserialize UguuResponse :=
  {| from_str s := Ok (mkUguuResponse true [mkUguuFile s]) |}.
#[local] Instance sample_kefan : Deserialize KefanResponse :=
  {| from_str s := Ok (mkKefanResponse true s) |}.

(** The network that logs the requests, and the one over the sample files. *)
#[local] Instance sample_log : HttpSender (list HttpRequest) := {|
  send_request request w := (Ok (sample_answer request), w ++ [request]);
  mime_str _ := Ok tt;
  response_text := resp_bytes;
|}.
#[local] Instance sample_net : HttpSender SampleFs := {|
  send_request request w := (Ok (sample_answer request), w);
  mime_str _ := Ok tt;
  response_text := resp_bytes;
|}.

#[local] Instance sample_upload_frames : UploadFrames SampleFs.
Proof. split; intros; simplify_eq/=; done. Qed.

Definition sample_r2_env : gmap string string := list_to_map [
  ("IMAGE_HOST_MODE", "r2_then_legacy"); ("R2_ENDPOINT", "https://acc.r2.example");
  ("R2_BUCKET", "pics"); ("R2_ACCESS_KEY_ID", "id"); ("R2_SECRET_ACCESS_KEY", "key");
  ("R2_PUBLIC_BASE_URL", "https://pics.example/"); ("UPSTREAM_API_KEY", "k")].

Definition sample_upload_config : Config :=
  match from_env_map sample_r2_env with Ok c => c | Err _ => test_config end.

Example sample_upload_config_mode : image_host_mode sample_upload_config = "r2_then_legacy".
Proof. vm_compute. reflexivity. Qed.

Lemma uploads_deliver_the_image_witness :
  placed (W := SampleFs) sample_upload_config "image/png" "hello"
    (mkUploadResult "https://uguu.se/a.png" "legacy").
Proof.
  apply (proj1 (proj2 (uploads_deliver_the_image (W := SampleFs) sample_upload_config "hello"
    "image/png")) ∅ ∅).
  vm_compute. reflexivity.
Defined.

Lemma upload_contacts_only_configured_hosts_witness :
  Forall (allowed test_config Legacy)
    (upload_inline_data_base64 (W := list HttpRequest) test_config "aGk=" "image/png" []).2.
Proof.
  destruct (upload_contacts_only_configured_hosts (W := list HttpRequest)
    test_config Legacy "aGk=" "image/png") as [_ Ho]; [vm_compute; reflexivity|].
  eapply (Ho (Forall (allowed test_config Legacy))) with (w := []);
    [..|apply surjective_pairing|constructor].
  - by intros w a w' [= _ <-].
  - by intros n w a w' [= _ <-].
  - intros request w r' w' Hp [= _ <-] Hi. apply Forall_app. split; [exact Hi|].
    constructor; [exact Hp|constructor].
Defined.
