(* ===== verification/ResponseRewrite.v ===== *)
(** response_rewrite.rs: normalization of upstream responses: thought signatures dropped, one image
    kept per candidate, Markdown links and AI API Dev task results turned into inline data. *)

From S2P Require Import Prelude RustStr Json JsonMaps Pointer Ext Samples.
From S2P Require Import Config ImageIo FetchService RequestMaterialize RequestRewrite Upload.
From stdpp Require Import options.

Inductive OutputMode := OutBase64 | OutUrl.

(** * Pure rewriting *)

(** The code removes the key first and then visits the values that are left; a removal depends on
    keys alone, so the values can be visited first ([remove_thought_signatures_object]). *)
Fixpoint remove_thought_signatures (node : Value) : Value :=
  match node with
  | Object map =>
      Object (map_remove "thoughtSignature" ((fun kv => (kv.1, remove_thought_signatures kv.2)) <$> map))
  | Array items => Array (remove_thought_signatures <$> items)
  | _ => node
  end.

Definition is_url_like (value : string) : bool :=
  starts_with value "http://" || starts_with value "https://" || starts_with value "/proxy/image".

Definition inline_data_string (part : Value) : option string :=
  (value_get "inlineData" part ≫= as_object) ≫= obj_str "data".

(** The first loop over the parts: the best index and its size so far. *)
Definition best_part (acc : option nat * nat) (index : nat) (part : Value) : option nat * nat :=
  match inline_data_string part with
  | None => acc
  | Some data =>
      if starts_with data "http://" || starts_with data "https://" || starts_with data "/proxy/image"
      then acc
      else if (acc.2 <? String.length data)%nat then (Some index, String.length data) else acc
  end.

Fixpoint best_loop (index : nat) (acc : option nat * nat) (parts : list Value) : option nat * nat :=
  match parts with
  | [] => acc
  | part :: parts => best_loop (S index) (best_part acc index part) parts
  end.

(** The second loop. *)
Fixpoint retain_loop (best_index index : nat) (parts : list Value) : list Value :=
  match parts with
  | [] => []
  | part :: parts =>
      let is_inline_image := match inline_data_string part with Some _ => true | None => false end in
      if negb is_inline_image || (index =? best_index)%nat
      then part :: retain_loop best_index (S index) parts
      else retain_loop best_index (S index) parts
  end.

Definition keep_largest_part (parts : list Value) : list Value :=
  match (best_loop 0 (None, 0%nat) parts).1 with
  | Some best_index => retain_loop best_index 0 parts
  | None => parts
  end.

(** [get_mut(k)] and an update, on an object *)
Definition in_key (k : string) (f : Value -> Value) (v : Value) : Value :=
  match v with Object m => Object (map_alter f k m) | _ => v end.
Definition in_array (f : list Value -> list Value) (v : Value) : Value :=
  match v with Array l => Array (f l) | _ => v end.

Definition keep_largest_inline_image (body : Value) : Value :=
  in_key "candidates" (in_array (fmap
    (in_key "content" (in_key "parts" (in_array keep_largest_part))))) body.

Definition normalize_gemini_response (body : Value) : Value :=
  keep_largest_inline_image (remove_thought_signatures body).

(** * Image URLs in responses *)

Fixpoint contains_inline_data (node : Value) : bool :=
  match node with
  | Object map =>
      map_contains_key "inlineData" map || existsb (fun kv => contains_inline_data kv.2) map
  | Array items => existsb contains_inline_data items
  | _ => false
  end.

Definition is_http (s : string) : bool := starts_with s "http://" || starts_with s "https://".

Definition extract_markdown_image_url (text : string) : option string :=
  '(_, rest) ← split_once "](" text;
  '(candidate, _) ← split_once ")" rest;
  let candidate := trim candidate in
  if is_http candidate then Some candidate else None.

Fixpoint extract_first_markdown_image_url_from_parts (parts : list Value) : option string :=
  match parts with
  | [] => None
  | part :: parts =>
      match value_get "text" part ≫= as_str with
      | None => extract_first_markdown_image_url_from_parts parts
      | Some text =>
          let text := trim text in
          if is_empty text then extract_first_markdown_image_url_from_parts parts
          else match extract_markdown_image_url text with
               | Some url => Some url
               | None => extract_first_markdown_image_url_from_parts parts
               end
      end
  end.

Definition aiapidev_image_url (item : Value) : option string :=
  let item_type := default EmptyString (value_get "type" item ≫= as_str) in
  url ← value_get "url" item ≫= as_str;
  if eq_ignore_ascii_case item_type "image" && is_http url then Some url else None.

Definition extract_aiapidev_image_urls (body : Value) : list string :=
  omap aiapidev_image_url (default [] (pointer "/result/items" body ≫= as_array)).

Definition guess_image_mime_type_from_url (raw_url : string) : string :=
  let lower := to_ascii_lowercase raw_url in
  if ends_with lower ".jpg" || ends_with lower ".jpeg" then "image/jpeg"
  else if ends_with lower ".webp" then "image/webp"
  else if ends_with lower ".gif" then "image/gif"
  else "image/png".

Definition build_aiapidev_usage_metadata : Value :=
  Object [("candidatesTokenCount", Num (PosInt 1024)); ("promptTokenCount", Num (PosInt 1024));
          ("totalTokenCount", Num (PosInt 2048))].

Definition inline_value (mime data : string) : Value :=
  Object [("mimeType", Str mime); ("data", Str data)].

Section fetching.
Context `{UrlLib} `{HttpLib} `{Base64} {W : Type} `{!HttpClient W} `{UrlFetcher W}.

(** The [data] of an image in URL mode. *)
Definition proxied_url (config : Config) (image_url : string) : string :=
  let external_proxy_prefix := resolved_external_image_proxy_prefix config in
  if proxy_special_upstream_urls config && negb (is_empty external_proxy_prefix)
  then wrap_external_proxy_url external_proxy_prefix image_url else image_url.

(** The inline data for one image URL; [fetch_service] tells whether there is a fetch service. *)
Definition inline_data_of (output_mode : OutputMode) (fetch_service : bool) (config : Config)
    (image_url : string) : StE W Value :=
  match output_mode with
  | OutUrl =>
      ste_ok (inline_value (guess_image_mime_type_from_url image_url) (proxied_url config image_url))
  | OutBase64 =>
      fetched <-? (if fetch_service then
                     fetched <-? fetch_url image_url ;;
                     ste_ok (mkFetchedInlineData (result_mime_type fetched) (result_bytes fetched))
                   else fetch_image_as_inline_data image_url DEFAULT_MAX_IMAGE_BYTES) ;;
      ste_ok (inline_value (fetched_mime_type fetched) (b64_encode (fetched_bytes fetched)))
  end.

Definition inline_part (inline_data : Value) : Value := Object [("inlineData", inline_data)].

Definition normalize_special_markdown_image_response (body : Value) (output_mode : OutputMode)
    (fetch_service : bool) (config : Config) : StE W Value :=
  if contains_inline_data body then ste_ok body else
  match pointer "/candidates/0/content/parts" body ≫= as_array with
  | None => ste_ok body
  | Some parts =>
      match extract_first_markdown_image_url_from_parts parts with
      | None => ste_ok body
      | Some image_url =>
          inline_data <-? inline_data_of output_mode fetch_service config image_url ;;
          ste_ok (pointer_update (fun _ => Array [inline_part inline_data])
                    "/candidates/0/content/parts" body)
      end
  end.

Definition aiapidev_response (parts : list Value) : Value :=
  Object [("candidates", Array [Object [
             ("content", Object [("role", Str "model"); ("parts", Array parts)]);
             ("finishReason", Str "STOP"); ("safetyRatings", Array [])]]);
          ("usageMetadata", build_aiapidev_usage_metadata)].

Definition normalize_aiapidev_task_response (body : Value) (output_mode : OutputMode)
    (fetch_service : bool) (config : Config) : StE W Value :=
  let image_urls := extract_aiapidev_image_urls body in
  if bool_decide (image_urls = []) then
    ste_err (Anyhow "aiapidev task result did not contain image urls")
  else
    parts <-? ste_for (fun parts image_url =>
                inline_data <-? inline_data_of output_mode fetch_service config image_url ;;
                ste_ok (parts ++ [inline_part inline_data])) [] image_urls ;;
    ste_ok (aiapidev_response parts).
End fetching.

(** * Lemmas *)

(** The order of the code: removal, then the values that are left. *)
Lemma remove_thought_signatures_object m :
  remove_thought_signatures (Object m) =
  Object ((fun kv => (kv.1, remove_thought_signatures kv.2)) <$> map_remove "thoughtSignature" m).
Proof. cbn [remove_thought_signatures]. by rewrite map_remove_fmap. Qed.

Lemma signatures_gone v :
  wf_value v -> all_keys (fun k => k <> "thoughtSignature") (remove_thought_signatures v).
Proof.
  induction v as [| | | |l IH|m IH] using Value_ind'; try done; intros Hwf.
  - cbn [remove_thought_signatures]. apply all_keys_array. apply wf_array in Hwf as [_ Hall].
    rewrite Forall_fmap. rewrite Forall_forall in *. intros x Hx. apply IH; [done|]. by apply Hall.
  - rewrite remove_thought_signatures_object. apply all_keys_object. apply wf_object in Hwf as [Hnd Hall].
    rewrite Forall_fmap, Forall_forall in *. intros kv [Hk Hin]%map_remove_in; [|done].
    split; [done|]. simpl. apply IH; [done|]. by apply Hall.
Qed.

Lemma remove_signatures_wf v : wf_value v -> wf_value (remove_thought_signatures v).
Proof.
  induction v as [| | | |l IH|m IH] using Value_ind'; try done; intros Hwf.
  - cbn [remove_thought_signatures]. apply wf_array in Hwf as [Hlen Hall]. apply wf_array.
    rewrite length_fmap. split; [done|]. rewrite Forall_fmap, Forall_forall in *.
    intros x Hx. apply IH; [done|]. by apply Hall.
  - rewrite remove_thought_signatures_object. apply wf_object in Hwf. destruct (wf_map_remove "thoughtSignature" m Hwf) as [Hnd Hall].
    apply wf_object. split.
    + rewrite <- list_fmap_compose. exact Hnd.
    + rewrite Forall_fmap, Forall_forall in *. intros kv Hin. simpl. apply IH; [|by apply Hall].
      by apply map_remove_in in Hin as [_ ?]; [|apply Hwf].
Qed.

(** ** The largest image *)

(** The length of the image data a part carries; data that is a URL does not count. *)
Definition image_size (part : Value) : nat :=
  match inline_data_string part with
  | Some data => if is_url_like data then 0%nat else String.length data
  | None => 0%nat
  end.

Definition is_inline_image (part : Value) : Prop := is_Some (inline_data_string part).
#[global] Instance is_inline_image_dec part : Decision (is_inline_image part).
Proof. unfold is_inline_image. apply _. Defined.

Lemma best_part_size acc index part :
  best_part acc index part =
  if (acc.2 <? image_size part)%nat then (Some index, image_size part) else acc.
Proof.
  unfold best_part, image_size, is_url_like. destruct (inline_data_string part) as [data|]; [|done].
  destruct (_ || _ || _); done.
Qed.

(** The loop finds the first part of the largest size. *)
Lemma best_loop_spec index acc parts :
  let r := best_loop index acc parts in
  Forall (fun p => image_size p <= r.2)%nat parts /\ (acc.2 <= r.2)%nat /\
  (r = acc \/ exists i p, parts !! i = Some p /\ r = (Some (index + i)%nat, image_size p) /\
                         (0 < image_size p)%nat).
Proof.
  revert index acc. induction parts as [|part parts IH]; intros index acc; simpl.
  { split; [constructor|]. split; [lia|by left]. }
  destruct (IH (S index) (best_part acc index part)) as (Hall & Hle & Hr).
  rewrite best_part_size in *.
  destruct (Nat.ltb_spec acc.2 (image_size part)) as [Hlt|Hge]; simpl in *.
  - split; [by constructor|]. split; [lia|]. right.
    destruct Hr as [->|(i & p & Hi & Hr & Hp)].
    + exists 0%nat, part. rewrite Nat.add_0_r. split_and!; [done|done|lia].
    + exists (S i), p. rewrite Nat.add_succ_r. by split_and!.
  - split; [constructor; [lia|done]|]. split; [lia|].
    destruct Hr as [->|(i & p & Hi & Hr & Hp)]; [by left|]. right.
    exists (S i), p. rewrite Nat.add_succ_r. by split_and!.
Qed.

Lemma retain_loop_none best index parts :
  (best < index)%nat -> retain_loop best index parts = filter (fun p => ~ is_inline_image p) parts.
Proof.
  revert index. induction parts as [|part parts IH]; intros index Hlt; [done|]. simpl.
  rewrite IH by lia. assert (Hne : (index =? best)%nat = false) by (apply Nat.eqb_neq; lia).
  rewrite Hne. destruct (inline_data_string part) eqn:E; simpl.
    + rewrite filter_cons_False; [done|]. intros Hn. apply Hn. by eexists.
    + rewrite filter_cons_True; [done|]. intros [? ?]. congruence.
Qed.

Lemma retain_loop_spec i index parts best :
  parts !! i = Some best -> is_inline_image best ->
  retain_loop (index + i) index parts =
  filter (fun p => ~ is_inline_image p) (take i parts) ++
  best :: filter (fun p => ~ is_inline_image p) (drop (S i) parts).
Proof.
  revert index i. induction parts as [|part parts IH]; intros index i Hi Hb; [done|].
  destruct i as [|i]; simpl in *.
  - injection Hi as ->. rewrite Nat.add_0_r, Nat.eqb_refl, orb_true_r. f_equal.
    rewrite retain_loop_none by lia. by rewrite drop_0.
  - assert (Hne : (index =? index + S i)%nat = false) by (apply Nat.eqb_neq; lia). rewrite Hne.
    replace (index + S i)%nat with (S index + i)%nat by lia. rewrite IH by done.
    destruct (inline_data_string part) eqn:E; simpl.
    + rewrite filter_cons_False; [done|]. intros Hn. apply Hn. by eexists.
    + rewrite filter_cons_True; [done|]. intros [? ?]. congruence.
Qed.

Lemma image_size_inline p : (0 < image_size p)%nat -> is_inline_image p.
Proof. unfold image_size, is_inline_image. destruct (inline_data_string p); [eauto|lia]. Qed.

(** [kept] is what the rewriting may leave of [parts]. *)
Definition keeps_largest (parts kept : list Value) : Prop :=
  (Forall (fun p => image_size p = 0%nat) parts /\ kept = parts) \/
  (exists before best after, parts = before ++ best :: after /\ (0 < image_size best)%nat /\
     Forall (fun p => image_size p <= image_size best)%nat parts /\
     kept = filter (fun p => ~ is_inline_image p) before ++
            best :: filter (fun p => ~ is_inline_image p) after).

Lemma keep_largest_part_spec parts : keeps_largest parts (keep_largest_part parts).
Proof.
  unfold keep_largest_part. destruct (best_loop_spec 0 (None, 0%nat) parts) as (Hall & _ & Hr).
  destruct Hr as [Hr|(i & p & Hi & Hr & Hp)]; rewrite Hr in *; simpl in *.
  - left. split; [|done]. eapply Forall_impl; [exact Hall|]. simpl. lia.
  - right. exists (take i parts), p, (drop (S i) parts). split.
    + symmetry. by apply take_drop_middle.
    + split; [done|]. split; [done|]. apply (retain_loop_spec i 0); [done|]. by apply image_size_inline.
Qed.

Lemma keeps_largest_Forall (P : Value -> Prop) parts kept :
  keeps_largest parts kept -> Forall P parts -> Forall P kept.
Proof.
  intros [[_ ->]|(before & best & after & -> & _ & _ & ->)]; [done|].
  rewrite !Forall_app, !Forall_cons. intros (Hb & Hp & Ha). by split_and!; auto using Forall_filter_sub.
Qed.

Lemma value_get_in_key k f v : value_get k (in_key k f v) = f <$> value_get k v.
Proof. destruct v; try done. apply map_get_alter_eq. Qed.

Lemma value_get_in_key_ne k k' f v : k <> k' -> value_get k' (in_key k f v) = value_get k' v.
Proof. intros Hne. destruct v; try done. by apply map_get_alter_ne. Qed.

Lemma as_array_in_array f v : as_array (in_array f v) = f <$> as_array v.
Proof. by destruct v. Qed.

Lemma all_keys_in_key P k f v :
  all_keys P v -> (forall x, all_keys P x -> all_keys P (f x)) -> all_keys P (in_key k f v).
Proof.
  intros Hv Hf. destruct v as [| | | | |m]; try done. apply all_keys_object in Hv.
  cbn [in_key]. apply all_keys_object. apply map_alter_Forall; [done|]. naive_solver.
Qed.

Lemma all_keys_in_array P f v :
  all_keys P v -> (forall l, Forall (all_keys P) l -> Forall (all_keys P) (f l)) ->
  all_keys P (in_array f v).
Proof.
  intros Hv Hf. destruct v as [| | | |l|]; try done. apply all_keys_array in Hv.
  cbn [in_array]. apply all_keys_array. auto.
Qed.

Lemma keep_largest_all_keys P body :
  all_keys P body -> all_keys P (keep_largest_inline_image body).
Proof.
  intros Hb. apply all_keys_in_key; [done|]. intros v Hv. apply all_keys_in_array; [done|].
  intros l Hl. rewrite Forall_fmap. eapply Forall_impl; [exact Hl|]. intros c Hc. simpl.
  apply all_keys_in_key; [done|]. intros x Hx. apply all_keys_in_key; [done|]. intros y Hy.
  apply all_keys_in_array; [done|]. intros parts Hp.
  eapply keeps_largest_Forall; [apply keep_largest_part_spec|done].
Qed.

(** [candidates[i].content.parts] *)
Definition candidate_parts (i : nat) (body : Value) : option (list Value) :=
  candidates ← value_get "candidates" body ≫= as_array;
  candidate ← candidates !! i;
  content ← value_get "content" candidate;
  value_get "parts" content ≫= as_array.

Lemma candidate_parts_keep_largest i body :
  candidate_parts i (keep_largest_inline_image body) = keep_largest_part <$> candidate_parts i body.
Proof.
  unfold candidate_parts, keep_largest_inline_image. rewrite value_get_in_key.
  destruct (value_get "candidates" body) as [v|]; [|done]. simpl. rewrite as_array_in_array.
  destruct (as_array v) as [l|]; [|done]. simpl. rewrite list_lookup_fmap.
  destruct (l !! i) as [c|]; [|done]. simpl. rewrite value_get_in_key.
  destruct (value_get "content" c) as [content|]; [|done]. simpl. rewrite value_get_in_key.
  destruct (value_get "parts" content) as [p|]; [|done]. simpl. by rewrite as_array_in_array.
Qed.

(** * Properties *)

(** ** What the removal leaves *)

(** [stripped v v']: [v'] is [v] with the [thoughtSignature] of every object taken out and nothing
    else changed; the fields of an object are compared by name (a removal may reorder them). *)
Inductive stripped : Value -> Value -> Prop :=
| stripped_null : stripped Null Null
| stripped_bool b : stripped (Bool b) (Bool b)
| stripped_num n : stripped (Num n) (Num n)
| stripped_str s : stripped (Str s) (Str s)
| stripped_array l l' : Forall2 stripped l l' -> stripped (Array l) (Array l')
| stripped_object m m' :
    map_get "thoughtSignature" m' = None ->
    (forall k, k <> "thoughtSignature" -> option_Forall2 stripped (map_get k m) (map_get k m')) ->
    stripped (Object m) (Object m').

Lemma signatures_stripped v : wf_value v -> stripped v (remove_thought_signatures v).
Proof.
  induction v as [| | | |l IH|m IH] using Value_ind'; intros Hwf; try constructor.
  - apply wf_array in Hwf as [_ Hall]. apply Forall2_fmap_r, Forall_Forall2_diag.
    rewrite Forall_forall in *. auto.
  - apply wf_object in Hwf as [Hnd _]. rewrite map_remove_fmap, on_values_get.
    by rewrite map_get_remove_eq.
  - intros k Hk. apply wf_object in Hwf as [Hnd Hall]. rewrite map_remove_fmap, on_values_get.
    rewrite map_get_remove_ne by done. destruct (map_get k m) as [x|] eqn:E; constructor.
    apply map_get_Some_in in E. rewrite Forall_forall in *. apply (IH _ E), (Hall _ E).
Qed.

Lemma value_get_stripped k v v' :
  k <> "thoughtSignature" -> stripped v v' -> option_Forall2 stripped (value_get k v) (value_get k v').
Proof. intros Hk [| | | |l l' _|m m' _ Hm]; try constructor. by apply Hm. Qed.

Lemma as_array_stripped v v' : stripped v v' -> option_Forall2 (Forall2 stripped) (as_array v) (as_array v').
Proof. by intros [| | | |l l' Hl|m m' _ _]; constructor. Qed.

Lemma candidate_parts_stripped i body body' :
  stripped body body' ->
  option_Forall2 (Forall2 stripped) (candidate_parts i body) (candidate_parts i body').
Proof.
  intros Hs. unfold candidate_parts.
  destruct (value_get_stripped "candidates" _ _ ltac:(done) Hs) as [x x' Hx|]; simpl; [|constructor].
  destruct (as_array_stripped _ _ Hx) as [l l' Hl|]; simpl; [|constructor].
  assert (Hi := proj1 (Forall2_lookup _ _ _) Hl i). destruct Hi as [c c' Hc|]; simpl; [|constructor].
  destruct (value_get_stripped "content" _ _ ltac:(done) Hc) as [y y' Hy|]; simpl; [|constructor].
  destruct (value_get_stripped "parts" _ _ ltac:(done) Hy) as [z z' Hz|]; simpl; [|constructor].
  by apply as_array_stripped.
Qed.

(** The document with the parts of every candidate left out. *)
Definition forget_parts (body : Value) : Value :=
  in_key "candidates" (in_array (fmap
    (in_key "content" (in_key "parts" (in_array (fun _ => [])))))) body.

Lemma in_key_stripped k f f' v v' :
  k <> "thoughtSignature" -> stripped v v' ->
  (forall x x', stripped x x' -> stripped (f x) (f' x')) -> stripped (in_key k f v) (in_key k f' v').
Proof.
  intros Hk Hs Hf. destruct Hs as [| | | |l l' Hl|m m' Hts Hm]; cbn [in_key]; try by constructor.
  constructor.
  - by rewrite map_get_alter_ne.
  - intros k' Hk'. destruct (decide (k = k')) as [<-|Hne].
    + rewrite !map_get_alter_eq. destruct (Hm k Hk); constructor. auto.
    + rewrite !map_get_alter_ne by done. auto.
Qed.

Lemma in_array_stripped f f' v v' :
  stripped v v' -> (forall l l', Forall2 stripped l l' -> Forall2 stripped (f l) (f' l')) ->
  stripped (in_array f v) (in_array f' v').
Proof. intros Hs Hf. destruct Hs; cbn [in_array]; constructor; auto. Qed.

Lemma forget_parts_stripped body body' :
  stripped body body' -> stripped (forget_parts body) (forget_parts body').
Proof.
  intros Hs. apply in_key_stripped; [done|done|]. intros v v' Hv. apply in_array_stripped; [done|].
  intros l l' Hl. apply Forall2_fmap_2. eapply Forall2_impl; [exact Hl|]. intros c c' Hc.
  apply in_key_stripped; [done|done|]. intros x x' Hx. apply in_key_stripped; [done|done|].
  intros y y' Hy. by apply in_array_stripped.
Qed.

Lemma in_key_in_key k f g v : in_key k f (in_key k g v) = in_key k (fun x => f (g x)) v.
Proof.
  destruct v as [| | | | |m]; try done. cbn [in_key]. f_equal.
  induction m as [|[k' x] m IH]; [done|]. simpl. destruct (String.eqb _ _) eqn:E; simpl; rewrite E; by rewrite ?IH.
Qed.

Lemma in_key_ext k f g v : (forall x, f x = g x) -> in_key k f v = in_key k g v.
Proof.
  intros Hfg. destruct v as [| | | | |m]; try done. cbn [in_key]. f_equal.
  induction m as [|[k' x] m IH]; [done|]. simpl. by destruct (String.eqb _ _); rewrite ?Hfg, ?IH.
Qed.

Lemma forget_parts_keep_largest body : forget_parts (keep_largest_inline_image body) = forget_parts body.
Proof.
  unfold forget_parts, keep_largest_inline_image. rewrite in_key_in_key. apply in_key_ext. intros v.
  destruct v as [| | | |l|]; try done. cbn [in_array]. f_equal. rewrite <- list_fmap_compose.
  apply list_fmap_ext. intros _ c _. simpl. rewrite in_key_in_key. apply in_key_ext. intros x.
  rewrite in_key_in_key. apply in_key_ext. by intros [].
Qed.

(** C19: The normalized response of a Gemini call holds no [thoughtSignature] anywhere; apart from
    these fields and the parts of the candidates it is the given document; and in each candidate
    whose parts, their signatures taken out, carry image data, one image is left, the longest, in
    its place among the parts that are not images, all of which are kept with nothing but their
    signatures taken out, while a candidate without image data keeps all its parts. *)
Theorem normalize_gemini_response_spec body :
  wf_value body ->
  all_keys (fun k => k <> "thoughtSignature") (normalize_gemini_response body) /\
  stripped (forget_parts body) (forget_parts (normalize_gemini_response body)) /\
  (forall i parts, candidate_parts i body = Some parts ->
     exists clean kept, Forall2 stripped parts clean /\ keeps_largest clean kept /\
       candidate_parts i (normalize_gemini_response body) = Some kept) /\
  (forall i, candidate_parts i body = None -> candidate_parts i (normalize_gemini_response body) = None).
Proof.
  intros Hwf. assert (Hs := signatures_stripped body Hwf). unfold normalize_gemini_response. split_and!.
  - by apply keep_largest_all_keys, signatures_gone.
  - rewrite forget_parts_keep_largest. by apply forget_parts_stripped.
  - intros i parts Hp. assert (Hc := candidate_parts_stripped i _ _ Hs). rewrite Hp in Hc.
    inversion Hc as [? clean Hclean Heq1 Heq2|]; subst. exists clean, (keep_largest_part clean).
    split_and!; [done|apply keep_largest_part_spec|]. by rewrite candidate_parts_keep_largest, <- Heq2.
  - intros i Hp. assert (Hc := candidate_parts_stripped i _ _ Hs). rewrite Hp in Hc.
    inversion Hc as [|Heq1 Heq2]; subst. by rewrite candidate_parts_keep_largest, <- Heq2.
Qed.

Definition sample_image (data : string) : Value := inline_part (inline_value "image/png" data).

Definition sample_response : Value :=
  Object [("candidates", Array [Object [("content", Object [("parts", Array
    [Object [("text", Str "a"); ("thoughtSignature", Str "x")]; sample_image "AA==";
     sample_image "https://a.example/0123456789"; sample_image "AAAAAAA="; Object [("text", Str "b")]])])]])].

Lemma normalize_gemini_response_spec_witness :
  all_keys (fun k => k <> "thoughtSignature") (normalize_gemini_response sample_response) /\
  candidate_parts 0 (normalize_gemini_response sample_response) =
    Some [Object [("text", Str "a")]; sample_image "AAAAAAA="; Object [("text", Str "b")]].
Proof.
  destruct (normalize_gemini_response_spec sample_response) as (Hk & _ & _ & _).
  - apply wf_valueb_true. reflexivity.
  - split; [exact Hk|]. reflexivity.
Defined.

Section fetching_lemmas.
#[local] Set Default Proof Using "All".
Context `{UrlLib} `{HttpLib} `{Base64} {W : Type} `{!HttpClient W} `{UrlFetcher W}.

(** The parts are built one URL after the other; [datas] are the answers in this order. *)
Inductive inlined (output_mode : OutputMode) (fetch_service : bool) (config : Config) :
    list string -> W -> list Value -> W -> Prop :=
| inlined_nil w : inlined output_mode fetch_service config [] w [] w
| inlined_cons url urls w data w1 datas w2 :
    inline_data_of output_mode fetch_service config url w = (Ok data, w1) ->
    inlined output_mode fetch_service config urls w1 datas w2 ->
    inlined output_mode fetch_service config (url :: urls) w (data :: datas) w2.

Lemma inline_loop_spec mode service config acc urls w :
  let '(r, w') := ste_for (fun parts image_url =>
      inline_data <-? inline_data_of mode service config image_url ;;
      ste_ok (parts ++ [inline_part inline_data])) acc urls w in
  match r with
  | Ok parts => exists datas, inlined mode service config urls w datas w' /\
                  parts = acc ++ (inline_part <$> datas)
  | Err e => exists url w1, url ∈ urls /\ inline_data_of mode service config url w1 = (Err e, w')
  end.
Proof.
  revert acc w. induction urls as [|url urls IH]; intros acc w; cbn [ste_for].
  { exists []. split; [constructor|]. by rewrite app_nil_r. }
  unfold ste_bind at 1 2.
  destruct (inline_data_of mode service config url w) as [[data|e] w1] eqn:E.
  2:{ exists url, w. split; [by left|done]. }
  unfold ste_ok at 1. specialize (IH (acc ++ [inline_part data]) w1).
  unfold ste_bind at 1 in IH. destruct (ste_for _ _ urls w1) as [[parts|e] w2].
  - destruct IH as (datas & Hd & ->). exists (data :: datas). split; [by econstructor|].
    by rewrite <- app_assoc.
  - destruct IH as (url' & w' & Hin & He). exists url', w'. split; [by right|done].
Qed.

(** A task that is turned into a response. *)
Lemma normalize_aiapidev_run body mode service config w response w' :
  normalize_aiapidev_task_response body mode service config w = (Ok response, w') ->
  exists datas, extract_aiapidev_image_urls body <> [] /\
    inlined mode service config (extract_aiapidev_image_urls body) w datas w' /\
    response = aiapidev_response (inline_part <$> datas).
Proof.
  unfold normalize_aiapidev_task_response. destruct (bool_decide _) eqn:Eb; [done|].
  apply bool_decide_eq_false in Eb. unfold ste_bind at 1.
  assert (Hl := inline_loop_spec mode service config [] (extract_aiapidev_image_urls body) w).
  destruct (ste_for _ [] _ w) as [[parts|e] w1]; [|done]. intros [= <- <-].
  destruct Hl as (datas & Hd & ->). by exists datas.
Qed.

(** A finished AI API Dev task is answered in Gemini's shape: its image items with an http(s) URL
    become, in order, exactly the inline data parts of the one candidate - in URL mode by the URL,
    proxied when so configured, without any network access; in base64 mode by the fetched bytes -
    and it is an error exactly when there is no such item or a fetch fails. *)
Theorem normalize_aiapidev_task_response_spec body mode service config w r w' :
  normalize_aiapidev_task_response body mode service config w = (r, w') ->
  match r with
  | Ok response => exists datas, extract_aiapidev_image_urls body <> [] /\
      inlined mode service config (extract_aiapidev_image_urls body) w datas w' /\
      candidate_parts 0 response = Some (inline_part <$> datas) /\
      (mode = OutUrl -> w' = w /\ datas = (fun url => inline_value (guess_image_mime_type_from_url url)
                                             (proxied_url config url))
                                   <$> extract_aiapidev_image_urls body)
  | Err e => extract_aiapidev_image_urls body = [] /\ w' = w \/
      exists url w1, url ∈ extract_aiapidev_image_urls body /\
        inline_data_of mode service config url w1 = (Err e, w')
  end.
Proof.
  unfold normalize_aiapidev_task_response. destruct (bool_decide _) eqn:Eb.
  { apply bool_decide_eq_true in Eb. intros [= <- <-]. by left. }
  apply bool_decide_eq_false in Eb. unfold ste_bind at 1. 
  assert (Hl := inline_loop_spec mode service config [] (extract_aiapidev_image_urls body) w).
  destruct (ste_for _ [] _ w) as [[parts|e] w1]; intros [= <- <-]; [|by right].
  destruct Hl as (datas & Hd & ->). exists datas. split_and!; [done..|].
  intros ->. clear Eb. induction Hd as [w|url urls w data w1 datas w2 Hd Hrest IH]; [done|].
  injection Hd as <- <-. destruct IH as [-> ->]. done.
Qed.
End fetching_lemmas.

#[local] Existing Instance sample_image_server.

Definition sample_task : Value :=
  Object [("result", Object [("items", Array [
    Object [("type", Str "Image"); ("url", Str "https://a.example/1.webp")];
    Object [("type", Str "text"); ("url", Str "https://a.example/2")]])])].

Lemma normalize_aiapidev_task_response_spec_witness :
  exists response, candidate_parts 0 response =
    Some [inline_part (inline_value "image/webp" "https://a.example/1.webp")].
Proof.
  destruct (normalize_aiapidev_task_response (W := SampleFs) sample_task OutUrl true test_config ∅)
    as [r w] eqn:E.
  assert (Hr := normalize_aiapidev_task_response_spec _ _ _ _ _ _ _ E).
  vm_compute in E. injection E as <- <-. destruct Hr as (datas & _ & _ & Hp & Hu).
  eexists. rewrite Hp. destruct (Hu eq_refl) as [_ ->]. vm_compute. reflexivity.
Defined.
