(* ===== verification/ResponseMaterialize.v ===== *)
(** response_materialize.rs: the inline images of a response are uploaded, or re-encoded, each
    distinct one once, and every occurrence is patched. *)

From S2P Require Import Prelude RustStr Json JsonMaps Pointer Ext.
From S2P Require Import Samples Config ImageIo Upload ResponseRewrite.
From stdpp Require Import options.

Record InlineDataEntry := mkInlineDataEntry {
  entry_mime_type : string;
  entry_data : string;
}.

#[global] Instance InlineDataEntry_eq_dec : EqDecision InlineDataEntry.
Proof. solve_decision. Defined.

#[global] Instance InlineDataEntry_countable : Countable InlineDataEntry.
Proof.
  apply (inj_countable' (fun e => (entry_mime_type e, entry_data e))
           (fun p => mkInlineDataEntry p.1 p.2)).
  by intros [].
Defined.

Record InlineDataReplacement := mkInlineDataReplacement {
  replacement_mime_type : string;
  replacement_data : string;
}.

Definition is_url_like (value : string) : bool :=
  starts_with value "http://" || starts_with value "https://" || starts_with value "/proxy/image".

(** The strings [data] and [mimeType] of an object. *)
Definition entry_in (inline_data : Map) : option InlineDataEntry :=
  match map_get "data" inline_data, map_get "mimeType" inline_data with
  | Some (Str data), Some (Str mime_type) => Some (mkInlineDataEntry mime_type data)
  | _, _ => None
  end.

(** [if !is_url_like(data) { if !entries.contains(&entry) { entries.push(entry) } }] *)
Definition push_entry (entry : InlineDataEntry) (entries : list InlineDataEntry)
    : list InlineDataEntry :=
  if is_url_like (entry_data entry) then entries
  else if decide (entry ∈ entries) then entries else entries ++ [entry].

Fixpoint scan_walk (node : Value) (entries : list InlineDataEntry) : list InlineDataEntry :=
  match node with
  | Object map =>
      let entries := match map_get "inlineData" map with
                     | Some (Object inline_data) =>
                         match entry_in inline_data with
                         | Some entry => push_entry entry entries
                         | None => entries
                         end
                     | _ => entries
                     end in
      foldl (fun entries kv => scan_walk kv.2 entries) entries map
  | Array items => foldl (fun entries child => scan_walk child entries) entries items
  | _ => entries
  end.

Definition scan_inline_data_base64_entries (node : Value) : list InlineDataEntry :=
  scan_walk node [].

(** The two patch functions differ in what they [insert] into the object of an entry. The code
    patches an object before its children; since a patch changes strings only, the children can go
    first ([patch_inline_data_object]). *)
Definition patch_value (update : InlineDataEntry -> Map -> Map) (v : Value) : Value :=
  match v with
  | Object inline_data =>
      match entry_in inline_data with
      | Some entry => Object (update entry inline_data)
      | None => v
      end
  | _ => v
  end.

Definition patch_own (update : InlineDataEntry -> Map -> Map) (map : Map) : Map :=
  map_alter (patch_value update) "inlineData" map.

Fixpoint patch_inline_data (update : InlineDataEntry -> Map -> Map) (node : Value) : Value :=
  match node with
  | Object map => Object (patch_own update ((fun kv => (kv.1, patch_inline_data update kv.2)) <$> map))
  | Array items => Array (patch_inline_data update <$> items)
  | _ => node
  end.

Definition url_update (replacements : gmap InlineDataEntry string) (entry : InlineDataEntry)
    (inline_data : Map) : Map :=
  match replacements !! entry with
  | Some url => map_insert "data" (Str url) inline_data
  | None => inline_data
  end.

Definition base64_update (replacements : gmap InlineDataEntry InlineDataReplacement)
    (entry : InlineDataEntry) (inline_data : Map) : Map :=
  match replacements !! entry with
  | Some replacement =>
      map_insert "data" (Str (replacement_data replacement))
        (map_insert "mimeType" (Str (replacement_mime_type replacement)) inline_data)
  | None => inline_data
  end.

Definition patch_inline_data_urls (node : Value) (replacements : gmap InlineDataEntry string) : Value :=
  patch_inline_data (url_update replacements) node.

Definition patch_inline_data_base64 (node : Value)
    (replacements : gmap InlineDataEntry InlineDataReplacement) : Value :=
  patch_inline_data (base64_update replacements) node.

Definition should_proxy_standard_output_url (config : Config) (provider : string) : bool :=
  proxy_standard_output_urls config && negb (eq_ignore_ascii_case provider "r2").

(** ** Upload *)

(** What the uploader offers the response path. *)
Class InlineUploader (W : Type) := {
  upload_inline : Config -> string -> string -> StE W UploadResult;
}.

#[global] Instance uploader_of_upload `{UrlLib} `{Base64} `{Digests} `{Displays}
    `{Deserialize UguuResponse} `{Deserialize KefanResponse} {W} `{UtcClock W} `{Rng W}
    `{HttpSender W} : InlineUploader W :=
  {| upload_inline := upload_inline_data_base64 |}.

Section finalize.
Context `{UrlLib} {W : Type} `{InlineUploader W}.

Definition final_url (config : Config) (upload_result : UploadResult) : string :=
  let external_proxy_prefix := resolved_external_image_proxy_prefix config in
  if negb (should_proxy_standard_output_url config (provider upload_result))
     || is_empty (trim external_proxy_prefix)
  then upload_url upload_result
  else wrap_external_proxy_url external_proxy_prefix (upload_url upload_result).

Definition upload_entries (config : Config)
    : gmap InlineDataEntry string -> list InlineDataEntry -> StE W (gmap InlineDataEntry string) :=
  ste_for (fun replacements entry => fun w =>
    match upload_inline config (entry_data entry) (entry_mime_type entry) w with
    | (Err _, w') => (Ok replacements, w')
    | (Ok upload_result, w') => (Ok (<[entry := final_url config upload_result]> replacements), w')
    end).

Definition finalize_output_urls (body : Value) (config : Config) : StE W Value :=
  replacements <-? upload_entries config ∅ (scan_inline_data_base64_entries body) ;;
  ste_ok (patch_inline_data_urls body replacements).
End finalize.

(** ** Re-encoding *)

Section optimize.
Context `{Base64} `{ImageCodec}.

Definition optimize_entry (enabled : bool) (threshold_bytes jpeg_quality : Z)
    (replacements : gmap InlineDataEntry InlineDataReplacement) (entry : InlineDataEntry)
    : Result Error (gmap InlineDataEntry InlineDataReplacement) :=
  match b64_decode (entry_data entry) with
  | Err _ => Ok replacements
  | Ok image_bytes =>
      let? optimized := maybe_compress_png_bytes_with_options image_bytes (entry_mime_type entry)
                          enabled threshold_bytes jpeg_quality in
      if String.eqb (opt_mime_type optimized) (entry_mime_type entry)
         && String.eqb (opt_bytes optimized) image_bytes
      then Ok replacements
      else Ok (<[entry := mkInlineDataReplacement (opt_mime_type optimized)
                            (b64_encode (opt_bytes optimized))]> replacements)
  end.

Definition optimize_inline_data_images_with_options (body : Value) (enabled : bool)
    (threshold_bytes jpeg_quality : Z) : Result Error Value :=
  if negb enabled then Ok body else
  let? replacements := try_fold (optimize_entry enabled threshold_bytes jpeg_quality) ∅
                         (scan_inline_data_base64_entries body) in
  Ok (patch_inline_data_base64 body replacements).

Definition optimize_inline_data_images (body : Value) (config : Config) : Result Error Value :=
  optimize_inline_data_images_with_options body (enable_image_compression config)
    PNG_COMPRESSION_THRESHOLD_BYTES (image_compression_jpeg_quality config).
End optimize.

(** * Specification *)

Definition own_entries (map : Map) : list InlineDataEntry :=
  match map_get "inlineData" map with
  | Some (Object inline_data) => option_list (entry_in inline_data)
  | _ => []
  end.

(** Every occurrence of inline data in a document, in document order. *)
Fixpoint inline_entries (v : Value) : list InlineDataEntry :=
  match v with
  | Object map => own_entries map ++ concat ((fun kv => inline_entries kv.2) <$> map)
  | Array items => concat (inline_entries <$> items)
  | _ => []
  end.

Definition put (e : InlineDataEntry) (d : Map) : Map :=
  map_insert "data" (Str (entry_data e)) (map_insert "mimeType" (Str (entry_mime_type e)) d).

(** Every occurrence [e] replaced by [f e], nothing else touched. *)
Definition replace_entries (f : InlineDataEntry -> InlineDataEntry) (v : Value) : Value :=
  patch_inline_data (fun e d => put (f e) d) v.

(** The document without what its inline data says: two documents with the same frame differ in the
    strings of inline data only. *)
Definition frame (v : Value) : Value := replace_entries (fun _ => mkInlineDataEntry EmptyString EmptyString) v.

(** * Lemmas *)

Lemma scan_walk_fold v acc :
  scan_walk v acc = foldl (fun acc e => push_entry e acc) acc (inline_entries v).
Proof.
  revert acc. induction v as [| | | |l IH|m IH] using Value_ind'; intros acc; try done.
  - cbn [scan_walk inline_entries]. revert acc. induction IH as [|x l Hx _ IHl]; intros acc; [done|].
    cbn [foldl]. rewrite fmap_cons. simpl concat. by rewrite foldl_app, <- Hx, IHl.
  - cbn [scan_walk inline_entries]. rewrite foldl_app. 
    match goal with |- foldl _ ?a _ = foldl _ ?b _ => assert (a = b) as -> end.
    { unfold own_entries. destruct (map_get "inlineData" m) as [[]|]; try done.
      by destruct (entry_in _). }
    match goal with |- foldl _ ?a _ = _ => generalize a as b end.
    induction IH as [|kv m Hkv _ IHm]; intros b; [done|]. rewrite fmap_cons. simpl concat.
    cbn [foldl]. by rewrite foldl_app, <- Hkv, IHm.
Qed.

Lemma push_fold_spec l acc :
  NoDup acc ->
  NoDup (foldl (fun acc e => push_entry e acc) acc l) /\
  forall e, e ∈ foldl (fun acc e => push_entry e acc) acc l <->
    e ∈ acc \/ e ∈ l /\ is_url_like (entry_data e) = false.
Proof.
  revert acc. induction l as [|x l IH]; intros acc Hnd; cbn [foldl].
  { split; [done|]. intros e. rewrite elem_of_nil. tauto. }
  unfold push_entry at 2 4. destruct (is_url_like (entry_data x)) eqn:Ex.
  - destruct (IH acc Hnd) as [? Hin]. split; [done|]. intros e. rewrite Hin, elem_of_cons.
    split; [tauto|]. intros [?|[[->|?] ?]]; [tauto|congruence|tauto].
  - case_decide as Hx.
    + destruct (IH acc Hnd) as [? Hin]. split; [done|]. intros e. rewrite Hin, elem_of_cons.
      split; [tauto|]. intros [?|[[->|?] ?]]; tauto.
    + destruct (IH (acc ++ [x])) as [? Hin].
      { apply NoDup_app. split_and!; [done|set_solver|apply NoDup_singleton]. }
      split; [done|]. intros e. rewrite Hin, elem_of_cons, elem_of_app, list_elem_of_singleton.
      split; [|tauto]. intros [[?| ->]|?]; tauto.
Qed.

(** The scan lists each distinct inline data that is not a URL once. *)
Lemma base64_scan_spec v :
  NoDup (scan_inline_data_base64_entries v) /\
  forall e, e ∈ scan_inline_data_base64_entries v <->
    e ∈ inline_entries v /\ is_url_like (entry_data e) = false.
Proof.
  unfold scan_inline_data_base64_entries. rewrite scan_walk_fold.
  destruct (push_fold_spec (inline_entries v) []) as [Hnd Hin]; [constructor|].
  split; [done|]. intros e. rewrite Hin. rewrite elem_of_nil. tauto.
Qed.

(** ** Patching *)

Lemma entry_in_Some d e :
  entry_in d = Some e <-> map_get "data" d = Some (Str (entry_data e)) /\
    map_get "mimeType" d = Some (Str (entry_mime_type e)).
Proof.
  unfold entry_in. destruct (map_get "data" d) as [[]|], (map_get "mimeType" d) as [[]|];
    split; try done; try (by intros [? ?]); destruct e; naive_solver.
Qed.

Lemma entry_in_put e d : entry_in (put e d) = Some e.
Proof.
  apply entry_in_Some. unfold put. rewrite map_get_insert_eq, map_get_insert_ne by done.
  by rewrite map_get_insert_eq.
Qed.

Lemma put_put e e' d : is_Some (entry_in d) -> put e (put e' d) = put e d.
Proof.
  intros [e0 [Hd Hm]%entry_in_Some]. unfold put.
  rewrite (map_insert_comm "mimeType" "data") by (done || (rewrite map_get_insert_eq; eauto)).
  rewrite map_insert_insert. by rewrite map_insert_insert.
Qed.

Lemma put_same e d : entry_in d = Some e -> put e d = d.
Proof.
  intros [Hd Hm]%entry_in_Some. unfold put. rewrite (map_insert_same "mimeType") by done.
  by apply map_insert_same.
Qed.

Lemma patch_object u m :
  patch_inline_data u (Object m) = Object (patch_own u (on_values (patch_inline_data u) m)).
Proof. done. Qed.

(** [f] replaces entries. *)
Abbreviation putting f := (fun e d => put (f e) d).

Lemma replace_entries_object f m :
  replace_entries f (Object m) = Object (patch_own (putting f) (on_values (replace_entries f) m)).
Proof. done. Qed.

(** What a patch does to an object that holds inline data: the strings stay, and what is put into it
    may as well be put before. *)
Lemma replace_object f d :
  exists d', replace_entries f (Object d) = Object d' /\ entry_in d' = entry_in d /\
    forall e, replace_entries f (Object (put e d)) = Object (put e d').
Proof.
  exists (patch_own (putting f) (on_values (replace_entries f) d)). split; [done|]. split.
  - unfold entry_in, patch_own. rewrite !map_get_alter_ne by done. rewrite !on_values_get.
    by destruct (map_get "data" d) as [[]|], (map_get "mimeType" d) as [[]|].
  - intros e. unfold replace_entries. rewrite patch_object. unfold put, patch_own.
    rewrite !on_values_insert, !map_alter_insert_ne by done. done.
Qed.

Lemma replace_patch_value f g v :
  replace_entries g (patch_value (putting f) v) = patch_value (putting f) (replace_entries g v).
Proof.
  destruct v as [| | | | |d]; try done. destruct (replace_object g d) as (d' & Hd & He & Hp).
  rewrite Hd. cbn [patch_value]. rewrite He. destruct (entry_in d) as [e|]; [apply Hp|exact Hd].
Qed.

Lemma patch_value_ext u f v :
  (forall e d, entry_in d = Some e -> u e d = put (f e) d) ->
  patch_value u v = patch_value (putting f) v.
Proof.
  intros Hu. destruct v as [| | | | |d]; try done. cbn [patch_value].
  destruct (entry_in d) as [e|] eqn:E; [by rewrite (Hu e d)|done].
Qed.

Lemma patch_inline_data_ext u f v :
  (forall e d, entry_in d = Some e -> u e d = put (f e) d) ->
  patch_inline_data u v = replace_entries f v.
Proof.
  intros Hu. unfold replace_entries.
  induction v as [| | | |l IH|m IH] using Value_ind'; try done.
  - cbn [patch_inline_data]. f_equal. by apply list_map_ext.
  - rewrite !patch_object. unfold patch_own. rewrite (on_values_ext _ _ m IH).
    f_equal. apply map_alter_ext. intros v. by apply patch_value_ext.
Qed.

(** The order of the code: an object's own inline data first, then the children. *)
Lemma patch_inline_data_object u f m :
  (forall e d, entry_in d = Some e -> u e d = put (f e) d) ->
  patch_inline_data u (Object m) = Object (on_values (patch_inline_data u) (patch_own u m)).
Proof.
  intros Hu. rewrite (patch_inline_data_ext u f (Object m) Hu). unfold replace_entries.
  rewrite patch_object. unfold patch_own.
  rewrite <- on_values_alter by apply replace_patch_value. f_equal.
  rewrite (map_alter_ext (patch_value u) (patch_value (putting f)))
    by (intros; by apply patch_value_ext).
  apply on_values_ext, Forall_forall. intros kv _. symmetry. by apply patch_inline_data_ext.
Qed.

Lemma replace_replace f g v : replace_entries g (replace_entries f v) = replace_entries (fun e => g (f e)) v.
Proof.
  induction v as [| | | |l IH|m IH] using Value_ind'; try done.
  - unfold replace_entries in *. cbn [patch_inline_data]. rewrite <- list_fmap_compose. f_equal.
    by apply list_map_ext.
  - rewrite !replace_entries_object. unfold patch_own.
    rewrite on_values_alter by apply replace_patch_value. rewrite map_alter_alter.
    rewrite <- list_fmap_compose.
    rewrite <- (on_values_ext (fun v => replace_entries g (replace_entries f v))
      (replace_entries (fun e => g (f e))) m IH). f_equal. apply map_alter_ext. intros v.
    destruct v as [| | | | |d]; try done. cbn [patch_value].
    destruct (entry_in d) as [e|] eqn:E; cbn [patch_value]; [|by rewrite E].
    rewrite entry_in_put. by rewrite put_put by eauto.
Qed.

Lemma replace_entries_id v : replace_entries (fun e => e) v = v.
Proof.
  induction v as [| | | |l IH|m IH] using Value_ind'; try done.
  - unfold replace_entries. cbn [patch_inline_data]. f_equal. rewrite <- (list_fmap_id l) at 2.
    by apply list_map_ext.
  - rewrite replace_entries_object. f_equal.
    assert (Hm : on_values (replace_entries (fun e => e)) m = m).
    { rewrite (on_values_ext _ (fun v => v) m IH). rewrite <- (list_fmap_id m) at 2.
      apply list_fmap_ext. by intros i [k v] _. }
    rewrite Hm. unfold patch_own. rewrite <- (map_alter_id "inlineData" m) at 2. apply map_alter_ext.
    intros v. destruct v as [| | | | |d]; try done. cbn [patch_value].
    destruct (entry_in d) as [e|] eqn:E; [by rewrite put_same|done].
Qed.

Lemma frame_replace f v : frame (replace_entries f v) = frame v.
Proof. unfold frame. by rewrite replace_replace. Qed.

(** ** The inline data of a patched document *)

Lemma values_entries_insert k s d :
  (exists s', map_get k d = Some (Str s')) ->
  concat ((fun kv => inline_entries kv.2) <$> map_insert k (Str s) d) =
  concat ((fun kv => inline_entries kv.2) <$> d).
Proof.
  intros [s' Hg]. induction d as [|[k' x] d IH]; [done|]. cbn [map_insert map_get] in *.
  destruct (k' =? k)%string; rewrite !fmap_cons; simpl concat.
  - by injection Hg as ->.
  - by rewrite IH.
Qed.

Lemma inline_entries_put e d :
  is_Some (entry_in d) -> inline_entries (Object (put e d)) = inline_entries (Object d).
Proof.
  intros [e0 [Hd Hm]%entry_in_Some]. cbn [inline_entries]. unfold put. f_equal.
  - unfold own_entries. by rewrite !map_get_insert_ne by done.
  - rewrite !values_entries_insert; [done|by eauto|rewrite map_get_insert_ne by done; eauto].
Qed.

Lemma inline_entries_patch_value f v :
  inline_entries (patch_value (putting f) v) = inline_entries v.
Proof.
  destruct v as [| | | | |d]; try done. cbn [patch_value].
  destruct (entry_in d) as [e|] eqn:E; [|done]. apply inline_entries_put. eauto.
Qed.

Lemma values_entries_alter h k m :
  (forall v, inline_entries (h v) = inline_entries v) ->
  concat ((fun kv => inline_entries kv.2) <$> map_alter h k m) =
  concat ((fun kv => inline_entries kv.2) <$> m).
Proof.
  intros Hh. induction m as [|[k' v] m IH]; [done|]. cbn [map_alter].
  destruct (k' =? k)%string; rewrite !fmap_cons; simpl concat; [by rewrite Hh|by rewrite IH].
Qed.

Lemma own_entries_replace f m :
  own_entries (patch_own (putting f) (on_values (replace_entries f) m)) = f <$> own_entries m.
Proof.
  unfold own_entries, patch_own. rewrite map_get_alter_eq, on_values_get.
  destruct (map_get "inlineData" m) as [[| | | |l|d]|]; try done.
  destruct (replace_object f d) as (d' & Hd & He & _).
  cbn [fmap option_fmap option_map]. rewrite Hd. cbn [patch_value]. rewrite He.
  destruct (entry_in d) as [e|] eqn:E; [by rewrite entry_in_put|by rewrite He].
Qed.

Lemma inline_entries_replace f v : inline_entries (replace_entries f v) = f <$> inline_entries v.
Proof.
  induction v as [| | | |l IH|m IH] using Value_ind'; try done.
  - unfold replace_entries in *. cbn [patch_inline_data inline_entries].
    induction IH as [|x l Hx _ IHl]; [done|]. rewrite !fmap_cons. simpl concat.
    by rewrite fmap_app, Hx, IHl.
  - rewrite replace_entries_object. cbn [inline_entries].
    rewrite own_entries_replace, fmap_app. f_equal.
    unfold patch_own. rewrite values_entries_alter by apply inline_entries_patch_value.
    induction IH as [|kv m Hkv _ IHm]; [done|]. rewrite !fmap_cons. simpl concat.
    by rewrite fmap_app, IHm, Hkv.
Qed.

(** Only what a replacement does to the inline data that occurs matters. *)
Lemma patch_value_ext_in f g v :
  (forall d e, v = Object d -> entry_in d = Some e -> f e = g e) ->
  patch_value (putting f) v = patch_value (putting g) v.
Proof.
  intros Hfg. destruct v as [| | | | |d]; try done. cbn [patch_value].
  destruct (entry_in d) as [e|] eqn:E; [by rewrite (Hfg d e)|done].
Qed.

Lemma map_alter_ext_get h h' k m :
  (forall v, map_get k m = Some v -> h v = h' v) -> map_alter h k m = map_alter h' k m.
Proof.
  induction m as [|[k' v] m IH]; [done|]. cbn [map_alter map_get].
  destruct (k' =? k)%string; intros Hh; [by rewrite Hh|by rewrite IH].
Qed.

Lemma replace_entries_ext_in f g v :
  (forall e, e ∈ inline_entries v -> f e = g e) -> replace_entries f v = replace_entries g v.
Proof.
  induction v as [| | | |l IH|m IH] using Value_ind'; try done; intros Hfg.
  - unfold replace_entries in *. cbn [patch_inline_data inline_entries] in *. f_equal.
    apply list_fmap_ext. intros i x Hx%list_elem_of_lookup_2. rewrite Forall_forall in IH.
    apply (IH _ Hx). intros e He. apply Hfg, list_elem_of_concat. exists (inline_entries x).
    split; [done|]. by apply list_elem_of_fmap_2.
  - cbn [inline_entries] in Hfg. rewrite !replace_entries_object. unfold patch_own.
    rewrite (on_values_ext (replace_entries f) (replace_entries g) m).
    2:{ rewrite Forall_forall in *. intros kv Hkv. apply (IH _ Hkv). intros e He. apply Hfg, elem_of_app.
        right. apply list_elem_of_concat. exists (inline_entries kv.2). split; [done|].
        by apply (list_elem_of_fmap_2 (fun kv => inline_entries kv.2)). }
    f_equal. apply map_alter_ext_get. intros v Hv. apply patch_value_ext_in. intros d e -> He.
    apply Hfg, elem_of_app. left. rewrite on_values_get in Hv. unfold own_entries.
    destruct (map_get "inlineData" m) as [[| | | | |d0]|]; try done.
    destruct (replace_object g d0) as (d' & Hd & He' & _).
    cbn [fmap option_fmap option_map] in Hv. rewrite Hd in Hv. injection Hv as ->.
    rewrite <- He', He. by left.
Qed.

(** ** Finalization *)

Section finalize_lemmas.
#[local] Set Default Proof Using "All".
Context `{UrlLib} {W : Type} `{InlineUploader W}.

(** One upload per entry, in order: the final URL of those that succeed. *)
Inductive uploads (config : Config) :
    list InlineDataEntry -> W -> list (InlineDataEntry * option string) -> W -> Prop :=
| uploads_nil w : uploads config [] w [] w
| uploads_cons e es w r w1 outcomes w2 :
    upload_inline config (entry_data e) (entry_mime_type e) w = (r, w1) ->
    uploads config es w1 outcomes w2 ->
    uploads config (e :: es) w ((e, final_url config <$> result_ok r) :: outcomes) w2.

Fixpoint outcome_url (outcomes : list (InlineDataEntry * option string)) (e : InlineDataEntry)
    : option string :=
  match outcomes with
  | [] => None
  | (e', o) :: outcomes => if decide (e' = e) then o else outcome_url outcomes e
  end.

(** What becomes of an occurrence of inline data. *)
Definition uploaded (outcomes : list (InlineDataEntry * option string)) (e : InlineDataEntry)
    : InlineDataEntry :=
  match outcome_url outcomes e with
  | Some url => mkInlineDataEntry (entry_mime_type e) url
  | None => e
  end.

Lemma upload_entries_spec config acc entries w r w' :
  upload_entries config acc entries w = (r, w') -> NoDup entries ->
  exists outcomes replacements, r = Ok replacements /\ uploads config entries w outcomes w' /\
    outcomes.*1 = entries /\
    forall e, replacements !! e =
      (if decide (e ∈ entries) then
         match outcome_url outcomes e with Some url => Some url | None => acc !! e end
       else acc !! e).
Proof.
  revert acc w. induction entries as [|x entries IH]; intros acc w; cbn [upload_entries ste_for].
  { intros [= <- <-] _. exists [], acc. split_and!; [done|constructor|done|].
    intros e. by rewrite decide_False by apply not_elem_of_nil. }
  unfold ste_bind. intros Hr [Hx Hnd]%NoDup_cons.
  destruct (upload_inline config (entry_data x) (entry_mime_type x) w) as [ru w1] eqn:Eu.
  set (acc' := match ru with Ok u => <[x := final_url config u]> acc | Err _ => acc end).
  assert (Hr' : upload_entries config acc' entries w1 = (r, w')) by (by destruct ru).
  destruct (IH _ _ Hr' Hnd) as (outcomes & replacements & -> & Hu & Hfst & Hl).
  exists ((x, final_url config <$> result_ok ru) :: outcomes), replacements.
  split; [done|]. split; [by econstructor|]. split; [by rewrite fmap_cons, Hfst|].
  intros e. rewrite Hl. unfold acc'. cbn [outcome_url].
  destruct (decide (x = e)) as [->|Hne].
  - rewrite (decide_False (P := e ∈ entries)) by done. rewrite decide_True by by left.
    destruct ru; simpl; [by rewrite lookup_insert_eq|done].
  - assert (Hacc : match ru with Ok u => <[x := final_url config u]> acc | Err _ => acc end !! e
      = acc !! e) by (destruct ru; [by rewrite lookup_insert_ne|done]).
    rewrite Hacc. destruct (decide (e ∈ entries)) as [Hin|Hin].
    + by rewrite decide_True by by right.
    + rewrite decide_False; [done|]. intros [->|?]%elem_of_cons; done.
Qed.

Lemma outcome_url_in outcomes e url : outcome_url outcomes e = Some url -> (e, Some url) ∈ outcomes.
Proof.
  induction outcomes as [|[e' o] outcomes IH]; cbn [outcome_url]; [done|].
  case_decide as He; [subst; intros ->; by left|]. intros Ho. right. auto.
Qed.

Lemma outcome_url_found outcomes e :
  e ∈ outcomes.*1 -> exists o, (e, o) ∈ outcomes /\ outcome_url outcomes e = o.
Proof.
  induction outcomes as [|[e' o] outcomes IH]; [by intros ?%elem_of_nil|].
  rewrite fmap_cons, elem_of_cons. cbn [outcome_url fst].
  destruct (decide (e' = e)) as [->|Hne]; [exists o; split; [by left|done]|].
  intros [->|Hin]; [done|]. destruct (IH Hin) as (o' & Ho & Hu). exists o'. split; [by right|done].
Qed.

(** What [finalize_output_urls] does, in one statement. *)
Lemma finalize_output_urls_run body config w r w' :
  finalize_output_urls body config w = (r, w') ->
  exists body' outcomes, r = Ok body' /\ body' = replace_entries (uploaded outcomes) body /\
    uploads config (scan_inline_data_base64_entries body) w outcomes w' /\
    NoDup (outcomes.*1) /\
    (forall e, e ∈ outcomes.*1 <-> e ∈ inline_entries body /\ is_url_like (entry_data e) = false) /\
    inline_entries body' = uploaded outcomes <$> inline_entries body /\ frame body' = frame body /\
    (Forall (fun o => exists url, o.2 = Some url /\ is_url_like url = true) outcomes ->
     scan_inline_data_base64_entries body' = []).
Proof.
  destruct (base64_scan_spec body) as [Hnd Hscan]. unfold finalize_output_urls, ste_bind.
  destruct (upload_entries _ _ _ w) as [r1 w1] eqn:E.
  destruct (upload_entries_spec _ _ _ _ _ _ E Hnd) as (outcomes & repl & -> & Hu & Hfst & Hl).
  intros [= <- <-]. assert (Hpatch : patch_inline_data_urls body repl = replace_entries (uploaded outcomes) body).
  { apply patch_inline_data_ext. intros e d He. unfold url_update, uploaded. rewrite Hl, lookup_empty.
    assert (Hsame : (if decide (e ∈ scan_inline_data_base64_entries body)
      then match outcome_url outcomes e with Some url => Some url | None => None end else None) =
      outcome_url outcomes e).
    { case_decide as Hin; [by destruct (outcome_url outcomes e)|].
      destruct (outcome_url outcomes e) as [u|] eqn:Eo; [|done].
      apply outcome_url_in in Eo. destruct Hin. rewrite <- Hfst.
      apply list_elem_of_fmap. by exists (e, Some u). }
    rewrite Hsame. destruct (outcome_url outcomes e) as [url|]; [|by rewrite put_same].
    unfold put. simpl. apply entry_in_Some in He as [_ Hm].
    by rewrite (map_insert_same "mimeType"). }
  rewrite Hpatch. eexists _, outcomes. split; [done|]. split; [done|].
  rewrite Hfst, inline_entries_replace, frame_replace.
  split; [done|]. split; [done|]. split; [done|]. split; [done|]. split; [done|].
  intros Hall. destruct (base64_scan_spec (replace_entries (uploaded outcomes) body)) as [_ Hscan'].
  destruct (scan_inline_data_base64_entries (replace_entries _ _)) as [|e l]; [done|].
  destruct (proj1 (Hscan' e) ltac:(by left)) as [Hin Hurl].
  rewrite inline_entries_replace in Hin. apply list_elem_of_fmap in Hin as (e0 & -> & Hin).
  unfold uploaded in Hurl. destruct (is_url_like (entry_data e0)) eqn:E0.
  - destruct (outcome_url outcomes e0) as [url|] eqn:Eo; [|by rewrite E0 in Hurl].
    apply outcome_url_in in Eo. rewrite Forall_forall in Hall.
    destruct (Hall _ Eo) as (u & [= <-] & Hu'). simpl in Hurl. congruence.
  - assert (Hin0 : e0 ∈ outcomes.*1) by (rewrite Hfst; by apply Hscan).
    destruct (outcome_url_found _ _ Hin0) as (o & Ho & Eo). rewrite Eo in Hurl.
    rewrite Forall_forall in Hall. destruct (Hall _ Ho) as (u & Hu1 & Hu'). simpl in Hu1. subst o.
    rewrite Hu1 in Hurl. simpl in Hurl. congruence.
Qed.

(** C15: Finishing a response in URL mode never fails. Each distinct inline image that is not already
    a URL is uploaded once, in document order; every occurrence of an image whose upload succeeds
    gets the final URL in place of its data, and every other occurrence keeps its data; the rest of
    the document is untouched. When all uploads give URLs, no base64 data is left. *)
Theorem finalize_output_urls_correct body config w r w' :
  finalize_output_urls body config w = (r, w') ->
  exists body' outcomes, r = Ok body' /\
    uploads config (scan_inline_data_base64_entries body) w outcomes w' /\
    NoDup (outcomes.*1) /\
    (forall e, e ∈ outcomes.*1 <-> e ∈ inline_entries body /\ is_url_like (entry_data e) = false) /\
    inline_entries body' = uploaded outcomes <$> inline_entries body /\ frame body' = frame body /\
    (Forall (fun o => exists url, o.2 = Some url /\ is_url_like url = true) outcomes ->
     scan_inline_data_base64_entries body' = []).
Proof.
  intros E. destruct (finalize_output_urls_run _ _ _ _ _ E) as (body' & outcomes & Hr & _ & Hrest).
  by exists body', outcomes.
Qed.
End finalize_lemmas.

(** Uploads of "bad" fail, the others give an R2 URL. *)
#[local] Instance sample_uploader : InlineUploader nat := {|
  upload_inline _ data _ w :=
    (if String.eqb data "bad" then Err (Anyhow "refused")
     else Ok (mkUploadResult ("https://pics.example/" +:+ data) "r2"), S w);
|}.

Definition sample_pictures : Value :=
  Array [sample_image "AA=="; sample_image "bad"; sample_image "AA==";
         sample_image "https://pics.example/old"].

Lemma finalize_output_urls_correct_witness :
  exists body', finalize_output_urls (W := nat) sample_pictures test_config 0%nat = (Ok body', 2%nat) /\
    inline_entries body' =
      mkInlineDataEntry "image/png" <$> ["https://pics.example/AA=="; "bad";
        "https://pics.example/AA=="; "https://pics.example/old"].
Proof.
  destruct (finalize_output_urls (W := nat) sample_pictures test_config 0%nat) as [r w] eqn:E.
  destruct (finalize_output_urls_correct sample_pictures test_config _ _ _ E)
    as (body' & outcomes & Hr & _ & _ & _ & _ & _ & _).
  vm_compute in E. injection E as Hr0 <-. exists body'. split; [by rewrite Hr|].
  rewrite <- Hr0 in Hr. injection Hr as <-. vm_compute. reflexivity.
Defined.

(** ** Re-encoding *)

Section optimize_lemmas.
#[local] Set Default Proof Using "All".
Context `{Base64} `{ImageCodec}.

(** What an occurrence becomes: data that is a URL, or is not base64, stays; an image stays unless the
    compressor changes its type or its bytes, and then it is what the compressor made of it. *)
Definition optimized_entry (enabled : bool) (threshold_bytes jpeg_quality : Z) (e : InlineDataEntry)
    : InlineDataEntry :=
  if negb enabled || is_url_like (entry_data e) then e else
  match b64_decode (entry_data e) with
  | Err _ => e
  | Ok image =>
      match maybe_compress_png_bytes_with_options image (entry_mime_type e) true threshold_bytes
              jpeg_quality with
      | Err _ => e
      | Ok o =>
          if bool_decide (opt_mime_type o = entry_mime_type e /\ opt_bytes o = image) then e
          else mkInlineDataEntry (opt_mime_type o) (b64_encode (opt_bytes o))
      end
  end.

(** The images of a document re-encoded as the configuration says. *)
Definition reencoded (config : Config) (body : Value) : Value :=
  replace_entries (optimized_entry (enable_image_compression config) PNG_COMPRESSION_THRESHOLD_BYTES
                     (image_compression_jpeg_quality config)) body.

(** What the map of replacements makes of an occurrence. *)
Definition replaced_by (replacements : gmap InlineDataEntry InlineDataReplacement)
    (e : InlineDataEntry) : InlineDataEntry :=
  match replacements !! e with
  | Some r => mkInlineDataEntry (replacement_mime_type r) (replacement_data r)
  | None => e
  end.

(** One turn: the entry gets its replacement, or has none. *)
Lemma optimize_entry_step threshold quality acc x acc' :
  optimize_entry true threshold quality acc x = Ok acc' -> is_url_like (entry_data x) = false ->
  acc !! x = None ->
  replaced_by acc' x = optimized_entry true threshold quality x /\
  forall e, x <> e -> acc' !! e = acc !! e.
Proof.
  unfold optimize_entry, optimized_entry, replaced_by. intros Hr Hx Hnone. rewrite Hx. cbn [negb orb].
  destruct (b64_decode (entry_data x)) as [image|]; [|injection Hr as <-; by rewrite Hnone].
  destruct (maybe_compress_png_bytes_with_options _ _ _ _ _) as [o|]; [|done]. cbn [and_then] in Hr.
  destruct (String.eqb_spec (opt_mime_type o) (entry_mime_type x)) as [Hm|Hm],
    (String.eqb_spec (opt_bytes o) image) as [Hb|Hb]; cbn [andb] in Hr; injection Hr as <-;
    (case_bool_decide as Hsame; [try naive_solver|try naive_solver]).
  1: by rewrite Hnone.
  all: split; [by rewrite lookup_insert_eq|intros e He; by rewrite lookup_insert_ne].
Qed.

Lemma optimize_loop_spec threshold quality acc entries replacements :
  try_fold (optimize_entry true threshold quality) acc entries = Ok replacements ->
  NoDup entries -> Forall (fun e => is_url_like (entry_data e) = false) entries ->
  (forall e, e ∈ entries -> acc !! e = None) ->
  forall e, replaced_by replacements e =
    if decide (e ∈ entries) then optimized_entry true threshold quality e else replaced_by acc e.
Proof.
  revert acc. induction entries as [|x entries IH]; intros acc Hr Hnd Hall Hacc e.
  { injection Hr as <-. by rewrite decide_False by apply not_elem_of_nil. }
  rewrite try_fold_cons in Hr. destruct (optimize_entry _ _ _ acc x) as [acc'|] eqn:Ex; [|done].
  apply NoDup_cons in Hnd as [Hx Hnd]. apply Forall_cons in Hall as [Hux Hall].
  destruct (optimize_entry_step _ _ _ _ _ Ex Hux) as [Hxs Hother]; [apply Hacc; by left|].
  cbn [and_then] in Hr. rewrite (IH _ Hr Hnd Hall).
  2:{ intros e' He'. rewrite Hother by (intros ->; done). apply Hacc. by right. }
  destruct (decide (x = e)) as [<-|Hne].
  - rewrite (decide_False (P := x ∈ entries)) by done. by rewrite decide_True by by left.
  - destruct (decide (e ∈ entries)) as [Hin|Hin]; [by rewrite decide_True by by right|].
    rewrite decide_False by (intros [->|?]%elem_of_cons; done).
    unfold replaced_by. by rewrite Hother.
Qed.

(** The re-encoding as one function on the document. *)
Lemma optimize_run body enabled threshold quality body' :
  optimize_inline_data_images_with_options body enabled threshold quality = Ok body' ->
  body' = replace_entries (optimized_entry enabled threshold quality) body.
Proof.
  unfold optimize_inline_data_images_with_options. destruct enabled; cbn [negb].
  2:{ intros [= <-]. rewrite <- (replace_entries_id body) at 1. by apply replace_entries_ext_in. }
  destruct (try_fold _ ∅ _) as [repl|] eqn:E; [|done]. intros [= <-].
  destruct (base64_scan_spec body) as [Hnd Hin].
  assert (Hrepl := optimize_loop_spec _ _ _ _ _ E Hnd).
  transitivity (replace_entries (replaced_by repl) body).
  - apply patch_inline_data_ext. intros e d He. unfold base64_update, replaced_by.
    destruct (repl !! e); [done|by rewrite put_same].
  - apply replace_entries_ext_in. intros e He. rewrite Hrepl; [|apply Forall_forall; naive_solver|done].
    case_decide as Hs; [done|]. unfold replaced_by, optimized_entry. rewrite lookup_empty.
    destruct (is_url_like (entry_data e)) eqn:Eu; [done|]. destruct Hs. by apply Hin.
Qed.

(** The re-encoding of the images in a response touches nothing but its inline data, and every
    occurrence becomes what [optimized_entry] says. *)
Theorem optimize_inline_data_images_spec body enabled threshold quality body' :
  optimize_inline_data_images_with_options body enabled threshold quality = Ok body' ->
  frame body' = frame body /\
  inline_entries body' = optimized_entry enabled threshold quality <$> inline_entries body /\
  (enabled = false -> body' = body).
Proof.
  intros Hr. split_and!.
  1,2: by rewrite (optimize_run _ _ _ _ _ Hr), ?frame_replace, ?inline_entries_replace.
  intros ->. by injection Hr as <-.
Qed.
End optimize_lemmas.

#[local] Existing Instance sample_codec.

Lemma optimize_inline_data_images_spec_witness :
  exists body', optimize_inline_data_images_with_options (sample_image "aGVsbG8=") true 3 97 = Ok body' /\
    frame body' = frame (sample_image "aGVsbG8=") /\
    inline_entries body' = [mkInlineDataEntry "image/jpeg" "Sg=="].
Proof.
  destruct (optimize_inline_data_images_with_options (sample_image "aGVsbG8=") true 3 97)
    as [body'|] eqn:E; [|vm_compute in E; discriminate E].
  exists body'. destruct (optimize_inline_data_images_spec _ _ _ _ _ E) as [Hf _].
  split; [done|]. split; [exact Hf|]. vm_compute in E. injection E as <-. vm_compute. reflexivity.
Defined.
