(* ===== verification/Query.v ===== *)
(** router.rs: the query string of a request. The [output] option is read from it, and removed from
    what the upstream is asked. *)

From S2P Require Import Prelude RustStr Json Pointer Ext Samples.
From S2P Require Import ResponseRewrite.
From stdpp Require Import options.

(** What the documentation of [form_urlencoded] promises: pairs that were parsed, given to the
    serializer, are parsed back from what it writes. *)
Class FormLaws `{UrlLib} : Prop := {
  form_parse_serialize : forall l, Forall (fun kv => exists s, kv ∈ form_parse s) l ->
    form_parse (form_serialize l) = l;
}.

Section query.
Context `{UrlLib}.

(** [query.into_iter().flat_map(form_urlencoded::parse)] *)
Definition query_pairs (query : option string) : list (string * string) :=
  match query with Some query => form_parse query | None => [] end.

Definition query_contains_output_url (query : option string) : bool :=
  existsb (fun kv => String.eqb kv.1 "output" && eq_ignore_ascii_case (trim kv.2) "url")
    (query_pairs query).

(** [value.and_then(Value::as_str).is_some_and(..)] *)
Definition says_url (value : option Value) : bool :=
  match value ≫= as_str with
  | Some value => eq_ignore_ascii_case (trim value) "url"
  | None => false
  end.

Definition get_output_mode (query : option string) (body : Value) : OutputMode :=
  if query_contains_output_url query then OutUrl
  else if says_url (value_get "output" body) then OutUrl
  else if says_url (pointer "/generationConfig/imageConfig/output" body) then OutUrl
  else if says_url (pointer "/generation_config/image_config/output" body) then OutUrl
  else OutBase64.

(** The loop: the pairs given to the serializer, and [has_any]. *)
Fixpoint append_pairs (appended : list (string * string)) (has_any : bool)
    (pairs : list (string * string)) : list (string * string) * bool :=
  match pairs with
  | [] => (appended, has_any)
  | (key, value) :: pairs =>
      if String.eqb key "output" then append_pairs appended has_any pairs
      else append_pairs (appended ++ [(key, value)]) true pairs
  end.

Definition filter_query_without_output (query : option string) : option string :=
  query ← query;
  let '(appended, has_any) := append_pairs [] false (form_parse query) in
  if has_any then Some (form_serialize appended) else None.

Definition build_upstream_url (base_url path : string) (query : option string)
    : Result Error string :=
  let? parsed := map_err ExternalError (url_parse base_url) in
  let parsed := url_set_path path parsed in
  let filtered_query := filter_query_without_output query in
  let parsed := url_set_query filtered_query parsed in
  Ok (url_to_string parsed).
End query.

(** * Lemmas *)

Section lemmas.
Context `{UrlLib}.

Definition not_output (kv : string * string) : Prop := kv.1 <> "output".

#[export] Instance not_output_dec kv : Decision (not_output kv).
Proof. unfold not_output. apply _. Defined.

Lemma append_pairs_spec appended has_any pairs :
  append_pairs appended has_any pairs =
    (appended ++ filter not_output pairs, has_any || negb (bool_decide (filter not_output pairs = []))).
Proof.
  revert appended has_any. induction pairs as [|[k v] pairs IH]; intros appended has_any; simpl.
  { by rewrite app_nil_r, orb_false_r. }
  destruct (String.eqb_spec k "output") as [->|Hk].
  - rewrite filter_cons_False by (unfold not_output; naive_solver). apply IH.
  - rewrite filter_cons_True by done. rewrite IH, <- app_assoc. f_equal.
    rewrite orb_true_l, (bool_decide_eq_false_2 (_ :: _ = [])) by done. by rewrite orb_true_r.
Qed.

Lemma filtered_query_pairs `{!FormLaws} query :
  query_pairs (filter_query_without_output query) = filter not_output (query_pairs query).
Proof.
  destruct query as [q|]; [|done]. simpl. rewrite append_pairs_spec, orb_false_l.
  destruct (bool_decide_reflect (filter not_output (form_parse q) = [])) as [->|_]; [done|].
  simpl. apply form_parse_serialize, Forall_filter_sub, Forall_forall. intros kv Hkv. by exists q.
Qed.

Lemma filtered_no_output query :
  query_contains_output_url query = false <->
  Forall (fun kv => kv.1 = "output" -> eq_ignore_ascii_case (trim kv.2) "url" = false) (query_pairs query).
Proof.
  unfold query_contains_output_url. induction (query_pairs query) as [|[k v] l IH]; simpl.
  - split; [constructor|done].
  - rewrite orb_false_iff, andb_false_iff, IH, Forall_cons. simpl.
    rewrite String.eqb_neq. destruct (decide (k = "output")); naive_solver.
Qed.

Lemma says_url_spec v :
  says_url v = true <->
  exists s, v = Some (Str s) /\ to_ascii_lowercase (trim s) = "url".
Proof.
  unfold says_url. destruct v as [[| | |s| |]|]; simpl; split; try done; try (by intros (? & ? & ?)).
  - intros Hs%eq_ignore_ascii_case_spec. by exists s.
  - intros (s' & [= <-] & Hs). by apply eq_ignore_ascii_case_spec.
Qed.
End lemmas.

(** * Properties *)

(** The upstream is asked for everything but the [output] option: the URL built from a base URL, a
    path and the client's query has a query that parses to the client's pairs, in order, without
    those named [output]; and it has no query when nothing else is left. *)
Theorem build_upstream_url_spec `{FormLaws} base path query url :
  build_upstream_url base path query = Ok url ->
  exists parsed filtered, url_parse base = Ok parsed /\
    url = url_to_string (url_set_query filtered (url_set_path path parsed)) /\
    query_pairs filtered = filter (fun kv => kv.1 <> "output") (query_pairs query) /\
    (filtered = None <-> Forall (fun kv => kv.1 = "output") (query_pairs query)) /\
    query_contains_output_url filtered = false.
Proof.
  unfold build_upstream_url. destruct (url_parse base) as [parsed|]; simpl; [|done].
  intros [= <-]. exists parsed, (filter_query_without_output query).
  assert (Hq := filtered_query_pairs query). split_and!; try done.
  - destruct query as [q|]; [|split; [intros _; constructor|done]]. simpl in Hq |- *.
    rewrite append_pairs_spec, orb_false_l in Hq |- *.
    destruct (bool_decide_reflect (filter not_output (form_parse q) = [])) as [E|E]; simpl.
    + split; [intros _|done]. apply Forall_forall. intros kv Hkv.
      destruct (decide (kv.1 = "output")) as [|Hne]; [done|].
      assert (Hin : kv ∈ filter not_output (form_parse q)) by by apply list_elem_of_filter.
      rewrite E in Hin. by apply not_elem_of_nil in Hin.
    + split; [done|]. intros Hall. destruct E.
      destruct (filter not_output (form_parse q)) as [|kv l] eqn:Ef; [done|].
      assert (Hin : kv ∈ filter not_output (form_parse q)) by (rewrite Ef; left).
      apply list_elem_of_filter in Hin as [Hno Hin]. rewrite Forall_forall in Hall.
      by apply Hall in Hin.
  - apply filtered_no_output. rewrite Hq. apply Forall_forall.
    intros kv [Hno _]%list_elem_of_filter Hk. done.
Qed.

(** The sample codec obeys the law. *)
Lemma split_once_char c s t :
  contains_char c s = false -> split_once (String c EmptyString) (s +:+ String c t) = Some (s, t).
Proof.
  intros Hs. induction s as [|a s IH].
  - rewrite string_app_nil_l. unfold split_once. fold split_once.
    change (String c t) with (String c EmptyString +:+ t). by rewrite strip_prefix_app.
  - simpl in Hs. apply orb_false_iff in Hs as [Ha Hs]. rewrite string_cons_app.
    unfold split_once. fold split_once. rewrite strip_prefix_cons.
    rewrite Ascii.eqb_sym, Ha. by rewrite (IH Hs).
Qed.

Lemma contains_char_app c s t : contains_char c (s +:+ t) = contains_char c s || contains_char c t.
Proof.
  induction s as [|a s IH]; [done|]. rewrite string_cons_app. simpl. by rewrite IH, orb_assoc.
Qed.

Definition sample_pair (kv : string * string) : string :=
  sample_byte_serialize kv.1 +:+ "=" +:+ sample_byte_serialize kv.2.

Lemma sample_pair_ok kv :
  contains_char "&" (sample_pair kv) = false /\ is_empty (sample_pair kv) = false /\
  split_once "=" (sample_pair kv) = Some (sample_byte_serialize kv.1, sample_byte_serialize kv.2).
Proof.
  assert (Hs : forall c s, form_char c = false -> contains_char c (sample_byte_serialize s) = false).
  { intros c s Hc. apply form_chars_no_separator; [done|apply serialize_form_chars]. }
  unfold sample_pair. split_and!.
  - rewrite !contains_char_app. by rewrite !Hs.
  - by destruct (sample_byte_serialize kv.1).
  - apply split_once_char. by apply Hs.
Qed.

Lemma split_joined_pairs kv l :
  split_char "&" (join "&" (sample_pair <$> kv :: l)) = sample_pair <$> kv :: l.
Proof.
  revert kv. induction l as [|kv' l IH]; intros kv; destruct (sample_pair_ok kv) as (Hc & _ & _).
  - cbn. by apply (split_char_app "&" _ EmptyString).
  - rewrite fmap_cons, join_cons by done.
    change ("&" +:+ join "&" (sample_pair <$> kv' :: l)) with
      (String "&" (join "&" (sample_pair <$> kv' :: l))).
    destruct (split_char_app "&" (sample_pair kv) (join "&" (sample_pair <$> kv' :: l)) Hc) as [-> _].
    by rewrite IH.
Qed.

#[export] Instance sample_form_laws : FormLaws.
Proof.
  split. intros l _. simpl. unfold sample_form_parse, sample_form_serialize. fold sample_pair.
  destruct l as [|kv l]; [done|]. rewrite split_joined_pairs. rewrite filter_id.
  - rewrite <- list_fmap_compose. rewrite <- (list_fmap_id (kv :: l)) at 2. apply list_fmap_ext.
    intros i [k v] _. cbn [compose]. destruct (sample_pair_ok (k, v)) as (_ & _ & ->).
    cbn [fst snd]. by rewrite !sample_decode_serialize.
  - apply Forall_fmap, Forall_forall. intros kv' _. by destruct (sample_pair_ok kv') as (_ & ? & _).
Qed.

Lemma build_upstream_url_spec_witness :
  build_upstream_url "https://up.example" "/v1beta/models/m" (Some "a=1&output=url&b=x+y")
    = Ok "https://up.example/v1beta/models/m?a=1&b=x+y" /\
  exists filtered, query_pairs filtered = [("a", "1"); ("b", "x y")] /\
    query_contains_output_url filtered = false.
Proof.
  split; [vm_compute; reflexivity|].
  destruct (build_upstream_url_spec (H := sample_url) "https://up.example" "/v1beta/models/m"
    (Some "a=1&output=url&b=x+y") "https://up.example/v1beta/models/m?a=1&b=x+y" ltac:(vm_compute; reflexivity))
    as (parsed & filtered & _ & _ & Hp & _ & Hu).
  exists filtered. split; [rewrite Hp; reflexivity|exact Hu].
Defined.

(** The output mode is [url] exactly when the query has an [output] parameter that says so, or
    the body does in one of its three places, whatever the case and the surrounding space. *)
Theorem get_output_mode_spec `{UrlLib} query body :
  get_output_mode query body = OutUrl <->
  (exists v, ("output", v) ∈ query_pairs query /\ to_ascii_lowercase (trim v) = "url") \/
  exists s, to_ascii_lowercase (trim s) = "url" /\
    (value_get "output" body = Some (Str s) \/
     pointer "/generationConfig/imageConfig/output" body = Some (Str s) \/
     pointer "/generation_config/image_config/output" body = Some (Str s)).
Proof.
  assert (Hq : query_contains_output_url query = true <->
    exists v, ("output", v) ∈ query_pairs query /\ to_ascii_lowercase (trim v) = "url").
  { unfold query_contains_output_url. rewrite existsb_exists. split.
    - intros ([k v] & Hin%list_elem_of_In & [Hk%String.eqb_eq Hv%eq_ignore_ascii_case_spec]%andb_true_iff).
      simpl in Hk, Hv. subst k. by exists v.
    - intros (v & Hin & Hv). exists ("output", v). split; [by apply list_elem_of_In|].
      apply andb_true_iff. split; [done|]. by apply eq_ignore_ascii_case_spec. }
  rewrite <- Hq. clear Hq. unfold get_output_mode.
  destruct (query_contains_output_url query); [by split; [left|]|].
  assert (Hs := says_url_spec).
  destruct (says_url (value_get "output" body)) eqn:E1.
  { apply Hs in E1 as (s & E1 & Hu). split; [intros _; right; exists s; auto|done]. }
  destruct (says_url (pointer "/generationConfig/imageConfig/output" body)) eqn:E2.
  { apply Hs in E2 as (s & E2 & Hu). split; [intros _; right; exists s; auto|done]. }
  destruct (says_url (pointer "/generation_config/image_config/output" body)) eqn:E3.
  { apply Hs in E3 as (s & E3 & Hu). split; [intros _; right; exists s; auto|done]. }
  split; [done|]. intros [?|(s & Hu & Hb)]; [done|]. exfalso.
  destruct Hb as [Hb|[Hb|Hb]]; [apply not_true_iff_false in E1|apply not_true_iff_false in E2
    |apply not_true_iff_false in E3]; [apply E1|apply E2|apply E3]; apply Hs; eauto.
Qed.
