(* ===== verification/UpstreamClient.v ===== *)
(** The client of the upstream, and the parts of router.rs that read its answers: classification of
    failures, annotation of error bodies, replies that carry an answer through. *)

From S2P Require Import Prelude RustStr Json Ext Http Upload RequestMaterialize.
From stdpp Require Import options.

(** * Interface *)

(** [reqwest::Client] of the upstream. A request that cannot be built (a URL or a header value that
    does not parse) fails when it is sent. *)
Class UpstreamClient (W : Type) := {
  send_upstream : HttpRequest -> St W (Result ReqwestError HttpResponse);
  (** the body that [RequestBuilder::json] sets *)
  json_body : Value -> Result ReqwestError bytes;
}.

(** The exchange with the upstream does not touch files. *)
Class UpstreamFrame (W : Type) `{FileSystemLaws W} `{UpstreamClient W} : Prop := {
  send_upstream_frame : forall request w r w', send_upstream request w = (r, w') ->
    forall p, fs_content w' p = fs_content w p;
}.

(** [started.elapsed().as_millis() as i64] *)
Definition elapsed {W} `{Stopwatch W} (started : Z) : St W Z :=
  now <-! instant_now ;; st_ret (i64_wrap (now - started)).

(** [i64::saturating_sub] *)
Definition i64_saturating_sub (a b : Z) : Z := Z.max i64_min (Z.min i64_max (a - b)).

Definition CONTENT_TYPE : string := "content-type".

(** [response.headers().get(CONTENT_TYPE).cloned().unwrap_or_else(..)] *)
Definition content_type_of (r : HttpResponse) : bytes :=
  default "application/json" (header_get CONTENT_TYPE (resp_headers r)).

(** [response.json()]; its error is not looked at. *)
Definition resp_json `{JsonCodec} (r : HttpResponse) : option Value :=
  match resp_bytes r with Ok body => result_ok (from_slice body) | Err _ => None end.

(** [Response::new(body)] with its status and content type set. A status code of the client is a
    status code of the server: [StatusCode::from_u16] succeeds on it. *)
Definition raw_reqwest_response_with_body (status : Z) (content_type body_bytes : bytes) : Reply :=
  mkReply status (header_set CONTENT_TYPE content_type []) body_bytes.

(** [Json(json!({"error": {"code": 502, "message": message}}))] with status 502 *)
Definition bad_gateway_reply `{JsonCodec} (message : string) : Reply :=
  json_reply 502 (plain_error_json 502 message).

Definition raw_reqwest_response `{JsonCodec} (upstream_response : HttpResponse) : Reply :=
  match resp_bytes upstream_response with
  | Ok body_bytes =>
      raw_reqwest_response_with_body (resp_status upstream_response)
        (content_type_of upstream_response) body_bytes
  | Err err => bad_gateway_reply (reqwest_display err)
  end.

(** * Classification of failures *)

Record StructuredError := mkStructuredError {
  structured_message : string;
  structured_stage : string;
  structured_kind : string;
  structured_detail : string;
}.

Definition transport_message (e : ReqwestError) : string * string :=
  if is_timeout e then ("upstream request timed out", "upstream_timeout")
  else if is_connect e then ("failed to connect to upstream", "upstream_connect_failed")
  else if is_body e then ("failed while sending upstream request body", "upstream_request_body_failed")
  else if is_request e then ("failed to send upstream request", "upstream_request_failed")
  else ("upstream transport error", "upstream_transport_error").

Definition classify_standard_proxy_error_detail (err : Error) : option StructuredError :=
  match err with
  | StructuredProxyError message stage kind detail =>
      Some (mkStructuredError message stage kind detail)
  | ReqwestErr reqwest_error =>
      let '(message, kind) := transport_message reqwest_error in
      Some (mkStructuredError message "send_upstream_request" kind (reqwest_display reqwest_error))
  | _ => None
  end.

Definition classify_standard_proxy_error (err : Error) : option Value :=
  (fun s => proxy_error_json 502 (structured_message s) "proxy" (structured_stage s) (structured_kind s))
  <$> classify_standard_proxy_error_detail err.

Definition build_structured_proxy_error_response `{JsonCodec} (s : StructuredError) : Reply :=
  proxy_error_response 502 (structured_message s) (structured_stage s) (structured_kind s).

(** * Error bodies of the upstream *)

Definition annotate_upstream_error_json `{JsonCodec} (status : Z) (body_bytes : bytes)
    : option bytes :=
  body ← result_ok (from_slice body_bytes);
  root ← as_object body;
  error ← map_get "error" root ≫= as_object;
  let error := map_or_insert "code" (json_uint status) error in
  let error := map_or_insert "source" (Str "upstream") error in
  let error := map_or_insert "stage" (Str "upstream_response") error in
  let error := map_or_insert "kind" (Str "upstream_error") error in
  result_ok (to_vec (Object (map_alter (fun _ => Object error) "error" root))).

(** * Lemmas *)

#[local] Arguments String.eqb : simpl never.

Lemma map_get_or_insert k v k' m :
  map_get k' (map_or_insert k v m) =
  match map_get k' m with Some v' => Some v' | None => if String.eqb k k' then Some v else None end.
Proof.
  assert (Happ : map_get k' (m ++ [(k, v)]) =
    match map_get k' m with Some v' => Some v' | None => if String.eqb k k' then Some v else None end).
  { induction m as [|[k0 v0] m IH]; simpl; [done|]. by destruct (String.eqb k0 k'). }
  unfold map_or_insert, map_contains_key. destruct (map_get k m) as [v0|] eqn:Em; [|done].
  destruct (map_get k' m) as [v'|] eqn:Em'; [done|].
  destruct (String.eqb_spec k k') as [->|]; [congruence|done].
Qed.

Definition error_annotations (status : Z) : list (string * Value) :=
  [("code", json_uint status); ("source", Str "upstream"); ("stage", Str "upstream_response");
   ("kind", Str "upstream_error")].

(** The error object of a body: the body as an object, and its field [error]. *)
Definition error_object `{JsonCodec} (body_bytes : bytes) : option (Map * Map) :=
  body ← result_ok (from_slice body_bytes);
  root ← as_object body;
  error ← map_get "error" root ≫= as_object;
  Some (root, error).

(** What the annotation does: a body with an error object is written out again with the four fields
    in it, where those it had are kept; any other body is left alone. *)
Lemma annotate_upstream_error_json_run `{JsonCodec} status body_bytes :
  match error_object body_bytes with
  | None => annotate_upstream_error_json status body_bytes = None
  | Some (root, error) => exists error',
      (forall k, map_get k error' =
         match map_get k error with Some v => Some v | None => map_get k (error_annotations status) end) /\
      annotate_upstream_error_json status body_bytes =
        result_ok (to_vec (Object (map_alter (fun _ => Object error') "error" root)))
  end.
Proof.
  unfold annotate_upstream_error_json, error_object.
  destruct (from_slice body_bytes) as [[| | | | |root]|]; try done. simpl.
  destruct (map_get "error" root) as [[| | | | |error]|] eqn:Ee; try done. simpl.
  eexists. split; [|done]. intros k. rewrite !map_get_or_insert. destruct (map_get k error); [done|].
  unfold error_annotations. cbn [map_get].
  by destruct (String.eqb "code" k), (String.eqb "source" k), (String.eqb "stage" k), (String.eqb "kind" k).
Qed.
