(* ===== verification/UpstreamResponse.v ===== *)
(** router.rs: what the client gets for an answer of the upstream - the Gemini response normalized and
    its images finished, the OpenAI response with its images uploaded. *)

From S2P Require Import Prelude RustStr Json JsonMaps Pointer Ext Samples.
From S2P Require Import Config ImageIo OpenaiImage Http Upload ResponseRewrite ResponseMaterialize.
From S2P Require Import FetchService RequestMaterialize RequestRewrite UpstreamClient.
From stdpp Require Import options.

Record ResponseStageDurations := mkResponseStageDurations {
  response_process_ms : Z;
  upload_ms : Z;
}.

Section responses.
Context `{UrlLib} `{HttpLib} `{JsonCodec} `{Base64} `{ImageCodec} {W : Type} `{!HttpClient W}
  `{UrlFetcher W} `{Stopwatch W} `{Clock W} `{InlineUploader W}.

(** The error for a response body that cannot be read. *)
Definition body_error (err : ReqwestError) : Error :=
  StructuredProxyError "failed to read upstream response body" "read_upstream_body" "body_truncated"
    (reqwest_display err).

(** A reply with the body of the upstream, unprocessed. *)
Definition passed_on (response_started status : Z) (content_type body : bytes)
    : StE W (Reply * ResponseStageDurations) :=
  ms <-! elapsed response_started ;;
  ste_ok (raw_reqwest_response_with_body status content_type body, mkResponseStageDurations ms 0).

(** The images of a response in URL mode, and the time it took. *)
Definition upload_stage (output_mode : OutputMode) (final_json : Value) (config : Config)
    : StE W (Value * Z) :=
  match output_mode with
  | OutUrl =>
      upload_started <-! instant_now ;;
      final_json <-? finalize_output_urls final_json config ;;
      ms <-! elapsed upload_started ;;
      ste_ok (final_json, ms)
  | OutBase64 => ste_ok (final_json, 0%Z)
  end.

Definition handle_non_stream_response (upstream_response : HttpResponse) (output_mode : OutputMode)
    (fetch_service : bool) (config : Config) : StE W (Reply * ResponseStageDurations) :=
  response_started <-! instant_now ;;
  let status := resp_status upstream_response in
  let content_type := content_type_of upstream_response in
  body_bytes <-? ste_lift (map_err body_error (resp_bytes upstream_response)) ;;
  if negb (is_success status) then
    passed_on response_started status content_type
      (default body_bytes (annotate_upstream_error_json status body_bytes))
  else
    match from_slice body_bytes with
    | Err _ => passed_on response_started status content_type body_bytes
    | Ok json_body =>
        final_json <-? normalize_special_markdown_image_response json_body output_mode fetch_service
                         config ;;
        let final_json := keep_largest_inline_image (remove_thought_signatures final_json) in
        final_json <-? ste_lift (optimize_inline_data_images final_json config) ;;
        uploaded <-? upload_stage output_mode final_json config ;;
        let '(final_json, upload_ms) := uploaded in
        final_body <-? ste_lift (map_err ExternalError (to_vec final_json)) ;;
        total_process_ms <-! elapsed response_started ;;
        ste_ok (raw_reqwest_response_with_body status content_type final_body,
                mkResponseStageDurations (i64_saturating_sub total_process_ms upload_ms) upload_ms)
    end.

(** ** OpenAI images *)

Definition missing_data (detail : string) : Error :=
  StructuredProxyError "upstream response missing data" "rewrite_openai_image_response" "missing_data"
    detail.

Definition extract_openai_b64_json_entries (body : Value) : Result Error (list string) :=
  let? data := ok_or (value_get "data" body ≫= as_array)
                 (missing_data "upstream response missing data array") in
  if decide (data = []) then Err (missing_data "upstream response data array is empty")
  else try_fold (fun entries item =>
         let? entry := ok_or ((value_get "b64_json" item ≫= as_str)
                              ≫= fun value => if is_empty (trim value) then None else Some value)
                         (StructuredProxyError "upstream response missing b64_json"
                            "rewrite_openai_image_response" "missing_b64_json"
                            "upstream response missing data[].b64_json") in
         Ok (entries ++ [entry])) [] data.

Definition build_openai_image_output_url (config : Config) (provider target_url : string) : string :=
  let external_proxy_prefix := resolved_external_image_proxy_prefix config in
  if proxy_standard_output_urls config && negb (eq_ignore_ascii_case provider "r2")
     && negb (is_empty (trim external_proxy_prefix))
  then wrap_external_proxy_url external_proxy_prefix target_url
  else target_url.

(** One turn of the upload loop. *)
Definition upload_openai_image (config : Config) (base64_image : string) : StE W UploadedImage :=
  decoded <-? ste_lift (map_err (fun err => StructuredProxyError "failed to decode upstream b64_json"
                                   "decode_b64_json" "invalid_base64" err)
                          (b64_decode base64_image)) ;;
  let mime_type := default "image/png" (sniff_image_mime_type decoded) in
  upload_result <-? upload_inline config base64_image mime_type ;;
  ste_ok (mkUploadedImage (build_openai_image_output_url config (provider upload_result)
                             (upload_url upload_result))).

Definition handle_openai_image_response (upstream_response : HttpResponse) (config : Config)
    : StE W (Reply * ResponseStageDurations) :=
  response_started <-! instant_now ;;
  let status := resp_status upstream_response in
  let content_type := content_type_of upstream_response in
  body_bytes <-? ste_lift (map_err body_error (resp_bytes upstream_response)) ;;
  if negb (is_success status) then passed_on response_started status content_type body_bytes
  else
    upstream_body <-? ste_lift (map_err (fun err =>
                        StructuredProxyError "failed to parse upstream response json"
                          "parse_upstream_response" "invalid_json" err) (from_slice body_bytes)) ;;
    base64_images <-? ste_lift (extract_openai_b64_json_entries upstream_body) ;;
    upload_started <-! instant_now ;;
    uploaded <-? ste_for (fun uploaded base64_image =>
                   image <-? upload_openai_image config base64_image ;;
                   ste_ok (uploaded ++ [image])) [] base64_images ;;
    upload_ms <-! elapsed upload_started ;;
    unix_ms <-! now_unix_ms ;;
    let fallback_created := i64_wrap (unix_ms / 1000) in
    final_json <-? ste_lift (build_response_payload upstream_body uploaded fallback_created) ;;
    final_body <-? ste_lift (map_err ExternalError (to_vec final_json)) ;;
    total_process_ms <-! elapsed response_started ;;
    ste_ok (raw_reqwest_response_with_body 200 "application/json" final_body,
            mkResponseStageDurations (i64_saturating_sub total_process_ms upload_ms) upload_ms).
End responses.

(** * Lemmas *)

(** Replacing inline data touches no key. *)
Lemma all_keys_insert P k s m :
  is_Some (map_get k m) -> all_keys P (Object m) -> all_keys P (Object (map_insert k (Str s) m)).
Proof.
  rewrite !all_keys_object. intros Hk Hall. apply Forall_forall. intros kv Hin.
  rewrite Forall_forall in Hall. apply map_insert_in in Hin as [->|Hin]; [|by apply Hall].
  destruct Hk as [v Hv]. apply map_get_Some_in in Hv. by destruct (Hall _ Hv).
Qed.

Lemma all_keys_patch_value P f v :
  all_keys P v -> all_keys P (patch_value (fun e d => put (f e) d) v).
Proof.
  destruct v as [| | | | |d]; try done. cbn [patch_value].
  destruct (entry_in d) as [e|] eqn:E; [|done]. apply entry_in_Some in E as [Hd Hm].
  intros Hall. unfold put. apply all_keys_insert.
  - rewrite map_get_insert_ne by done. by eexists.
  - apply all_keys_insert; [by eexists|done].
Qed.

Lemma all_keys_replace P f v : all_keys P v -> all_keys P (replace_entries f v).
Proof.
  induction v as [| | | |l IH|m IH] using Value_ind'; try done; intros Hall.
  - apply all_keys_array in Hall. unfold replace_entries. cbn [patch_inline_data].
    apply all_keys_array. rewrite Forall_fmap. rewrite Forall_forall in *.
    intros x Hx. apply IH; auto.
  - apply all_keys_object in Hall. rewrite replace_entries_object. apply all_keys_object. unfold patch_own.
    apply (map_alter_Forall (fun kv => P kv.1 /\ all_keys P kv.2)).
    + rewrite Forall_fmap. rewrite Forall_forall in *. intros kv Hkv. simpl.
      destruct (Hall _ Hkv). split; [done|]. by apply IH.
    + intros v [? Hv]. split; [done|]. by apply all_keys_patch_value.
Qed.

Section responses_lemmas.
#[local] Set Default Proof Using "All".
Context `{UrlLib} `{HttpLib} `{JsonCodec} `{Base64} `{ImageCodec} {W : Type} `{!HttpClient W}
  `{UrlFetcher W} `{Stopwatch W} `{Clock W} `{InlineUploader W}.

Lemma inline_value_wf mime data : wf_value (inline_part (inline_value mime data)).
Proof. apply wf_valueb_true. reflexivity. Qed.

Lemma inline_data_of_wf mode service config url (w w' : W) data :
  inline_data_of mode service config url w = (Ok data, w') -> wf_value (inline_part data).
Proof.
  unfold inline_data_of. destruct mode; [|intros [= <- <-]; apply inline_value_wf].
  intros (f & w1 & _ & [= <- _])%ste_bind_Ok. apply inline_value_wf.
Qed.

Lemma normalize_special_wf body mode service config (w w' : W) body' :
  normalize_special_markdown_image_response body mode service config w = (Ok body', w') ->
  wf_value body -> wf_value body'.
Proof.
  unfold normalize_special_markdown_image_response.
  destruct (contains_inline_data body); [by intros [= <- _]|].
  destruct (pointer _ body ≫= as_array) as [parts|]; [|by intros [= <- _]].
  destruct (extract_first_markdown_image_url_from_parts parts) as [url|]; [|by intros [= <- _]].
  intros (data & w1 & Hd%inline_data_of_wf & [= <- _])%ste_bind_Ok Hwf.
  apply pointer_update_wf; [|done]. intros v _. apply wf_array. split; [done|].
  by apply Forall_singleton.
Qed.

(** The URL of the image that a response without inline data names in its text. *)
Definition markdown_image (body : Value) : option string :=
  if contains_inline_data body then None
  else parts ← pointer "/candidates/0/content/parts" body ≫= as_array;
       extract_first_markdown_image_url_from_parts parts.

(** The parts of the first candidate become the one image [data]. *)
Definition only_image (data : Value) (body : Value) : Value :=
  pointer_update (fun _ => Array [inline_part data]) "/candidates/0/content/parts" body.

Lemma normalize_special_run body mode service config (w w' : W) body' :
  normalize_special_markdown_image_response body mode service config w = (Ok body', w') ->
  match markdown_image body with
  | None => body' = body /\ w' = w
  | Some url => exists data, inline_data_of mode service config url w = (Ok data, w') /\
                             body' = only_image data body
  end.
Proof.
  unfold normalize_special_markdown_image_response, markdown_image.
  destruct (contains_inline_data body); [by intros [= <- <-]|].
  destruct (pointer _ body ≫= as_array) as [parts|]; [|by intros [= <- <-]]. simpl.
  destruct (extract_first_markdown_image_url_from_parts parts) as [url|]; [|by intros [= <- <-]].
  intros (data & w1 & Hd & [= <- <-])%ste_bind_Ok. by exists data.
Qed.

(** The images of a document uploaded: each one whose upload succeeds becomes its URL. *)
Definition uploaded_images (config : Config) (w : W) (body final : Value) : Prop :=
  exists outcomes w', uploads config (scan_inline_data_base64_entries body) w outcomes w' /\
    final = replace_entries (uploaded outcomes) body.

(** The stages of a successful response, from the parsed body, in the world [w], to the final document:
    an image named in the text, normalization, re-encoding and, in URL mode, the uploads. *)
Definition finished (mode : OutputMode) (service : bool) (config : Config) (w : W) (body final : Value)
    : Prop :=
  exists normalized w1,
    match markdown_image body with
    | None => normalized = body /\ w1 = w
    | Some url => exists data, inline_data_of mode service config url w = (Ok data, w1) /\
                               normalized = only_image data body
    end /\
    match mode with
    | OutBase64 => final = reencoded config (normalize_gemini_response normalized)
    | OutUrl => uploaded_images config (instant_now w1).2
                  (reencoded config (normalize_gemini_response normalized)) final
    end.

(** Every image is taken by the upload host, which answers with a URL. *)
Definition uploads_succeed (config : Config) : Prop :=
  forall data mime (w : W), exists result w',
    upload_inline config data mime w = (Ok result, w') /\ is_url_like (final_url config result) = true.

Lemma uploads_outcomes config entries (w : W) outcomes w' :
  uploads config entries w outcomes w' -> uploads_succeed config ->
  Forall (fun o => exists url, o.2 = Some url /\ is_url_like url = true) outcomes.
Proof.
  intros Hu Hs. induction Hu as [|e es w r w1 outcomes w2 He Hes IH]; constructor; [|done].
  destruct (Hs (entry_data e) (entry_mime_type e) w) as (result & w'' & Hr & Hurl).
  rewrite Hr in He. injection He as <- _. simpl. by eexists.
Qed.

Lemma upload_stage_spec mode json config (w w' : W) final ms :
  upload_stage mode json config w = (Ok (final, ms), w') ->
  match mode with
  | OutBase64 => final = json
  | OutUrl => uploaded_images config (instant_now w).2 json final /\
      (uploads_succeed config -> scan_inline_data_base64_entries final = [])
  end.
Proof.
  unfold upload_stage. destruct mode; [by intros [= <- _ _]|].
  intros (t & w1 & Ht & (json' & w2 & Hf & Hms)%ste_bind_Ok)%st_bind_Ok. rewrite Ht. simpl.
  destruct (finalize_output_urls_run _ _ _ _ _ Hf)
    as (body' & outcomes & [= <-] & Hrep & Hu & _ & _ & _ & _ & Hnone).
  apply st_bind_Ok in Hms as (t' & w3 & _ & [= <- _ _]).
  split; [by eexists outcomes, _|]. intros Hs. apply Hnone. by eapply uploads_outcomes.
Qed.

(** The final document is the given one with some of its inline data replaced. *)
Lemma finished_replaced mode service config (w : W) body final :
  finished mode service config w body final ->
  (forall bs v, from_slice bs = Ok v -> wf_value v) -> wf_value body ->
  exists f normalized, wf_value normalized /\
    final = replace_entries f (normalize_gemini_response normalized).
Proof.
  intros (normalized & w1 & Hn & Hfinal) _ Hwf.
  assert (Hwf' : wf_value normalized).
  { destruct (markdown_image body) as [url|]; [|by destruct Hn as [-> _]].
    destruct Hn as (data & Hd%inline_data_of_wf & ->). apply pointer_update_wf; [|done].
    intros v _. apply wf_array. split; [done|]. by apply Forall_singleton. }
  destruct mode; [by eexists _, _|]. destruct Hfinal as (outcomes & w2 & _ & ->).
  unfold reencoded. rewrite replace_replace. by eexists _, _.
Qed.

(** A body that is a document, under a status of success. *)
Lemma handle_success response mode service config body w r w' :
  (forall bs v, from_slice bs = Ok v -> wf_value v) ->
  is_success (resp_status response) = true ->
  handle_non_stream_response response mode service config w = (Ok r, w') ->
  (exists bs, resp_bytes response = Ok bs /\ from_slice bs = Ok body) ->
  exists final, to_vec final = Ok (reply_body r.1) /\
    finished mode service config (instant_now w).2 body final /\
    all_keys (fun k => k <> "thoughtSignature") final /\
    (mode = OutUrl -> uploads_succeed config -> scan_inline_data_base64_entries final = []).
Proof.
  intros Hcodec Hok Hr (bs & Hbs & Hbody). unfold handle_non_stream_response in Hr.
  apply st_bind_Ok in Hr as (t0 & w0 & -> & Hr). rewrite Hbs, Hok in Hr.
  apply ste_bind_Ok in Hr as (bs' & w1 & [[= <-] ->]%ste_lift_Ok & Hr). cbn [negb] in Hr.
  rewrite Hbody in Hr.
  apply ste_bind_Ok in Hr as (normalized & w2 & Hn%normalize_special_run & Hr).
  apply ste_bind_Ok in Hr as (optimized & w3 & [Ho%optimize_run ->]%ste_lift_Ok & Hr).
  apply ste_bind_Ok in Hr as ([final ms] & w4 & Hu%upload_stage_spec & Hr).
  apply ste_bind_Ok in Hr as (final_body & w5 & [Hv%map_err_Ok _]%ste_lift_Ok & Hr).
  apply st_bind_Ok in Hr as (t1 & w6 & _ & [= <- _]). subst optimized.
  assert (Hfin : finished mode service config w0 body final).
  { exists normalized, w2. split; [done|]. destruct mode; [exact Hu|apply Hu]. }
  exists final. split; [done|]. split; [done|]. split.
  - destruct (finished_replaced _ _ _ _ _ _ Hfin Hcodec) as (f & n & Hwf & ->); [by eapply Hcodec|].
    by apply all_keys_replace, keep_largest_all_keys, signatures_gone.
  - intros -> Hs. by apply Hu.
Qed.

End responses_lemmas.

(** ** OpenAI images *)

Section openai_lemmas.
#[local] Set Default Proof Using "All".
Context `{UrlLib} `{Base64} {W : Type} `{InlineUploader W}.

(** One upload per image, in order. *)
Inductive openai_uploads (config : Config) : list string -> W -> list UploadedImage -> W -> Prop :=
| openai_uploads_nil w : openai_uploads config [] w [] w
| openai_uploads_cons image images w decoded result w1 uploaded w2 :
    b64_decode image = Ok decoded ->
    upload_inline config image (default "image/png" (sniff_image_mime_type decoded)) w
      = (Ok result, w1) ->
    openai_uploads config images w1 uploaded w2 ->
    openai_uploads config (image :: images) w
      (mkUploadedImage (build_openai_image_output_url config (provider result) (upload_url result))
       :: uploaded) w2.

Lemma openai_loop config images acc (w w' : W) all :
  ste_for (fun uploaded base64_image =>
    image <-? upload_openai_image config base64_image ;; ste_ok (uploaded ++ [image]))
    acc images w = (Ok all, w') ->
  exists uploaded, all = acc ++ uploaded /\ openai_uploads config images w uploaded w'.
Proof.
  revert acc w. induction images as [|image images IH]; intros acc w; cbn [ste_for].
  { intros [= <- <-]. exists []. rewrite app_nil_r. split; [done|constructor]. }
  intros (acc' & w1 & Hstep & Hrest)%ste_bind_Ok.
  apply ste_bind_Ok in Hstep as (u & w2 & Hu & [= <- <-]).
  unfold upload_openai_image in Hu.
  apply ste_bind_Ok in Hu as (decoded & w3 & [Hd%map_err_Ok ->]%ste_lift_Ok & Hu).
  apply ste_bind_Ok in Hu as (result & w4 & Hup & [= <- <-]).
  destruct (IH _ _ Hrest) as (uploaded & -> & Hrun).
  eexists. rewrite <- app_assoc. split; [reflexivity|]. by econstructor.
Qed.

Lemma extract_entries_loop (data : list Value) acc entries :
  try_fold (fun entries item =>
    let? entry := ok_or ((value_get "b64_json" item ≫= as_str)
                         ≫= fun value => if is_empty (trim value) then None else Some value)
                    (StructuredProxyError "upstream response missing b64_json"
                       "rewrite_openai_image_response" "missing_b64_json"
                       "upstream response missing data[].b64_json") in
    Ok (entries ++ [entry])) acc data = Ok entries ->
  exists images, entries = acc ++ images /\
    Forall2 (fun item image => value_get "b64_json" item = Some (Str image) /\ trim image <> EmptyString)
      data images.
Proof.
  revert acc. induction data as [|item data IH]; intros acc.
  { intros [= <-]. exists []. rewrite app_nil_r. split; [done|constructor]. }
  rewrite try_fold_cons. destruct (value_get "b64_json" item) as [[| | |s| |]|] eqn:Ei; try done.
  simpl. destruct (is_empty (trim s)) eqn:Es; [done|]. cbn [ok_or and_then].
  intros (images & -> & Hall)%IH. exists (s :: images). rewrite <- app_assoc. split; [done|].
  constructor; [|done]. split; [done|]. intros Ht. by rewrite Ht in Es.
Qed.

Lemma extract_entries_Ok body images :
  extract_openai_b64_json_entries body = Ok images ->
  exists data, value_get "data" body = Some (Array data) /\ data <> [] /\
    Forall2 (fun item image => value_get "b64_json" item = Some (Str image) /\ trim image <> EmptyString)
      data images.
Proof.
  unfold extract_openai_b64_json_entries.
  destruct (value_get "data" body) as [[| | | |data|]|]; try done. simpl.
  destruct (decide (data = [])) as [|Hne]; [done|].
  intros (images' & -> & Hall)%extract_entries_loop. by exists data.
Qed.
End openai_lemmas.

(** * Properties *)

(** C27: What the client gets for an answer of the upstream that is not the proxy's own failure: the
    upstream's status and content type. Under an error status it gets the upstream's body, in which
    an error object, if there is one, has gained a code, source, stage and kind, each unless it has
    the field already. Under a success status a body that is not JSON comes as it is; and from a JSON
    body comes exactly this document: an image that the text of a response without inline data names
    made its only part, the signatures dropped and the largest image of each candidate kept, every
    image re-encoded as configured, and in URL mode replaced by the URL of its upload. It
    has no thought signature anywhere and, in URL mode with a working upload host, no base64 image. *)
Theorem handle_non_stream_response_spec `{UrlLib} `{HttpLib} `{JsonCodec} `{Base64} `{ImageCodec} {W}
    `{!HttpClient W} `{UrlFetcher W} `{Stopwatch W} `{Clock W} `{InlineUploader W}
    response mode service config (w w' : W) reply durations :
  (forall bs v, from_slice bs = Ok v -> wf_value v) ->
  handle_non_stream_response response mode service config w = (Ok (reply, durations), w') ->
  exists bs, resp_bytes response = Ok bs /\
    reply_status reply = resp_status response /\
    reply_headers reply = [("content-type", content_type_of response)] /\
    (is_success (resp_status response) = false ->
       match error_object bs with
       | None => reply_body reply = bs
       | Some (root, error) => exists error',
           (forall k, map_get k error' =
              match map_get k error with
              | Some v => Some v
              | None => map_get k (error_annotations (resp_status response))
              end) /\
           reply_body reply =
             default bs (result_ok (to_vec (Object (map_alter (fun _ => Object error') "error" root))))
       end) /\
    (is_success (resp_status response) = true ->
       (forall e, from_slice bs = Err e -> reply_body reply = bs) /\
       forall body, from_slice bs = Ok body ->
         exists final, to_vec final = Ok (reply_body reply) /\
           finished (W := W) mode service config (instant_now w).2 body final /\
           all_keys (fun k => k <> "thoughtSignature") final /\
           (mode = OutUrl -> uploads_succeed (W := W) config ->
              scan_inline_data_base64_entries final = [])).
Proof.
  intros Hcodec Hrun. assert (Hr := Hrun). unfold handle_non_stream_response in Hr.
  apply st_bind_Ok in Hr as (t0 & w0 & _ & Hr).
  apply ste_bind_Ok in Hr as (bs & w1 & [Hbs%map_err_Ok ->]%ste_lift_Ok & Hr).
  exists bs. split; [done|]. destruct (is_success (resp_status response)) eqn:Eok; cbn [negb] in Hr.
  - destruct (from_slice bs) as [body|e] eqn:Eb.
    + assert (Hs := handle_success _ _ _ _ body _ _ _ Hcodec Eok Hrun (ex_intro _ bs (conj Hbs Eb))).
      apply ste_bind_Ok in Hr as (normalized & w2 & _ & Hr).
      apply ste_bind_Ok in Hr as (optimized & w3 & _ & Hr).
      apply ste_bind_Ok in Hr as ([final ms] & w4 & _ & Hr).
      apply ste_bind_Ok in Hr as (b & w5 & _ & Hr).
      apply st_bind_Ok in Hr as (t1 & w6 & _ & [= <- <- <-]).
      split_and!; try done. intros _. split; [done|]. by intros body' [= <-].
    + apply st_bind_Ok in Hr as (t1 & w6 & _ & [= <- <- <-]). by split_and!.
  - apply st_bind_Ok in Hr as (t1 & w6 & _ & [= <- <- <-]). split_and!; try done. intros _. simpl.
    assert (Ha := annotate_upstream_error_json_run (resp_status response) bs).
    destruct (error_object bs) as [[root error]|]; [|by rewrite Ha].
    destruct Ha as (error' & Hk & ->). by exists error'.
Qed.

(** C36: An OpenAI image response that succeeds is a JSON document that lists, in the order of the
    upstream's images, one URL per image: the upstream's body has a non-empty array of them, every
    [b64_json] was base64 and was uploaded, once and in order, with the type its bytes show, and the
    URL is that of its upload, behind the image proxy when so configured; the time of creation is the
    upstream's if it gives one, and the usage is fixed. An error status is passed on with the
    upstream's content type and body. *)
Theorem handle_openai_image_response_spec `{UrlLib} `{JsonCodec} `{Base64} {W}
    `{Stopwatch W} `{Clock W} `{InlineUploader W} response config (w w' : W) reply durations :
  handle_openai_image_response response config w = (Ok (reply, durations), w') ->
  exists bs, resp_bytes response = Ok bs /\
    if is_success (resp_status response) then
      exists body data images uploaded created final (w1 w2 : W), from_slice bs = Ok body /\
        value_get "data" body = Some (Array data) /\ data <> [] /\
        Forall2 (fun item image => value_get "b64_json" item = Some (Str image) /\
                                   trim image <> EmptyString) data images /\
        openai_uploads config images w1 uploaded w2 /\
        final = Object [("created", num_of_i64 created);
                        ("data", Array ((fun u => Object [("url", Str (uploaded_url u))]) <$> uploaded));
                        ("usage", build_fixed_usage)] /\
        (forall n, value_get "created" body ≫= as_i64 = Some n -> created = n) /\
        to_vec final = Ok (reply_body reply) /\
        reply_status reply = 200%Z /\ reply_headers reply = [("content-type", "application/json")]
    else reply = mkReply (resp_status response) [("content-type", content_type_of response)] bs.
Proof.
  intros Hr. unfold handle_openai_image_response in Hr.
  apply st_bind_Ok in Hr as (t0 & w0 & _ & Hr).
  apply ste_bind_Ok in Hr as (bs & w1 & [Hbs%map_err_Ok ->]%ste_lift_Ok & Hr).
  exists bs. split; [done|]. destruct (is_success (resp_status response)); cbn [negb] in Hr.
  2:{ by apply st_bind_Ok in Hr as (t1 & w6 & _ & [= <- <- <-]). }
  apply ste_bind_Ok in Hr as (body & w2 & [Hb%map_err_Ok ->]%ste_lift_Ok & Hr).
  apply ste_bind_Ok in Hr as (images & w3 & [Hi ->]%ste_lift_Ok & Hr).
  apply st_bind_Ok in Hr as (t1 & w4 & _ & Hr).
  apply ste_bind_Ok in Hr as (uploaded & w5 & Hu & Hr).
  apply st_bind_Ok in Hr as (t2 & w6 & _ & Hr). apply st_bind_Ok in Hr as (t3 & w7 & _ & Hr).
  apply ste_bind_Ok in Hr as (final & w8 & [[= <-] ->]%ste_lift_Ok & Hr).
  apply ste_bind_Ok in Hr as (final_body & w9 & [Hf%map_err_Ok ->]%ste_lift_Ok & Hr).
  apply st_bind_Ok in Hr as (t4 & w10 & _ & [= <- <- <-]).
  apply extract_entries_Ok in Hi as (data & Hd & Hne & Hall).
  apply openai_loop in Hu as (ups & -> & Hrun).
  eexists body, data, images, _, _, _, _, _. split_and!; try done. by intros n ->.
Qed.

(** * Concrete answers, for the witnesses *)

#[local] Existing Instance sample_codec.
#[local] Instance sample_host : InlineUploader SampleFs := {|
  upload_inline _ data _ w := (Ok (mkUploadResult "https://pics.example/1" "r2"), w);
|}.

(** Every body reads as one document. *)
Definition sample_document_codec (document : Value) : JsonCodec := {|
  from_slice _ := Ok document;
  to_vec := to_vec;
  to_string_pretty := to_string_pretty;
|}.

Definition sample_json_answer : HttpResponse :=
  mkHttpResponse 200 [("content-type", "application/json")] None ["{"; "}"] None.

Lemma handle_non_stream_response_spec_witness :
  exists reply durations w', handle_non_stream_response (H1 := sample_document_codec sample_response)
      sample_json_answer OutUrl false test_config (∅ : SampleFs) = (Ok (reply, durations), w') /\
    reply_status reply = 200%Z /\
    exists final, to_vec final = Ok (reply_body reply) /\ scan_inline_data_base64_entries final = [].
Proof.
  destruct (handle_non_stream_response (H1 := sample_document_codec sample_response)
    sample_json_answer OutUrl false test_config (∅ : SampleFs)) as [[[reply durations]|e] w'] eqn:E;
    [|vm_compute in E; discriminate E].
  exists reply, durations, w'. split; [reflexivity|].
  destruct (handle_non_stream_response_spec (H1 := sample_document_codec sample_response)
    _ _ _ _ _ _ _ _ ltac:(intros bs v [= <-]; apply wf_valueb_true; reflexivity) E)
    as (bs & Hbs & Hst & _ & _ & Hok).
  split; [exact Hst|]. destruct (Hok eq_refl) as [_ Hdoc].
  destruct (Hdoc sample_response eq_refl) as (final & Hv & _ & _ & Hnone).
  exists final. split; [exact Hv|]. apply Hnone; [reflexivity|].
  intros data mime w. by eexists _, _.
Defined.

Definition sample_images_answer : Value :=
  Object [("data", Array [Object [("b64_json", Str "AA==")]; Object [("b64_json", Str "aGVsbG8=")]])].

Lemma handle_openai_image_response_spec_witness :
  exists reply durations w', handle_openai_image_response (H1 := sample_document_codec sample_images_answer)
      sample_json_answer test_config (∅ : SampleFs) = (Ok (reply, durations), w') /\
    reply_status reply = 200%Z.
Proof.
  destruct (handle_openai_image_response (H1 := sample_document_codec sample_images_answer)
    sample_json_answer test_config (∅ : SampleFs)) as [[[reply durations]|e] w'] eqn:E;
    [|vm_compute in E; discriminate E].
  exists reply, durations, w'. split; [reflexivity|].
  destruct (handle_openai_image_response_spec (H0 := sample_document_codec sample_images_answer)
    _ _ _ _ _ _ E) as (bs & Hbs & Hok).
  destruct Hok as (body & data & images & ups & created & final & w1 & w2 & _ & _ & _ & _ & _ & _ & _ & _ & Hst & _).
  exact Hst.
Defined.
