(* ===== verification/Aiapidev.v ===== *)
(** router.rs: the AI API Dev upstream, which answers with a task - it is created, polled until it is
    finished or a limit is reached, and its result is turned into a Gemini response. *)

From S2P Require Import Prelude RustStr Json Ext Samples.
From S2P Require Import Config Upstream ImageIo Http Upload FetchService RequestMaterialize RequestRewrite.
From S2P Require Import ResponseRewrite ResponseMaterialize Query UpstreamClient UpstreamResponse.
From stdpp Require Import options.

(** In milliseconds. *)
Definition AIAPIDEV_POLL_INTERVAL : Z := 1000.
Definition AIAPIDEV_MAX_POLL_TIME : Z := 450 * 1000.
Definition AIAPIDEV_MAX_CONSECUTIVE_POLL_FAILURES : nat := 5.

(** Every turn but the last sleeps for a second before the deadline: 450 of them, and a last one. *)
Definition MAX_POLL_TURNS : nat := 451.

Definition is_aiapidev_terminal_status (status : string) : bool :=
  existsb (String.eqb status) ["succeeded"; "failed"; "error"; "cancelled"; "canceled"; "timeout"].

Definition is_aiapidev_retryable_poll_status (status : Z) : bool :=
  existsb (Z.eqb status) [408; 425; 429; 500; 502; 503; 504]%Z.

(** [body.get("status").and_then(Value::as_str).unwrap_or_default().to_ascii_lowercase()] *)
Definition task_status (body : Value) : string :=
  to_ascii_lowercase (default EmptyString (value_get "status" body ≫= as_str)).

(** [.and_then(Value::as_str).filter(|value| !value.trim().is_empty())] *)
Definition non_blank (v : option Value) : option string :=
  value ← v ≫= as_str; if is_empty (trim value) then None else Some value.

Section task.
Context `{UrlLib} `{JsonCodec} `{Displays} {W : Type} `{UpstreamClient W} `{Stopwatch W} `{Clock W}.

Definition timed_out : Reply :=
  proxy_error_response 502 "aiapidev task poll timed out" "aiapidev_poll_task" "timeout".

Definition task_request (resolved : ResolvedUpstream) (task_url : string) : HttpRequest :=
  mkHttpRequest "GET" task_url [("x-goog-api-key", api_key resolved)] (BodyBytes EmptyString).

(** The end of a turn that does not decide: [None] is a loop that has run out of fuel. *)
Definition poll_again (deadline : Z) (next : St W (option (Result Reply Value)))
    : St W (option (Result Reply Value)) :=
  now <-! instant_now ;;
  if (deadline <=? now)%Z then st_ret (Some (Err timed_out))
  else (_ <-! sleep AIAPIDEV_POLL_INTERVAL ;; next).

Fixpoint poll_loop (fuel : nat) (resolved : ResolvedUpstream) (request_id : string) (deadline : Z)
    (consecutive_failures : nat) : St W (option (Result Reply Value)) :=
  match fuel with
  | O => st_ret None
  | S fuel =>
      let task_path := "/v1beta/tasks/" +:+ request_id in
      match build_upstream_url (base_url resolved) task_path None with
      | Err err => st_ret (Some (Err (bad_gateway_reply (error_to_string err))))
      | Ok task_url =>
          response <-! send_upstream (task_request resolved task_url) ;;
          match response with
          | Err err =>
              let consecutive_failures := S consecutive_failures in
              if (AIAPIDEV_MAX_CONSECUTIVE_POLL_FAILURES <=? consecutive_failures)%nat
              then st_ret (Some (Err (bad_gateway_reply (reqwest_display err))))
              else poll_again deadline
                     (poll_loop fuel resolved request_id deadline consecutive_failures)
          | Ok response =>
              if negb (is_success (resp_status response)) then
                if negb (is_aiapidev_retryable_poll_status (resp_status response))
                then st_ret (Some (Err (raw_reqwest_response response)))
                else
                  let consecutive_failures := S consecutive_failures in
                  if (AIAPIDEV_MAX_CONSECUTIVE_POLL_FAILURES <=? consecutive_failures)%nat
                  then st_ret (Some (Err (raw_reqwest_response response)))
                  else poll_again deadline
                         (poll_loop fuel resolved request_id deadline consecutive_failures)
              else
                match resp_json response with
                | None =>
                    st_ret (Some (Err (proxy_error_response 502 "failed to parse aiapidev poll response"
                                         "aiapidev_parse_task_response" "invalid_json")))
                | Some task_body =>
                    if is_aiapidev_terminal_status (task_status task_body)
                    then st_ret (Some (Ok task_body))
                    else poll_again deadline (poll_loop fuel resolved request_id deadline 0)
                end
          end
      end
  end.

(** The fuel is enough ([poll_aiapidev_task_terminates]): the last line of the match is never used. *)
Definition poll_aiapidev_task (resolved : ResolvedUpstream) (request_id : string)
    : St W (Result Reply Value) :=
  now <-! instant_now ;;
  let deadline := (now + AIAPIDEV_MAX_POLL_TIME)%Z in
  outcome <-! poll_loop MAX_POLL_TURNS resolved request_id deadline 0 ;;
  st_ret (match outcome with
          | Some result => result
          | None => Err timed_out
          end).

(** [.post(url).headers(..).json(&body).send()] *)
Definition post_json (url : string) (headers : list (string * string)) (body : Value)
    : St W (Result ReqwestError HttpResponse) :=
  match json_body body with
  | Err err => st_ret (Err err)
  | Ok bs => send_upstream (mkHttpRequest "POST" url headers (BodyBytes bs))
  end.
End task.

Section handle.
Context `{UrlLib} `{HttpLib} `{JsonCodec} `{Displays} `{Base64} `{ImageCodec} {W : Type}
  `{!HttpClient W} `{UrlFetcher W} `{UpstreamClient W} `{Stopwatch W} `{Clock W}.

(** The message of a task that did not succeed. *)
Definition task_failure_message (task_body : Value) : string :=
  default "aiapidev task failed"
    (match non_blank (value_get "errorMessage" task_body) with
     | Some message => Some message
     | None => non_blank (value_get "errorCode" task_body)
     end).

(** From the finished task to the reply. *)
Definition finish_task (task_body : Value) (output_mode : OutputMode) (fetch_service : bool)
    (config : Config) : St W Reply :=
  final_json <-! normalize_aiapidev_task_response task_body output_mode fetch_service config ;;
  match final_json with
  | Err err => st_ret (bad_gateway_reply (error_to_string err))
  | Ok final_json =>
      let final_json := keep_largest_inline_image (remove_thought_signatures final_json) in
      match optimize_inline_data_images final_json config with
      | Err err => st_ret (bad_gateway_reply (error_to_string err))
      | Ok final_json =>
          st_ret (match to_vec final_json with
                  | Ok final_body => raw_reqwest_response_with_body 200 "application/json" final_body
                  | Err err => bad_gateway_reply err
                  end)
      end
  end.

Definition handle_aiapidev_response (resolved : ResolvedUpstream) (target_path : string)
    (request_query : option string) (request_body : Value) (output_mode : OutputMode)
    (fetch_service : bool) (config : Config) : St W Reply :=
  match build_upstream_url (base_url resolved) target_path request_query with
  | Err err => st_ret (bad_gateway_reply (error_to_string err))
  | Ok upstream_url =>
      create_response <-! post_json upstream_url
        [(CONTENT_TYPE, "application/json"); ("x-goog-api-key", api_key resolved)] request_body ;;
      match create_response with
      | Err err => st_ret (bad_gateway_reply (reqwest_display err))
      | Ok create_response =>
          if negb (is_success (resp_status create_response))
          then st_ret (raw_reqwest_response create_response) else
          match resp_json create_response with
          | None => st_ret (proxy_error_response 502 "failed to parse aiapidev create response"
                              "aiapidev_create_task" "invalid_json")
          | Some created_task =>
              match non_blank (value_get "requestId" created_task) with
              | None => st_ret (bad_gateway_reply "aiapidev task create response missing requestId")
              | Some request_id =>
                  task <-! poll_aiapidev_task resolved request_id ;;
                  match task with
                  | Err response => st_ret response
                  | Ok task_body =>
                      if negb (String.eqb (task_status task_body) "succeeded")
                      then st_ret (bad_gateway_reply (task_failure_message task_body))
                      else finish_task task_body output_mode fetch_service config
                  end
              end
          end
      end
  end.
End handle.

(** * Lemmas *)

(** [Instant] never goes back, a sleep lasts at least as long as it was asked to, and the exchange
    with the upstream takes no negative time. *)
Class MonotonicTime (W : Type) `{UpstreamClient W} `{Stopwatch W} `{Clock W} := {
  time_of : W -> Z;
  instant_now_time : forall w t w', instant_now w = (t, w') -> t = time_of w' /\ (time_of w <= time_of w')%Z;
  sleep_time : forall d w u w', sleep d w = (u, w') -> (time_of w + d <= time_of w')%Z;
  send_time : forall request w r w', send_upstream request w = (r, w') -> (time_of w <= time_of w')%Z;
}.

Section poll_lemmas.
#[local] Set Default Proof Using "All".
Context `{UrlLib} `{JsonCodec} `{Displays} {W : Type} `{UpstreamClient W} `{Stopwatch W} `{Clock W}.
Context (resolved : ResolvedUpstream) (request_id : string).

Definition task_url : Result Error string :=
  build_upstream_url (base_url resolved) ("/v1beta/tasks/" +:+ request_id) None.

(** An answer after which the poll is repeated, as long as there are not too many in a row. *)
Definition failing (answer : Result ReqwestError HttpResponse) : bool :=
  match answer with
  | Err _ => true
  | Ok response => negb (is_success (resp_status response)) &&
                   is_aiapidev_retryable_poll_status (resp_status response)
  end.

(** An answer as a reply to the client. *)
Definition answer_reply (answer : Result ReqwestError HttpResponse) : Reply :=
  match answer with
  | Err err => bad_gateway_reply (reqwest_display err)
  | Ok response => raw_reqwest_response response
  end.

(** What a turn makes of its answer: a decision, or the failures in a row so far. *)
Definition verdict (failures : nat) (answer : Result ReqwestError HttpResponse)
    : Result Reply Value + nat :=
  if failing answer then
    if (AIAPIDEV_MAX_CONSECUTIVE_POLL_FAILURES <=? S failures)%nat then inl (Err (answer_reply answer))
    else inr (S failures)
  else match answer with
       | Err _ => inl (Err (answer_reply answer))
       | Ok response =>
           if negb (is_success (resp_status response)) then inl (Err (answer_reply answer)) else
           match resp_json response with
           | None => inl (Err (proxy_error_response 502 "failed to parse aiapidev poll response"
                                 "aiapidev_parse_task_response" "invalid_json"))
           | Some body =>
               if is_aiapidev_terminal_status (task_status body) then inl (Ok body) else inr 0%nat
           end
       end.

Lemma poll_loop_turn fuel deadline failures w :
  poll_loop (S fuel) resolved request_id deadline failures w =
  match task_url with
  | Err err => (Some (Err (bad_gateway_reply (error_to_string err))), w)
  | Ok url =>
      let '(answer, w1) := send_upstream (task_request resolved url) w in
      match verdict failures answer with
      | inl result => (Some result, w1)
      | inr failures => poll_again deadline (poll_loop fuel resolved request_id deadline failures) w1
      end
  end.
Proof.
  cbn [poll_loop]. unfold task_url, verdict. destruct (build_upstream_url _ _ _) as [url|err]; [|done].
  unfold st_bind at 1. destruct (send_upstream _ w) as [[response|err] w1]; cbn [failing].
  - destruct (is_success (resp_status response)); cbn [negb andb].
    + destruct (resp_json response) as [body|]; [|done]. by destruct (is_aiapidev_terminal_status _).
    + destruct (is_aiapidev_retryable_poll_status _); cbn [negb]; [|done].
      by destruct (_ <=? _)%nat.
  - by destruct (_ <=? _)%nat.
Qed.

(** ** Termination *)

(** More fuel changes nothing. *)
Lemma poll_loop_mono fuel deadline failures w r w' k :
  poll_loop fuel resolved request_id deadline failures w = (Some r, w') ->
  poll_loop (fuel + k) resolved request_id deadline failures w = (Some r, w').
Proof.
  revert failures w. induction fuel as [|fuel IH]; intros failures w; [done|].
  change (S fuel + k)%nat with (S (fuel + k)). rewrite !poll_loop_turn.
  destruct task_url as [url|]; [|done]. destruct (send_upstream _ w) as [answer w1].
  destruct (verdict failures answer) as [|failures']; [done|].
  unfold poll_again, st_bind. destruct (instant_now w1) as [now w2].
  destruct (deadline <=? now)%Z; [done|]. destruct (sleep _ w2) as [u w3]. apply IH.
Qed.

(** Each turn but the last gets a second closer to the deadline. *)
Lemma poll_terminates `{!MonotonicTime W} fuel deadline failures w :
  (deadline - time_of w <= AIAPIDEV_POLL_INTERVAL * Z.of_nat fuel)%Z ->
  exists r w', poll_loop (S fuel) resolved request_id deadline failures w = (Some r, w').
Proof.
  revert failures w. induction fuel as [|fuel IH]; intros failures w Hd; rewrite poll_loop_turn;
    (destruct task_url as [url|]; [|by eexists _, _]);
    destruct (send_upstream _ w) as [answer w1] eqn:E1; assert (Ht1 := send_time _ _ _ _ E1);
    (destruct (verdict failures answer) as [r|failures']; [by eexists _, _|]);
    unfold poll_again, st_bind; destruct (instant_now w1) as [now w2] eqn:E2;
    destruct (instant_now_time _ _ _ E2) as [-> Ht2].
  - destruct (Z.leb_spec deadline (time_of w2)); [by eexists _, _|]. lia.
  - destruct (Z.leb_spec deadline (time_of w2)); [by eexists _, _|].
    destruct (sleep _ w2) as [u w3] eqn:E3. assert (Ht3 := sleep_time _ _ _ _ E3).
    apply IH. unfold AIAPIDEV_POLL_INTERVAL in *. lia.
Qed.

(** ** Requests and results *)

(** What a turn's request, the clock and the sleep preserve: [I n] after [n] requests. *)
Lemma poll_requests (I : nat -> W -> Prop) fuel deadline failures w r w' n :
  (forall n w t w', instant_now w = (t, w') -> I n w -> I n w') ->
  (forall n d w u w', sleep d w = (u, w') -> I n w -> I n w') ->
  (forall n url w a w', task_url = Ok url -> send_upstream (task_request resolved url) w = (a, w') ->
     I n w -> I (S n) w') ->
  poll_loop fuel resolved request_id deadline failures w = (r, w') -> I n w ->
  exists m, (m <= n + fuel)%nat /\ I m w'.
Proof.
  intros Hnow Hsleep Hsend. revert failures w n. induction fuel as [|fuel IH]; intros failures w n.
  { intros [= <- <-] Hi. exists n. split; [lia|done]. }
  rewrite poll_loop_turn. destruct task_url as [url|].
  2:{ intros [= <- <-] Hi. exists n. split; [lia|done]. }
  destruct (send_upstream _ w) as [answer w1] eqn:E1. intros Hrun Hi.
  apply (Hsend _ _ _ _ _ eq_refl E1) in Hi. clear E1.
  destruct (verdict failures answer) as [|failures'].
  { injection Hrun as <- <-. exists (S n). split; [lia|done]. }
  unfold poll_again, st_bind in Hrun. destruct (instant_now w1) as [now w2] eqn:E2.
  apply (Hnow _ _ _ _ E2) in Hi. destruct (deadline <=? now)%Z.
  { injection Hrun as <- <-. exists (S n). split; [lia|done]. }
  destruct (sleep _ w2) as [u w3] eqn:E3. apply (Hsleep _ _ _ _ _ E3) in Hi.
  destruct (IH _ _ _ Hrun Hi) as (m & Hm & Hi'). exists m. split; [lia|done].
Qed.

(** [n] failing polls in a row, each followed by a sleep, have led to this world. *)
Inductive failed_polls : nat -> W -> Prop :=
| failed_none w : failed_polls 0 w
| failed_more n url w answer w1 t w2 u w3 :
    failed_polls n w -> task_url = Ok url -> send_upstream (task_request resolved url) w = (answer, w1) ->
    failing answer = true -> instant_now w1 = (t, w2) -> sleep AIAPIDEV_POLL_INTERVAL w2 = (u, w3) ->
    failed_polls (S n) w3.

(** Why the poll ends, and with what. *)
Definition poll_end (deadline : Z) (result : Result Reply Value) : Prop :=
  match result with
  | Ok body => is_aiapidev_terminal_status (task_status body) = true /\
      exists url w response w1, task_url = Ok url /\
        send_upstream (task_request resolved url) w = (Ok response, w1) /\
        is_success (resp_status response) = true /\ resp_json response = Some body
  | Err reply =>
      (exists err, task_url = Err err /\ reply = bad_gateway_reply (error_to_string err)) \/
      (reply = timed_out /\ exists w now w', instant_now w = (now, w') /\ (deadline <= now)%Z) \/
      exists url w answer w1, task_url = Ok url /\
        send_upstream (task_request resolved url) w = (answer, w1) /\
        (failing answer = true /\ failed_polls 4 w /\ reply = answer_reply answer \/
         exists response, answer = Ok response /\ failing answer = false /\
           (is_success (resp_status response) = false /\ reply = answer_reply answer \/
            is_success (resp_status response) = true /\ resp_json response = None /\
            reply = proxy_error_response 502 "failed to parse aiapidev poll response"
                      "aiapidev_parse_task_response" "invalid_json"))
  end.

Lemma verdict_end failures deadline url w answer w1 result :
  task_url = Ok url -> send_upstream (task_request resolved url) w = (answer, w1) ->
  failed_polls failures w -> (failures < 5)%nat -> verdict failures answer = inl result ->
  poll_end deadline result.
Proof.
  intros Hurl Hsend Hf Hlt. unfold verdict. destruct (failing answer) eqn:Ef.
  - destruct (Nat.leb_spec AIAPIDEV_MAX_CONSECUTIVE_POLL_FAILURES (S failures)) as [Hle|]; [|done].
    unfold AIAPIDEV_MAX_CONSECUTIVE_POLL_FAILURES in Hle. assert (failures = 4%nat) as -> by lia.
    intros [= <-]. right. right. exists url, w, answer, w1. auto 6.
  - destruct answer as [response|err]; [|done].
    destruct (is_success (resp_status response)) eqn:Es; cbn [negb].
    + destruct (resp_json response) as [body|] eqn:Ej.
      * destruct (is_aiapidev_terminal_status (task_status body)) eqn:Et; [|done]. intros [= <-].
        split; [done|]. by exists url, w, response, w1.
      * intros [= <-]. right. right. exists url, w, (Ok response), w1. split; [done|]. split; [done|].
        right. exists response. auto 6.
    + intros [= <-]. right. right. exists url, w, (Ok response), w1. split; [done|]. split; [done|].
      right. exists response. auto 6.
Qed.

Lemma verdict_failures failures answer failures' :
  verdict failures answer = inr failures' ->
  failing answer = true /\ failures' = S failures /\ (failures' < 5)%nat \/
  failing answer = false /\ failures' = 0%nat.
Proof.
  unfold verdict. destruct (failing answer).
  - destruct (Nat.leb_spec AIAPIDEV_MAX_CONSECUTIVE_POLL_FAILURES (S failures)) as [|Hlt]; [done|].
    intros [= <-]. left. auto.
  - destruct answer as [response|err]; [|done]. destruct (negb _); [done|].
    destruct (resp_json response) as [body|]; [|done].
    destruct (is_aiapidev_terminal_status _); [done|]. intros [= <-]. by right.
Qed.

Lemma poll_loop_end fuel deadline failures w result w' :
  poll_loop fuel resolved request_id deadline failures w = (Some result, w') ->
  failed_polls failures w -> (failures < 5)%nat -> poll_end deadline result.
Proof.
  revert failures w. induction fuel as [|fuel IH]; intros failures w; [done|].
  rewrite poll_loop_turn. destruct task_url as [url|err] eqn:Eu.
  2:{ intros [= <- <-] _ _. left. by exists err. }
  destruct (send_upstream _ w) as [answer w1] eqn:E1.
  destruct (verdict failures answer) as [r|failures'] eqn:Ev.
  { intros [= <- <-] Hf Hlt. by eapply verdict_end. }
  unfold poll_again, st_bind. destruct (instant_now w1) as [now w2] eqn:E2.
  destruct (Z.leb_spec deadline now).
  { intros [= <- <-] _ _. right. left. split; [done|]. by exists w1, now, w2. }
  destruct (sleep _ w2) as [u w3] eqn:E3. intros Hrun Hf Hlt.
  apply verdict_failures in Ev as [(Ha & -> & Hlt')|[_ ->]].
  - eapply IH; [exact Hrun| |done]. by eapply failed_more.
  - eapply IH; [exact Hrun|apply failed_none|lia].
Qed.
End poll_lemmas.

(** A failure is never reported under a status of success. *)
Lemma json_reply_failure `{JsonCodec} status v :
  is_success status = false -> is_success (reply_status (json_reply status v)) = false.
Proof. intros Hs. unfold json_reply. by destruct (to_vec v). Qed.

Lemma bad_gateway_failure `{JsonCodec} message :
  is_success (reply_status (bad_gateway_reply message)) = false.
Proof. by apply json_reply_failure. Qed.

Lemma raw_response_failure `{JsonCodec} response :
  is_success (resp_status response) = false ->
  is_success (reply_status (raw_reqwest_response response)) = false.
Proof.
  intros Hs. unfold raw_reqwest_response. destruct (resp_bytes response); [done|].
  apply bad_gateway_failure.
Qed.

Lemma poll_end_failure `{UrlLib} `{JsonCodec} `{Displays} {W} `{UpstreamClient W} `{Stopwatch W}
    `{Clock W} resolved request_id deadline reply :
  poll_end (W := W) resolved request_id deadline (Err reply) -> is_success (reply_status reply) = false.
Proof.
  intros [(err & _ & ->)|[(-> & _)|(url & w & answer & w1 & _ & _ & Hend)]].
  - apply bad_gateway_failure.
  - by apply json_reply_failure.
  - assert (Ha : (forall response, answer = Ok response -> is_success (resp_status response) = false) ->
      is_success (reply_status (answer_reply answer)) = false).
    { intros Hs. destruct answer; [by apply raw_response_failure, Hs|apply bad_gateway_failure]. }
    destruct Hend as [(Hf & _ & ->)|(response & -> & _ & [(Hs & ->)|(_ & _ & ->)])].
    + apply Ha. intros response ->. cbn [failing] in Hf. apply andb_true_iff in Hf as [Hf _].
      by apply negb_true_iff in Hf.
    + apply Ha. by intros ? [= <-].
    + by apply json_reply_failure.
Qed.

(** The poll with the fuel it has. *)
Lemma poll_aiapidev_task_run `{UrlLib} `{JsonCodec} `{Displays} {W} `{MonotonicTime W}
    resolved request_id (w : W) result w' :
  poll_aiapidev_task resolved request_id w = (result, w') ->
  exists t w1, instant_now w = (t, w1) /\
    poll_loop MAX_POLL_TURNS resolved request_id (t + AIAPIDEV_MAX_POLL_TIME) 0 w1 = (Some result, w').
Proof.
  unfold poll_aiapidev_task, st_bind. destruct (instant_now w) as [t w1] eqn:E.
  destruct (instant_now_time _ _ _ E) as [Ht _].
  destruct (poll_terminates resolved request_id 450 (t + AIAPIDEV_MAX_POLL_TIME)%Z 0 w1) as (r & w2 & Hr).
  { rewrite Ht. unfold AIAPIDEV_MAX_POLL_TIME, AIAPIDEV_POLL_INTERVAL. lia. }
  unfold MAX_POLL_TURNS. rewrite Hr. intros [= <- <-]. by exists t, w1.
Qed.

(** * Properties *)

(** C12: Polling a task always comes to an end. Whatever the upstream answers, the loop decides within
    451 turns - more fuel changes nothing - and with at most 451 requests, all of them GETs of the
    task's URL. *)
Theorem poll_aiapidev_task_terminates `{UrlLib} `{JsonCodec} `{Displays} {W} `{MonotonicTime W}
    resolved request_id (w : W) result w' :
  poll_aiapidev_task resolved request_id w = (result, w') ->
  (exists t w1, instant_now w = (t, w1) /\ forall k,
     poll_loop (MAX_POLL_TURNS + k) resolved request_id (t + AIAPIDEV_MAX_POLL_TIME) 0 w1
       = (Some result, w')) /\
  forall I : nat -> W -> Prop,
    (forall n w t w', instant_now w = (t, w') -> I n w -> I n w') ->
    (forall n d w u w', sleep d w = (u, w') -> I n w -> I n w') ->
    (forall n url w a w', task_url resolved request_id = Ok url ->
       send_upstream (task_request resolved url) w = (a, w') -> I n w -> I (S n) w') ->
    I 0%nat w -> exists m, (m <= MAX_POLL_TURNS)%nat /\ I m w'.
Proof.
  intros (t & w1 & Ht & Hrun)%poll_aiapidev_task_run. split.
  - exists t, w1. split; [done|]. intros k. by apply poll_loop_mono.
  - intros I Hnow Hsleep Hsend Hi. apply (Hnow _ _ _ _ Ht) in Hi.
    eapply (poll_requests resolved request_id I _ _ _ _ _ _ 0); eauto.
Qed.

(** C30: What polling a task ends in. A task is handed on only when an answer of the upstream says that
    it is in a terminal state; otherwise the poll ended in an error reply - never under a status of
    success - for one of these reasons only: the task's URL cannot be built, the deadline of 450 s
    has passed, the last answer was the fifth failing one in a row, it was an error status that is
    not worth a retry, or its body was not JSON. *)
Theorem poll_aiapidev_task_result `{UrlLib} `{JsonCodec} `{Displays} {W} `{MonotonicTime W}
    resolved request_id (w : W) result w' :
  poll_aiapidev_task resolved request_id w = (result, w') ->
  exists t w1, instant_now w = (t, w1) /\
    poll_end (W := W) resolved request_id (t + AIAPIDEV_MAX_POLL_TIME) result /\
    forall reply, result = Err reply -> is_success (reply_status reply) = false.
Proof.
  intros (t & w1 & Ht & Hrun)%poll_aiapidev_task_run. exists t, w1. split; [done|].
  assert (Hend : poll_end (W := W) resolved request_id (t + AIAPIDEV_MAX_POLL_TIME) result).
  { eapply poll_loop_end; [exact Hrun|apply failed_none|lia]. }
  split; [done|]. intros reply ->. by eapply poll_end_failure.
Qed.

Lemma non_blank_Some v s : non_blank v = Some s -> v = Some (Str s) /\ trim s <> EmptyString.
Proof.
  unfold non_blank. destruct v as [[| | |s0| |]|]; try done. simpl.
  destruct (is_empty (trim s0)) eqn:E; [done|]. intros [= <-]. split; [done|]. intros Ht. by rewrite Ht in E.
Qed.

(** C31: The proxy reports success for the AI API Dev upstream only for a task that succeeded: the task
    was created by one POST of the rewritten body to the upstream's URL, its answer named it, polling
    it ended in a task that says [succeeded], and the body sent to the client is the Gemini response
    made of that task's images - its http(s) image URLs, of which there is at least one, each an
    inline image in order - normalized, each image re-encoded as configured and nothing else
    touched. *)
Theorem handle_aiapidev_response_success `{UrlLib} `{HttpLib} `{JsonCodec} `{Displays} `{Base64}
    `{ImageCodec} {W} `{!HttpClient W} `{UrlFetcher W} `{MonotonicTime W}
    resolved path query body mode service config (w : W) reply w' :
  handle_aiapidev_response resolved path query body mode service config w = (reply, w') ->
  is_success (reply_status reply) = true ->
  exists url created_response created request_id task datas w1 w2,
    build_upstream_url (base_url resolved) path query = Ok url /\
    post_json url [("content-type", "application/json"); ("x-goog-api-key", api_key resolved)] body w
      = (Ok created_response, w1) /\
    is_success (resp_status created_response) = true /\
    resp_json created_response = Some created /\
    value_get "requestId" created = Some (Str request_id) /\ trim request_id <> EmptyString /\
    poll_aiapidev_task resolved request_id w1 = (Ok task, w2) /\ task_status task = "succeeded" /\
    extract_aiapidev_image_urls task <> [] /\
    inlined mode service config (extract_aiapidev_image_urls task) w2 datas w' /\
    to_vec (reencoded config (normalize_gemini_response (aiapidev_response (inline_part <$> datas))))
      = Ok (reply_body reply) /\
    reply_status reply = 200%Z.
Proof.
  unfold handle_aiapidev_response.
  assert (Hbad : forall m, is_success (reply_status (bad_gateway_reply m)) = true -> False).
  { intros m Hm. by rewrite bad_gateway_failure in Hm. }
  destruct (build_upstream_url _ _ _) as [url|err] eqn:Eu; [|intros [= <- _] Hs; by apply Hbad in Hs].
  unfold st_bind at 1. destruct (post_json _ _ _ w) as [created_response w1] eqn:E1.
  destruct created_response as [created_response|err]; [|intros [= <- _] Hs; by apply Hbad in Hs].
  destruct (is_success (resp_status created_response)) eqn:Es; cbn [negb].
  2:{ intros [= <- _] Hs. by rewrite raw_response_failure in Hs. }
  destruct (resp_json created_response) as [created|] eqn:Ej.
  2:{ intros [= <- _] Hs. unfold proxy_error_response in Hs. by rewrite json_reply_failure in Hs. }
  destruct (non_blank _) as [request_id|] eqn:Ei; [|intros [= <- _] Hs; by apply Hbad in Hs].
  apply non_blank_Some in Ei as [Hid Hblank].
  unfold st_bind. destruct (poll_aiapidev_task resolved request_id w1) as [task w2] eqn:E2.
  destruct task as [task|reply'].
  2:{ intros [= <- <-] Hs. apply poll_aiapidev_task_run in E2 as (t & w3 & _ & Hrun).
      apply poll_loop_end in Hrun; [|apply failed_none|lia]. apply poll_end_failure in Hrun. congruence. }
  destruct (String.eqb_spec (task_status task) "succeeded") as [Est|]; cbn [negb];
    [|intros [= <- _] Hs; by apply Hbad in Hs].
  unfold finish_task, st_bind. destruct (normalize_aiapidev_task_response _ _ _ _ w2) as [n w3] eqn:E3.
  destruct n as [normalized|err]; [|intros [= <- _] Hs; by apply Hbad in Hs].
  destruct (optimize_inline_data_images _ config) as [final|err] eqn:Eo;
    [|intros [= <- _] Hs; by apply Hbad in Hs].
  apply optimize_run in Eo as ->. apply normalize_aiapidev_run in E3 as (datas & Hne & Hd & ->).
  destruct (to_vec _) as [bs|err] eqn:Ev; [|intros [= <- _] Hs; by apply Hbad in Hs].
  intros [= <- <-] _. exists url, created_response, created, request_id, task, datas, w1, w2.
  by split_and!.
Qed.

(** * An upstream for the witnesses: a clock, and the number of requests so far *)

Record SampleUpstream := mkSampleUpstream { sample_now : Z; sample_requests : nat }.

#[local] Instance sample_upstream_clock : Clock SampleUpstream := {|
  now_unix_ms w := (sample_now w, w);
  sleep d w := (tt, mkSampleUpstream (sample_now w + d) (sample_requests w));
|}.
#[local] Instance sample_upstream_stopwatch : Stopwatch SampleUpstream := {|
  instant_now w := (sample_now w, w);
|}.
(** The first three polls see a busy server and a running task. *)
#[local] Instance sample_upstream : UpstreamClient SampleUpstream := {|
  send_upstream request w :=
    (Ok (mkHttpResponse 200 [] None [if (sample_requests w <? 4)%nat then "running" else "finished"] None),
     mkSampleUpstream (sample_now w) (S (sample_requests w)));
  json_body v := Ok "{}";
|}.
#[local] Instance sample_monotonic : MonotonicTime SampleUpstream.
Proof.
  refine {| time_of := sample_now |}; simpl; intros; simplify_eq; simpl; lia.
Defined.

Definition sample_finished_task : Value :=
  Object [("requestId", Str "7"); ("status", Str "Succeeded");
          ("result", Object [("items", Array [Object [("type", Str "image");
             ("url", Str "https://a.example/1.webp")]])])].

#[local] Instance sample_task_codec : JsonCodec := {|
  from_slice bs := Ok (if String.eqb bs "running"
                       then Object [("requestId", Str "7"); ("status", Str "Running")]
                       else sample_finished_task);
  to_vec := to_vec;
  to_string_pretty := to_string_pretty;
|}.
#[local] Instance sample_upstream_fetcher : UrlFetcher SampleUpstream := {|
  fetch_url url w := (Ok (mkFetchResult "image/png" "x" false), w);
|}.
#[local] Instance sample_upstream_http : HttpClient SampleUpstream := {|
  http_get url w := (Err (mkReqwestError false true false false false "refused"), w);
|}.
#[local] Existing Instance sample_codec.

Definition sample_resolved : ResolvedUpstream := mkResolvedUpstream "https://www.aiapidev.com" "key".

Lemma poll_aiapidev_task_terminates_witness :
  exists m, (m <= MAX_POLL_TURNS)%nat /\
    sample_requests (poll_aiapidev_task sample_resolved "7" (mkSampleUpstream 0 0)).2 = m.
Proof.
  destruct (poll_aiapidev_task_terminates sample_resolved "7" (mkSampleUpstream 0 0) _ _
    (surjective_pairing _)) as [_ Hi].
  destruct (Hi (fun n w => sample_requests w = n)) as (m & Hm & Heq).
  - by intros n w t w' [= <- <-].
  - by intros n d w u w' [= <- <-].
  - intros n url w a w' _ [= <- <-] <-. reflexivity.
  - reflexivity.
  - exists m. split; [exact Hm|exact Heq].
Defined.

Lemma poll_aiapidev_task_result_witness :
  exists body, (poll_aiapidev_task sample_resolved "7" (mkSampleUpstream 0 0)).1 = Ok body /\
    is_aiapidev_terminal_status (task_status body) = true.
Proof.
  destruct (poll_aiapidev_task_result sample_resolved "7" (mkSampleUpstream 0 0)
    _ _ (surjective_pairing _)) as (t & w1 & Ht & Hend & _).
  exists sample_finished_task. assert (E : (poll_aiapidev_task sample_resolved "7" (mkSampleUpstream 0 0)).1
    = Ok sample_finished_task) by (vm_compute; reflexivity).
  split; [exact E|]. rewrite E in Hend. by destruct Hend as [Hterm _].
Defined.

Lemma handle_aiapidev_response_success_witness :
  exists reply w', handle_aiapidev_response sample_resolved "/v1beta/models/m:generateContent" None
      (Object []) OutUrl false test_config (mkSampleUpstream 0 0) = (reply, w') /\
    exists task, task_status task = "succeeded" /\ reply_status reply = 200%Z.
Proof.
  destruct (handle_aiapidev_response sample_resolved "/v1beta/models/m:generateContent" None
      (Object []) OutUrl false test_config (mkSampleUpstream 0 0)) as [reply w'] eqn:E.
  exists reply, w'. split; [reflexivity|].
  destruct (handle_aiapidev_response_success _ _ _ _ _ _ _ _ _ _ E) as
    (url & cr & created & id & task & datas & w1 & w2 & _ & _ & _ & _ & _ & _ & _ & Ht & _ & _ & _ & Hs).
  - vm_compute in E. injection E as <- _. reflexivity.
  - exists task. split; [exact Ht|exact Hs].
Defined.
