(* ===== verification/Tracking.v ===== *)
(** router.rs: the observer of a request's cache hits. The closure writes to the statistics and to a
    list of the request; both are part of the world in which the images of a request are fetched. *)

From S2P Require Import Prelude RustStr Json Ext Samples.
From S2P Require Import ImageIo BlobRuntime BlobSteps RequestEncode FetchService RequestMaterialize.
From S2P Require Import RequestScan RequestSteps Http Admin Interleave Inside.
From stdpp Require Import options.

Record Tracked (W : Type) := mkTracked {
  tracked_world : W;
  tracked_stats : AdminStats;
  hit_urls : list string;
}.
Arguments mkTracked {W}.
Arguments tracked_world {W}.
Arguments tracked_stats {W}.
Arguments hit_urls {W}.

(** An operation of the world. *)
Definition in_tracked {W A} (m : St W A) : St (Tracked W) A := fun t =>
  let '(a, w) := m (tracked_world t) in (a, mkTracked w (tracked_stats t) (hit_urls t)).

(** The closure of [build_request_cache_tracking]. *)
#[export] Instance tracking_observer {W} : CacheObserver (Tracked W) := {|
  observe_cache raw_url from_cache t :=
    (tt, if from_cache
         then mkTracked (tracked_world t) (bump_cache_hits (tracked_stats t)) (hit_urls t ++ [raw_url])
         else t);
|}.

Section instances.
Context {W : Type}.

#[export] Instance tracked_fs `{FileSystem W} : FileSystem (Tracked W) := {|
  fs_create_dir_all d := in_tracked (fs_create_dir_all d);
  fs_write p bs := in_tracked (fs_write p bs);
  file_create p := in_tracked (file_create p);
  file_write_all p bs := in_tracked (file_write_all p bs);
  file_flush p := in_tracked (file_flush p);
  fs_metadata_len p := in_tracked (fs_metadata_len p);
  fs_read p := in_tracked (fs_read p);
  file_open_read p n := in_tracked (file_open_read p n);
  fs_remove_file p := in_tracked (fs_remove_file p);
|}.
#[export] Instance tracked_fetcher `{UrlFetcher W} : UrlFetcher (Tracked W) := {|
  fetch_url url := in_tracked (fetch_url url);
|}.
#[export] Instance tracked_http `{UrlLib} `{!HttpClient W} : HttpClient (Tracked W) := {|
  http_get u := in_tracked (http_get u);
|}.
#[export] Instance tracked_runtime `{Runtime W} : Runtime (Tracked W) := {|
  timeout_elapses d := in_tracked (timeout_elapses d);
  join_error := in_tracked join_error;
|}.
#[export] Instance tracked_stopwatch `{Stopwatch W} : Stopwatch (Tracked W) := {|
  instant_now := in_tracked instant_now;
|}.
#[export] Instance tracked_joins `{JoinOrder W} : JoinOrder (Tracked W) := {|
  completion_order urls := in_tracked (completion_order urls);
|}.

Lemma in_tracked_inv {A} (m : St W A) t a t' :
  in_tracked m t = (a, t') ->
  m (tracked_world t) = (a, tracked_world t') /\ tracked_stats t' = tracked_stats t /\
  hit_urls t' = hit_urls t.
Proof. unfold in_tracked. destruct (m (tracked_world t)) as [a' w]. by intros [= <- <-]. Qed.

#[export] Program Instance tracked_fs_laws `{FileSystemLaws W} : FileSystemLaws (Tracked W) :=
  {| fs_content t := fs_content (tracked_world t) |}.
Solve Obligations with
  simpl; intros;
  repeat match goal with H : in_tracked _ _ = _ |- _ => apply in_tracked_inv in H as (H & _ & _) end;
  eauto using fs_create_dir_all_frame, fs_write_ok, fs_write_frame, file_create_ok, file_create_frame,
    file_write_all_ok, file_write_all_frame, file_flush_frame, fs_metadata_len_ok,
    fs_metadata_len_frame, fs_read_ok, fs_read_frame, file_open_read_ok, file_open_read_len,
    file_open_read_frame, fs_remove_file_frame, fs_remove_file_ok, fs_remove_file_missing.

#[export] Instance tracked_fetch_laws `{FetchLaws W} : FetchLaws (Tracked W).
Proof.
  split; simpl; intros;
    repeat match goal with E : in_tracked _ _ = _ |- _ => apply in_tracked_inv in E as (E & _ & _) end;
    eauto using fetch_url_frame, http_get_frame, elapses_frame, joins_frame, instant_now_frame.
  by eapply completion_order_perm.
Qed.

#[export] Instance tracked_laws `{FetchLaws W} : MaterializeLaws (Tracked W).
Proof. split. simpl. intros. by simplify_eq; case_match. Qed.

(** * What the tracking records *)

(** The statistics with [n] more cache hits. *)
Definition bumped (n : nat) (stats : AdminStats) : AdminStats := Nat.iter n bump_cache_hits stats.

(** Only cache hits are counted meanwhile, and as many URLs listed. *)
Definition only_hits (t t' : Tracked W) : Prop := exists n,
  tracked_stats t' = bumped n (tracked_stats t) /\ length (hit_urls t') = (n + length (hit_urls t))%nat.

#[export] Instance only_hits_preorder : PreOrder only_hits.
Proof.
  split; [by intros t; exists 0%nat|]. intros t1 t2 t3 (n1 & Hs1 & Hu1) (n2 & Hs2 & Hu2).
  exists (n2 + n1)%nat. split; [|lia]. rewrite Hs2, Hs1. unfold bumped. by rewrite Nat.iter_add.
Qed.

Lemma only_hits_counted t t' :
  only_hits t t' -> hit_urls t = [] -> tracked_stats t' = bumped (length (hit_urls t')) (tracked_stats t).
Proof. intros (n & Hs & Hu) Hnil. rewrite Hu, Hnil. simpl. by rewrite Nat.add_0_r. Qed.
End instances.

Section quiet.
#[local] Set Default Proof Using "All".
Context {W : Type}.
Abbreviation Rt := (BlobRuntimeInner (Tracked W)).

(** A step that counts what it lists. *)
Definition quiet {S A} (get : S -> Tracked W) (m : St S A) : Prop := forall s a s',
  m s = (a, s') -> only_hits (get s) (get s').

Lemma quiet_tracked {A} (m : St W A) : quiet (fun t => t) (in_tracked m).
Proof. intros t a t' (_ & Hs & Hu)%in_tracked_inv. exists 0%nat. by rewrite Hs, Hu. Qed.

Lemma quiet_st_bind {S A B} (get : S -> Tracked W) (m : St S A) (f : A -> St S B) :
  quiet get m -> (forall a, quiet get (f a)) -> quiet get (st_bind m f).
Proof.
  intros Hm Hf s b s'. unfold st_bind. destruct (m s) as [a s1] eqn:E. intros Hb.
  etrans; [by eapply Hm|by eapply Hf].
Qed.

Lemma quiet_ste_bind {S A B} (get : S -> Tracked W) (m : StE S A) (f : A -> StE S B) :
  quiet get m -> (forall a, quiet get (f a)) -> quiet get (ste_bind m f).
Proof.
  intros Hm Hf s b s'. unfold ste_bind. destruct (m s) as [[a|e] s1] eqn:E.
  - intros Hb. etrans; [by eapply Hm|by eapply Hf].
  - intros [= <- <-]. by eapply Hm.
Qed.

Lemma quiet_ret {S A} (get : S -> Tracked W) (a : A) : quiet get (fun s => (a, s)).
Proof. by intros s a' s' [= <- <-]. Qed.

Lemma quiet_on_world {A} (m : St (Tracked W) A) :
  quiet (fun t => t) m -> quiet (world (W := Tracked W)) (on_world m).
Proof.
  intros Hm s a s'. unfold on_world. destruct (m (world s)) as [a' w] eqn:E. intros [= <- <-].
  by eapply Hm.
Qed.

Lemma quiet_io {A} (m : St (Tracked W) (Result IoError A)) :
  quiet (fun t => t) m -> quiet (world (W := Tracked W)) (io m).
Proof. intros Hm s a s' (r0 & w' & E & -> & ->)%io_inv. by eapply Hm. Qed.

Lemma quiet_same_world {A} (m : St Rt A) :
  (forall s, world (m s).2 = world s) -> quiet (world (W := Tracked W)) m.
Proof. intros Hw s a s' E. assert (H := Hw s). rewrite E in H. simpl in H. by rewrite H. Qed.
End quiet.

Section quiet_materialize.
#[local] Set Default Proof Using "Type".
Context {W : Type} `{FileSystem W} `{UrlFetcher W} `{UrlLib} `{HttpLib} `{!HttpClient W}
  `{Runtime W} `{ImageCodec} `{Stopwatch W} `{JoinOrder W} (c : BlobRuntimeConfig).
Abbreviation Rt := (BlobRuntimeInner (Tracked W)).

Lemma quiet_observe url hit : quiet (fun t => t) (observe_cache (W := Tracked W) url hit).
Proof.
  intros t a t' [= <- <-]. destruct hit; [|done]. exists 1%nat. split; [done|].
  simpl. rewrite length_app. simpl. lia.
Qed.

Lemma quiet_fetch_image url max allow :
  quiet (fun t => t) (fetch_image_as_inline_data_with_options (W := Tracked W) url max allow).
Proof.
  apply quiet_ste_bind; [apply quiet_ret|intros u].
  apply quiet_ste_bind; [|intros; apply quiet_ret].
  intros t a t'. destruct (http_get u t) as [r t1] eqn:E. intros [= <- <-].
  exact (quiet_tracked _ _ _ _ E).
Qed.

Lemma quiet_webp fetched timeout :
  quiet (fun t => t)
    (maybe_convert_large_png_to_lossless_webp_with_timeout (W := Tracked W) fetched timeout).
Proof.
  assert (Hc : quiet (fun t => t) (maybe_convert_large_png_to_lossless_webp (W := Tracked W) fetched)).
  { intros t a t'. unfold maybe_convert_large_png_to_lossless_webp.
    destruct (join_error t) as [j t1] eqn:E. intros Ht.
    assert (t' = t1) as -> by (by destruct j; injection Ht).
    exact (quiet_tracked _ _ _ _ E). }
  intros t a t'. unfold maybe_convert_large_png_to_lossless_webp_with_timeout.
  destruct (timeout =? 0)%Z; [apply Hc|]. destruct (timeout_elapses timeout t) as [b t1] eqn:E.
  intros Ht. etrans; [exact (quiet_tracked _ _ _ _ E)|].
  destruct b; [by injection Ht as <- <-|]. by eapply Hc.
Qed.

(** Every access of the download of a request's images is such a step. *)
Abbreviation quiets := (every (fun s s' : Rt => only_hits (world s) (world s'))).

#[export] Instance quiets_preorder : PreOrder (fun s s' : Rt => only_hits (world s) (world s')).
Proof.
  split; [by intros s|]. intros s1 s2 s3 Hx Hy. exact (transitivity Hx Hy).
Qed.

Lemma quiets_world {A} aw (m : St (Tracked W) A) :
  quiet (fun t => t) m -> quiets (Act aw (on_world m) Ret).
Proof.
  intros Hm. apply every_act. intros s. eapply (quiet_on_world _ Hm). apply surjective_pairing.
Qed.

Lemma quiets_file {A} (m : St W (Result IoError A)) : quiets (file (in_tracked m)).
Proof.
  apply every_act. intros s. eapply (quiet_io _ (quiet_tracked m)). apply surjective_pairing.
Qed.

Lemma quiets_runtime {A} aw (m : St Rt A) : (forall s, world (m s).2 = world s) -> quiets (Act aw m Ret).
Proof. intros Hm. apply every_act. intros s. by rewrite Hm. Qed.

Lemma quiets_reserve n : quiets (try_inline_reserve_steps c n).
Proof.
  unfold try_inline_reserve_steps. destruct (negb (fits_inline c n)); [done|].
  assert (Hturn : quiets (reserve_turn c n)).
  { apply every_bind; [by apply quiets_runtime|]. intros current.
    destruct (reserve_attempt c n current); [|done]. apply every_bind; [|done].
    apply quiets_runtime. intros s. unfold compare_exchange. by destruct (_ =? _)%Z. }
  by split.
Qed.

Lemma quiets_choose id bs n : quiets (choose_storage_steps c id bs n).
Proof.
  apply every_bind; [apply quiets_reserve|]. intros []; [done|]. apply every_bind_ok.
  - apply every_bind_ok; [unfold ensure_parent_dir_steps; destruct (path_parent _); [apply quiets_file|done]|].
    intros _. apply every_bind_ok; [apply quiets_file|done].
  - intros path. apply every_bind; [|done]. by apply every_bind; [apply quiets_runtime|].
Qed.

Lemma quiets_store_shared bs mime : quiets (store_shared_bytes_steps c bs mime).
Proof.
  apply every_bind; [by apply quiets_runtime|]. intros id. apply every_bind_ok; [apply quiets_choose|done].
Qed.

Lemma quiets_timed {A} (p : Prog Rt (Result Error A)) : quiets p -> quiets (timed_steps p).
Proof.
  intros Hp. apply every_bind; [apply quiets_world, quiet_tracked|]. intros started.
  apply every_bind_ok; [done|]. intros a. apply every_bind; [apply quiets_world, quiet_tracked|done].
Qed.

Lemma quiets_fetch_request_image url services : quiets (fetch_request_image_steps c url services).
Proof.
  unfold fetch_request_image_steps. destruct (has_fetch_service services).
  - apply every_bind_ok; [apply quiets_timed, quiets_world, quiet_tracked|]. intros [fetched ms].
    apply every_bind_ok.
    { unfold notify_steps. destruct (has_cache_observer services); [|done].
      apply every_bind; [apply quiets_world, quiet_observe|done]. }
    intros _. apply every_bind_ok; [|by intros []]. apply quiets_timed.
    destruct (from_cache fetched); [by apply every_bind; [apply quiets_runtime|]|apply quiets_store_shared].
  - apply every_bind_ok; [apply quiets_timed, quiets_world, quiet_fetch_image|]. intros [fetched ms].
    apply every_bind_ok; [|by intros []]. apply quiets_timed. apply every_bind_ok.
    { destruct (enable_webp_optimization services); [apply quiets_world, quiet_webp|done]. }
    intros f. apply every_bind_ok; [apply quiets_store_shared|done].
Qed.

Lemma quiets_materialize req services : quiets (materialize_steps c req services).
Proof.
  unfold materialize_steps. destruct (scan_request_image_urls req) as [refs|e]; [|done].
  apply every_bind; [apply quiets_world, quiet_tracked|]. intros order.
  apply every_bind_ok; [|by intros [[]]]. apply every_for. intros [[m f1] f2] url.
  apply every_bind_ok; [apply quiets_fetch_request_image|]. by intros [[]].
Qed.
End quiet_materialize.

Lemma quiet_materialize {W} `{FileSystem W} `{UrlFetcher W} `{UrlLib} `{HttpLib} `{!HttpClient W}
    `{Runtime W} `{ImageCodec} `{Stopwatch W} `{JoinOrder W} req services :
  quiet (world (W := Tracked W)) (materialize_request_images_with_services (W := Tracked W) req services).
Proof.
  intros s a s' E. destruct (does_materialize (cfg s) req services s eq_refl) as [Hs _]. rewrite E in Hs.
  exact (every_solo _ _ _ _ _ (quiets_materialize (cfg s) req services) Hs).
Qed.

(** * What was seen through the tracked world *)

Section seen.
#[local] Set Default Proof Using "All".
Context {W : Type} `{FileSystem W} `{UrlFetcher W} `{UrlLib} `{HttpLib} `{!HttpClient W} `{Runtime W}
  `{ImageCodec}.

(** The operation does in the world what it does in the tracked one. *)
Definition lifts {A} (m : StE W A) (m' : StE (Tracked W) A) : Prop := forall t a t',
  m' t = (a, t') -> m (tracked_world t) = (a, tracked_world t').

Lemma lifts_seen {A} (m : StE W A) m' a : lifts m m' -> seen m' a -> seen m a.
Proof. intros Hl (t & t' & E). exists (tracked_world t), (tracked_world t'). by apply Hl. Qed.

Lemma lifts_tracked {A} (m : StE W A) : lifts m (in_tracked m).
Proof. by intros t a t' [? _]%in_tracked_inv. Qed.

Lemma lifts_fetch_image url max allow :
  lifts (fetch_image_as_inline_data_with_options url max allow)
    (fetch_image_as_inline_data_with_options (W := Tracked W) url max allow).
Proof.
  intros t a t'. unfold fetch_image_as_inline_data_with_options, ste_bind, ste_lift.
  destruct (check_fetch_target url allow) as [u|e]; [|by intros [= <- <-]].
  destruct (http_get u t) as [r t1] eqn:E. apply in_tracked_inv in E as [E _]. rewrite E.
  destruct r as [response|e]; by intros [= <- <-].
Qed.

Lemma lifts_webp fetched timeout :
  lifts (maybe_convert_large_png_to_lossless_webp_with_timeout fetched timeout)
    (maybe_convert_large_png_to_lossless_webp_with_timeout (W := Tracked W) fetched timeout).
Proof.
  intros t a t'. unfold maybe_convert_large_png_to_lossless_webp_with_timeout,
    maybe_convert_large_png_to_lossless_webp.
  destruct (timeout =? 0)%Z.
  - destruct (join_error t) as [j t1] eqn:E. apply in_tracked_inv in E as [E _]. rewrite E.
    destruct j; by intros [= <- <-].
  - destruct (timeout_elapses timeout t) as [b t1] eqn:E. apply in_tracked_inv in E as [E _]. rewrite E.
    destruct b; [by intros [= <- <-]|].
    destruct (join_error t1) as [j t2] eqn:E2. apply in_tracked_inv in E2 as [E2 _]. rewrite E2.
    destruct j; by intros [= <- <-].
Qed.

Lemma downloaded_tracked services url mime bs :
  downloaded (W := Tracked W) services url mime bs -> downloaded (W := W) services url mime bs.
Proof.
  unfold downloaded, downloaded_directly. destruct (has_fetch_service services).
  - intros [hit Hs]. exists hit. revert Hs. apply lifts_seen, lifts_tracked.
  - intros (fetched & Hf & Hc). exists fetched.
    split; [revert Hf; apply lifts_seen, lifts_fetch_image|].
    destruct (enable_webp_optimization services); [|done]. revert Hc. apply lifts_seen, lifts_webp.
Qed.
End seen.
