(* ===== verification/Router.v ===== *)
(** router.rs: the handlers of the server. A request is read, its images are stored as blobs and put
    into the body that goes upstream, the answer is finished and sent back, and the admin log gets an
    entry. *)

From S2P Require Import Prelude RustStr Json Ext Samples.
From S2P Require Import Config Upstream ImageIo BlobRuntime RequestEncode FetchService.
From S2P Require Import RequestMaterialize RequestRewrite OpenaiImage Http Admin Upload.
From S2P Require Import ResponseRewrite ResponseMaterialize Query UpstreamClient UpstreamResponse.
From S2P Require Import Aiapidev Tracking.
From stdpp Require Import options.

Definition MAX_REQUEST_BODY_BYTES : Z := 20 * 1024 * 1024.
Definition usize_max : Z := u64_max.

(** * Interfaces *)

(** [axum::body]: reading a body up to a limit. *)
Class BodyLib := {
  Body : Type;
  to_bytes : Body -> Z -> Result string bytes;
  body_from : bytes -> Body;
}.

(** What its documentation promises: a body made of bytes reads as these bytes when they are within
    the limit, and no more than the limit is ever read. *)
Class BodyLaws `{BodyLib} : Prop := {
  to_bytes_from : forall bs limit, (blen bs <= limit)%Z -> to_bytes (body_from bs) limit = Ok bs;
  to_bytes_limit : forall body limit bs, to_bytes body limit = Ok bs -> (blen bs <= limit)%Z;
}.

(** The download service of the response side, which is not the one of the request side. *)
Class ResponseFetcher (W : Type) := { response_fetch_url : string -> StE W FetchResult }.

(** [OffsetDateTime::now_utc()] as RFC 3339 text, and [tracing::warn!]. *)
Class LogLib (W : Type) := {
  now_rfc3339 : St W string;
  warn_slow_request : string -> Z -> Z -> St W unit;
}.

(** * State *)

(** [AppState]; the download services are shared objects that live in the world, here is whether
    there is one. *)
Record AppState (W : Type) := mkAppState {
  app_config : Config;
  app_admin : option AdminState;
  has_request_fetch_service : bool;
  has_response_fetch_service : bool;
  app_runtime : BlobRuntimeInner W;
}.
Arguments mkAppState {W}.
Arguments app_config {W}.
Arguments app_admin {W}.
Arguments has_request_fetch_service {W}.
Arguments has_response_fetch_service {W}.
Arguments app_runtime {W}.

Definition set_runtime {W} (rt : BlobRuntimeInner W) (s : AppState W) : AppState W :=
  mkAppState (app_config s) (app_admin s) (has_request_fetch_service s)
    (has_response_fetch_service s) rt.

Definition set_admin {W} (admin : option AdminState) (s : AppState W) : AppState W :=
  mkAppState (app_config s) admin (has_request_fetch_service s) (has_response_fetch_service s)
    (app_runtime s).

Definition admin_enabled {W} (s : AppState W) : bool :=
  match app_admin s with Some _ => true | None => false end.

Definition on_runtime {W A} (m : St (BlobRuntimeInner W) A) : St (AppState W) A := fun s =>
  let '(a, rt) := m (app_runtime s) in (a, set_runtime rt s).

Definition on_net {W A} (m : St W A) : St (AppState W) A := on_runtime (on_world m).

(** A request as the server hands it over. *)
Record Request `{BodyLib} := mkRequest {
  rq_method : string;
  rq_path : string;
  rq_query : option string;
  rq_headers : HeaderMap;
  rq_body : Body;
}.

Record ForwardRequestFailure := mkForwardRequestFailure {
  failure_error : Error;
  failure_entry : AdminLogEntry;
}.

Abbreviation Forwarded := (Result ForwardRequestFailure (Reply * AdminLogEntry)).

(** [m.await.map_err(|err| ..)?] where the error becomes a failure of the request *)
Definition st_try {S A B F} (m : StE S A) (fail : Error -> F) (k : A -> St S (Result F B))
    : St S (Result F B) := fun s =>
  match m s with
  | (Ok a, s') => k a s'
  | (Err err, s') => (Err (fail err), s')
  end.

Notation "'attempt' x ':=' m 'otherwise' f 'in' k" := (st_try m f (fun x => k))
  (at level 10, x name, m at level 100, f at level 100, k at level 200) : proxy_scope.

(** * The log of a request *)

(** [RequestLogSnapshot]: what is logged of the request's body, if the log is on. *)
Abbreviation RequestLogSnapshot := (option SanitizedAdminLog).

Definition sanitize_request_body_for_log `{JsonCodec} (raw : bytes) (enabled : bool)
    : RequestLogSnapshot := maybe_sanitize_json_for_log raw enabled.

Definition apply_to_entry (request_log : RequestLogSnapshot) (entry : AdminLogEntry) : AdminLogEntry :=
  match request_log with
  | Some value => with_request_raw_images (image_urls value) (with_request_raw (pretty_text value) entry)
  | None => entry
  end.

Definition base_entry (request_log : RequestLogSnapshot) : AdminLogEntry :=
  apply_to_entry request_log entry_default.

Definition apply_structured_proxy_error (structured : StructuredError) (entry : AdminLogEntry)
    : AdminLogEntry :=
  with_error_detail (structured_detail structured)
    (with_error_message (structured_message structured)
       (with_error_kind (structured_kind structured)
          (with_error_stage (structured_stage structured) (with_error_source "proxy" entry)))).

(** [error.get(key).and_then(Value::as_str).unwrap_or_default()] *)
Definition error_field (key : string) (error : Map) : string := default EmptyString (obj_str key error).

Definition apply_admin_error_fields (status : Z) (response_json : Value) (sanitized_response : string)
    (entry : AdminLogEntry) : AdminLogEntry :=
  match value_get "error" response_json ≫= as_object with
  | None => entry
  | Some error =>
      let entry := with_error_source (error_field "source" error) entry in
      let entry := with_error_stage (error_field "stage" error) entry in
      let entry := with_error_kind (error_field "kind" error) entry in
      let entry := with_error_message (error_field "message" error) entry in
      if String.eqb (entry_error_source entry) "upstream"
      then with_upstream_error_body sanitized_response (with_upstream_status_code status entry)
      else entry
  end.

(** The two fields that log the body sent upstream. *)
Definition log_request_upstream (request_upstream : option SanitizedAdminLog) (entry : AdminLogEntry)
    : AdminLogEntry :=
  with_request_upstream_images (default [] (image_urls <$> request_upstream))
    (with_request_upstream (default EmptyString (pretty_text <$> request_upstream)) entry).

(** The fields set from the connection. *)
Record Arrival := mkArrival {
  created_at : string;
  request_method : string;
  request_path : string;
  request_query : string;
  remote_addr : string;
}.

Definition arrival `{HttpLib} `{BodyLib} (created_at : string) (request : Request) : Arrival :=
  mkArrival created_at (rq_method request) (rq_path request) (default EmptyString (rq_query request))
    (default EmptyString (header_get "x-forwarded-for" (rq_headers request) ≫= header_to_str)).

Definition stamp (a : Arrival) (entry : AdminLogEntry) : AdminLogEntry :=
  with_is_stream false (with_remote_addr (remote_addr a) (with_query (request_query a)
    (with_path (request_path a) (with_method (request_method a)
       (with_created_at (created_at a) entry))))).

(** The struct literal of a request that goes no further; other fields are the default's. *)
Definition rejected_entry (a : Arrival) (status duration_ms request_parse_ms : Z) : AdminLogEntry :=
  with_request_parse_ms request_parse_ms
    (with_duration_ms duration_ms (with_status_code status (stamp a entry_default))).

(** [error_source: "proxy"] and the four fields after it *)
Definition with_proxy_error (stage kind message detail : string) (entry : AdminLogEntry)
    : AdminLogEntry :=
  apply_structured_proxy_error (mkStructuredError message stage kind detail) entry.

(** [entry.request_parse_ms += request_parse_ms] *)
Definition add_request_parse_ms (ms : Z) (entry : AdminLogEntry) : AdminLogEntry :=
  with_request_parse_ms (i64_wrap (entry_request_parse_ms entry + ms)) entry.

(** * Forwarding *)

Definition output_mode_name (output_mode : OutputMode) : string :=
  match output_mode with OutBase64 => "base64" | OutUrl => "url" end.

(** The answers of the upstream are finished with the response side's download service. *)
Section response_side.
Context `{UrlLib} `{HttpLib} `{JsonCodec} `{Displays} `{Base64} `{ImageCodec} {W : Type}
  `{!HttpClient W} `{UpstreamClient W} `{Stopwatch W} `{Clock W} `{InlineUploader W}
  `{ResponseFetcher W}.

#[local] Instance response_fetcher : UrlFetcher W := {| fetch_url := response_fetch_url |}.

Definition finish_gemini_response : HttpResponse -> OutputMode -> bool -> Config ->
    StE W (Reply * ResponseStageDurations) := handle_non_stream_response.

Definition run_aiapidev_task : ResolvedUpstream -> string -> option string -> Value -> OutputMode ->
    bool -> Config -> St W Reply := handle_aiapidev_response.
End response_side.

(** The handlers of the routes. *)
Inductive Route :=
| AdminRoot
| AdminLogsPage
| AdminLogsApi
| AdminStatsApi
| ImageGenerations
| ModelAction (rest : string).

(** [axum::Router]: the reply to a request that no route takes, the reply of a [get] route to HEAD,
    and the text that [Path] extracts from what a wildcard has matched, or its rejection. *)
Class RouteLib `{BodyLib} := {
  unrouted : Request -> Reply;
  without_body : Reply -> Reply;
  path_param : string -> Result Reply string;
}.

Section router.
Context `{UrlLib} `{HttpLib} `{JsonCodec} `{Displays} `{Base64} `{ImageCodec} `{BodyLib} {W : Type}
  `{FileSystem W} `{UrlFetcher W} `{ResponseFetcher W} `{!HttpClient W} `{Runtime W} `{DuplexPipe W}
  `{Stopwatch W} `{Clock W} `{JoinOrder W} `{UpstreamClient W} `{InlineUploader W} `{LogLib W}.
Abbreviation App := (AppState W).

Definition now : St App Z := on_net instant_now.
Definition since (started : Z) : St App Z := on_net (elapsed started).

(** A runtime in another world. *)
Definition map_world {V V'} (f : V -> V') (rt : BlobRuntimeInner V) : BlobRuntimeInner V' :=
  mkBlobRuntimeInner (cfg rt) (next_id_counter rt) (global_hot_bytes rt) (spill_count rt)
    (spill_bytes_total rt) (removed rt) (f (world rt)).

Definition request_services (s : App) : RequestMaterializeServices :=
  mkMaterializeServices REQUEST_MAX_IMAGE_BYTES false
    (enable_request_image_webp_optimization (app_config s)) (has_request_fetch_service s)
    (admin_enabled s).

(** The images of the request, with the observer of [build_request_cache_tracking]; also the URLs it
    has noted. *)
Definition materialize_tracked (body : Value)
    : St App (Result Error MaterializedRequestImages * list string) := fun s =>
  let stats := match app_admin s with Some admin => stats admin | None => stats_default end in
  let tracked := map_world (fun w => mkTracked w stats []) (app_runtime s) in
  let '(materialized, tracked) :=
    materialize_request_images_with_services body (request_services s) tracked in
  let admin := (fun admin => mkAdminState (password admin) (logs admin) (tracked_stats (world tracked)))
               <$> app_admin s in
  ((materialized, hit_urls (world tracked)),
   set_admin admin (set_runtime (map_world tracked_world tracked) s)).

(** [update_request_cache_hits], and the failure. *)
Definition failed_with_hits (hits : list string) (entry : AdminLogEntry) (err : Error)
    : ForwardRequestFailure :=
  mkForwardRequestFailure err (with_request_raw_image_cache_hits hits entry).

(** The fields about the images of the request that were fetched. *)
Definition log_materialized (materialize_ms : Z) (m : MaterializedRequestImages) (entry : AdminLogEntry)
    : AdminLogEntry :=
  with_request_image_store_work_ms (total_store_work_ms m)
    (with_request_image_fetch_work_ms (total_fetch_work_ms m)
       (with_request_image_materialize_ms materialize_ms entry)).

(** The body sent upstream, for the log. *)
Definition read_upstream_body (body_blob : BlobHandle) : StE App (option SanitizedAdminLog) := fun s =>
  if admin_enabled s then
    (request_upstream_bytes <-? on_runtime (read_bytes body_blob) ;;
     ste_ok (maybe_sanitize_json_for_log request_upstream_bytes true)) s
  else (Ok None, s).

Definition upstream_headers (content_length : Z) (content_type accept : option bytes) (api_key : string)
    : list (string * string) :=
  [("content-length", fmt_Z content_length)]
  ++ match content_type with Some value => [("content-type", value)] | None => [] end
  ++ match accept with Some value => [("accept", value)] | None => [] end
  ++ [("x-goog-api-key", api_key); ("authorization", "Bearer " +:+ api_key)].

(** The body is streamed from its blob, which is removed after the exchange; the answer is finished. *)
Definition send_encoded (resolved : ResolvedUpstream) (upstream_url : string) (reader : ReadStream)
    (content_type accept : option bytes) (output_mode : OutputMode) (hits : list string)
    (encoded : EncodedRequestBody) (request_upstream : option SanitizedAdminLog)
    (upstream_build_started : Z) (entry : AdminLogEntry) : St App Forwarded :=
  sent <-! on_net (send_upstream (mkHttpRequest "POST" upstream_url
             (upstream_headers (content_length encoded) content_type accept (api_key resolved))
             (BodyStream (FromBlob reader)))) ;;
  match sent with
  | Err err =>
      attempt _ := on_runtime (remove (body_blob encoded)) otherwise failed_with_hits hits entry in
      st_ret (Err (failed_with_hits hits entry (ReqwestErr err)))
  | Ok upstream_response =>
      attempt _ := on_runtime (remove (body_blob encoded)) otherwise failed_with_hits hits entry in
      upstream_build_ms <-! since upstream_build_started ;;
      let entry := with_upstream_build_ms upstream_build_ms entry in
      let entry := with_request_raw_image_cache_hits hits entry in
      let entry := log_request_upstream request_upstream entry in
      handled <-! (fun s => on_net (finish_gemini_response upstream_response output_mode
                                      (has_response_fetch_service s) (app_config s)) s) ;;
      st_ret (match handled with
              | Err err => Err (mkForwardRequestFailure err entry)
              | Ok (response, durations) =>
                  Ok (response,
                      with_upload_ms (upload_ms durations)
                        (with_response_process_ms (response_process_ms durations)
                           (with_status_code (reply_status response) entry)))
              end)
  end.

(** From the encoded body to the reply: the images' blobs are removed, the body is read for the log,
    and it is sent. *)
Definition exchange (resolved : ResolvedUpstream) (target_path : string) (query : option string)
    (content_type accept : option bytes) (output_mode : OutputMode) (hits : list string)
    (materialized : MaterializedRequestImages) (encoded : EncodedRequestBody) (entry : AdminLogEntry)
    : St App Forwarded :=
  upstream_build_started <-! now ;;
  attempt _ := on_runtime (remove_all (replacements materialized)) otherwise failed_with_hits hits entry in
  attempt request_upstream := read_upstream_body (body_blob encoded) otherwise failed_with_hits hits entry in
  attempt upstream_url := ste_lift (build_upstream_url (base_url resolved) target_path query)
    otherwise failed_with_hits hits entry in
  attempt reader := on_runtime (open_reader (body_blob encoded) READER_STREAM_BYTES)
    otherwise failed_with_hits hits entry in
  send_encoded resolved upstream_url reader content_type accept output_mode hits encoded
    request_upstream upstream_build_started entry.

(** The request's images are there: the body is encoded and exchanged. *)
Definition encode_and_exchange (resolved : ResolvedUpstream) (target_path : string)
    (query : option string) (content_type accept : option bytes) (output_mode : OutputMode)
    (hits : list string) (materialized : MaterializedRequestImages)
    (request_image_prepare_started materialize_ms : Z) (entry : AdminLogEntry) : St App Forwarded :=
  request_encode_started <-! now ;;
  encoded <-! on_runtime (encode_request_body (RequestMaterialize.request materialized)
                            (replacements materialized)) ;;
  match encoded with
  | Err err =>
      let entry := log_materialized materialize_ms materialized entry in
      prepare_ms <-! since request_image_prepare_started ;;
      st_ret (Err (failed_with_hits hits (with_request_image_prepare_ms prepare_ms entry) err))
  | Ok encoded =>
      encode_ms <-! since request_encode_started ;;
      prepare_ms <-! since request_image_prepare_started ;;
      let entry := with_request_image_prepare_ms prepare_ms entry in
      let entry := log_materialized materialize_ms materialized entry in
      let entry := with_request_encode_ms encode_ms entry in
      exchange resolved target_path query content_type accept output_mode hits materialized encoded
        entry
  end.

Definition forward_to_gemini (resolved : ResolvedUpstream) (target_path : string)
    (query : option string) (content_type accept : option bytes) (body : Value)
    (output_mode : OutputMode) (entry : AdminLogEntry) : St App Forwarded :=
  request_image_prepare_started <-! now ;;
  request_image_materialize_started <-! now ;;
  tracked <-! materialize_tracked body ;;
  let '(materialized, hits) := tracked in
  match materialized with
  | Err err =>
      prepare_ms <-! since request_image_prepare_started ;;
      st_ret (Err (failed_with_hits hits (with_request_image_prepare_ms prepare_ms entry) err))
  | Ok materialized =>
      materialize_ms <-! since request_image_materialize_started ;;
      encode_and_exchange resolved target_path query content_type accept output_mode hits materialized
        request_image_prepare_started materialize_ms entry
  end.

Definition forward_to_aiapidev (resolved : ResolvedUpstream) (target_path : string)
    (query : option string) (body : Value) (output_mode : OutputMode) (entry : AdminLogEntry)
    : St App Forwarded := fun s =>
  let config := app_config s in
  let rewritten_body := rewrite_aiapidev_request_body (resolved_external_image_proxy_prefix config)
                          (image_fetch_external_proxy_domains config) body in
  let target_path := rewrite_aiapidev_model_path target_path in
  (attempt request_upstream := ste_lift (
       if admin_enabled s then
         let? request_upstream_bytes := map_err ExternalError (to_vec rewritten_body) in
         Ok (maybe_sanitize_json_for_log request_upstream_bytes true)
       else Ok None) otherwise fun err => mkForwardRequestFailure err entry in
   upstream_build_started <-! now ;;
   response <-! on_net (run_aiapidev_task resolved target_path query rewritten_body output_mode
                          (has_response_fetch_service s) config) ;;
   upstream_build_ms <-! since upstream_build_started ;;
   let entry := with_upstream_build_ms upstream_build_ms entry in
   let entry := log_request_upstream request_upstream entry in
   st_ret (Ok (response, with_status_code (reply_status response) entry))) s.

Definition forward_gemini_request (resolved : ResolvedUpstream) (target_path : string)
    (request : Request) (request_log : RequestLogSnapshot) : St App Forwarded :=
  request_parse_started <-! now ;;
  let content_type_header := header_get "content-type" (rq_headers request) in
  let accept_header := header_get "accept" (rq_headers request) in
  match to_bytes (rq_body request) MAX_REQUEST_BODY_BYTES with
  | Err err =>
      st_ret (Err (mkForwardRequestFailure (Anyhow ("failed to read request body: " +:+ err))
                     (base_entry request_log)))
  | Ok request_body =>
      let entry := base_entry request_log in
      match from_slice request_body with
      | Err err =>
          ms <-! since request_parse_started ;;
          st_ret (Err (mkForwardRequestFailure
            (StructuredProxyError "invalid request json body" "parse_request_json" "invalid_json"
               ("invalid request json body: " +:+ err)) (with_request_parse_ms ms entry)))
      | Ok body =>
          let output_mode := get_output_mode (rq_query request) body in
          let entry := with_output_mode (output_mode_name output_mode) entry in
          ms <-! since request_parse_started ;;
          let entry := with_request_parse_ms ms entry in
          if is_aiapidev_base_url (base_url resolved)
          then forward_to_aiapidev resolved target_path (rq_query request) body output_mode entry
          else forward_to_gemini resolved target_path (rq_query request) content_type_header
                 accept_header body output_mode entry
      end
  end.

Definition forward_openai_image_request (resolved : ResolvedUpstream) (request_body : Value)
    (query : option string) (request_log : RequestLogSnapshot) : St App Forwarded := fun s =>
  let entry := with_output_mode "url" (base_entry request_log) in
  (attempt request_upstream := ste_lift (
       if admin_enabled s then
         let? request_upstream_bytes := map_err ExternalError (to_vec request_body) in
         Ok (maybe_sanitize_json_for_log request_upstream_bytes true)
       else Ok None) otherwise fun err => mkForwardRequestFailure err entry in
   upstream_build_started <-! now ;;
   attempt upstream_url := ste_lift (build_upstream_url (base_url resolved) "/v1/images/generations" query)
     otherwise fun err => mkForwardRequestFailure err entry in
   sent <-! on_net (post_json upstream_url
              [("content-type", "application/json");
               ("authorization", "Bearer " +:+ api_key resolved)] request_body) ;;
   match sent with
   | Err err => st_ret (Err (mkForwardRequestFailure (ReqwestErr err) entry))
   | Ok upstream_response =>
       upstream_build_ms <-! since upstream_build_started ;;
       let entry := with_upstream_build_ms upstream_build_ms entry in
       let entry := log_request_upstream request_upstream entry in
       attempt handled := on_net (handle_openai_image_response upstream_response (app_config s))
         otherwise fun err => mkForwardRequestFailure err entry in
       st_ret (Ok (handled.1,
                   with_upload_ms (upload_ms handled.2)
                     (with_response_process_ms (response_process_ms handled.2)
                        (with_status_code (reply_status handled.1) entry))))
   end) s.

(** * The end of every request *)

(** [tracing::warn!] when the request took long. *)
Definition log_slow_request (config : Config) (entry : AdminLogEntry) : St W unit :=
  if (slow_log_threshold config =? 0)%Z then st_ret tt
  else if (entry_duration_ms entry <? i64_wrap (slow_log_threshold config))%Z then st_ret tt
  else warn_slow_request (entry_path entry) (entry_status_code entry) (entry_duration_ms entry).

(** What the reply's body adds to the entry. *)
Definition log_response (response : Reply) (body_bytes : bytes) (entry : AdminLogEntry) : AdminLogEntry :=
  if is_empty body_bytes then entry else
  let sanitized := sanitize_json_for_log body_bytes in
  let entry := with_response_images (image_urls sanitized) entry in
  let entry := with_response_downstream (pretty_text sanitized) entry in
  match from_slice body_bytes with
  | Ok value =>
      apply_admin_error_fields (reply_status response) value (pretty_text sanitized)
        (with_finish_reason (default EmptyString (extract_finish_reason value)) entry)
  | Err _ => entry
  end.

Definition finalize_admin_response (response : Reply) (entry : AdminLogEntry) : St App Reply :=
  _ <-! (fun s => on_net (log_slow_request (app_config s) entry) s) ;;
  fun s =>
    match app_admin s with
    | None => (response, s)
    | Some admin_state =>
        let body_bytes := default EmptyString
                            (result_ok (to_bytes (body_from (reply_body response)) usize_max)) in
        let entry := with_status_code (reply_status response) (log_response response body_bytes entry) in
        let admin_state := mkAdminState (password admin_state) (logs admin_state)
                             (apply_admin_stats (stats admin_state) entry) in
        (mkReply (reply_status response) (reply_headers response) body_bytes,
         set_admin (Some (record admin_state entry)) s)
    end.

(** * The two actions *)

(** A request that is rejected before it is forwarded. *)
Definition reject (a : Arrival) (started_at : Z) (request_parse_started : option Z) (status : Z)
    (response : Reply) (describe : AdminLogEntry -> AdminLogEntry) : St App Reply :=
  duration_ms <-! since started_at ;;
  request_parse_ms <-! (match request_parse_started with Some started => since started | None => st_ret 0%Z end) ;;
  finalize_admin_response response
    (describe (rejected_entry a status duration_ms request_parse_ms)).

Definition reject_body (a : Arrival) (started_at request_parse_started : Z) (err : string) : St App Reply :=
  reject a started_at (Some request_parse_started) 502
    (proxy_error_response 502 "failed to read request body" "read_request_body" "request_body_read_failed")
    (with_proxy_error "read_request_body" "request_body_read_failed" "failed to read request body" err).

Definition reject_json (a : Arrival) (started_at request_parse_started : Z)
    (request_log : RequestLogSnapshot) (err : string) : St App Reply :=
  reject a started_at (Some request_parse_started) 502
    (proxy_error_response 502 "invalid request json body" "parse_request_json" "invalid_json")
    (fun entry => apply_to_entry request_log
       (with_proxy_error "parse_request_json" "invalid_json" "invalid request json body"
          ("invalid request json body: " +:+ err) entry)).

Definition reject_upstream (a : Arrival) (started_at request_parse_started : Z)
    (request_log : RequestLogSnapshot) (err : ResolveUpstreamError) : St App Reply :=
  reject a started_at (Some request_parse_started) (status_code err)
    (json_reply (status_code err) (plain_error_json (status_code err) (message err)))
    (apply_to_entry request_log).

(** The entry of a forwarded request is completed. *)
Definition complete_entry (a : Arrival) (request_parse_ms duration_ms : Z) (entry : AdminLogEntry)
    : AdminLogEntry :=
  with_duration_ms duration_ms (add_request_parse_ms request_parse_ms (stamp a entry)).

Definition finish_forwarded (a : Arrival) (started_at request_parse_ms : Z) (structured_errors : bool)
    (forwarded : Forwarded) : St App Reply :=
  match forwarded with
  | Ok (response, entry) =>
      duration_ms <-! since started_at ;;
      finalize_admin_response response (complete_entry a request_parse_ms duration_ms entry)
  | Err failure =>
      duration_ms <-! since started_at ;;
      let entry := with_status_code 502 (complete_entry a request_parse_ms duration_ms (failure_entry failure)) in
      let '(response, entry) :=
        if structured_errors then
          match classify_standard_proxy_error_detail (failure_error failure) with
          | Some structured =>
              (build_structured_proxy_error_response structured,
               apply_structured_proxy_error structured entry)
          | None =>
              match classify_standard_proxy_error (failure_error failure) with
              | Some structured_error => (json_reply 502 structured_error, entry)
              | None => (bad_gateway_reply (error_to_string (failure_error failure)), entry)
              end
          end
        else (bad_gateway_reply (error_to_string (failure_error failure)), entry) in
      finalize_admin_response response entry
  end.

Definition image_generations_action (request : Request) : St App Reply :=
  started_at <-! now ;;
  created_at <-! on_net now_rfc3339 ;;
  let a := arrival created_at request in
  request_parse_started <-! now ;;
  match to_bytes (rq_body request) MAX_REQUEST_BODY_BYTES with
  | Err err => reject_body a started_at request_parse_started err
  | Ok request_body => fun s =>
      let request_log := sanitize_request_body_for_log request_body (admin_enabled s) in
      (match from_slice request_body with
       | Err err => reject_json a started_at request_parse_started request_log err
       | Ok parsed_body =>
           match normalize_request_body parsed_body with
           | Err err =>
               reject a started_at (Some request_parse_started) 400
                 (json_reply 400 (plain_error_json 400 (error_to_string err)))
                 (fun entry => apply_to_entry request_log
                    (with_proxy_error "normalize_openai_image_request" "invalid_request"
                       "invalid openai image request" (error_to_string err) entry))
           | Ok normalized_body =>
               match resolve_upstream_for_request_from_header_map (rq_headers request) normalized_body
                       (upstream_base_url (app_config s)) (upstream_api_key (app_config s)) with
               | Err err => reject_upstream a started_at request_parse_started request_log err
               | Ok resolved =>
                   request_parse_ms <-! since request_parse_started ;;
                   forwarded <-! forward_openai_image_request resolved normalized_body
                                   (if is_empty (request_query a) then None else Some (request_query a))
                                   request_log ;;
                   finish_forwarded a started_at request_parse_ms true forwarded
               end
           end
       end) s
  end.

Definition model_action (rest : string) (request : Request) : St App Reply :=
  started_at <-! now ;;
  created_at <-! on_net now_rfc3339 ;;
  let a := arrival created_at request in
  if negb (ends_with rest ":generateContent")
  then reject a started_at None 404 (json_reply 404 (plain_error_json 404 "Not Found")) (fun entry => entry)
  else
    request_parse_started <-! now ;;
    match to_bytes (rq_body request) MAX_REQUEST_BODY_BYTES with
    | Err err => reject_body a started_at request_parse_started err
    | Ok request_body => fun s =>
        let request_log := sanitize_request_body_for_log request_body (admin_enabled s) in
        (match from_slice request_body with
         | Err err => reject_json a started_at request_parse_started request_log err
         | Ok parsed_body =>
             match resolve_upstream_for_request_from_header_map (rq_headers request) parsed_body
                     (upstream_base_url (app_config s)) (upstream_api_key (app_config s)) with
             | Err err => reject_upstream a started_at request_parse_started request_log err
             | Ok resolved =>
                 request_parse_ms <-! since request_parse_started ;;
                 let target_path := "/v1beta/models/" +:+ rest in
                 let is_aiapidev_upstream := is_aiapidev_base_url (base_url resolved) in
                 let request := mkRequest _ (rq_method request) (rq_path request) (rq_query request)
                                  (rq_headers request) (body_from request_body) in
                 forwarded <-! forward_gemini_request resolved target_path request request_log ;;
                 finish_forwarded a started_at request_parse_ms (negb is_aiapidev_upstream) forwarded
             end
         end) s
    end.

(** * The admin pages *)

Definition authorize_admin (s : App) (headers : HeaderMap) : option Reply :=
  match app_admin s with
  | None => Some (status_reply 404)
  | Some admin => if negb (check_basic_auth admin headers) then Some (unauthorized_response admin) else None
  end.

Definition admin_root (s : App) (headers : HeaderMap) : Reply :=
  match authorize_admin s headers with
  | Some response => response
  | None => mkReply 302 (header_set "location" "/admin/logs" []) EmptyString
  end.

(** [page] is the reply that carries the constant [ADMIN_LOGS_HTML]. *)
Definition admin_logs_page (page : Reply) (s : App) (headers : HeaderMap) : Reply :=
  default page (authorize_admin s headers).

Definition admin_logs_api (s : App) (headers : HeaderMap) : Reply :=
  match authorize_admin s headers with
  | Some response => response
  | None => match app_admin s with
            | Some admin => admin_logs_response admin
            | None => status_reply 404
            end
  end.

Definition admin_stats_api (s : App) (headers : HeaderMap) : Reply :=
  match authorize_admin s headers with
  | Some response => response
  | None => match app_admin s with
            | Some admin => admin_stats_response admin (stats_snapshot (app_runtime s))
            | None => status_reply 404
            end
  end.

(** * Routes *)

(** [.route(..)], all seven: the method and the handler of a path. The wildcard takes what is left of
    the path, unless nothing is. *)
Definition route_of (path : string) : option (string * Route) :=
  if String.eqb path "/admin" || String.eqb path "/admin/" then Some ("GET", AdminRoot)
  else if String.eqb path "/admin/logs" then Some ("GET", AdminLogsPage)
  else if String.eqb path "/admin/api/logs" then Some ("GET", AdminLogsApi)
  else if String.eqb path "/admin/api/stats" then Some ("GET", AdminStatsApi)
  else if String.eqb path "/v1/images/generations" then Some ("POST", ImageGenerations)
  else rest ← strip_prefix "/v1beta/models/" path;
       if is_empty rest then None else Some ("POST", ModelAction rest).

Context `{!RouteLib}.

Definition call_handler (page : Reply) (route : Route) (request : Request) : St App Reply := fun s =>
  match route with
  | AdminRoot => (admin_root s (rq_headers request), s)
  | AdminLogsPage => (admin_logs_page page s (rq_headers request), s)
  | AdminLogsApi => (admin_logs_api s (rq_headers request), s)
  | AdminStatsApi => (admin_stats_api s (rq_headers request), s)
  | ImageGenerations => image_generations_action request s
  | ModelAction rest =>
      match path_param rest with
      | Err rejection => (rejection, s)
      | Ok rest => model_action rest request s
      end
  end.

(** The router that [build_router] returns. *)
Definition serve (page : Reply) (request : Request) : St App Reply := fun s =>
  match route_of (rq_path request) with
  | None => (unrouted request, s)
  | Some (method, route) =>
      if String.eqb (rq_method request) method then call_handler page route request s
      else if String.eqb method "GET" && String.eqb (rq_method request) "HEAD" then
        let '(reply, s) := call_handler page route request s in (without_body reply, s)
      else (unrouted request, s)
  end.
End router.

(** * Start *)

(** The state [build_router] makes; building the HTTP clients is left to [reqwest]. *)
Definition build_app_state `{UrlLib} `{HttpLib} `{ImageCodec} `{JsonCodec} `{Digests} `{Displays}
    `{LruLib MemoryCache.MemoryEntry} {W} `{!HttpClient W} `{FileSystem W} `{Directories W} `{Clock W}
    `{Runtime W} (config : Config) (w : W) : AppState W :=
  let admin := if is_empty (trim (admin_password config)) then None
               else Some (admin_new (admin_password config)) in
  let request_service := from_config config w REQUEST_MAX_IMAGE_BYTES false in
  let response_service := from_response_config config w DEFAULT_MAX_IMAGE_BYTES false in
  let is_some {A} (o : option A) := match o with Some _ => true | None => false end in
  mkAppState config admin (is_some request_service) (is_some response_service)
    (runtime_new (mkBlobRuntimeConfig (blob_inline_max_bytes config)
       (blob_request_hot_budget_bytes config) (blob_global_hot_budget_bytes config)
       (blob_spill_dir config)) w).
