(* ===== verification/Forwarding.v ===== *)
(** Forwarding in router.rs: what is sent upstream, and that the blob store is left as it was found. *)

From S2P Require Import Prelude RustStr Json Pointer Ext Samples.
From S2P Require Import Config Upstream ImageIo RequestScan BlobRuntime RequestEncode FetchService.
From S2P Require Import RequestMaterialize RequestRewrite OpenaiImage Http Admin Upload.
From S2P Require Import ResponseRewrite ResponseMaterialize Query UpstreamClient UpstreamResponse.
From S2P Require Import Aiapidev Tracking Router.
From stdpp Require Import options.

(** * Replies *)

(** Every document can be written, so a JSON reply has the status it was given. *)
Lemma to_vec_total `{JsonCompact} v : exists bs, to_vec v = Ok bs.
Proof.
  induction v as [| | | |l IH|m IH] using Value_ind'; try (eexists; by apply to_vec_leaf).
  - assert (Hl : exists bs, Forall2 (fun v b => to_vec v = Ok b) l bs).
    { induction IH as [|v l [b Hb] _ [bs Hbs]]; [by exists []|]. exists (b :: bs). by constructor. }
    destruct Hl as [bs Hbs]. eexists. by apply to_vec_array.
  - assert (Hm : exists bs, Forall2 (fun kv b => exists c, to_vec kv.2 = Ok c /\
        b = to_vec_key kv.1 +:+ ":" +:+ c) m bs).
    { induction IH as [|kv m [c Hc] _ [bs Hbs]]; [by exists []|].
      eexists (_ :: bs). constructor; [by exists c|done]. }
    destruct Hm as [bs Hbs]. eexists. by apply to_vec_object.
Qed.

Lemma json_reply_status `{JsonCompact} status v : reply_status (json_reply status v) = status.
Proof. unfold json_reply. by destruct (to_vec_total v) as [bs ->]. Qed.

Lemma proxy_error_status `{JsonCompact} status message stage kind :
  reply_status (proxy_error_response status message stage kind) = status.
Proof. apply json_reply_status. Qed.

(** What the handlers use besides the blob store leaves its files alone. *)
Class RouterFrames (W : Type) `{FileSystemLaws W} `{ResponseFetcher W} `{InlineUploader W} `{Clock W}
    `{UpstreamClient W} `{LogLib W} : Prop := {
  response_fetch_frame : forall url, frames (response_fetch_url (W := W) url);
  upload_inline_frame : forall config data mime, frames (upload_inline (W := W) config data mime);
  upstream_frame : forall request, frames (send_upstream (W := W) request);
  unix_ms_frame : frames (now_unix_ms (W := W));
  sleep_frame : forall d, frames (sleep (W := W) d);
  rfc3339_frame : frames (now_rfc3339 (W := W));
  warn_frame : forall path status duration, frames (warn_slow_request (W := W) path status duration);
}.

(** * The blob store in another world *)

Lemma rep_map_world {V V'} `{FileSystemLaws V} `{FileSystemLaws V'} (f : V -> V')
    (s : BlobRuntimeInner V) L :
  (forall p, fs_content (f (world s)) p = fs_content (world s) p) ->
  rep s L -> rep (map_world f s) L.
Proof.
  intros Hf []. split; try done. intros id h bs Hl.
  destruct (rep_stored id h bs Hl) as (? & ? & Hst). split; [done|]. split; [done|].
  destruct (storage h); [done..|]. destruct Hst as [-> Hc]. split; [done|]. simpl. by rewrite Hf.
Qed.

Section store.
#[local] Set Default Proof Using "All".
Context {W : Type} `{FileSystemLaws W}.
Abbreviation Rt := (BlobRuntimeInner W).

Lemma remove_keeps_removed h id (s : Rt) r s' :
  remove h s = (r, s') -> id ∈ removed s -> id ∈ removed s'.
Proof.
  unfold remove. destruct (decide _); [by intros [= <- <-]|]. intros E Hin.
  assert (Hin' : id ∈ {[blob_id h]} ∪ removed s) by set_solver. revert E.
  destruct (storage h) as [bs|bs|path]; [by intros [= <- <-]..|].
  unfold on_world. simpl. destruct (fs_remove_file _ _) as [r0 w].
  destruct r0 as [u|e]; [|destruct (io_not_found e)]; by intros [= <- <-].
Qed.

(** Removing the blobs of replacements, of which one may occur in several. *)
Lemma remove_all_run reps : forall s L r s',
  rep s L ->
  (forall x, x ∈ reps -> (exists bs, L !! blob_id (replacement_blob x) = Some (replacement_blob x, bs)) \/
                         blob_id (replacement_blob x) ∈ removed s) ->
  remove_all reps s = (r, s') ->
  exists L', rep s' L' /\
    (forall id, (forall x, x ∈ reps -> blob_id (replacement_blob x) <> id) -> L' !! id = L !! id) /\
    (forall id x, L' !! id = Some x -> L !! id = Some x) /\
    (r = Ok tt -> forall x, x ∈ reps -> L' !! blob_id (replacement_blob x) = None).
Proof.
  induction reps as [|x reps IH]; intros s L r s' Hrep Hlive; unfold remove_all; cbn [ste_for].
  { intros [= <- <-]. exists L. split_and!; [done..|]. by intros _ x ?%not_elem_of_nil. }
  unfold ste_bind. destruct (remove (replacement_blob x) s) as [r1 s1] eqn:E1.
  assert (Hstep : exists L1, rep s1 L1 /\ L1 = delete (blob_id (replacement_blob x)) L /\
    (forall y, y ∈ reps -> (exists bs, L1 !! blob_id (replacement_blob y) = Some (replacement_blob y, bs)) \/
                           blob_id (replacement_blob y) ∈ removed s1)).
  { destruct (Hlive x ltac:(by left)) as [[bs Hl]|Hrm].
    - destruct (remove_spec s L _ _ bs r1 s1 Hrep Hl E1) as (Hrep1 & Hrm1 & _).
      exists (delete (blob_id (replacement_blob x)) L). split; [done|]. split; [done|].
      intros y Hy. destruct (decide (blob_id (replacement_blob y) = blob_id (replacement_blob x))) as [->|Hne].
      { by right. }
      destruct (Hlive y ltac:(by right)) as [[bs' Hl']|Hrm'].
      + left. exists bs'. by rewrite lookup_delete_ne.
      + right. eapply remove_keeps_removed; [exact E1|done].
    - assert (Hn : L !! blob_id (replacement_blob x) = None).
      { destruct (L !! _) as [e|] eqn:El; [|done].
        destruct (rep_live s L Hrep _ (ex_intro _ e El)) as [_ Hnr]. done. }
      unfold remove in E1. rewrite decide_True in E1 by done. injection E1 as <- <-.
      exists L. split; [done|]. split; [by rewrite delete_id|]. intros y Hy. apply Hlive. by right. }
  destruct Hstep as (L1 & Hrep1 & HL1 & Hlive1).
  assert (Hsub1 : forall id e, L1 !! id = Some e -> L !! id = Some e).
  { intros id e. rewrite HL1. by intros [_ ?]%lookup_delete_Some. }
  assert (Hsame1 : forall id, blob_id (replacement_blob x) <> id -> L1 !! id = L !! id).
  { intros id Hne. rewrite HL1. by rewrite lookup_delete_ne. }
  destruct r1 as [[]|e].
  - intros Hrun. destruct (IH s1 L1 r s' Hrep1 Hlive1 Hrun) as (L' & Hrep' & Hsame & Hsub & Hgone).
    exists L'. split; [done|]. split_and!.
    + intros id Hid. rewrite Hsame by (intros y Hy; apply Hid; by right).
      apply Hsame1. apply Hid. by left.
    + auto.
    + intros Hr y [->|Hy]%elem_of_cons; [|by apply Hgone].
      destruct (L' !! blob_id (replacement_blob x)) as [e|] eqn:El; [|done].
      apply Hsub in El. rewrite HL1, lookup_delete_eq in El. done.
  - intros [= <- <-]. exists L1. split; [done|]. split_and!; [|done|done].
    intros id Hid. apply Hsame1. apply Hid. by left.
Qed.
End store.

(** * Forwarding to the Gemini upstream *)

Section forwarding.
#[local] Set Default Proof Using "All".
Context `{HttpLib} `{JsonCompact} `{Displays} `{Base64Laws} `{ImageCodec} `{BodyLib} {W : Type}
  `{FetchLaws W} `{DuplexLaws W} `{!SchedulerLaws W}
  `{ResponseFetcher W} `{InlineUploader W} `{Clock W} `{UpstreamClient W} `{LogLib W} `{!RouterFrames W}.
Abbreviation App := (AppState W).

Lemma frames_now : frames (instant_now (W := W)).
Proof. intros w a w' E. exact (instant_now_frame w a w' E). Qed.

(** A step made of parts: results, parts that are done, and tests. *)
Ltac frame := repeat first
  [ apply frames_ret | apply frames_now | apply upstream_frame | apply unix_ms_frame
  | apply sleep_frame | apply upload_inline_frame | apply response_fetch_frame
  | solve [auto]
  | apply frames_st_bind; [|intros] | apply frames_ste_bind; [|intros] | apply frames_for; intros
  | case_match ].

Lemma frames_elapsed started : frames (elapsed (W := W) started).
Proof. unfold elapsed. frame. Qed.

Lemma frames_inline_data_of mode service config url :
  frames (inline_data_of (W := W) (H2 := response_fetcher) mode service config url).
Proof.
  unfold inline_data_of. assert (Hf := frames_fetch_image url DEFAULT_MAX_IMAGE_BYTES false). frame.
Qed.

Lemma frames_finish response mode service config :
  frames (finish_gemini_response (W := W) response mode service config).
Proof.
  assert (Hi := frames_inline_data_of mode service config). assert (He := frames_elapsed).
  unfold finish_gemini_response, handle_non_stream_response, passed_on,
    normalize_special_markdown_image_response, upload_stage. frame.
Qed.

Lemma frames_post url headers body : frames (post_json (W := W) url headers body).
Proof. unfold post_json. frame. Qed.

Lemma frames_poll_loop resolved id deadline fuel : forall failures,
  frames (poll_loop (W := W) fuel resolved id deadline failures).
Proof. induction fuel as [|fuel IH]; intros failures; cbn [poll_loop]; unfold poll_again; frame. Qed.

Lemma frames_aiapidev resolved target_path query body mode service config :
  frames (run_aiapidev_task (W := W) resolved target_path query body mode service config).
Proof.
  assert (Hi := frames_inline_data_of mode service config). assert (Hp := frames_post).
  assert (Hl := frames_poll_loop).
  unfold run_aiapidev_task, handle_aiapidev_response, poll_aiapidev_task, finish_task,
    normalize_aiapidev_task_response. frame.
Qed.

Lemma frames_openai response config : frames (handle_openai_image_response (W := W) response config).
Proof.
  assert (He := frames_elapsed).
  unfold handle_openai_image_response, passed_on, upload_openai_image. frame.
Qed.

(** The admin state after some cache hits of the request. *)
Definition after_hits (hits : nat) (admin : option AdminState) : option AdminState :=
  (fun admin => mkAdminState (password admin) (logs admin) (bumped hits (stats admin))) <$> admin.

(** What the download of the request's images does to the server. *)
Lemma materialize_tracked_run body (s : App) L r hits s' :
  rep (app_runtime s) L -> (next_id_counter (app_runtime s) + 7 < u64_max)%Z ->
  materialize_tracked body s = ((r, hits), s') ->
  exists rt L', s' = set_admin (after_hits (length hits) (app_admin s)) (set_runtime rt s) /\
    L ⊆ L' /\ rep rt L' /\ (next_id_counter rt <= next_id_counter (app_runtime s) + 7)%Z /\
    match r with
    | Err _ => True
    | Ok m =>
        RequestMaterialize.request m = body /\
        (forall id, is_Some (L' !! id) -> is_Some (L !! id) \/
           exists x, x ∈ replacements m /\ blob_id (replacement_blob x) = id) /\
        Forall (fun x => L !! blob_id (replacement_blob x) = None) (replacements m) /\
        exists refs, scan_request_image_urls body = Ok refs /\
          Forall2 (fun ref x => RequestEncode.json_pointer x = RequestScan.json_pointer ref /\
            exists bs, L' !! blob_id (replacement_blob x) = Some (replacement_blob x, bs) /\
              downloaded (request_services s) (RequestScan.url ref)
                (RequestEncode.replacement_mime_type x) bs)
            refs (replacements m)
    end.
Proof.
  intros Hrep Hlt. unfold materialize_tracked.
  match goal with |- context [materialize_request_images_with_services body ?sv ?rt] => set (tracked := rt) end.
  destruct (materialize_request_images_with_services body (request_services s) tracked) as [r0 t] eqn:E.
  intros [= <- <- <-].
  assert (Hcount := only_hits_counted _ _ (quiet_materialize _ _ _ _ _ E) eq_refl).
  assert (Hrep0 : rep tracked L) by (by apply rep_map_world).
  destruct (materialize_request_images_run tracked L body (request_services s) r0 t Hrep0 Hlt E)
    as (L' & Hsub & Hrep' & Hn & Hr).
  exists (map_world tracked_world t), L'. split.
  { f_equal. unfold after_hits. destruct (app_admin s) as [admin|] eqn:Ea; [|done]. simpl.
    rewrite Hcount. simpl. by rewrite ?Ea. }
  split; [done|]. split; [by apply rep_map_world|]. split; [done|].
  destruct r0 as [m|e]; [|done]. destruct Hr as (Hreq & Hnew & Hfresh & refs & Hscan & blob_of & Hall).
  split; [done|]. split; [done|]. split; [done|]. exists refs. split; [done|].
  eapply Forall2_impl; [exact Hall|]. intros ref x (Hp & _ & bs & [Hl _] & Hd). split; [done|].
  exists bs. split; [done|]. by apply downloaded_tracked.
Qed.

(** ** What a step of the server does *)

Lemma on_runtime_inv {A} (m : St (BlobRuntimeInner W) A) (s : App) a s' :
  on_runtime m s = (a, s') -> exists rt, m (app_runtime s) = (a, rt) /\ s' = set_runtime rt s.
Proof. unfold on_runtime. destruct (m (app_runtime s)) as [a' rt]. intros [= <- <-]. by exists rt. Qed.

Lemma st_try_inv {A B} (m : StE App A) fail (k : A -> St App (Result ForwardRequestFailure B)) s r s' :
  st_try m fail k s = (r, s') ->
  (exists e, m s = (Err e, s') /\ r = Err (fail e)) \/
  (exists a s1, m s = (Ok a, s1) /\ k a s1 = (r, s')).
Proof.
  unfold st_try. destruct (m s) as [[a|e] s1]; [by right; exists a, s1|].
  intros [= <- <-]. left. by exists e.
Qed.

Lemma st_bind_inv {A B} (m : St App A) (f : A -> St App B) s b s' :
  st_bind m f s = (b, s') -> exists a s1, m s = (a, s1) /\ f a s1 = (b, s').
Proof. unfold st_bind. destruct (m s) as [a s1]. by exists a, s1. Qed.

Lemma net_run {A} (m : St W A) (s : App) L a s' :
  frames m -> rep (app_runtime s) L -> on_net m s = (a, s') ->
  exists rt, s' = set_runtime rt s /\ rep rt L /\ next_id_counter rt = next_id_counter (app_runtime s) /\
    m (world (app_runtime s)) = (a, world rt).
Proof.
  intros Hm Hrep (rt & E & ->)%on_runtime_inv. exists rt. split; [done|]. revert E. unfold on_world.
  destruct (m (world (app_runtime s))) as [a' w'] eqn:E. intros [= <- <-]. split_and!; [|done..].
  apply rep_set_world_same; [done|]. by eapply Hm.
Qed.

Lemma now_run (s : App) L t s' : rep (app_runtime s) L -> now s = (t, s') ->
  exists rt, s' = set_runtime rt s /\ rep rt L /\ next_id_counter rt = next_id_counter (app_runtime s).
Proof.
  intros Hrep E. destruct (net_run _ _ _ _ _ frames_now Hrep E) as (rt & ? & ? & ? & _). by exists rt.
Qed.

Lemma since_run t (s : App) L ms s' : rep (app_runtime s) L -> since t s = (ms, s') ->
  exists rt, s' = set_runtime rt s /\ rep rt L /\ next_id_counter rt = next_id_counter (app_runtime s).
Proof.
  intros Hrep E. destruct (net_run _ _ _ _ _ (frames_elapsed t) Hrep E) as (rt & ? & ? & ? & _).
  by exists rt.
Qed.

Lemma read_upstream_body_run (s : App) L h doc r s' :
  rep (app_runtime s) L -> L !! blob_id h = Some (h, doc) -> read_upstream_body h s = (r, s') ->
  exists rt, s' = set_runtime rt s /\ rep rt L /\
    forall log, r = Ok log -> log = if admin_enabled s then maybe_sanitize_json_for_log doc true else None.
Proof.
  intros Hrep Hl. unfold read_upstream_body. destruct (admin_enabled s).
  - intros E. unfold ste_bind in E. destruct (on_runtime (read_bytes h) s) as [r0 s0] eqn:E0.
    apply on_runtime_inv in E0 as (rt & E0 & ->).
    destruct (read_bytes_spec _ _ _ _ _ _ _ Hrep Hl E0) as [Hrt Hr].
    destruct r0 as [bs|e]; injection E as <- <-; exists rt; (split; [done|]; split; [done|]); [|done].
    intros log [= <-]. by rewrite Hr.
  - intros [= <- <-]. exists (app_runtime s). split; [by destruct s|]. split; [done|]. by intros log [= <-].
Qed.

Lemma io_not_reqwest {A} (m : St W (Result IoError A)) rt err rt' :
  io m rt = (Err err, rt') -> forall e, err <> ReqwestErr e.
Proof. intros (r & w & _ & _ & Hr)%io_inv e. destruct r; [done|]. by injection Hr as ->. Qed.

Lemma read_not_reqwest h (s : App) err s' :
  read_upstream_body h s = (Err err, s') -> forall e, err <> ReqwestErr e.
Proof.
  unfold read_upstream_body, on_runtime, read_bytes, ste_bind. destruct (admin_enabled s); [|done].
  destruct (storage h) as [b|b|path]; [done..|].
  destruct (io (fs_read path) (app_runtime s)) as [[bs|e0] rt] eqn:E; [done|].
  intros [= <- <-]. by eapply io_not_reqwest.
Qed.

Lemma open_not_reqwest h n rt err rt' :
  open_reader h n rt = (Err err, rt') -> forall e, err <> ReqwestErr e.
Proof. unfold open_reader. destruct (storage h); [done..|apply io_not_reqwest]. Qed.

Lemma remove_not_reqwest h rt err rt' :
  remove (W := W) h rt = (Err err, rt') -> forall e, err <> ReqwestErr e.
Proof.
  unfold remove. destruct (decide _); [done|]. destruct (storage h) as [b|b|path]; [done..|].
  unfold on_world. destruct (fs_remove_file _ _) as [[u|e] w]; [done|].
  destruct (io_not_found e); [done|]. by intros [= <- <-].
Qed.

Lemma remove_all_not_reqwest reps : forall rt err rt',
  remove_all (W := W) reps rt = (Err err, rt') -> forall e, err <> ReqwestErr e.
Proof.
  induction reps as [|x reps IH]; intros rt err rt'; unfold remove_all; cbn [ste_for]; [done|].
  unfold ste_bind. destruct (remove _ rt) as [[[]|e1] rt1] eqn:E1; [apply IH|].
  intros [= <- <-]. by eapply remove_not_reqwest.
Qed.

(** ** The exchange *)

(** What goes out and what comes back, for the document [doc]. *)
Definition answered (s : App) (resolved : ResolvedUpstream) (url : string) (stream : ReadStream)
    (content_type accept : option bytes) (output_mode : OutputMode) (length : Z) (reply : Reply)
    : Prop :=
  exists w1 response w2 w3 durations w4,
    send_upstream (mkHttpRequest "POST" url
      (upstream_headers length content_type accept (api_key resolved))
      (BodyStream (FromBlob stream))) w1 = (Ok response, w2) /\
    finish_gemini_response response output_mode (has_response_fetch_service s) (app_config s) w3 =
      (Ok (reply, durations), w4).

Definition exchanged (s : App) (resolved : ResolvedUpstream) (target_path : string)
    (query : option string) (content_type accept : option bytes) (output_mode : OutputMode)
    (doc : bytes) (reply : Reply) : Prop :=
  exists url stream,
    build_upstream_url (base_url resolved) target_path query = Ok url /\
    (read_error stream = None -> joined (read_chunks_of stream) = doc) /\
    answered s resolved url stream content_type accept output_mode (u64_wrap (blen doc)) reply.

(** The blobs of the exchange are gone. *)
Definition released (L' : gmap Z (BlobHandle * bytes)) (reps : list RequestReplacement)
    (body : BlobHandle) : Prop :=
  L' !! blob_id body = None /\ forall x, x ∈ reps -> L' !! blob_id (replacement_blob x) = None.

(** At most they are gone. *)
Definition others_kept (L L' : gmap Z (BlobHandle * bytes)) (reps : list RequestReplacement)
    (body : BlobHandle) : Prop :=
  L' ⊆ L /\
  forall id, id <> blob_id body -> (forall x, x ∈ reps -> blob_id (replacement_blob x) <> id) ->
    L' !! id = L !! id.

(** The cache hits that are logged. *)
Definition logged_hits (r : Forwarded) : list string :=
  entry_request_raw_image_cache_hits
    (match r with Ok (_, entry) => entry | Err f => failure_entry f end).

Definition failed_in_transport (f : ForwardRequestFailure) : Prop :=
  exists e, failure_error f = ReqwestErr e.

Lemma failed_locally hits entry err :
  (forall e, err <> ReqwestErr e) -> ~ failed_in_transport (failed_with_hits hits entry err).
Proof. intros Hloc [e He]. by destruct (Hloc e). Qed.

Lemma send_encoded_run resolved url stream content_type accept output_mode hits enc log t entry doc
    (s : App) L r s' :
  rep (app_runtime s) L -> L !! blob_id (body_blob enc) = Some (body_blob enc, doc) ->
  send_encoded resolved url stream content_type accept output_mode hits enc log t entry s = (r, s') ->
  exists rt, s' = set_runtime rt s /\ rep rt (delete (blob_id (body_blob enc)) L) /\
    logged_hits r = hits /\
    match r with
    | Ok (reply, _) =>
        answered s resolved url stream content_type accept output_mode (content_length enc) reply
    | Err _ => True
    end.
Proof.
  intros Hrep Hl. unfold send_encoded. intros (sent & s1 & E1 & E)%st_bind_inv.
  destruct (net_run _ _ L _ _ (upstream_frame _) Hrep E1) as (rt1 & -> & Hrep1 & _ & Hsent).
  destruct sent as [response|err];
    (apply st_try_inv in E as [(e & E2 & ->)|(u & s2 & E2 & E)];
     apply on_runtime_inv in E2 as (rt2 & E2 & ->);
     destruct (remove_spec _ _ _ _ _ _ _ Hrep1 Hl E2) as (Hrep2 & _)).
  1,3: by exists rt2.
  2: { injection E as <- <-. by exists rt2. }
  apply st_bind_inv in E as (ms & s3 & E3 & E).
  destruct (since_run _ (set_runtime rt2 s) _ _ _ Hrep2 E3) as (rt3 & -> & Hrep3 & _).
  apply st_bind_inv in E as (handled & s4 & E4 & E).
  destruct (net_run _ (set_runtime rt3 s) _ _ _ (frames_finish _ _ _ _) Hrep3 E4)
    as (rt4 & -> & Hrep4 & _ & Hdone).
  injection E as <- <-. exists rt4. split; [done|]. split; [done|].
  split; [by destruct handled as [[reply durations]|err]|]. destruct handled as [[reply durations]|err]; [|done].
  do 6 eexists. split; [exact Hsent|exact Hdone].
Qed.

Lemma exchange_run resolved target_path query content_type accept output_mode hits m enc entry doc
    (s : App) L r s' :
  rep (app_runtime s) L -> L !! blob_id (body_blob enc) = Some (body_blob enc, doc) ->
  content_length enc = u64_wrap (blen doc) ->
  Forall (fun x => exists bs, L !! blob_id (replacement_blob x) = Some (replacement_blob x, bs))
    (replacements m) ->
  Forall (fun x => blob_id (replacement_blob x) <> blob_id (body_blob enc)) (replacements m) ->
  exchange resolved target_path query content_type accept output_mode hits m enc entry s = (r, s') ->
  exists rt L', s' = set_runtime rt s /\ rep rt L' /\ others_kept L L' (replacements m) (body_blob enc) /\
    logged_hits r = hits /\
    match r with
    | Ok (reply, _) =>
        released L' (replacements m) (body_blob enc) /\
        exchanged s resolved target_path query content_type accept output_mode doc reply
    | Err f => failed_in_transport f -> released L' (replacements m) (body_blob enc)
    end.
Proof.
  intros Hrep Hl Hlen Hreps Hne. unfold exchange.
  intros (t0 & s0 & E0 & E)%st_bind_inv. destruct (now_run _ _ _ _ Hrep E0) as (rt0 & -> & Hrep0 & _).
  apply st_try_inv in E as [(e & E1 & ->)|([] & s1 & E1 & E)];
    apply on_runtime_inv in E1 as (rt1 & E1 & ->);
    destruct (remove_all_run _ _ L _ _ Hrep0 (fun x Hx => or_introl (proj1 (Forall_forall _ _) Hreps x Hx)) E1)
      as (L1 & Hrep1 & Hsame1 & Hsub1 & Hgone1); simpl in Hrep1;
    (assert (Hkept : others_kept L L1 (replacements m) (body_blob enc))
       by (split; [by apply map_subseteq_spec|by intros id _; apply Hsame1])).
  { exists rt1, L1. split_and!; [done..|]. intros []%failed_locally. by eapply remove_all_not_reqwest. }
  assert (Hl1 : L1 !! blob_id (body_blob enc) = Some (body_blob enc, doc)).
  { rewrite Hsame1; [done|]. by apply Forall_forall. }
  apply st_try_inv in E as [(e & E2 & ->)|(log & s2 & E2 & E)];
    destruct (read_upstream_body_run (set_runtime rt1 s) L1 _ _ _ _ Hrep1 Hl1 E2) as (rt2 & -> & Hrep2 & _).
  { exists rt2, L1. split_and!; [done..|]. intros []%failed_locally. by eapply read_not_reqwest. }
  apply st_try_inv in E as [(e & E3 & ->)|(url & s3 & E3 & E)].
  { injection E3 as E3 <-. exists rt2, L1. split_and!; [done..|]. intros []%failed_locally. intros re ->.
    revert E3. unfold build_upstream_url. by destruct (url_parse (base_url resolved)). }
  apply ste_lift_Ok in E3 as [Hurl ->].
  assert (Hpos : (0 < READER_STREAM_BYTES)%nat) by (unfold READER_STREAM_BYTES; lia).
  apply st_try_inv in E as [(e & E4 & ->)|(stream & s4 & E4 & E)];
    apply on_runtime_inv in E4 as (rt4 & E4 & ->);
    destruct (open_reader_spec _ _ _ _ _ _ _ _ Hrep2 Hl1 Hpos E4) as [Hrep4 Hstream].
  { exists rt4, L1. split_and!; [done..|]. intros []%failed_locally. by eapply open_not_reqwest. }
  destruct (send_encoded_run _ _ _ _ _ _ _ _ _ _ _ doc (set_runtime rt4 s) L1 _ _ Hrep4 Hl1 E)
    as (rt5 & -> & Hrep5 & Hhits & Hr).
  exists rt5, (delete (blob_id (body_blob enc)) L1). split; [done|]. split; [done|].
  assert (Hrel : released (delete (blob_id (body_blob enc)) L1) (replacements m) (body_blob enc)).
  { split; [apply lookup_delete_eq|]. intros x Hx. apply lookup_delete_None. right. by apply Hgone1. }
  split.
  { split; [etrans; [apply delete_subseteq|apply Hkept]|]. intros id Hid Hx.
    rewrite lookup_delete_ne by done. by apply Hkept. }
  split; [done|].
  destruct r as [[reply entry']|f]; [|done]. split; [done|]. exists url, stream. split; [done|].
  split; [by apply Hstream|]. by rewrite <- Hlen.
Qed.

Lemma replacements_live_all L reps :
  Forall (fun x => exists bs, L !! blob_id (replacement_blob x) = Some (replacement_blob x, bs)) reps ->
  replacements_live L (fun h => from_option snd EmptyString (L !! blob_id h)) reps.
Proof.
  intros Hall p x Hx. apply replacement_map_elem in Hx.
  destruct (proj1 (Forall_forall _ _) Hall x Hx) as [bs Hl]. by rewrite Hl.
Qed.

(** The store after the exchange, when [L1] has the images' blobs besides [L]. *)
Lemma released_exactly L L1 L' reps body doc :
  L ⊆ L1 -> L1 !! blob_id body = None ->
  (forall id, is_Some (L1 !! id) -> is_Some (L !! id) \/
     exists x, x ∈ reps /\ blob_id (replacement_blob x) = id) ->
  Forall (fun x => L !! blob_id (replacement_blob x) = None) reps ->
  others_kept (<[blob_id body := (body, doc)]> L1) L' reps body ->
  L ⊆ L' /\ (released L' reps body -> L' = L).
Proof.
  intros Hsub Hb Hnew Hfresh [_ Hkept]. assert (Hb0 : L !! blob_id body = None).
  { destruct (L !! blob_id body) as [e|] eqn:E; [|done]. by rewrite (lookup_weaken _ _ _ _ E Hsub) in Hb. }
  assert (Hold : forall id e, L !! id = Some e -> L' !! id = Some e).
  { intros id e Hl. rewrite Hkept, lookup_insert_ne.
    - by eapply lookup_weaken.
    - intros <-. by rewrite Hb0 in Hl.
    - intros ->. by rewrite Hb0 in Hl.
    - intros x Hx <-. by rewrite (proj1 (Forall_forall _ _) Hfresh x Hx) in Hl. }
  split; [by apply map_subseteq_spec|]. intros [Hb' Hgone]. apply map_eq. intros id.
  destruct (L !! id) as [e|] eqn:E; [by apply Hold|].
  destruct (L' !! id) as [e|] eqn:E'; [|done].
  assert (Hid : id <> blob_id body) by (intros ->; by rewrite Hb' in E').
  assert (Hx : forall x, x ∈ reps -> blob_id (replacement_blob x) <> id).
  { intros x Hx <-. by rewrite (Hgone x Hx) in E'. }
  rewrite Hkept, lookup_insert_ne in E' by done.
  destruct (Hnew id) as [[e' He]|(x & Hin & Hxid)]; [by eexists|by rewrite He in E|by destruct (Hx x Hin)].
Qed.

(** The document that goes upstream for [body]: at every image URL it has the base64 data and the type
    that a download of the URL has yielded. *)
Definition forwarded_document (services : RequestMaterializeServices) (body : Value) (doc : bytes) : Prop :=
  exists refs reps content,
    scan_request_image_urls body = Ok refs /\
    Forall2 (fun ref x => RequestEncode.json_pointer x = RequestScan.json_pointer ref /\
      downloaded services (RequestScan.url ref) (RequestEncode.replacement_mime_type x)
        (content (replacement_blob x))) refs reps /\
    to_vec (encoded_document content body reps) = Ok doc.

(** The state once the images are there: [L1] has their blobs besides those of [L]. *)
Definition images_stored (services : RequestMaterializeServices) (L L1 : gmap Z (BlobHandle * bytes))
    (body : Value) (m : MaterializedRequestImages) : Prop :=
  RequestMaterialize.request m = body /\
  (forall id, is_Some (L1 !! id) -> is_Some (L !! id) \/
     exists x, x ∈ replacements m /\ blob_id (replacement_blob x) = id) /\
  Forall (fun x => L !! blob_id (replacement_blob x) = None) (replacements m) /\
  exists refs, scan_request_image_urls body = Ok refs /\
    Forall2 (fun ref x => RequestEncode.json_pointer x = RequestScan.json_pointer ref /\
      exists bs, L1 !! blob_id (replacement_blob x) = Some (replacement_blob x, bs) /\
        downloaded services (RequestScan.url ref) (RequestEncode.replacement_mime_type x) bs)
      refs (replacements m).

Lemma images_stored_live services L L1 body m :
  images_stored services L L1 body m ->
  Forall (fun x => exists bs, L1 !! blob_id (replacement_blob x) = Some (replacement_blob x, bs))
    (replacements m).
Proof.
  intros (_ & _ & _ & refs & _ & Hall).
  induction Hall as [|ref x refs reps (_ & bs & Hl & _) _ IH]; constructor; [by exists bs|done].
Qed.

Lemma images_stored_document services L L1 body m doc :
  images_stored services L L1 body m ->
  to_vec (encoded_document (fun h => from_option snd EmptyString (L1 !! blob_id h))
            (RequestMaterialize.request m) (replacements m)) = Ok doc ->
  forwarded_document services body doc.
Proof.
  intros (-> & _ & _ & refs & Hscan & Hall) Hdoc. exists refs, (replacements m). eexists.
  split; [exact Hscan|]. split; [|exact Hdoc].
  eapply Forall2_impl; [exact Hall|]. intros ref x (Hp & bs & Hl & Hd). split; [done|]. by rewrite Hl.
Qed.

Lemma encode_and_exchange_run resolved target_path query content_type accept output_mode hits m t mms
    entry body (s : App) L L1 r s' :
  rep (app_runtime s) L1 -> (next_id_counter (app_runtime s) < u64_max)%Z ->
  L ⊆ L1 -> images_stored (request_services s) L L1 body m ->
  encode_and_exchange resolved target_path query content_type accept output_mode hits m t mms entry s
    = (r, s') ->
  exists rt L', s' = set_runtime rt s /\ rep rt L' /\ L ⊆ L' /\ logged_hits r = hits /\
    match r with
    | Ok (reply, _) => L' = L /\ exists doc, forwarded_document (request_services s) body doc /\
        exchanged s resolved target_path query content_type accept output_mode doc reply
    | Err _ => True
    end.
Proof.
  intros Hrep Hlt Hsub Hstored. assert (Hlive := images_stored_live _ _ _ _ _ Hstored).
  destruct (id Hstored) as (_ & Hnew & Hfresh & _). unfold encode_and_exchange.
  intros (t4 & s4 & E4 & E)%st_bind_inv. destruct (now_run _ _ _ _ Hrep E4) as (rt4 & -> & Hrep4 & Hn4).
  apply st_bind_inv in E as (encoded & s5 & E5 & E). apply on_runtime_inv in E5 as (rt5 & E5 & ->).
  rewrite <- Hn4 in Hlt.
  assert (Henc := encode_request_body_run rt4 L1 _ _ _ _ _ Hrep4 Hlt (replacements_live_all L1 _ Hlive) E5).
  clear E4 E5. destruct encoded as [enc|err].
  2: { destruct Henc as (L2 & Hsub2 & Hrep5). apply st_bind_inv in E as (ms & s6 & E6 & E).
       destruct (since_run _ (set_runtime rt5 s) _ _ _ Hrep5 E6) as (rt6 & -> & Hrep6 & _).
       injection E as <- <-. exists rt6, L2. split_and!; [done..|by etrans|done|done]. }
  destruct Henc as (doc & Hdoc & Hlen & _ & Hb & Hrep5).
  apply st_bind_inv in E as (ems & s6 & E6 & E).
  destruct (since_run _ (set_runtime rt5 s) _ _ _ Hrep5 E6) as (rt6 & -> & Hrep6 & _).
  apply st_bind_inv in E as (pms & s7 & E7 & E).
  destruct (since_run _ (set_runtime rt6 s) _ _ _ Hrep6 E7) as (rt7 & -> & Hrep7 & _).
  assert (Hne : Forall (fun x => blob_id (replacement_blob x) <> blob_id (body_blob enc)) (replacements m)).
  { eapply Forall_impl; [exact Hlive|]. intros x (bs & Hl) Heq. by rewrite Heq, Hb in Hl. }
  apply (exchange_run _ _ _ _ _ _ _ _ _ _ doc (set_runtime rt7 s)
    (<[blob_id (body_blob enc):=(body_blob enc, doc)]> L1)) in E
    as (rt8 & L' & -> & Hrep8 & Hkept & Hh & Hr); [|done|apply lookup_insert_eq|done| |exact Hne].
  2: { apply Forall_forall. intros x Hx. destruct (proj1 (Forall_forall _ _) Hlive x Hx) as [bs Hl].
       exists bs. rewrite lookup_insert_ne; [done|]. intros Heq.
       by apply (proj1 (Forall_forall _ _) Hne x Hx). }
  destruct (released_exactly _ _ _ _ _ _ Hsub Hb Hnew Hfresh Hkept) as [Hsub' Hexact].
  exists rt8, L'. split_and!; [done..|].
  destruct r as [[reply entry']|f]; [|done]. destruct Hr as [Hrel Hex]. split; [by apply Hexact|].
  exists doc. split; [|exact Hex]. by eapply images_stored_document.
Qed.

Lemma forward_to_gemini_run resolved target_path query content_type accept body output_mode entry
    (s : App) L r s' :
  rep (app_runtime s) L -> (next_id_counter (app_runtime s) + 8 < u64_max)%Z ->
  forward_to_gemini resolved target_path query content_type accept body output_mode entry s = (r, s') ->
  exists rt L', s' = set_admin (after_hits (length (logged_hits r)) (app_admin s)) (set_runtime rt s) /\
    rep rt L' /\ L ⊆ L' /\
    match r with
    | Ok (reply, _) => L' = L /\ exists doc, forwarded_document (request_services s) body doc /\
        exchanged s resolved target_path query content_type accept output_mode doc reply
    | Err _ => True
    end.
Proof.
  intros Hrep Hlt. unfold forward_to_gemini.
  intros (t0 & s0 & E0 & E)%st_bind_inv. destruct (now_run _ _ _ _ Hrep E0) as (rt0 & -> & Hrep0 & Hn0).
  apply st_bind_inv in E as (t1 & s1 & E1 & E).
  destruct (now_run (set_runtime rt0 s) _ _ _ Hrep0 E1) as (rt1 & -> & Hrep1 & Hn1). simpl in Hn1.
  apply st_bind_inv in E as ([materialized hits] & s2 & E2 & E).
  destruct (materialize_tracked_run body (set_runtime rt1 s) L _ _ _ Hrep1 ltac:(simpl; lia) E2)
    as (rt2 & L1 & -> & Hsub & Hrep2 & Hn2 & Hm). simpl in Hn2. clear E0 E1 E2.
  set (base := set_admin (after_hits (length hits) (app_admin s)) s).
  destruct materialized as [m|err]; apply st_bind_inv in E as (ms & s3 & E3 & E);
    destruct (since_run _ (set_runtime rt2 base) _ _ _ Hrep2 E3) as (rt3 & -> & Hrep3 & Hn3); simpl in Hn3.
  2: { injection E as <- <-. by exists rt3, L1. }
  apply (encode_and_exchange_run _ _ _ _ _ _ _ _ _ _ _ body (set_runtime rt3 base) L L1) in E
    as (rt4 & L' & -> & Hrep4 & Hsub' & Hh & Hr); [|done|simpl; lia|done|done].
  exists rt4, L'. by rewrite Hh.
Qed.

(** ** The other upstreams, and the choice between them *)

Lemma after_no_hits admin : after_hits 0 admin = admin.
Proof. by destruct admin as [[]|]. Qed.

Lemma set_nothing (s : App) : s = set_runtime (app_runtime s) s.
Proof. by destruct s. Qed.

Lemma forward_to_aiapidev_run resolved target_path query body output_mode entry (s : App) L r s' :
  rep (app_runtime s) L ->
  forward_to_aiapidev resolved target_path query body output_mode entry s = (r, s') ->
  exists rt, s' = set_runtime rt s /\ rep rt L /\
    logged_hits r = entry_request_raw_image_cache_hits entry /\
    match r with
    | Ok (reply, _) => exists w w',
        run_aiapidev_task resolved (rewrite_aiapidev_model_path target_path) query
          (rewrite_aiapidev_request_body (resolved_external_image_proxy_prefix (app_config s))
             (image_fetch_external_proxy_domains (app_config s)) body)
          output_mode (has_response_fetch_service s) (app_config s) w = (reply, w')
    | Err _ => True
    end.
Proof.
  intros Hrep. unfold forward_to_aiapidev.
  intros [(e & E0 & ->)|(log & s0 & [_ ->]%ste_lift_Ok & E)]%st_try_inv.
  { injection E0 as _ <-. exists (app_runtime s). split; [apply set_nothing|done]. }
  apply st_bind_inv in E as (t & s1 & E1 & E). destruct (now_run _ _ _ _ Hrep E1) as (rt1 & -> & Hrep1 & _).
  apply st_bind_inv in E as (reply & s2 & E2 & E).
  destruct (net_run _ (set_runtime rt1 s) _ _ _ (frames_aiapidev _ _ _ _ _ _ _) Hrep1 E2)
    as (rt2 & -> & Hrep2 & _ & Hrun).
  apply st_bind_inv in E as (ms & s3 & E3 & E).
  destruct (since_run _ (set_runtime rt2 s) _ _ _ Hrep2 E3) as (rt3 & -> & Hrep3 & _).
  injection E as <- <-. exists rt3. split; [done|]. split; [done|]. split; [done|].
  eexists _, _. exact Hrun.
Qed.

(** What the client's request leads to. *)
Definition led_to (s : App) (resolved : ResolvedUpstream) (target_path : string) (request : Request)
    (reply : Reply) : Prop :=
  exists raw body, to_bytes (rq_body request) MAX_REQUEST_BODY_BYTES = Ok raw /\
    from_slice raw = Ok body /\
    let output_mode := get_output_mode (rq_query request) body in
    if is_aiapidev_base_url (base_url resolved)
    then exists w w', run_aiapidev_task resolved (rewrite_aiapidev_model_path target_path) (rq_query request)
           (rewrite_aiapidev_request_body (resolved_external_image_proxy_prefix (app_config s))
              (image_fetch_external_proxy_domains (app_config s)) body)
           output_mode (has_response_fetch_service s) (app_config s) w = (reply, w')
    else exists doc, forwarded_document (request_services s) body doc /\
           exchanged s resolved target_path (rq_query request)
             (header_get "content-type" (rq_headers request)) (header_get "accept" (rq_headers request))
             output_mode doc reply.

Lemma forward_gemini_request_run resolved target_path request log (s : App) L r s' :
  rep (app_runtime s) L -> (next_id_counter (app_runtime s) + 8 < u64_max)%Z ->
  forward_gemini_request resolved target_path request log s = (r, s') ->
  exists rt L', s' = set_admin (after_hits (length (logged_hits r)) (app_admin s)) (set_runtime rt s) /\
    rep rt L' /\ L ⊆ L' /\
    match r with
    | Ok (reply, _) => L' = L /\ led_to s resolved target_path request reply
    | Err _ => True
    end.
Proof.
  intros Hrep Hlt. unfold forward_gemini_request.
  assert (Hbase : forall rt, rep rt L -> forall s1 (r1 : Forwarded),
    s1 = set_runtime rt s -> logged_hits r1 = [] ->
    s1 = set_admin (after_hits (length (logged_hits r1)) (app_admin s)) (set_runtime rt s)).
  { intros rt _ s1 r1 -> ->. rewrite after_no_hits. by destruct s. }
  intros (t & s0 & E0 & E)%st_bind_inv. destruct (now_run _ _ _ _ Hrep E0) as (rt0 & -> & Hrep0 & Hn0).
  destruct (to_bytes (rq_body request) MAX_REQUEST_BODY_BYTES) as [raw|e] eqn:Eraw.
  2: { injection E as <- <-. exists rt0, L. split_and!; [|done..]. apply Hbase; [done..|]. by destruct log. }
  destruct (from_slice raw) as [body|e] eqn:Ebody; apply st_bind_inv in E as (ms & s1 & E1 & E);
    destruct (since_run _ (set_runtime rt0 s) _ _ _ Hrep0 E1) as (rt1 & -> & Hrep1 & Hn1); simpl in Hn1.
  2: { injection E as <- <-. exists rt1, L. split_and!; [|done..]. apply Hbase; [done..|]. by destruct log. }
  destruct (is_aiapidev_base_url (base_url resolved)) eqn:Eai.
  - apply (forward_to_aiapidev_run _ _ _ _ _ _ (set_runtime rt1 s) L) in E
      as (rt2 & -> & Hrep2 & Hh & Hr); [|done].
    exists rt2, L. split_and!; [|done..|].
    { apply Hbase; [done..|]. rewrite Hh. by destruct log. }
    destruct r as [[reply entry]|f]; [|done]. split; [done|]. exists raw, body. rewrite Eai.
    by split_and!.
  - apply (forward_to_gemini_run _ _ _ _ _ _ _ _ (set_runtime rt1 s) L) in E
      as (rt2 & L' & -> & Hrep2 & Hsub & Hr); [|done|simpl; lia].
    exists rt2, L'. split_and!; [done..|]. destruct r as [[reply entry]|f]; [|done].
    destruct Hr as [-> Hex]. split; [done|]. exists raw, body. rewrite Eai. by split_and!.
Qed.

(** What a request for images leads to. *)
Definition images_answered (s : App) (resolved : ResolvedUpstream) (body : Value) (query : option string)
    (reply : Reply) : Prop :=
  exists url w1 response w2 w3 durations w4,
    build_upstream_url (base_url resolved) "/v1/images/generations" query = Ok url /\
    post_json url [("content-type", "application/json"); ("authorization", "Bearer " +:+ api_key resolved)]
      body w1 = (Ok response, w2) /\
    handle_openai_image_response response (app_config s) w3 = (Ok (reply, durations), w4).

Lemma forward_openai_run resolved body query log (s : App) L r s' :
  rep (app_runtime s) L -> forward_openai_image_request resolved body query log s = (r, s') ->
  exists rt, s' = set_runtime rt s /\ rep rt L /\ logged_hits r = [] /\
    match r with Ok (reply, _) => images_answered s resolved body query reply | Err _ => True end.
Proof.
  intros Hrep. unfold forward_openai_image_request.
  intros [(e & E0 & ->)|(upstream & s0 & [_ ->]%ste_lift_Ok & E)]%st_try_inv.
  { injection E0 as _ <-. exists (app_runtime s). split; [apply set_nothing|by destruct log]. }
  apply st_bind_inv in E as (t & s1 & E1 & E). destruct (now_run _ _ _ _ Hrep E1) as (rt1 & -> & Hrep1 & _).
  apply st_try_inv in E as [(e & E2 & ->)|(url & s2 & [Hurl ->]%ste_lift_Ok & E)].
  { injection E2 as _ <-. exists rt1. by destruct log. }
  apply st_bind_inv in E as (sent & s3 & E3 & E).
  destruct (net_run _ (set_runtime rt1 s) _ _ _ (frames_post _ _ _) Hrep1 E3)
    as (rt3 & -> & Hrep3 & _ & Hsent).
  destruct sent as [response|err]; [|injection E as <- <-; exists rt3; by destruct log].
  apply st_bind_inv in E as (ms & s4 & E4 & E).
  destruct (since_run _ (set_runtime rt3 s) _ _ _ Hrep3 E4) as (rt4 & -> & Hrep4 & _).
  apply st_try_inv in E as [(e & E5 & ->)|([reply durations] & s5 & E5 & E)];
    destruct (net_run _ (set_runtime rt4 s) _ _ _ (frames_openai _ _) Hrep4 E5)
      as (rt5 & -> & Hrep5 & _ & Hdone).
  { exists rt5. by destruct log. }
  injection E as <- <-. exists rt5. split; [done|]. split; [done|]. split; [by destruct log|].
  do 7 eexists. by split_and!.
Qed.
End forwarding.
