(* ===== verification/RouterSteps.v ===== *)
(** router.rs, one access at a time: a request to a model, from its body to the reply, as a sequence of
    accesses to what the requests of a server share: the blob store, the counters of the admin pages
    and the world.  Each program is proved to do, when it is left alone, what the function of the same
    name in Router.v does, and to end. *)

From S2P Require Import Prelude RustStr Json Pointer Ext Samples Interleave Inside.
From S2P Require Import Config Upstream ImageIo RequestScan BlobRuntime BlobSteps RequestEncode FetchService.
From S2P Require Import RequestMaterialize RequestRewrite RequestSteps OpenaiImage Http Admin Upload.
From S2P Require Import ResponseRewrite ResponseMaterialize Query UpstreamClient UpstreamResponse.
From S2P Require Import Aiapidev Tracking Router.
From stdpp Require Import relations options.

(** [p.await.map_err(..)?] *)
Definition prog_try {S A B F} (p : Prog S (Result Error A)) (fail : Error -> F)
    (k : A -> Prog S (Result F B)) : Prog S (Result F B) :=
  bind p (fun r => match r with Ok a => k a | Err err => Ret (Err (fail err)) end).

Notation "'attempting' x ':=' p 'otherwise' f 'in' k" := (prog_try p f (fun x => k))
  (at level 10, x name, p at level 100, f at level 100, k at level 200) : proxy_scope.

(** * What a request sees of the server *)

Section parts.
Context {W : Type}.
Abbreviation App := (AppState W).

(** The blob store. *)
Definition runtime_view : View App unit (BlobRuntimeInner W) := mkView
  (fun t => app_runtime t.1)
  (fun rt t => (set_runtime rt t.1, t.2)).

(** The blob store with the observer of the request's cache hits: it counts them in the statistics
    that all requests share, if there are any, and lists them for the request alone. *)
Definition tracked_view : View App (AdminStats * list string) (BlobRuntimeInner (Tracked W)) := mkView
  (fun t =>
     let stats := match app_admin t.1 with Some admin => stats admin | None => t.2.1 end in
     map_world (fun w => mkTracked w stats t.2.2) (app_runtime t.1))
  (fun rt t =>
     (set_admin ((fun admin => mkAdminState (password admin) (logs admin) (tracked_stats (world rt)))
                 <$> app_admin t.1) (set_runtime (map_world tracked_world rt) t.1),
      (match app_admin t.1 with Some _ => t.2.1 | None => tracked_stats (world rt) end,
       hit_urls (world rt)))).

#[export] Instance runtime_view_laws : ViewLaws runtime_view.
Proof. by split; [intros [[] []]|intros rt [[] []]|intros r r' [[] []]]. Qed.

#[export] Instance tracked_view_laws : ViewLaws tracked_view.
Proof.
  split.
  - by intros [[c [[]|] f1 f2 []] []].
  - by intros [? ? ? ? ? ? []] [[c [[]|] f1 f2 []] []].
  - by intros r r' [[c [[]|] f1 f2 []] []].
Qed.
End parts.

(** * The steps *)

Section steps.
Context `{UrlLib} `{HttpLib} `{JsonCodec} `{Displays} `{Base64} `{ImageCodec} `{BodyLib} {W : Type}
  `{FileSystem W} `{UrlFetcher W} `{ResponseFetcher W} `{!HttpClient W} `{Runtime W} `{DuplexPipe W}
  `{Stopwatch W} `{Clock W} `{JoinOrder W} `{UpstreamClient W} `{InlineUploader W} `{LogLib W}.
Abbreviation App := (AppState W).
Abbreviation Rt := (BlobRuntimeInner W).

(** The server: its configuration and what else of its state never changes. *)
Context (app : App).
Abbreviation c := (cfg (app_runtime app)).

Definition on_runtime_steps {A} (p : Prog Rt A) : Prog App A :=
  ax <~ inside runtime_view p tt ;; Ret ax.1.

Definition now_step : Prog App Z := atomic now.
Definition since_step (started : Z) : Prog App Z := atomic (since started).

Definition materialize_tracked_steps (body : Value)
    : Prog App (Result Error MaterializedRequestImages * list string) :=
  ax <~ inside tracked_view (materialize_steps c body (request_services app)) (stats_default, []) ;;
  Ret (ax.1, ax.2.2).

Definition read_upstream_body_steps (body_blob : BlobHandle)
    : Prog App (Result Error (option SanitizedAdminLog)) :=
  if admin_enabled app then
    request_upstream_bytes <~? on_runtime_steps (read_bytes_steps body_blob) ;;
    Ret (Ok (maybe_sanitize_json_for_log request_upstream_bytes true))
  else Ret (Ok None).

Definition send_encoded_steps (resolved : ResolvedUpstream) (upstream_url : string) (reader : ReadStream)
    (content_type accept : option bytes) (output_mode : OutputMode) (hits : list string)
    (encoded : EncodedRequestBody) (request_upstream : option SanitizedAdminLog)
    (upstream_build_started : Z) (entry : AdminLogEntry) : Prog App Forwarded :=
  sent <~ awaited (on_net (send_upstream (mkHttpRequest "POST" upstream_url
            (upstream_headers (content_length encoded) content_type accept (api_key resolved))
            (BodyStream (FromBlob reader))))) ;;
  match sent with
  | Err err =>
      attempting _ := on_runtime_steps (remove_steps (body_blob encoded))
        otherwise failed_with_hits hits entry in
      Ret (Err (failed_with_hits hits entry (ReqwestErr err)))
  | Ok upstream_response =>
      attempting _ := on_runtime_steps (remove_steps (body_blob encoded))
        otherwise failed_with_hits hits entry in
      upstream_build_ms <~ since_step upstream_build_started ;;
      let entry := with_upstream_build_ms upstream_build_ms entry in
      let entry := with_request_raw_image_cache_hits hits entry in
      let entry := log_request_upstream request_upstream entry in
      handled <~ awaited (on_net (finish_gemini_response upstream_response output_mode
                                    (has_response_fetch_service app) (app_config app))) ;;
      Ret (match handled with
           | Err err => Err (mkForwardRequestFailure err entry)
           | Ok (response, durations) =>
               Ok (response,
                   with_upload_ms (upload_ms durations)
                     (with_response_process_ms (response_process_ms durations)
                        (with_status_code (reply_status response) entry)))
           end)
  end.

Definition exchange_steps (resolved : ResolvedUpstream) (target_path : string) (query : option string)
    (content_type accept : option bytes) (output_mode : OutputMode) (hits : list string)
    (materialized : MaterializedRequestImages) (encoded : EncodedRequestBody) (entry : AdminLogEntry)
    : Prog App Forwarded :=
  upstream_build_started <~ now_step ;;
  attempting _ := on_runtime_steps (remove_all_steps (replacements materialized))
    otherwise failed_with_hits hits entry in
  attempting request_upstream := read_upstream_body_steps (body_blob encoded)
    otherwise failed_with_hits hits entry in
  attempting upstream_url := Ret (build_upstream_url (base_url resolved) target_path query)
    otherwise failed_with_hits hits entry in
  attempting reader := on_runtime_steps (open_reader_steps (body_blob encoded) READER_STREAM_BYTES)
    otherwise failed_with_hits hits entry in
  send_encoded_steps resolved upstream_url reader content_type accept output_mode hits encoded
    request_upstream upstream_build_started entry.

Definition encode_and_exchange_steps (resolved : ResolvedUpstream) (target_path : string)
    (query : option string) (content_type accept : option bytes) (output_mode : OutputMode)
    (hits : list string) (materialized : MaterializedRequestImages)
    (request_image_prepare_started materialize_ms : Z) (entry : AdminLogEntry) : Prog App Forwarded :=
  request_encode_started <~ now_step ;;
  encoded <~ on_runtime_steps (encode_request_body_steps c (RequestMaterialize.request materialized)
                                 (replacements materialized)) ;;
  match encoded with
  | Err err =>
      let entry := log_materialized materialize_ms materialized entry in
      prepare_ms <~ since_step request_image_prepare_started ;;
      Ret (Err (failed_with_hits hits (with_request_image_prepare_ms prepare_ms entry) err))
  | Ok encoded =>
      encode_ms <~ since_step request_encode_started ;;
      prepare_ms <~ since_step request_image_prepare_started ;;
      let entry := with_request_image_prepare_ms prepare_ms entry in
      let entry := log_materialized materialize_ms materialized entry in
      let entry := with_request_encode_ms encode_ms entry in
      exchange_steps resolved target_path query content_type accept output_mode hits materialized
        encoded entry
  end.

Definition forward_to_gemini_steps (resolved : ResolvedUpstream) (target_path : string)
    (query : option string) (content_type accept : option bytes) (body : Value)
    (output_mode : OutputMode) (entry : AdminLogEntry) : Prog App Forwarded :=
  request_image_prepare_started <~ now_step ;;
  request_image_materialize_started <~ now_step ;;
  tracked <~ materialize_tracked_steps body ;;
  let '(materialized, hits) := tracked in
  match materialized with
  | Err err =>
      prepare_ms <~ since_step request_image_prepare_started ;;
      Ret (Err (failed_with_hits hits (with_request_image_prepare_ms prepare_ms entry) err))
  | Ok materialized =>
      materialize_ms <~ since_step request_image_materialize_started ;;
      encode_and_exchange_steps resolved target_path query content_type accept output_mode hits
        materialized request_image_prepare_started materialize_ms entry
  end.

Definition forward_to_aiapidev_steps (resolved : ResolvedUpstream) (target_path : string)
    (query : option string) (body : Value) (output_mode : OutputMode) (entry : AdminLogEntry)
    : Prog App Forwarded :=
  let config := app_config app in
  let rewritten_body := rewrite_aiapidev_request_body (resolved_external_image_proxy_prefix config)
                          (image_fetch_external_proxy_domains config) body in
  let target_path := rewrite_aiapidev_model_path target_path in
  attempting request_upstream := Ret (
      if admin_enabled app then
        let? request_upstream_bytes := map_err ExternalError (to_vec rewritten_body) in
        Ok (maybe_sanitize_json_for_log request_upstream_bytes true)
      else Ok None) otherwise fun err => mkForwardRequestFailure err entry in
  upstream_build_started <~ now_step ;;
  response <~ awaited (on_net (run_aiapidev_task resolved target_path query rewritten_body output_mode
                                 (has_response_fetch_service app) config)) ;;
  upstream_build_ms <~ since_step upstream_build_started ;;
  let entry := with_upstream_build_ms upstream_build_ms entry in
  let entry := log_request_upstream request_upstream entry in
  Ret (Ok (response, with_status_code (reply_status response) entry)).

Definition forward_gemini_request_steps (resolved : ResolvedUpstream) (target_path : string)
    (request : Request) (request_log : RequestLogSnapshot) : Prog App Forwarded :=
  request_parse_started <~ now_step ;;
  let content_type_header := header_get "content-type" (rq_headers request) in
  let accept_header := header_get "accept" (rq_headers request) in
  match to_bytes (rq_body request) MAX_REQUEST_BODY_BYTES with
  | Err err =>
      Ret (Err (mkForwardRequestFailure (Anyhow ("failed to read request body: " +:+ err))
                  (base_entry request_log)))
  | Ok request_body =>
      let entry := base_entry request_log in
      match from_slice request_body with
      | Err err =>
          ms <~ since_step request_parse_started ;;
          Ret (Err (mkForwardRequestFailure
            (StructuredProxyError "invalid request json body" "parse_request_json" "invalid_json"
               ("invalid request json body: " +:+ err)) (with_request_parse_ms ms entry)))
      | Ok body =>
          let output_mode := get_output_mode (rq_query request) body in
          let entry := with_output_mode (output_mode_name output_mode) entry in
          ms <~ since_step request_parse_started ;;
          let entry := with_request_parse_ms ms entry in
          if is_aiapidev_base_url (base_url resolved)
          then forward_to_aiapidev_steps resolved target_path (rq_query request) body output_mode entry
          else forward_to_gemini_steps resolved target_path (rq_query request) content_type_header
                 accept_header body output_mode entry
      end
  end.
End steps.

(** * Without interference *)

Section alone.
#[local] Set Default Proof Using "Type".
Context `{UrlLib} `{HttpLib} `{JsonCodec} `{Displays} `{Base64} `{ImageCodec} `{BodyLib} {W : Type}
  `{FileSystem W} `{UrlFetcher W} `{ResponseFetcher W} `{!HttpClient W} `{Runtime W} `{DuplexPipe W}
  `{Stopwatch W} `{Clock W} `{JoinOrder W} `{UpstreamClient W} `{InlineUploader W} `{LogLib W}.
Abbreviation App := (AppState W).
Abbreviation Rt := (BlobRuntimeInner W).
Context (app : App).
Abbreviation c := (cfg (app_runtime app)).

(** The states of one server. *)
Record same_server (s : App) : Prop := {
  same_config : app_config s = app_config app;
  same_request_service : has_request_fetch_service s = has_request_fetch_service app;
  same_response_service : has_response_fetch_service s = has_response_fetch_service app;
  same_admin : admin_enabled s = admin_enabled app;
}.

Definition running (s : App) : Prop := same_server s /\ cfg (app_runtime s) = c.

Lemma same_services s : same_server s -> request_services s = request_services app.
Proof. intros []. unfold request_services. by rewrite same_config0, same_request_service0, same_admin0. Qed.

Lemma same_set_runtime rt s : same_server s -> same_server (set_runtime rt s).
Proof. by intros []. Qed.

Lemma same_set_admin f s : same_server s -> same_server (set_admin (f <$> app_admin s) s).
Proof. intros []. split; [done..|]. rewrite <- same_admin0. unfold admin_enabled. simpl. by destruct (app_admin s). Qed.

Abbreviation does := (does running).

Lemma does_run {A} (a : A) : does (Ret a) (st_ret a).
Proof. apply Interleave.does_ret. Qed.

Lemma does_then {A B} (p : Prog App A) (f : A -> Prog App B) m g :
  does p m -> (forall a, does (f a) (g a)) -> does (bind p f) (st_bind m g).
Proof. apply Interleave.does_bind. Qed.

Lemma does_try {A B} (p : Prog App (Result Error A)) fail (k : A -> Prog App (Result ForwardRequestFailure B)) m k' :
  does p m -> (forall a, does (k a) (k' a)) -> does (prog_try p fail k) (st_try m fail k').
Proof.
  intros Hp Hk. eapply does_ext; [|apply (does_then _ _ m (fun r => match r with
    Ok a => k' a | Err err => st_ret (Err (fail err)) end)); [exact Hp|]].
  - intros s _. unfold st_try, st_bind. by destruct (m s) as [[a|e] s'].
  - intros [a|e]; [apply Hk|apply does_run].
Qed.

Lemma does_net {A} aw (m : St W A) : does (Act aw (on_net m) Ret) (on_net m).
Proof.
  apply does_act. intros s [Hs Hc]. unfold on_net, on_runtime, on_world.
  destruct (m _). split; [by apply same_set_runtime|done].
Qed.

Lemma does_on_runtime {A} (p : Prog Rt A) m :
  Interleave.does (fun s : Rt => cfg s = c) p m -> does (on_runtime_steps p) (on_runtime m).
Proof.
  intros Hp. eapply does_ext; [|apply (does_then _ _ (keeping (through runtime_view m) tt) (fun ax => st_ret ax.1));
    [|intros ax; apply does_run]].
  - intros s _. unfold on_runtime, st_bind, keeping, through. simpl. by destruct (m _).
  - eapply does_inside; [apply _|exact Hp|by intros s [_ ?]|].
    intros rt s [Hs _] Hc. split; [by apply same_set_runtime|done].
Qed.

Lemma does_materialize_tracked body : does (materialize_tracked_steps app body) (materialize_tracked body).
Proof.
  eapply does_ext; [|apply (does_then _ _ (keeping (through tracked_view
      (materialize_request_images_with_services body (request_services app))) (stats_default, []))
      (fun ax => st_ret (ax.1, ax.2.2))); [|intros ax; apply does_run]].
  - intros s [Hs _]. unfold materialize_tracked, st_bind, keeping, through.
    rewrite (same_services s Hs). simpl. by destruct (materialize_request_images_with_services _ _ _).
  - eapply does_inside; [apply _|by apply does_materialize|by intros s [_ ?]|].
    intros rt s [Hs _] Hc. split; [|done]. exact (same_set_admin _ (set_runtime _ s) (same_set_runtime _ _ Hs)).
Qed.

Lemma does_read_upstream_body h : does (read_upstream_body_steps app h) (read_upstream_body h).
Proof.
  unfold read_upstream_body_steps.
  eapply does_ext; [intros s [Hs _]; unfold read_upstream_body; rewrite (same_admin s Hs); reflexivity|].
  destruct (admin_enabled app); [|apply does_run].
  apply Interleave.does_bind_ok; [|intros bs; apply does_run]. apply does_on_runtime, does_read.
Qed.

Lemma does_ready {A} (r : Result Error A) : does (Ret r) (ste_lift r).
Proof. apply does_run. Qed.

Lemma does_send_encoded resolved url reader content_type accept output_mode hits encoded log t entry :
  does (send_encoded_steps app resolved url reader content_type accept output_mode hits encoded log t entry)
    (send_encoded resolved url reader content_type accept output_mode hits encoded log t entry).
Proof.
  apply does_then; [apply does_net|]. intros [response|err].
  - apply does_try; [apply does_on_runtime, does_remove|]. intros _.
    apply does_then; [apply does_net|]. intros ms. apply does_then; [|intros handled; apply does_run].
    eapply does_ext; [|apply does_net]. intros s [Hs _].
    by rewrite (same_config s Hs), (same_response_service s Hs).
  - apply does_try; [apply does_on_runtime, does_remove|]. intros _. apply does_run.
Qed.

Lemma does_exchange resolved target_path query content_type accept output_mode hits m enc entry :
  does (exchange_steps app resolved target_path query content_type accept output_mode hits m enc entry)
    (exchange resolved target_path query content_type accept output_mode hits m enc entry).
Proof.
  apply does_then; [apply does_net|]. intros t0.
  apply does_try; [apply does_on_runtime, does_remove_all|]. intros _.
  apply does_try; [apply does_read_upstream_body|]. intros log.
  apply does_try; [apply does_ready|]. intros url.
  apply does_try; [apply does_on_runtime, does_open|]. intros reader. apply does_send_encoded.
Qed.

Lemma does_encode_and_exchange resolved target_path query content_type accept output_mode hits m t ms entry :
  does (encode_and_exchange_steps app resolved target_path query content_type accept output_mode hits m t ms entry)
    (encode_and_exchange resolved target_path query content_type accept output_mode hits m t ms entry).
Proof.
  apply does_then; [apply does_net|]. intros t0.
  apply does_then; [apply does_on_runtime, does_encode|]. intros [enc|err].
  - apply does_then; [apply does_net|]. intros t1. apply does_then; [apply does_net|]. intros t2.
    apply does_exchange.
  - apply does_then; [apply does_net|]. intros t1. apply does_run.
Qed.

Lemma does_forward_to_gemini resolved target_path query content_type accept body output_mode entry :
  does (forward_to_gemini_steps app resolved target_path query content_type accept body output_mode entry)
    (forward_to_gemini resolved target_path query content_type accept body output_mode entry).
Proof.
  apply does_then; [apply does_net|]. intros t0. apply does_then; [apply does_net|]. intros t1.
  apply does_then; [apply does_materialize_tracked|]. intros [[m|err] hits].
  - apply does_then; [apply does_net|]. intros ms. apply does_encode_and_exchange.
  - apply does_then; [apply does_net|]. intros ms. apply does_run.
Qed.

Lemma does_forward_to_aiapidev resolved target_path query body output_mode entry :
  does (forward_to_aiapidev_steps app resolved target_path query body output_mode entry)
    (forward_to_aiapidev resolved target_path query body output_mode entry).
Proof.
  eapply does_ext.
  { intros s [Hs _]. unfold forward_to_aiapidev.
    rewrite (same_config s Hs), (same_response_service s Hs), (same_admin s Hs). reflexivity. }
  apply does_try; [apply does_ready|]. intros log. apply does_then; [apply does_net|]. intros t0.
  apply does_then; [apply does_net|]. intros response. apply does_then; [apply does_net|]. intros t1.
  apply does_run.
Qed.

Lemma does_forward_gemini_request resolved target_path request log :
  does (forward_gemini_request_steps app resolved target_path request log)
    (forward_gemini_request resolved target_path request log).
Proof.
  apply does_then; [apply does_net|]. intros t0.
  destruct (to_bytes (rq_body request) MAX_REQUEST_BODY_BYTES) as [raw|e]; [|apply does_run].
  destruct (from_slice raw) as [body|e]; (apply does_then; [apply does_net|]); intros ms; [|apply does_run].
  destruct (is_aiapidev_base_url (base_url resolved));
    [apply does_forward_to_aiapidev|apply does_forward_to_gemini].
Qed.

(** ** Every request ends when it is left alone *)

Lemma ends_try {A B F} (p : Prog App (Result Error A)) fail (k : A -> Prog App (Result F B)) :
  ends p -> (forall a, ends (k a)) -> ends (prog_try p fail k).
Proof. intros Hp Hk. apply ends_bind; [done|]. intros [a|e]; [apply Hk|done]. Qed.

Lemma ends_on_runtime {A} (p : Prog Rt A) : ends p -> ends (on_runtime_steps (W := W) p).
Proof. intros Hp. apply ends_bind; [|done]. by apply ends_inside; [apply _|]. Qed.

Lemma ends_send_encoded resolved url reader content_type accept output_mode hits encoded log t entry :
  ends (send_encoded_steps app resolved url reader content_type accept output_mode hits encoded log t entry).
Proof.
  apply ends_bind; [done|]. intros [response|err]; (apply ends_try; [apply ends_on_runtime, ends_remove|done]).
Qed.

Lemma ends_exchange resolved target_path query content_type accept output_mode hits m enc entry :
  ends (exchange_steps app resolved target_path query content_type accept output_mode hits m enc entry).
Proof.
  apply ends_bind; [done|]. intros t0. apply ends_try; [apply ends_on_runtime, ends_remove_all|]. intros _.
  apply ends_try.
  { unfold read_upstream_body_steps. destruct (admin_enabled app); [|done].
    apply ends_bind_ok; [apply ends_on_runtime, ends_read|done]. }
  intros log. apply ends_try; [done|]. intros url. apply ends_try; [apply ends_on_runtime, ends_open|].
  intros stream. apply ends_send_encoded.
Qed.

Lemma ends_forward_to_gemini resolved target_path query content_type accept body output_mode entry :
  ends (forward_to_gemini_steps app resolved target_path query content_type accept body output_mode entry).
Proof.
  apply ends_bind; [done|]. intros t0. apply ends_bind; [done|]. intros t1. apply ends_bind.
  { apply ends_bind; [|done]. apply ends_inside; [apply _|]. apply ends_materialize. }
  intros [[m|err] hits]; (apply ends_bind; [done|]); intros ms; [|done].
  apply ends_bind; [done|]. intros t2. apply ends_bind; [apply ends_on_runtime, ends_encode|].
  intros [enc|err]; (apply ends_bind; [done|]); intros t3; [|done].
  apply ends_bind; [done|]. intros t4. apply ends_exchange.
Qed.

Lemma ends_forward_gemini_request resolved target_path request log :
  ends (forward_gemini_request_steps app resolved target_path request log).
Proof.
  apply ends_bind; [done|]. intros t0.
  destruct (to_bytes (rq_body request) MAX_REQUEST_BODY_BYTES) as [raw|e]; [|done].
  destruct (from_slice raw) as [body|e]; (apply ends_bind; [done|]); intros ms; [|done].
  destruct (is_aiapidev_base_url (base_url resolved)); [|apply ends_forward_to_gemini].
  apply ends_try; [done|]. intros log'. by apply ends_bind.
Qed.
End alone.
