(* ===== verification/ActionSteps.v ===== *)
(** router.rs and admin.rs, one access at a time: the two actions of the server, from the request to the
    reply, with the counters and the log that requests share. *)

From S2P Require Import Prelude RustStr Json Pointer Ext Samples.
From S2P Require Import Config Upstream ImageIo RequestScan BlobRuntime BlobSteps RequestEncode FetchService.
From S2P Require Import RequestMaterialize RequestRewrite RequestSteps OpenaiImage Http Admin Upload.
From S2P Require Import ResponseRewrite ResponseMaterialize Query UpstreamClient UpstreamResponse.
From S2P Require Import Aiapidev Tracking Router RouterSteps AdminShared Interleave Inside.
From stdpp Require Import relations options.

(** * The steps *)

Section steps.
Context `{UrlLib} `{HttpLib} `{JsonCodec} `{Displays} `{Base64} `{ImageCodec} `{BodyLib} {W : Type}
  `{FileSystem W} `{UrlFetcher W} `{ResponseFetcher W} `{!HttpClient W} `{Runtime W} `{DuplexPipe W}
  `{Stopwatch W} `{Clock W} `{JoinOrder W} `{UpstreamClient W} `{InlineUploader W} `{LogLib W}.
Abbreviation App := (AppState W).
Context (app : App).

(** An access to the counters or to the log; it is made only when there are some. *)
Definition on_admin {A} (absent : A) (m : St AdminState A) : St App A := fun s =>
  match app_admin s with
  | Some admin => let '(a, admin) := m admin in (a, set_admin (Some admin) s)
  | None => (absent, s)
  end.

(** [stats.counter.fetch_add(..)], one after another. *)
Fixpoint count_steps (todo : list (Counter * Z)) : Prog App unit :=
  match todo with
  | [] => Ret tt
  | (counter, by_) :: todo =>
      _ <~ atomic (on_admin tt (fun a => (tt, set_stats (fetch_add counter by_ (stats a)) a))) ;;
      count_steps todo
  end.

(** [AdminState::record]: the identifier, the lock, and the push under it. *)
Definition record_entry_steps (entry : AdminLogEntry) : Prog App unit :=
  id <~ atomic (on_admin 0%Z take_id) ;;
  _ <~ pause ;;
  atomic (on_admin tt (fun a => (tt, push_entry (with_id id entry) a))).

Definition finalize_admin_response_steps (response : Reply) (entry : AdminLogEntry) : Prog App Reply :=
  _ <~ atomic (on_net (log_slow_request (app_config app) entry)) ;;
  if admin_enabled app then
    let body_bytes := default EmptyString
                        (result_ok (to_bytes (body_from (reply_body response)) usize_max)) in
    let entry := with_status_code (reply_status response) (log_response response body_bytes entry) in
    _ <~ count_steps (adds_of entry) ;;
    _ <~ record_entry_steps entry ;;
    Ret (mkReply (reply_status response) (reply_headers response) body_bytes)
  else Ret response.

Definition reject_steps (a : Arrival) (started_at : Z) (request_parse_started : option Z) (status : Z)
    (response : Reply) (describe : AdminLogEntry -> AdminLogEntry) : Prog App Reply :=
  duration_ms <~ since_step started_at ;;
  request_parse_ms <~ (match request_parse_started with
                       | Some started => since_step started
                       | None => Ret 0%Z
                       end) ;;
  finalize_admin_response_steps response
    (describe (rejected_entry a status duration_ms request_parse_ms)).

Definition reject_body_steps (a : Arrival) (started_at request_parse_started : Z) (err : string) : Prog App Reply :=
  reject_steps a started_at (Some request_parse_started) 502
    (proxy_error_response 502 "failed to read request body" "read_request_body" "request_body_read_failed")
    (with_proxy_error "read_request_body" "request_body_read_failed" "failed to read request body" err).

Definition reject_json_steps (a : Arrival) (started_at request_parse_started : Z)
    (request_log : RequestLogSnapshot) (err : string) : Prog App Reply :=
  reject_steps a started_at (Some request_parse_started) 502
    (proxy_error_response 502 "invalid request json body" "parse_request_json" "invalid_json")
    (fun entry => apply_to_entry request_log
       (with_proxy_error "parse_request_json" "invalid_json" "invalid request json body"
          ("invalid request json body: " +:+ err) entry)).

Definition reject_upstream_steps (a : Arrival) (started_at request_parse_started : Z)
    (request_log : RequestLogSnapshot) (err : ResolveUpstreamError) : Prog App Reply :=
  reject_steps a started_at (Some request_parse_started) (status_code err)
    (json_reply (status_code err) (plain_error_json (status_code err) (message err)))
    (apply_to_entry request_log).

Definition finish_forwarded_steps (a : Arrival) (started_at request_parse_ms : Z) (structured_errors : bool)
    (forwarded : Forwarded) : Prog App Reply :=
  match forwarded with
  | Ok (response, entry) =>
      duration_ms <~ since_step started_at ;;
      finalize_admin_response_steps response (complete_entry a request_parse_ms duration_ms entry)
  | Err failure =>
      duration_ms <~ since_step started_at ;;
      let entry := with_status_code 502 (complete_entry a request_parse_ms duration_ms (failure_entry failure)) in
      let '(response, entry) :=
        if structured_errors then
          match classify_standard_proxy_error_detail (failure_error failure) with
          | Some structured =>
              (build_structured_proxy_error_response structured,
               apply_structured_proxy_error structured entry)
          | None =>
              match classify_standard_proxy_error (failure_error failure) with
              | Some structured_error => (json_reply 502 structured_error, entry)
              | None => (bad_gateway_reply (error_to_string (failure_error failure)), entry)
              end
          end
        else (bad_gateway_reply (error_to_string (failure_error failure)), entry) in
      finalize_admin_response_steps response entry
  end.

Definition forward_openai_image_request_steps (resolved : ResolvedUpstream) (request_body : Value)
    (query : option string) (request_log : RequestLogSnapshot) : Prog App Forwarded :=
  let entry := with_output_mode "url" (base_entry request_log) in
  attempting request_upstream := Ret (
      if admin_enabled app then
        let? request_upstream_bytes := map_err ExternalError (to_vec request_body) in
        Ok (maybe_sanitize_json_for_log request_upstream_bytes true)
      else Ok None) otherwise fun err => mkForwardRequestFailure err entry in
  upstream_build_started <~ now_step ;;
  attempting upstream_url := Ret (build_upstream_url (base_url resolved) "/v1/images/generations" query)
    otherwise fun err => mkForwardRequestFailure err entry in
  sent <~ awaited (on_net (post_json upstream_url
            [("content-type", "application/json");
             ("authorization", "Bearer " +:+ api_key resolved)] request_body)) ;;
  match sent with
  | Err err => Ret (Err (mkForwardRequestFailure (ReqwestErr err) entry))
  | Ok upstream_response =>
      upstream_build_ms <~ since_step upstream_build_started ;;
      let entry := with_upstream_build_ms upstream_build_ms entry in
      let entry := log_request_upstream request_upstream entry in
      attempting handled := awaited (on_net (handle_openai_image_response upstream_response (app_config app)))
        otherwise fun err => mkForwardRequestFailure err entry in
      Ret (Ok (handled.1,
               with_upload_ms (upload_ms handled.2)
                 (with_response_process_ms (response_process_ms handled.2)
                    (with_status_code (reply_status handled.1) entry))))
  end.

Definition image_generations_action_steps (request : Request) : Prog App Reply :=
  started_at <~ now_step ;;
  created_at <~ atomic (on_net now_rfc3339) ;;
  let a := arrival created_at request in
  request_parse_started <~ now_step ;;
  _ <~ pause ;;
  match to_bytes (rq_body request) MAX_REQUEST_BODY_BYTES with
  | Err err => reject_body_steps a started_at request_parse_started err
  | Ok request_body =>
      let request_log := sanitize_request_body_for_log request_body (admin_enabled app) in
      match from_slice request_body with
      | Err err => reject_json_steps a started_at request_parse_started request_log err
      | Ok parsed_body =>
          match normalize_request_body parsed_body with
          | Err err =>
              reject_steps a started_at (Some request_parse_started) 400
                (json_reply 400 (plain_error_json 400 (error_to_string err)))
                (fun entry => apply_to_entry request_log
                   (with_proxy_error "normalize_openai_image_request" "invalid_request"
                      "invalid openai image request" (error_to_string err) entry))
          | Ok normalized_body =>
              match resolve_upstream_for_request_from_header_map (rq_headers request) normalized_body
                      (upstream_base_url (app_config app)) (upstream_api_key (app_config app)) with
              | Err err => reject_upstream_steps a started_at request_parse_started request_log err
              | Ok resolved =>
                  request_parse_ms <~ since_step request_parse_started ;;
                  forwarded <~ forward_openai_image_request_steps resolved normalized_body
                                 (if is_empty (request_query a) then None else Some (request_query a))
                                 request_log ;;
                  finish_forwarded_steps a started_at request_parse_ms true forwarded
              end
          end
      end
  end.

Definition model_action_steps (rest : string) (request : Request) : Prog App Reply :=
  started_at <~ now_step ;;
  created_at <~ atomic (on_net now_rfc3339) ;;
  let a := arrival created_at request in
  if negb (ends_with rest ":generateContent")
  then reject_steps a started_at None 404 (json_reply 404 (plain_error_json 404 "Not Found")) (fun entry => entry)
  else
    request_parse_started <~ now_step ;;
    _ <~ pause ;;
    match to_bytes (rq_body request) MAX_REQUEST_BODY_BYTES with
    | Err err => reject_body_steps a started_at request_parse_started err
    | Ok request_body =>
        let request_log := sanitize_request_body_for_log request_body (admin_enabled app) in
        match from_slice request_body with
        | Err err => reject_json_steps a started_at request_parse_started request_log err
        | Ok parsed_body =>
            match resolve_upstream_for_request_from_header_map (rq_headers request) parsed_body
                    (upstream_base_url (app_config app)) (upstream_api_key (app_config app)) with
            | Err err => reject_upstream_steps a started_at request_parse_started request_log err
            | Ok resolved =>
                request_parse_ms <~ since_step request_parse_started ;;
                let target_path := "/v1beta/models/" +:+ rest in
                let is_aiapidev_upstream := is_aiapidev_base_url (base_url resolved) in
                let request := mkRequest _ (rq_method request) (rq_path request) (rq_query request)
                                 (rq_headers request) (body_from request_body) in
                forwarded <~ forward_gemini_request_steps app resolved target_path request request_log ;;
                finish_forwarded_steps a started_at request_parse_ms (negb is_aiapidev_upstream) forwarded
            end
        end
    end.
End steps.

(** * Without interference *)

(** The additions may be made in any order. *)
Lemma add_all_first x l s : add_all l (fetch_add x.1 x.2 s) = add_all (x :: l) s.
Proof.
  change (fetch_add x.1 x.2 s) with (add_all [x] s). rewrite <- add_all_app.
  apply add_all_perm, Permutation_app_comm.
Qed.

Section alone.
#[local] Set Default Proof Using "Type".
Context `{UrlLib} `{HttpLib} `{JsonCodec} `{Displays} `{Base64} `{ImageCodec} `{BodyLib} {W : Type}
  `{FileSystem W} `{UrlFetcher W} `{ResponseFetcher W} `{!HttpClient W} `{Runtime W} `{DuplexPipe W}
  `{Stopwatch W} `{Clock W} `{JoinOrder W} `{UpstreamClient W} `{InlineUploader W} `{LogLib W}.
Abbreviation App := (AppState W).
Context (app : App).

Abbreviation does := (does (running app)).

Lemma does_on_admin {A} aw (absent : A) m : does (Act aw (on_admin absent m) Ret) (on_admin absent m).
Proof.
  apply does_act. intros s [Hs Hc]. unfold on_admin. destruct (app_admin s) as [admin|] eqn:E; [|done].
  destruct (m admin) as [a admin']. split; [|done].
  assert (Hset := same_set_admin app (fun _ => admin') s Hs). by rewrite E in Hset.
Qed.

Lemma does_pause {A} (p : Prog App A) m : does p m -> does (bind pause (fun _ => p)) m.
Proof.
  intros Hp. eapply does_ext; [|apply (does_then app pause _ (fun s => (tt, s)) (fun _ => m)); [|done]]; [done|].
  by apply does_act.
Qed.

Lemma does_count todo :
  does (count_steps todo) (on_admin tt (fun a => (tt, set_stats (add_all todo (stats a)) a))).
Proof.
  induction todo as [|[counter v] todo IH]; cbn [count_steps].
  - eapply does_ext; [|apply (does_run app tt)]. intros s _. unfold on_admin.
    destruct s as [config [[]|] f1 f2 rt]; done.
  - eapply does_ext; [|eapply does_then; [apply does_on_admin|intros a; apply IH]].
    intros s _. unfold st_bind, on_admin. destruct (app_admin s) as [admin|] eqn:E; simpl; [|by rewrite E].
    by rewrite (add_all_first (counter, v)).
Qed.

Lemma does_record_entry entry :
  does (record_entry_steps entry) (on_admin tt (fun a => (tt, record a entry))).
Proof.
  eapply does_ext; [|eapply does_then; [apply does_on_admin|intros id; apply does_pause, does_on_admin]].
  intros s _. unfold st_bind, on_admin. by destruct (app_admin s) eqn:E; simpl; rewrite ?E.
Qed.

Lemma does_finalize response entry :
  does (finalize_admin_response_steps app response entry) (finalize_admin_response response entry).
Proof.
  apply does_then.
  { eapply does_ext; [|apply does_net]. intros s [Hs _]. by rewrite (same_config _ _ Hs). }
  intros _. set (body := default EmptyString (result_ok (to_bytes (body_from (reply_body response)) usize_max))).
  set (final := with_status_code (reply_status response) (log_response response body entry)).
  destruct (admin_enabled app) eqn:Ea.
  - eapply does_ext; [|eapply does_then; [apply does_count|intros u; eapply does_then;
      [apply does_record_entry|intros u'; apply does_run]]].
    intros s [Hs _]. assert (Hadm := same_admin _ _ Hs). rewrite Ea in Hadm. unfold admin_enabled in Hadm.
    unfold st_bind, on_admin. destruct (app_admin s) as [admin|]; [|done]. simpl.
    by rewrite apply_admin_stats_adds.
  - eapply does_ext; [|apply does_run]. intros s [Hs _]. assert (Hadm := same_admin _ _ Hs).
    rewrite Ea in Hadm. unfold admin_enabled in Hadm. by destruct (app_admin s).
Qed.

Lemma does_reject a started parsing status response describe :
  does (reject_steps app a started parsing status response describe)
    (reject a started parsing status response describe).
Proof.
  apply does_then; [apply does_net|]. intros d. apply does_then; [|intros p; apply does_finalize].
  destruct parsing; [apply does_net|apply does_run].
Qed.

Lemma does_finish_forwarded a started parse_ms structured forwarded :
  does (finish_forwarded_steps app a started parse_ms structured forwarded)
    (finish_forwarded a started parse_ms structured forwarded).
Proof.
  destruct forwarded as [[response entry]|failure]; (apply does_then; [apply does_net|]); intros d;
    [apply does_finalize|]. cbv zeta. destruct (if structured then _ else _). apply does_finalize.
Qed.

Lemma does_forward_openai resolved body query log :
  does (forward_openai_image_request_steps app resolved body query log)
    (forward_openai_image_request resolved body query log).
Proof.
  eapply does_ext.
  { intros s [Hs _]. unfold forward_openai_image_request.
    rewrite (same_admin _ _ Hs), (same_config _ _ Hs). reflexivity. }
  apply does_try; [apply does_ready|]. intros upstream. apply does_then; [apply does_net|]. intros t0.
  apply does_try; [apply does_ready|]. intros url. apply does_then; [apply does_net|].
  intros [response|err]; [|apply does_run]. apply does_then; [apply does_net|]. intros ms.
  apply does_try; [apply does_net|]. intros handled. apply does_run.
Qed.

Lemma does_model_action rest request :
  does (model_action_steps app rest request) (model_action rest request).
Proof.
  apply does_then; [apply does_net|]. intros t. apply does_then; [apply does_net|]. intros c.
  destruct (negb (ends_with rest ":generateContent")); [apply does_reject|].
  apply does_then; [apply does_net|]. intros t1. apply does_pause.
  destruct (to_bytes (rq_body request) MAX_REQUEST_BODY_BYTES) as [raw|e]; [|apply does_reject].
  eapply does_ext; [intros s [Hs _]; rewrite (same_admin _ _ Hs), (same_config _ _ Hs); reflexivity|].
  destruct (from_slice raw) as [body|e]; [|apply does_reject].
  destruct (resolve_upstream_for_request_from_header_map _ _ _ _) as [resolved|e]; [|apply does_reject].
  apply does_then; [apply does_net|]. intros ms.
  apply does_then; [apply does_forward_gemini_request|]. intros forwarded. apply does_finish_forwarded.
Qed.

Lemma does_image_generations_action request :
  does (image_generations_action_steps app request) (image_generations_action request).
Proof.
  apply does_then; [apply does_net|]. intros t. apply does_then; [apply does_net|]. intros c.
  apply does_then; [apply does_net|]. intros t1. apply does_pause.
  destruct (to_bytes (rq_body request) MAX_REQUEST_BODY_BYTES) as [raw|e]; [|apply does_reject].
  eapply does_ext; [intros s [Hs _]; rewrite (same_admin _ _ Hs), (same_config _ _ Hs); reflexivity|].
  destruct (from_slice raw) as [parsed|e]; [|apply does_reject].
  destruct (normalize_request_body parsed) as [body|e]; [|apply does_reject].
  destruct (resolve_upstream_for_request_from_header_map _ _ _ _) as [resolved|e]; [|apply does_reject].
  apply does_then; [apply does_net|]. intros ms.
  apply does_then; [apply does_forward_openai|]. intros forwarded. apply does_finish_forwarded.
Qed.

(** ** Both end when they are left alone *)

Lemma ends_count todo : ends (count_steps todo : Prog App unit).
Proof. induction todo as [|[counter v] todo IH]; [done|]. by apply ends_bind. Qed.

Lemma ends_finalize response entry : ends (finalize_admin_response_steps app response entry).
Proof.
  apply ends_bind; [done|]. intros _. destruct (admin_enabled app); [|done].
  apply ends_bind; [apply ends_count|]. intros _. by apply ends_bind.
Qed.

Lemma ends_reject a started parsing status response describe :
  ends (reject_steps app a started parsing status response describe).
Proof.
  apply ends_bind; [done|]. intros d. apply ends_bind; [by destruct parsing|]. intros p. apply ends_finalize.
Qed.

Lemma ends_finish_forwarded a started parse_ms structured forwarded :
  ends (finish_forwarded_steps app a started parse_ms structured forwarded).
Proof.
  destruct forwarded as [[response entry]|failure]; (apply ends_bind; [done|]); intros d;
    [apply ends_finalize|]. cbv zeta. destruct (if structured then _ else _). apply ends_finalize.
Qed.

Lemma ends_forward_openai resolved body query log :
  ends (forward_openai_image_request_steps app resolved body query log).
Proof.
  apply ends_try; [done|]. intros upstream. apply ends_bind; [done|]. intros t0.
  apply ends_try; [done|]. intros url. apply ends_bind; [done|]. intros [response|err]; [|done].
  apply ends_bind; [done|]. intros ms. by apply ends_try.
Qed.

Lemma ends_model_action rest request : ends (model_action_steps app rest request).
Proof.
  apply ends_bind; [done|]. intros t. apply ends_bind; [done|]. intros c.
  destruct (negb (ends_with rest ":generateContent")); [apply ends_reject|].
  apply ends_bind; [done|]. intros t1. apply ends_bind; [done|]. intros _.
  destruct (to_bytes (rq_body request) MAX_REQUEST_BODY_BYTES) as [raw|e]; [|apply ends_reject].
  cbv zeta. destruct (from_slice raw) as [body|e]; [|apply ends_reject].
  destruct (resolve_upstream_for_request_from_header_map _ _ _ _) as [resolved|e]; [|apply ends_reject].
  apply ends_bind; [done|]. intros ms.
  apply ends_bind; [apply ends_forward_gemini_request|]. intros forwarded. apply ends_finish_forwarded.
Qed.

Lemma ends_image_generations_action request : ends (image_generations_action_steps app request).
Proof.
  apply ends_bind; [done|]. intros t. apply ends_bind; [done|]. intros c. apply ends_bind; [done|]. intros t1.
  apply ends_bind; [done|]. intros _. destruct (to_bytes (rq_body request) MAX_REQUEST_BODY_BYTES) as [raw|e]; [|apply ends_reject].
  cbv zeta. destruct (from_slice raw) as [parsed|e]; [|apply ends_reject].
  destruct (normalize_request_body parsed) as [body|e]; [|apply ends_reject].
  destruct (resolve_upstream_for_request_from_header_map _ _ _ _) as [resolved|e]; [|apply ends_reject].
  apply ends_bind; [done|]. intros ms.
  apply ends_bind; [apply ends_forward_openai|]. intros forwarded. apply ends_finish_forwarded.
Qed.
End alone.
