(* ===== verification/PageSteps.v ===== *)
(** router.rs and admin.rs, one access at a time: the admin pages, which read what the requests in flight
    change, and the router in front of all handlers. *)

From S2P Require Import Prelude RustStr Json Pointer Ext Samples.
From S2P Require Import Config Upstream ImageIo RequestScan BlobRuntime BlobSteps RequestEncode FetchService.
From S2P Require Import RequestMaterialize RequestRewrite RequestSteps OpenaiImage Http Admin Upload.
From S2P Require Import ResponseRewrite ResponseMaterialize Query UpstreamClient UpstreamResponse.
From S2P Require Import Aiapidev Tracking Router RouterSteps ActionSteps AdminShared Interleave Inside.
From stdpp Require Import relations options.

(** * The steps *)

Section steps.
Context `{UrlLib} `{HttpLib} `{JsonCodec} `{Displays} `{Base64} `{ImageCodec} `{BodyLib} {W : Type}
  `{FileSystem W} `{UrlFetcher W} `{ResponseFetcher W} `{!HttpClient W} `{Runtime W} `{DuplexPipe W}
  `{Stopwatch W} `{Clock W} `{JoinOrder W} `{UpstreamClient W} `{InlineUploader W} `{LogLib W} `{!RouteLib}.
Abbreviation App := (AppState W).
Abbreviation Rt := (BlobRuntimeInner W).
Context (app : App).

(** A page for those who know the password. *)
Definition authorized_steps (headers : HeaderMap) (page : Prog App Reply) : Prog App Reply :=
  refused <~ atomic (fun s => (authorize_admin s headers, s)) ;;
  match refused with
  | Some response => Ret response
  | None => page
  end.

Definition admin_root_steps (headers : HeaderMap) : Prog App Reply :=
  authorized_steps headers (Ret (mkReply 302 (header_set "location" "/admin/logs" []) EmptyString)).

Definition admin_logs_page_steps (page : Reply) (headers : HeaderMap) : Prog App Reply :=
  authorized_steps headers (Ret page).

(** The log is read under its lock. *)
Definition admin_logs_api_steps (headers : HeaderMap) : Prog App Reply :=
  authorized_steps headers (
    if admin_enabled app then
      _ <~ pause ;;
      atomic (on_admin (status_reply 404) (fun admin => (admin_logs_response admin, admin)))
    else Ret (status_reply 404)).

(** [stats.counter.load(Ordering::Relaxed)] *)
Definition load (counter : AdminStats -> Z) : Prog App Z :=
  atomic (on_admin 0%Z (fun admin => (counter (stats admin), admin))).

Definition load_stats : Prog App AdminStats :=
  total_requests <~ load stats_total_requests ;;
  error_requests <~ load stats_error_requests ;;
  total_duration_ms <~ load stats_total_duration_ms ;;
  request_parse_ms <~ load stats_request_parse_ms ;;
  request_image_prepare_ms <~ load stats_request_image_prepare_ms ;;
  request_image_materialize_ms <~ load stats_request_image_materialize_ms ;;
  request_image_fetch_work_ms <~ load stats_request_image_fetch_work_ms ;;
  request_image_store_work_ms <~ load stats_request_image_store_work_ms ;;
  request_encode_ms <~ load stats_request_encode_ms ;;
  upstream_build_ms <~ load stats_upstream_build_ms ;;
  response_process_ms <~ load stats_response_process_ms ;;
  upload_ms <~ load stats_upload_ms ;;
  cache_hits <~ load stats_cache_hits ;;
  Ret (mkAdminStats total_requests error_requests total_duration_ms request_parse_ms
         request_image_prepare_ms request_image_materialize_ms request_image_fetch_work_ms
         request_image_store_work_ms request_encode_ms upstream_build_ms response_process_ms upload_ms
         cache_hits).

Definition stats_snapshot_steps : Prog Rt BlobRuntimeStatsSnapshot :=
  count <~ atomic (fun rt => (spill_count rt, rt)) ;;
  total <~ atomic (fun rt => (spill_bytes_total rt, rt)) ;;
  Ret (mkBlobRuntimeStatsSnapshot count total).

Definition admin_stats_api_steps (headers : HeaderMap) : Prog App Reply :=
  authorized_steps headers (
    if admin_enabled app then
      runtime_stats <~ on_runtime_steps stats_snapshot_steps ;;
      stats <~ load_stats ;;
      Ret (json_reply 200 (stats_payload stats runtime_stats))
    else Ret (status_reply 404)).

Definition call_handler_steps (page : Reply) (route : Route) (request : Request) : Prog App Reply :=
  match route with
  | AdminRoot => admin_root_steps (rq_headers request)
  | AdminLogsPage => admin_logs_page_steps page (rq_headers request)
  | AdminLogsApi => admin_logs_api_steps (rq_headers request)
  | AdminStatsApi => admin_stats_api_steps (rq_headers request)
  | ImageGenerations => image_generations_action_steps app request
  | ModelAction rest =>
      match path_param rest with
      | Err rejection => Ret rejection
      | Ok rest => model_action_steps app rest request
      end
  end.

Definition serve_steps (page : Reply) (request : Request) : Prog App Reply :=
  match route_of (rq_path request) with
  | None => Ret (unrouted request)
  | Some (method, route) =>
      if String.eqb (rq_method request) method then call_handler_steps page route request
      else if String.eqb method "GET" && String.eqb (rq_method request) "HEAD" then
        reply <~ call_handler_steps page route request ;; Ret (without_body reply)
      else Ret (unrouted request)
  end.
End steps.

(** * Without interference *)

Section alone.
#[local] Set Default Proof Using "Type".
Context `{UrlLib} `{HttpLib} `{JsonCodec} `{Displays} `{Base64} `{ImageCodec} `{BodyLib} {W : Type}
  `{FileSystem W} `{UrlFetcher W} `{ResponseFetcher W} `{!HttpClient W} `{Runtime W} `{DuplexPipe W}
  `{Stopwatch W} `{Clock W} `{JoinOrder W} `{UpstreamClient W} `{InlineUploader W} `{LogLib W} `{!RouteLib}.
Abbreviation App := (AppState W).
Context (app : App).

Abbreviation does := (does (running app)).

(** A look at the state. *)
Definition looks {A} (f : App -> A) : St App A := fun s => (f s, s).

Lemma does_authorized headers p (f : App -> Reply) :
  does p (looks f) ->
  does (authorized_steps headers p) (looks (fun s => default (f s) (authorize_admin s headers))).
Proof.
  intros Hp. eapply does_ext; [|apply (does_then app _ _ (looks (fun s => authorize_admin s headers))
    (fun refused => match refused with Some response => st_ret response | None => looks f end))].
  - intros s _. unfold looks, st_bind. by destruct (authorize_admin s headers).
  - by apply does_act.
  - intros [response|]; [apply does_run|done].
Qed.

Lemma does_load counter : does (load counter) (on_admin 0%Z (fun admin => (counter (stats admin), admin))).
Proof. apply does_on_admin. Qed.

Lemma does_load_stats : does load_stats (on_admin stats_default (fun admin => (stats admin, admin))).
Proof.
  eapply does_ext; [|do 13 (eapply does_then; [apply does_load|intros ?]); apply does_run].
  intros [config [[]|] f1 f2 rt] _; [|done]. by destruct stats.
Qed.

Lemma does_snapshot : Interleave.does (fun s => cfg s = cfg (app_runtime app))
  (stats_snapshot_steps (W := W)) (fun s => (stats_snapshot s, s)).
Proof.
  eapply Interleave.does_ext; [|do 2 (eapply Interleave.does_bind; [by apply Interleave.does_act|intros ?]);
    apply Interleave.does_ret]. done.
Qed.

Lemma does_call_handler page route request :
  does (call_handler_steps app page route request) (call_handler page route request).
Proof.
  destruct route as [| | | | |rest].
  - apply (does_authorized _ _ (fun _ => _)), does_run.
  - apply (does_authorized _ _ (fun _ => _)), does_run.
  - eapply does_ext; [|apply (does_authorized _ _ (fun s => match app_admin s with
      Some admin => admin_logs_response admin | None => status_reply 404 end))].
    { intros s _. simpl. unfold looks, admin_logs_api. by destruct (authorize_admin _ _). }
    destruct (admin_enabled app) eqn:Ea.
    + apply does_pause. eapply does_ext; [|apply does_on_admin]. intros s [Hs _]. unfold looks, on_admin.
      destruct s as [config [admin|] f1 f2 rt]; done.
    + eapply does_ext; [|apply does_run]. intros s [Hs _]. assert (Hadm := same_admin _ _ Hs).
      rewrite Ea in Hadm. unfold admin_enabled in Hadm. unfold looks. by destruct (app_admin s).
  - eapply does_ext; [|apply (does_authorized _ _ (fun s => match app_admin s with
      Some admin => admin_stats_response admin (stats_snapshot (app_runtime s)) | None => status_reply 404 end))].
    { intros s _. simpl. unfold looks, admin_stats_api. by destruct (authorize_admin _ _). }
    destruct (admin_enabled app) eqn:Ea.
    + eapply does_ext; [|eapply does_then; [apply does_on_runtime, does_snapshot|intros rt;
        eapply does_then; [apply does_load_stats|intros st; apply does_run]]].
      intros s [Hs _]. assert (Hadm := same_admin _ _ Hs). rewrite Ea in Hadm. unfold admin_enabled in Hadm.
      destruct s as [config [admin|] f1 f2 rt]; done.
    + eapply does_ext; [|apply does_run]. intros s [Hs _]. assert (Hadm := same_admin _ _ Hs).
      rewrite Ea in Hadm. unfold admin_enabled in Hadm. unfold looks. by destruct (app_admin s).
  - apply does_image_generations_action.
  - simpl. destruct (path_param rest) as [rest'|rejection] eqn:Ep;
      (eapply does_ext; [intros s _; simpl; rewrite Ep; reflexivity|]); [apply does_model_action|apply does_run].
Qed.

Lemma does_serve page request : does (serve_steps app page request) (serve page request).
Proof.
  unfold serve_steps, serve. destruct (route_of (rq_path request)) as [[method route]|]; [|apply does_run].
  destruct (String.eqb (rq_method request) method); [apply does_call_handler|].
  destruct (_ && _); [|apply does_run].
  eapply does_ext; [|eapply does_then; [apply does_call_handler|intros reply; apply does_run]].
  intros s _. unfold st_bind. by destruct (call_handler page route request s).
Qed.

(** ** All end when they are left alone *)

Lemma ends_authorized headers (p : Prog App Reply) : ends p -> ends (authorized_steps headers p).
Proof. intros Hp. apply ends_bind; [done|]. by intros [response|]. Qed.

Lemma ends_call_handler page route request : ends (call_handler_steps app page route request).
Proof.
  destruct route as [| | | | |rest]; [apply ends_authorized; simpl; by destruct (admin_enabled app)..| |].
  - apply ends_image_generations_action.
  - simpl. destruct (path_param rest) as [rest'|rejection]; [apply ends_model_action|done].
Qed.

Lemma ends_serve page request : ends (serve_steps app page request).
Proof.
  unfold serve_steps. destruct (route_of (rq_path request)) as [[method route]|]; [|done].
  destruct (String.eqb (rq_method request) method); [apply ends_call_handler|].
  destruct (_ && _); [|done]. apply ends_bind; [apply ends_call_handler|done].
Qed.
End alone.
