(* ===== verification/RouterLogic.v ===== *)
(** What a request does to the server, when it shares it with others: the rules of RequestLogic.v for
    the programs of RouterSteps.v and ActionSteps.v.  A request that is answered has sent its own
    document and got its own reply, whatever the others do, and has left nothing behind; and what it
    does to the counters meanwhile is to count cache hits. *)

From S2P Require Import Prelude RustStr Json Pointer Ext Samples.
From S2P Require Import Config Upstream ImageIo RequestScan BlobRuntime BlobSteps BlobLogic RequestEncode FetchService.
From S2P Require Import RequestMaterialize RequestRewrite RequestSteps RequestLogic OpenaiImage Http Admin Upload.
From S2P Require Import ResponseRewrite ResponseMaterialize Query UpstreamClient UpstreamResponse.
From S2P Require Import Aiapidev Tracking Router Forwarding RouterSteps ActionSteps Interleave Inside.
From stdpp Require Import relations options.

(** * The invariant of the server *)

(** The blob store in another world with the same files. *)
Lemma store_inv_map_world {V V'} `{FileSystemLaws V} `{FileSystemLaws V'} (f : V -> V') c g t l s :
  (forall p, fs_content (f (world s)) p = fs_content (world s) p) ->
  store_inv (W := V) c g t l s -> store_inv (W := V') c g t l (map_world f s).
Proof.
  intros Hf Hi. assert (Hfiles := si_files _ _ _ _ _ Hi). assert (Hever := si_ever _ _ _ _ _ Hi).
  destruct Hi. split; try done; simpl.
  - eapply Forall_impl; [exact Hfiles|]. simpl. intros x Hx id bs Hid Hbs. rewrite Hf. by apply Hx.
  - intros id h bs Hl. rewrite Hf. by apply Hever.
Qed.

Lemma blob_inv_map_world {V V'} `{FileSystemLaws V} `{FileSystemLaws V'} (f : V -> V') c g l s :
  (forall p, fs_content (f (world s)) p = fs_content (world s) p) ->
  blob_inv (W := V) c g s l -> blob_inv (W := V') c g (map_world f s) l.
Proof. intros Hf [Ht Hi]. split; [done|]. by apply store_inv_map_world. Qed.

Section server.
#[local] Set Default Proof Using "All".
Context `{HttpLib} `{JsonCompact} `{Displays} `{Base64Laws} `{ImageCodec} `{BodyLib} {W : Type}
  `{FetchLaws W} `{DuplexLaws W} `{!SchedulerLaws W}
  `{ResponseFetcher W} `{InlineUploader W} `{Clock W} `{UpstreamClient W} `{LogLib W} `{!RouterFrames W}.
Abbreviation App := (AppState W).
Abbreviation Rt := (BlobRuntimeInner W).
Context (app : App).
Abbreviation c := (cfg (app_runtime app)).

Definition app_inv (g : BlobGhost) (s : App) (l : list Held) : Prop :=
  same_server app s /\ blob_inv c g (app_runtime s) l.

Definition app_ext (w w' : BlobGhost * App) : Prop :=
  blob_ext (w.1, app_runtime w.2) (w'.1, app_runtime w'.2).

#[export] Instance app_ext_preorder : PreOrder app_ext.
Proof using Type. split; [by intros w|]. intros w1 w2 w3 Hx Hy. unfold app_ext in *. by etrans. Qed.

(** A request that is dropped, or fails, may leave blobs behind. *)
Abbreviation wpa := (wp app_inv app_ext (fun _ : Held => True)).

Definition app_triple {A} (r : Held) (p : Prog App A) (Q : A -> Held -> Prop) : Prop :=
  forall w, wpa p w r (fun _ => Q).

Lemma app_ret {A} r (a : A) (Q : A -> Held -> Prop) : Q a r -> app_triple r (Ret a) Q.
Proof. by intros HQ w. Qed.

Lemma app_bind {A B} r (p : Prog App A) (f : A -> Prog App B) R Q :
  app_triple r p R -> (forall a r', R a r' -> app_triple r' (f a) Q) -> app_triple r (bind p f) Q.
Proof.
  intros Hp Hf w. apply wp_bind; [apply _|]. eapply wp_conseq; [apply _| |apply Hp]. simpl. intros w' a r' HR.
  by apply (Hf a r' HR).
Qed.

(** What a reply is claimed to be; of a failure nothing is. *)
Definition or_failed {A F} (Q : A -> Held -> Prop) (res : Result F A) (r : Held) : Prop :=
  match res with Ok a => Q a r | Err _ => True end.

Lemma app_try {A B F} r (p : Prog App (Result Error A)) fail (k : A -> Prog App (Result F B)) R Q :
  app_triple r p (ok_or_fail R) -> (forall a r', R a r' -> app_triple r' (k a) (or_failed Q)) ->
  app_triple r (prog_try p fail k) (or_failed Q).
Proof. intros Hp Hk. eapply app_bind; [exact Hp|]. intros [a|e] r' HR; [by apply Hk|by apply app_ret]. Qed.

(** What a request does to the blob store alone. *)
Lemma app_on_runtime {A} r (p : Prog Rt A) Q : triple c r p Q -> app_triple r (on_runtime_steps p) Q.
Proof.
  intros Hp. eapply app_bind with (R := fun ax => Q ax.1); [|intros ax r' HQ; by apply app_ret].
  intros [g s]. eapply (wp_inside runtime_view (blob_inv c) blob_ext app_inv app_ext).
  - apply _.
  - by intros g1 s1 [] held [_ Hi].
  - intros g1 s1 [] r1 held held' [Hs _] Hi. split; [by apply same_set_runtime|done].
  - done.
  - done.
  - exact (Hp (g, app_runtime s)).
  - done.
Qed.

(** And with the observer of its cache hits. *)
Lemma app_materialize_tracked r body Q :
  triple (W := Tracked W) c r (materialize_steps c body (request_services app)) (fun res r => Q res r) ->
  app_triple r (materialize_tracked_steps app body) (fun ax => Q ax.1).
Proof.
  intros Hp. eapply app_bind with (R := fun ax => Q ax.1); [|intros ax r' HQ; by apply app_ret].
  intros [g s]. eapply (wp_inside tracked_view (blob_inv c) blob_ext app_inv app_ext).
  - apply _.
  - intros g1 s1 x held [_ Hi]. by apply (blob_inv_map_world (V := W)).
  - intros g1 s1 x r1 held held' [Hs _] Hi. split.
    + exact (same_set_admin _ _ (set_runtime _ s1) (same_set_runtime _ _ _ Hs)).
    + by apply (blob_inv_map_world (V := Tracked W) tracked_world).
  - done.
  - done.
  - apply Hp.
  - done.
Qed.

(** What it does to the world. *)
Lemma app_net {A} aw (m : St W A) r (Q : A -> Held -> Prop) :
  frames m -> (forall x a x', m x = (a, x') -> Q a r) -> app_triple r (Act aw (on_net m) Ret) Q.
Proof.
  intros Hframe HQ w g s others _ [Hs Hi]. unfold on_net, Router.on_runtime, on_world.
  destruct (m (world (app_runtime s))) as [a x'] eqn:E. split; [done|]. exists r. split; [|split; [by eapply HQ|done]].
  split; [by apply same_set_runtime|]. revert Hi. apply blob_inv_shared. intros t rest Hi.
  apply store_inv_world; [done|]. intros id. by eapply Hframe.
Qed.

Lemma app_now r : app_triple r now_step (fun _ r' => r' = r).
Proof. apply app_net; [apply frames_now|done]. Qed.

Lemma app_since t r : app_triple r (since_step t) (fun _ r' => r' = r).
Proof. apply app_net; [apply frames_elapsed|done]. Qed.

(** * From the images to the reply *)

(** The blob of the body is all that is left, and then nothing is. *)
Lemma app_remove_body k h doc fail (kont : Prog App Forwarded) Q :
  (0 <= k)%Z -> made c (blob_id h) h doc ->
  app_triple (mkHeld k []) kont (or_failed Q) ->
  app_triple (mkHeld k [slot_of h doc])
    (prog_try (on_runtime_steps (remove_steps h)) fail (fun _ => kont)) (or_failed Q).
Proof.
  intros Hk Hm Hkont. eapply app_try with (R := fun _ r => r = mkHeld k []); [|by intros _ r ->].
  apply app_on_runtime. eapply triple_mono; [by apply triple_remove|]. by intros [[]|e] r.
Qed.

Lemma app_send k resolved url stream content_type accept output_mode hits enc log t entry doc :
  (0 <= k)%Z -> made c (blob_id (body_blob enc)) (body_blob enc) doc ->
  app_triple (mkHeld k [slot_of (body_blob enc) doc])
    (send_encoded_steps app resolved url stream content_type accept output_mode hits enc log t entry)
    (or_failed (fun re r => r = mkHeld k [] /\
       answered app resolved url stream content_type accept output_mode (content_length enc) re.1)).
Proof.
  intros Hk Hm. eapply app_bind.
  { apply (app_net _ _ _ (fun sent r => r = mkHeld k [slot_of (body_blob enc) doc] /\
      forall response, sent = Ok response -> exists w1 w2, send_upstream (mkHttpRequest "POST" url
        (upstream_headers (content_length enc) content_type accept (api_key resolved))
        (BodyStream (FromBlob stream))) w1 = (Ok response, w2))); [apply upstream_frame|].
    intros x a x' E. split; [done|]. intros response ->. by exists x, x'. }
  intros [response|err] r [-> Hsent]; apply app_remove_body; try done.
  destruct (Hsent response eq_refl) as (w1 & w2 & E1).
  eapply app_bind; [apply app_since|]. intros ms r ->. eapply app_bind.
  { apply (app_net _ _ _ (fun handled r => r = mkHeld k [] /\
      forall reply, handled = Ok reply -> exists w3 w4, finish_gemini_response response output_mode
        (has_response_fetch_service app) (app_config app) w3 = (Ok reply, w4))); [apply frames_finish|].
    intros x a x' E. split; [done|]. intros reply ->. by exists x, x'. }
  intros [[reply durations]|err] r [-> Hdone]; apply app_ret; [|done]. split; [done|].
  destruct (Hdone _ eq_refl) as (w3 & w4 & E2). by exists w1, response, w2, w3, durations, w4.
Qed.

(** The replacements are of the images the request owns, and no image is without one. *)
Definition images_owned (own : list Image) (reps : list RequestReplacement) : Prop :=
  NoDup ((fun x => blob_id (handle_of x)) <$> own) /\
  Forall (fun x => made c (blob_id (handle_of x)) (handle_of x) (image_bytes x)) own /\
  Forall (fun x => exists im, im ∈ own /\ replacement_blob x = handle_of im) reps /\
  forall im, im ∈ own -> exists x, x ∈ reps /\ replacement_blob x = handle_of im.

Lemma triple_remove_images k kept own reps :
  (0 <= k)%Z -> images_owned own reps ->
  triple (W := W) c (mkHeld k (kept :: slots_of own)) (remove_all_steps reps)
    (ok_or_fail (fun _ r => r = mkHeld k [kept])).
Proof.
  intros Hk (Hnd & Hmade & Hreps & Hall) w. eapply wp_conseq; [apply _| |apply (wp_remove_all c k kept reps w own Hk Hnd Hmade)].
  - intros w' [[]|e] r; [|done]. intros (own' & -> & Hgone). simpl. f_equal.
    destruct own' as [|im own']; [done|]. destruct (Hgone im ltac:(by left)) as [Him Hne].
    destruct (Hall im Him) as (x & Hx & Hb). rewrite Forall_forall in Hne. by destruct (Hne x Hx).
  - eapply Forall_impl; [exact Hreps|]. intros x (im & Him & Hb). left. apply Exists_exists. by exists im.
Qed.

Lemma app_exchange k own resolved target_path query content_type accept output_mode hits m enc entry doc :
  (0 <= k)%Z -> images_owned own (replacements m) ->
  made c (blob_id (body_blob enc)) (body_blob enc) doc -> content_length enc = u64_wrap (blen doc) ->
  app_triple (mkHeld k (slot_of (body_blob enc) doc :: slots_of own))
    (exchange_steps app resolved target_path query content_type accept output_mode hits m enc entry)
    (or_failed (fun re r => r = mkHeld k [] /\
       exchanged app resolved target_path query content_type accept output_mode doc re.1)).
Proof.
  intros Hk Hown Hm Hlen. set (B := [slot_of (body_blob enc) doc]).
  assert (Hin : slot_of (body_blob enc) doc ∈ B) by (by left).
  eapply app_bind; [apply app_now|]. intros t0 r ->.
  eapply app_try; [by apply app_on_runtime, triple_remove_images|]. intros _ r ->.
  eapply (app_try _ _ _ _ (fun _ r => r = mkHeld k B)).
  { unfold read_upstream_body_steps. destruct (admin_enabled app); [|by apply app_ret].
    eapply app_bind; [by apply app_on_runtime, triple_read|]. intros [bs|e] r [-> _]; by apply app_ret. }
  intros log r ->. eapply (app_try _ _ _ _ (fun url r => r = mkHeld k B /\
    build_upstream_url (base_url resolved) target_path query = Ok url)).
  { apply app_ret. by destruct (build_upstream_url _ _ _). }
  intros url r [-> Hurl]. eapply (app_try _ _ _ _ (fun stream r => r = mkHeld k B /\
    (read_error stream = None -> joined (read_chunks_of stream) = doc))).
  { apply app_on_runtime. eapply triple_mono; [apply triple_open; [exact Hin|exact Hm|unfold READER_STREAM_BYTES; lia]|].
    intros [stream|e] r [-> Hs]; [|done]. split; [done|]. intros Hend.
    destruct Hs as [_ _ Hj]. by destruct (Hj Hend) as [|[]]. }
  intros stream r [-> Hs]. intros w. eapply wp_conseq; [apply _| |by apply app_send].
  intros w' [[reply entry']|f] r; [|done]. intros [-> Ha]. split; [done|]. exists url, stream.
  split; [done|]. split; [done|]. by rewrite <- Hlen.
Qed.

Lemma materialized_owned body m own :
  materialized_as (W := Tracked W) c (request_services app) body m own -> images_owned own (replacements m).
Proof.
  intros (_ & [Hok Hnd] & (refs & _ & Hreps) & Hall). split; [done|]. split; [|split; [|done]].
  - eapply Forall_impl; [exact Hok|]. by intros x [? _].
  - clear -Hreps. induction Hreps as [|ref x refs reps (_ & im & Hin & _ & Hb & _) _ IH]; constructor; [|done].
    by exists im.
Qed.

Lemma materialized_document body m own doc :
  materialized_as (W := Tracked W) c (request_services app) body m own ->
  to_vec (encoded_document (content_of own) (RequestMaterialize.request m) (replacements m)) = Ok doc ->
  forwarded_document (request_services app) body doc.
Proof.
  intros (-> & [Hok Hnd] & (refs & Hscan & Hreps) & _) Hdoc. exists refs, (replacements m), (content_of own).
  split; [done|]. split; [|done]. eapply Forall2_impl; [exact Hreps|].
  intros ref x (Hp & im & Hin & Hu & Hb & Hmime). split; [done|]. rewrite Forall_forall in Hok.
  destruct (Hok im Hin) as [_ Hd]. rewrite Hb, Hmime, <- Hu, content_of_image by done.
  by apply downloaded_tracked.
Qed.

(** What is claimed of a request to the Gemini upstream when it is answered: nothing is left of it, and
    the reply is to the document with its own images. *)
Definition gemini_answered (resolved : ResolvedUpstream) (target_path : string) (query : option string)
    (content_type accept : option bytes) (output_mode : OutputMode) (body : Value)
    (re : Reply * AdminLogEntry) (r : Held) : Prop :=
  (exists k, (0 <= k)%Z /\ r = mkHeld k []) /\
  exists doc, forwarded_document (request_services app) body doc /\
    exchanged app resolved target_path query content_type accept output_mode doc re.1.

Lemma app_encode_and_exchange k own resolved target_path query content_type accept output_mode hits m t ms
    entry body :
  (0 <= k)%Z -> materialized_as (W := Tracked W) c (request_services app) body m own ->
  app_triple (mkHeld (1 + k) (slots_of own))
    (encode_and_exchange_steps app resolved target_path query content_type accept output_mode hits m t ms entry)
    (or_failed (gemini_answered resolved target_path query content_type accept output_mode body)).
Proof.
  intros Hk Hmat. assert (Hown := materialized_owned _ _ _ Hmat).
  eapply app_bind; [apply app_now|]. intros t0 r ->.
  eapply app_bind; [apply app_on_runtime, triple_encode; [done|apply Hown..]|].
  intros [enc|err] r Henc; (eapply app_bind; [apply app_since|]); intros t1 r' ->; [|by apply app_ret].
  destruct Henc as (doc & (Hdoc & Hlen & Hm & _) & ->).
  eapply app_bind; [apply app_since|]. intros t2 r ->. intros w.
  eapply wp_conseq; [apply _| |by apply (app_exchange k own)].
  intros w' [re|f] r; [|done]. intros [-> Hex]. split; [by exists k|]. exists doc. split; [|done].
  by eapply materialized_document.
Qed.

Lemma app_forward_to_gemini resolved target_path query content_type accept body output_mode entry :
  app_triple (mkHeld 8 [])
    (forward_to_gemini_steps app resolved target_path query content_type accept body output_mode entry)
    (or_failed (gemini_answered resolved target_path query content_type accept output_mode body)).
Proof.
  eapply app_bind; [apply app_now|]. intros t0 r ->. eapply app_bind; [apply app_now|]. intros t1 r ->.
  eapply app_bind; [apply app_materialize_tracked, (triple_materialize (W := Tracked W) c _ body 1); done|].
  intros [[m|err] hits] r Hm; (eapply app_bind; [apply app_since|]); intros ms r' ->; [|by apply app_ret].
  destruct Hm as (k & own & Hk & -> & Hmat). replace k with (1 + (k - 1))%Z by lia.
  apply (app_encode_and_exchange (k - 1) own); [lia|exact Hmat].
Qed.

Lemma app_forward_to_aiapidev resolved target_path query body output_mode entry r :
  app_triple r (forward_to_aiapidev_steps app resolved target_path query body output_mode entry)
    (or_failed (fun re r' => r' = r /\ exists w w',
       run_aiapidev_task resolved (rewrite_aiapidev_model_path target_path) query
         (rewrite_aiapidev_request_body (resolved_external_image_proxy_prefix (app_config app))
            (image_fetch_external_proxy_domains (app_config app)) body)
         output_mode (has_response_fetch_service app) (app_config app) w = (re.1, w'))).
Proof.
  eapply (app_try _ _ _ _ (fun _ r' => r' = r)).
  { apply app_ret. destruct (admin_enabled app); [|done]. by destruct (to_vec _). }
  intros log r' ->.
  eapply app_bind; [apply app_now|]. intros t0 r' ->. eapply app_bind.
  { apply (app_net _ _ _ (fun reply r' => r' = r /\ exists w w',
       run_aiapidev_task resolved (rewrite_aiapidev_model_path target_path) query
         (rewrite_aiapidev_request_body (resolved_external_image_proxy_prefix (app_config app))
            (image_fetch_external_proxy_domains (app_config app)) body)
         output_mode (has_response_fetch_service app) (app_config app) w = (reply, w')));
      [apply frames_aiapidev|]. intros x a x' E. split; [done|]. by exists x, x'. }
  intros reply r' [-> Hrun]. eapply app_bind; [apply app_since|]. intros ms r' ->. by apply app_ret.
Qed.

(** What is claimed of any request to a model. *)
Definition request_answered (resolved : ResolvedUpstream) (target_path : string) (request : Request)
    (re : Reply * AdminLogEntry) (r : Held) : Prop :=
  (exists k, (0 <= k)%Z /\ r = mkHeld k []) /\ led_to app resolved target_path request re.1.

Lemma app_forward_gemini_request resolved target_path request log :
  app_triple (mkHeld 8 []) (forward_gemini_request_steps app resolved target_path request log)
    (or_failed (request_answered resolved target_path request)).
Proof.
  eapply app_bind; [apply app_now|]. intros t0 r ->.
  destruct (to_bytes (rq_body request) MAX_REQUEST_BODY_BYTES) as [raw|e] eqn:Eraw; [|by apply app_ret].
  destruct (from_slice raw) as [body|e] eqn:Ebody; (eapply app_bind; [apply app_since|]); intros ms r ->;
    [|by apply app_ret].
  destruct (is_aiapidev_base_url (base_url resolved)) eqn:Eai; intros w.
  - eapply wp_conseq; [apply _| |apply app_forward_to_aiapidev]. intros w' [re|f] r; [|done].
    intros [-> Hrun]. split; [by exists 8%Z|]. exists raw, body. split; [done|]. split; [done|]. by rewrite Eai.
  - eapply wp_conseq; [apply _| |apply app_forward_to_gemini]. intros w' [re|f] r; [|done].
    intros [Hr Hdoc]. split; [done|]. exists raw, body. split; [done|]. split; [done|]. by rewrite Eai.
Qed.

Lemma app_forward_openai resolved body query log r :
  app_triple r (forward_openai_image_request_steps app resolved body query log)
    (or_failed (fun re r' => r' = r /\ images_answered app resolved body query re.1)).
Proof.
  eapply (app_try _ _ _ _ (fun _ r' => r' = r)).
  { apply app_ret. destruct (admin_enabled app); [|done]. by destruct (to_vec _). }
  intros upstream r' ->. eapply app_bind; [apply app_now|]. intros t0 r' ->.
  eapply (app_try _ _ _ _ (fun url r' => r' = r /\
    build_upstream_url (base_url resolved) "/v1/images/generations" query = Ok url)).
  { apply app_ret. by destruct (build_upstream_url _ _ _). }
  intros url r' [-> Hurl]. eapply app_bind.
  { apply (app_net _ _ _ (fun sent r' => r' = r /\ forall response, sent = Ok response -> exists w1 w2,
      post_json url [("content-type", "application/json"); ("authorization", "Bearer " +:+ api_key resolved)]
        body w1 = (Ok response, w2))); [apply frames_post|].
    intros x a x' E. split; [done|]. intros response ->. by exists x, x'. }
  intros [response|err] r' [-> Hsent]; [|by apply app_ret].
  destruct (Hsent response eq_refl) as (w1 & w2 & E1).
  eapply app_bind; [apply app_since|]. intros ms r' ->.
  eapply (app_try _ _ _ _ (fun handled r' => r' = r /\ exists w3 w4,
    handle_openai_image_response response (app_config app) w3 = (Ok handled, w4))).
  { apply app_net; [apply frames_openai|]. intros x a x' E. destruct a as [handled|e]; [|done].
    split; [done|]. by exists x, x'. }
  intros [reply durations] r' (-> & w3 & w4 & E2). apply app_ret. split; [done|].
  by exists url, w1, response, w2, w3, durations, w4.
Qed.
End server.

(** * What is counted meanwhile *)

Section counting.
#[local] Set Default Proof Using "Type".
Context `{UrlLib} `{HttpLib} `{JsonCodec} `{Displays} `{Base64} `{ImageCodec} `{BodyLib} {W : Type}
  `{FileSystem W} `{UrlFetcher W} `{ResponseFetcher W} `{!HttpClient W} `{Runtime W} `{DuplexPipe W}
  `{Stopwatch W} `{Clock W} `{JoinOrder W} `{UpstreamClient W} `{InlineUploader W} `{LogLib W}.
Abbreviation App := (AppState W).
Context (app : App).

(** Only cache hits are. *)
Definition counts_hits : relation App := fun s s' => exists n, app_admin s' = after_hits n (app_admin s).

Abbreviation quiet := (every counts_hits).

Lemma counts_none s s' : app_admin s' = app_admin s -> counts_hits s s'.
Proof. intros E. exists 0%nat. rewrite E. by destruct (app_admin s) as [[]|]. Qed.

Lemma quiet_net {A} aw (m : St W A) : quiet (Act aw (on_net m) Ret).
Proof.
  apply every_act. intros s. apply counts_none. unfold on_net, Router.on_runtime. by destruct (on_world m _).
Qed.

Lemma quiet_on_runtime {A} (p : Prog (BlobRuntimeInner W) A) : quiet (on_runtime_steps p).
Proof.
  apply every_bind; [|done]. apply (every_inside _ (fun _ _ => True)); [|apply every_any].
  intros s x r _. by apply counts_none.
Qed.

Lemma quiet_try {A B F} (p : Prog App (Result Error A)) fail (k : A -> Prog App (Result F B)) :
  quiet p -> (forall a, quiet (k a)) -> quiet (prog_try p fail k).
Proof. intros Hp Hk. apply every_bind; [done|]. intros [a|e]; [apply Hk|done]. Qed.

Lemma quiet_materialize_tracked body : quiet (materialize_tracked_steps app body).
Proof.
  apply every_bind; [|done]. eapply every_inside; [|apply quiets_materialize].
  intros s [st hits] r (n & Hs & _). exists n. simpl in Hs. simpl.
  destruct (app_admin s) as [admin|]; [|done]. simpl. by rewrite Hs.
Qed.

Lemma quiet_send_encoded resolved url reader content_type accept output_mode hits encoded log t entry :
  quiet (send_encoded_steps app resolved url reader content_type accept output_mode hits encoded log t entry).
Proof.
  apply every_bind; [apply quiet_net|].
  intros [response|err]; (apply quiet_try; [apply quiet_on_runtime|]); intros _; [|done].
  apply every_bind; [apply quiet_net|]. intros ms. apply every_bind; [apply quiet_net|done].
Qed.

Lemma quiet_exchange resolved target_path query content_type accept output_mode hits m enc entry :
  quiet (exchange_steps app resolved target_path query content_type accept output_mode hits m enc entry).
Proof.
  apply every_bind; [apply quiet_net|]. intros t0. apply quiet_try; [apply quiet_on_runtime|]. intros _.
  apply quiet_try.
  { unfold read_upstream_body_steps. destruct (admin_enabled app); [|done].
    apply every_bind_ok; [apply quiet_on_runtime|done]. }
  intros log. apply quiet_try; [done|]. intros url. apply quiet_try; [apply quiet_on_runtime|].
  intros stream. apply quiet_send_encoded.
Qed.

Lemma quiet_forward_to_gemini resolved target_path query content_type accept body output_mode entry :
  quiet (forward_to_gemini_steps app resolved target_path query content_type accept body output_mode entry).
Proof.
  apply every_bind; [apply quiet_net|]. intros t0. apply every_bind; [apply quiet_net|]. intros t1.
  apply every_bind; [apply quiet_materialize_tracked|].
  intros [[m|err] hits]; (apply every_bind; [apply quiet_net|]); intros ms; [|done].
  apply every_bind; [apply quiet_net|]. intros t2. apply every_bind; [apply quiet_on_runtime|].
  intros [enc|err]; (apply every_bind; [apply quiet_net|]); intros t3; [|done].
  apply every_bind; [apply quiet_net|]. intros t4. apply quiet_exchange.
Qed.

Lemma quiet_forward_gemini_request resolved target_path request log :
  quiet (forward_gemini_request_steps app resolved target_path request log).
Proof.
  apply every_bind; [apply quiet_net|]. intros t0.
  destruct (to_bytes (rq_body request) MAX_REQUEST_BODY_BYTES) as [raw|e]; [|done].
  destruct (from_slice raw) as [body|e]; (apply every_bind; [apply quiet_net|]); intros ms; [|done].
  destruct (is_aiapidev_base_url (base_url resolved)); [|apply quiet_forward_to_gemini].
  apply quiet_try; [done|]. intros log'. apply every_bind; [apply quiet_net|]. intros t1.
  apply every_bind; [apply quiet_net|]. intros response. apply every_bind; [apply quiet_net|done].
Qed.

Lemma quiet_forward_openai resolved body query log :
  quiet (forward_openai_image_request_steps app resolved body query log).
Proof.
  apply quiet_try; [done|]. intros upstream. apply every_bind; [apply quiet_net|]. intros t0.
  apply quiet_try; [done|]. intros url. apply every_bind; [apply quiet_net|].
  intros [response|err]; [|done]. apply every_bind; [apply quiet_net|]. intros ms.
  apply quiet_try; [apply quiet_net|done].
Qed.
End counting.
