(* ===== verification/Handling.v ===== *)
(** The actions of router.rs: what the client gets, and the one entry that is logged of it. *)

From S2P Require Import Prelude RustStr Json Pointer Ext Samples.
From S2P Require Import Config Upstream ImageIo RequestScan BlobRuntime RequestEncode FetchService.
From S2P Require Import RequestMaterialize RequestRewrite OpenaiImage Http Admin Upload.
From S2P Require Import ResponseRewrite ResponseMaterialize Query UpstreamClient UpstreamResponse.
From S2P Require Import Aiapidev Tracking Router Forwarding.
From stdpp Require Import options.

(** * Logging *)

Section logging.
#[local] Set Default Proof Using "All".
Context `{HttpLib} `{JsonCompact} `{Displays} `{Base64Laws} `{ImageCodec} `{BodyLaws} {W : Type}
  `{FetchLaws W} `{DuplexLaws W} `{!SchedulerLaws W}
  `{ResponseFetcher W} `{InlineUploader W} `{Clock W} `{UpstreamClient W} `{LogLib W} `{!RouterFrames W}.
Abbreviation App := (AppState W).

(** The admin state after a request is logged: its entry is counted and recorded. *)
Definition logged_in (entry : AdminLogEntry) (admin : option AdminState) : option AdminState :=
  (fun admin => record (mkAdminState (password admin) (logs admin)
                          (apply_admin_stats (stats admin) entry)) entry) <$> admin.

#[local] Arguments String.eqb : simpl never.

(** The connection's fields are set by nothing else. *)
Definition respects_stamp (f : AdminLogEntry -> AdminLogEntry) : Prop := forall a entry,
  f (stamp a entry) = stamp a (f entry) /\
  entry_request_raw_image_cache_hits (f entry) = entry_request_raw_image_cache_hits entry.

Lemma respects_log_response response body : respects_stamp (log_response response body).
Proof.
  intros a entry. unfold log_response, apply_admin_error_fields.
  destruct (is_empty body); [done|]. destruct (from_slice body) as [v|e]; [|done].
  destruct (value_get "error" v ≫= as_object) as [error|]; [|done].
  set (source := error_field "source" error). simpl. by destruct (String.eqb source "upstream").
Qed.

Lemma respects_apply_to_entry log : respects_stamp (apply_to_entry log).
Proof. intros a entry. by destruct log. Qed.

Lemma respects_proxy_error st kind message detail : respects_stamp (with_proxy_error st kind message detail).
Proof. by intros a entry. Qed.

Lemma respects_compose f g :
  respects_stamp f -> respects_stamp g -> respects_stamp (fun entry => f (g entry)).
Proof.
  intros Hf Hg a entry. destruct (Hg a entry) as [-> <-]. apply Hf.
Qed.

(** One entry is logged, with the status of the reply; the cache hits of the request were counted;
    blobs that were live are. *)
Definition logged_once (a : Arrival) (s : App) (L : gmap Z (BlobHandle * bytes)) (reply : Reply) (s' : App)
    : Prop :=
  exists rt L' entry,
    s' = set_admin (logged_in (stamp a entry)
                      (after_hits (length (entry_request_raw_image_cache_hits entry)) (app_admin s)))
           (set_runtime rt s) /\
    rep rt L' /\ L ⊆ L' /\ entry_status_code entry = reply_status reply.

(** The reply that was made is what the client gets. *)
Definition carries (response reply : Reply) : Prop :=
  reply_status reply = reply_status response /\ reply_headers reply = reply_headers response /\
  ((blen (reply_body response) <= usize_max)%Z -> reply_body reply = reply_body response).

Lemma finalize_run a response entry admin rt0 (s : App) L reply s' :
  rep rt0 L ->
  finalize_admin_response response (stamp a entry) (set_admin admin (set_runtime rt0 s)) = (reply, s') ->
  carries response reply /\
  exists rt entry', s' = set_admin (logged_in (stamp a entry') admin) (set_runtime rt s) /\ rep rt L /\
    entry_status_code entry' = reply_status reply /\
    entry_request_raw_image_cache_hits entry' = entry_request_raw_image_cache_hits entry.
Proof.
  intros Hrep. unfold finalize_admin_response. intros (u & s1 & E1 & E)%st_bind_inv.
  assert (Hf : frames (log_slow_request (app_config s) (stamp a entry))).
  { unfold log_slow_request. repeat case_match; first [apply frames_ret|apply warn_frame]. }
  destruct (net_run _ (set_admin admin (set_runtime rt0 s)) L _ _ Hf Hrep E1) as (rt & -> & Hrep1 & _).
  simpl in E. destruct admin as [admin|]; injection E as <- <-.
  - split.
    { split; [done|]. split; [done|]. intros Hlen. simpl. by rewrite to_bytes_from. }
    set (body := default EmptyString (result_ok (to_bytes (body_from (reply_body response)) usize_max))).
    destruct (respects_log_response response body a entry) as [Hs Hh].
    exists rt, (with_status_code (reply_status response) (log_response response body entry)).
    split; [simpl; by rewrite Hs|]. by split_and!.
  - split; [done|].
    exists rt, (with_status_code (reply_status response) entry). by split_and!.
Qed.

Lemma reject_run a started parsing status response describe (s : App) L reply s' :
  rep (app_runtime s) L -> respects_stamp describe ->
  reject a started parsing status response describe s = (reply, s') ->
  logged_once a s L reply s' /\ reply_status reply = reply_status response.
Proof.
  intros Hrep Hd. unfold reject. intros (d & s1 & E1 & E)%st_bind_inv.
  destruct (since_run _ _ _ _ _ Hrep E1) as (rt1 & -> & Hrep1 & _).
  apply st_bind_inv in E as (p & s2 & E2 & E).
  assert (Hs2 : exists rt, s2 = set_runtime rt s /\ rep rt L).
  { destruct parsing as [t|].
    - destruct (since_run _ (set_runtime rt1 s) _ _ _ Hrep1 E2) as (rt & -> & ? & _). by exists rt.
    - injection E2 as _ <-. by exists rt1. }
  destruct Hs2 as (rt2 & -> & Hrep2).
  change (rejected_entry a status d p) with
    (stamp a (with_request_parse_ms p (with_duration_ms d (with_status_code status entry_default)))) in E.
  destruct (Hd a (with_request_parse_ms p (with_duration_ms d (with_status_code status entry_default))))
    as [Hs Hh].
  rewrite Hs in E.
  replace (set_runtime rt2 s) with (set_admin (app_admin s) (set_runtime rt2 s)) in E by (by destruct s).
  destruct (finalize_run _ _ _ _ _ _ _ _ _ Hrep2 E) as ((Hsame & _) & rt & entry & -> & Hrep' & Hst & Hhits).
  split; [|done]. exists rt, L, entry. rewrite Hhits, Hh. simpl. rewrite after_no_hits. by split_and!.
Qed.

(** A request that was forwarded is finished. *)
Lemma finish_forwarded_run a started parse_ms structured (r : Forwarded) rt (s : App) L L' reply s' :
  rep rt L' -> L ⊆ L' ->
  finish_forwarded a started parse_ms structured r
    (set_admin (after_hits (length (logged_hits r)) (app_admin s)) (set_runtime rt s)) = (reply, s') ->
  logged_once a s L reply s' /\
  match r with
  | Ok (response, _) => carries response reply
  | Err _ => reply_status reply = 502%Z
  end.
Proof.
  intros Hrep Hsub. set (admin := after_hits (length (logged_hits r)) (app_admin s)). unfold finish_forwarded.
  assert (Hend : forall response entry rt1, rep rt1 L' ->
    entry_request_raw_image_cache_hits entry = logged_hits r ->
    finalize_admin_response response (stamp a entry) (set_admin admin (set_runtime rt1 s)) = (reply, s') ->
    logged_once a s L reply s' /\ carries response reply).
  { intros response entry rt1 Hrep1 Hh E.
    destruct (finalize_run _ _ _ _ _ _ _ _ _ Hrep1 E) as (Hc & rt2 & entry' & -> & Hrep2 & Hst & Hh').
    split; [|done]. exists rt2, L', entry'. rewrite Hh', Hh. by split_and!. }
  destruct r as [[response entry]|f]; intros (d & s1 & E1 & E)%st_bind_inv;
    destruct (since_run _ (set_admin admin (set_runtime rt s)) _ _ _ Hrep E1) as (rt1 & -> & Hrep1 & _).
  { by eapply (Hend response (with_duration_ms d (add_request_parse_ms parse_ms entry)) rt1). }
  assert (Hfail : forall response g, respects_stamp g -> reply_status response = 502%Z ->
    finalize_admin_response response (g (with_status_code 502 (complete_entry a parse_ms d (failure_entry f))))
      (set_admin admin (set_runtime rt1 s)) = (reply, s') ->
    logged_once a s L reply s' /\ reply_status reply = 502%Z).
  { intros response g Hg Hst.
    change (with_status_code 502 (complete_entry a parse_ms d (failure_entry f))) with
      (stamp a (with_status_code 502 (with_duration_ms d (add_request_parse_ms parse_ms (failure_entry f))))).
    destruct (Hg a (with_status_code 502 (with_duration_ms d (add_request_parse_ms parse_ms
      (failure_entry f))))) as [-> Hh].
    intros E'. destruct (Hend _ _ _ Hrep1 Hh E') as [? [Hs _]]. split; [done|by rewrite Hs]. }
  destruct structured; [destruct (classify_standard_proxy_error_detail (failure_error f)) as [e|]|].
  - apply (Hfail _ (apply_structured_proxy_error e)) in E; [done|done|apply json_reply_status].
  - destruct (classify_standard_proxy_error (failure_error f)) as [e|];
      (apply (Hfail _ (fun entry => entry)) in E; [done|done|apply json_reply_status]).
  - apply (Hfail _ (fun entry => entry)) in E; [done|done|apply json_reply_status].
Qed.

(** The start of both actions. *)
Lemma arrive_run {A} (request : Request) (k : Z -> string -> St App A) (s : App) L r s' :
  rep (app_runtime s) L ->
  (started_at <-! now ;; created_at <-! on_net now_rfc3339 ;; k started_at created_at) s = (r, s') ->
  exists started_at created_at rt, rep rt L /\
    next_id_counter rt = next_id_counter (app_runtime s) /\
    k started_at created_at (set_runtime rt s) = (r, s').
Proof.
  intros Hrep (t & s1 & E1 & E)%st_bind_inv. destruct (now_run _ _ _ _ Hrep E1) as (rt1 & -> & Hrep1 & Hn1).
  apply st_bind_inv in E as (c & s2 & E2 & E).
  destruct (net_run _ (set_runtime rt1 s) _ _ _ rfc3339_frame Hrep1 E2) as (rt2 & -> & Hrep2 & Hn2 & _).
  exists t, c, rt2. split_and!; [done|by rewrite Hn2|done].
Qed.

Lemma logged_once_runtime a rt (s : App) L reply s' :
  logged_once a (set_runtime rt s) L reply s' -> logged_once a s L reply s'.
Proof. done. Qed.

(** What a client gets for a request to a model. *)
Definition model_reply (s : App) (rest : string) (request : Request) (reply : Reply) : Prop :=
  if negb (ends_with rest ":generateContent") then reply_status reply = 404%Z else
  match to_bytes (rq_body request) MAX_REQUEST_BODY_BYTES with
  | Err _ => reply_status reply = 502%Z
  | Ok raw =>
      match from_slice raw with
      | Err _ => reply_status reply = 502%Z
      | Ok body =>
          match resolve_upstream_for_request_from_header_map (rq_headers request) body
                  (upstream_base_url (app_config s)) (upstream_api_key (app_config s)) with
          | Err err => reply_status reply = status_code err
          | Ok resolved =>
              reply_status reply = 502%Z \/
              exists response, carries response reply /\
                led_to s resolved ("/v1beta/models/" +:+ rest)
                  (mkRequest _ (rq_method request) (rq_path request) (rq_query request)
                     (rq_headers request) (body_from raw)) response
          end
      end
  end.

Lemma model_action_run rest request (s : App) L reply s' :
  rep (app_runtime s) L -> (next_id_counter (app_runtime s) + 8 < u64_max)%Z ->
  model_action rest request s = (reply, s') ->
  exists created_at, logged_once (arrival created_at request) s L reply s' /\
    model_reply s rest request reply.
Proof.
  intros Hrep Hlt E. destruct (arrive_run request _ s L _ _ Hrep E) as (t & c & rt & Hrep0 & Hn & E0).
  clear E. exists c. unfold model_reply. rewrite <- Hn in Hlt.
  destruct (negb (ends_with rest ":generateContent")).
  { apply (reject_run _ _ _ _ _ _ (set_runtime rt s) L) in E0 as [Hlog ->];
      [by rewrite ?proxy_error_status, ?json_reply_status|done|done]. }
  apply st_bind_inv in E0 as (t1 & s1 & E1 & E).
  destruct (now_run (set_runtime rt s) _ _ _ Hrep0 E1) as (rt1 & -> & Hrep1 & Hn1). simpl in Hn1.
  rewrite <- Hn1 in Hlt. clear E1.
  destruct (to_bytes (rq_body request) MAX_REQUEST_BODY_BYTES) as [raw|e].
  2: { apply (reject_run _ _ _ _ _ _ (set_runtime rt1 s) L) in E as [Hlog ->];
         [by rewrite ?proxy_error_status, ?json_reply_status|done|apply respects_proxy_error]. }
  destruct (from_slice raw) as [body|e].
  2: { apply (reject_run _ _ _ _ _ _ (set_runtime rt1 s) L) in E as [Hlog ->];
         [by rewrite ?proxy_error_status, ?json_reply_status|done|].
       apply respects_compose; [apply respects_apply_to_entry|apply respects_proxy_error]. }
  simpl in E. destruct (resolve_upstream_for_request_from_header_map _ _ _ _) as [resolved|e].
  2: { apply (reject_run _ _ _ _ _ _ (set_runtime rt1 s) L) in E as [Hlog ->];
         [by rewrite ?proxy_error_status, ?json_reply_status|done|apply respects_apply_to_entry]. }
  apply st_bind_inv in E as (p & s2 & E2 & E).
  destruct (since_run _ (set_runtime rt1 s) _ _ _ Hrep1 E2) as (rt2 & -> & Hrep2 & Hn2). simpl in Hn2.
  rewrite <- Hn2 in Hlt. apply st_bind_inv in E as (r & s3 & E3 & E).
  destruct (forward_gemini_request_run _ _ _ _ (set_runtime rt2 s) L _ _ Hrep2 Hlt E3)
    as (rt3 & L' & -> & Hrep3 & Hsub & Hr).
  apply (finish_forwarded_run _ _ _ _ _ rt3 s L L') in E as [Hlog Hreply]; [|done..].
  split; [done|]. destruct r as [[response entry]|f]; [right|by left].
  exists response. split; [done|]. by destruct Hr as [_ ?].
Qed.

(** What a client gets for a request for images. *)
Definition images_reply (s : App) (request : Request) (reply : Reply) : Prop :=
  match to_bytes (rq_body request) MAX_REQUEST_BODY_BYTES with
  | Err _ => reply_status reply = 502%Z
  | Ok raw =>
      match from_slice raw with
      | Err _ => reply_status reply = 502%Z
      | Ok parsed =>
          match normalize_request_body parsed with
          | Err _ => reply_status reply = 400%Z
          | Ok body =>
              match resolve_upstream_for_request_from_header_map (rq_headers request) body
                      (upstream_base_url (app_config s)) (upstream_api_key (app_config s)) with
              | Err err => reply_status reply = status_code err
              | Ok resolved =>
                  let query := default EmptyString (rq_query request) in
                  reply_status reply = 502%Z \/
                  exists response, carries response reply /\
                    images_answered s resolved body (if is_empty query then None else Some query) response
              end
          end
      end
  end.

Lemma image_generations_action_run request (s : App) L reply s' :
  rep (app_runtime s) L -> image_generations_action request s = (reply, s') ->
  exists created_at, logged_once (arrival created_at request) s L reply s' /\
    images_reply s request reply.
Proof.
  intros Hrep E. destruct (arrive_run request _ s L _ _ Hrep E) as (t & c & rt & Hrep0 & _ & E0).
  clear E. exists c. unfold images_reply. apply st_bind_inv in E0 as (t1 & s1 & E1 & E).
  destruct (now_run (set_runtime rt s) _ _ _ Hrep0 E1) as (rt1 & -> & Hrep1 & _). clear E1.
  destruct (to_bytes (rq_body request) MAX_REQUEST_BODY_BYTES) as [raw|e].
  2: { apply (reject_run _ _ _ _ _ _ (set_runtime rt1 s) L) in E as [Hlog ->];
         [by rewrite ?proxy_error_status, ?json_reply_status|done|apply respects_proxy_error]. }
  destruct (from_slice raw) as [parsed|e].
  2: { apply (reject_run _ _ _ _ _ _ (set_runtime rt1 s) L) in E as [Hlog ->];
         [by rewrite ?proxy_error_status, ?json_reply_status|done|].
       apply respects_compose; [apply respects_apply_to_entry|apply respects_proxy_error]. }
  destruct (normalize_request_body parsed) as [body|e].
  2: { apply (reject_run _ _ _ _ _ _ (set_runtime rt1 s) L) in E as [Hlog ->];
         [by rewrite ?proxy_error_status, ?json_reply_status|done|].
       apply respects_compose; [apply respects_apply_to_entry|apply respects_proxy_error]. }
  simpl in E. destruct (resolve_upstream_for_request_from_header_map _ _ _ _) as [resolved|e].
  2: { apply (reject_run _ _ _ _ _ _ (set_runtime rt1 s) L) in E as [Hlog ->];
         [by rewrite ?proxy_error_status, ?json_reply_status|done|apply respects_apply_to_entry]. }
  apply st_bind_inv in E as (p & s2 & E2 & E).
  destruct (since_run _ (set_runtime rt1 s) _ _ _ Hrep1 E2) as (rt2 & -> & Hrep2 & _).
  apply st_bind_inv in E as (r & s3 & E3 & E).
  destruct (forward_openai_run _ _ _ _ (set_runtime rt2 s) L _ _ Hrep2 E3) as (rt3 & -> & Hrep3 & Hh & Hr).
  replace (set_runtime rt3 (set_runtime rt2 s)) with
    (set_admin (after_hits (length (logged_hits r)) (app_admin s)) (set_runtime rt3 s)) in E.
  2: { rewrite Hh. simpl. rewrite after_no_hits. by destruct s. }
  apply (finish_forwarded_run _ _ _ _ _ rt3 s L L) in E as [Hlog Hreply]; [|done..].
  split; [done|]. destruct r as [[response entry]|f]; [right|by left].
  exists response. by split.
Qed.
End logging.
