(* ===== verification/Server.v ===== *)
(** The server of router.rs as a state machine: what each request gets, what holds after any number
    of requests, and who can read the log. *)

From S2P Require Import Prelude RustStr Json Pointer Ext Samples.
From S2P Require Import Config Upstream ImageIo RequestScan BlobRuntime RequestEncode FetchService MemoryCache.
From S2P Require Import RequestMaterialize RequestRewrite OpenaiImage Http Admin Upload.
From S2P Require Import ResponseRewrite ResponseMaterialize Query UpstreamClient UpstreamResponse.
From S2P Require Import Aiapidev Tracking Router Forwarding Handling.
From stdpp Require Import options.

(** * The statistics and the log *)

Lemma bumped_total n stats : stats_total_requests (bumped n stats) = stats_total_requests stats.
Proof. induction n as [|n IH]; [done|]. exact IH. Qed.

(** [n] requests were counted and recorded. *)
Record keeps_log (secret : string) (n : nat) (admin : AdminState) : Prop := {
  kept_password : password admin = secret;
  kept_total : stats_total_requests (stats admin) = Z.of_nat n;
  kept_id : log_next_id (logs admin) = Z.of_nat n;
  kept_entries : length (log_entries (logs admin)) = Nat.min n ADMIN_LOG_CAPACITY;
}.

Lemma admin_new_keeps secret : keeps_log secret 0 (admin_new secret).
Proof. by split. Qed.

Lemma logged_in_keeps secret n hits entry admin :
  (Z.of_nat (S n) <= i64_max)%Z -> keeps_log secret n admin ->
  exists admin', logged_in entry (after_hits hits (Some admin)) = Some admin' /\
    keeps_log secret (S n) admin'.
Proof.
  intros Hn [Hp Ht Hi He]. eexists. split; [reflexivity|].
  assert (Hwrap : i64_wrap (Z.of_nat n + 1) = Z.of_nat (S n)).
  { rewrite i64_wrap_small; [lia|]. unfold i64_min, i64_max in *. lia. }
  split.
  - done.
  - simpl. rewrite bumped_total, Ht. exact Hwrap.
  - simpl. by rewrite Hi.
  - rewrite record_entries, length_take. cbn [length logs]. rewrite He. unfold ADMIN_LOG_CAPACITY. lia.
Qed.

(** * Routes *)

Lemma route_method path method route :
  route_of path = Some (method, route) ->
  method = match route with ImageGenerations | ModelAction _ => "POST" | _ => "GET" end.
Proof.
  unfold route_of. repeat (case_match; [by intros [= <- <-]|]). simpl.
  destruct (strip_prefix "/v1beta/models/" path) as [rest|]; [simpl|done].
  case_match; [done|by intros [= <- <-]].
Qed.

Section routing.
#[local] Set Default Proof Using "Type".
Context `{UrlLib} `{HttpLib} `{JsonCodec} `{Displays} `{Base64} `{ImageCodec} `{BodyLib} {W : Type}
  `{FileSystem W} `{UrlFetcher W} `{ResponseFetcher W} `{!HttpClient W} `{Runtime W} `{DuplexPipe W}
  `{Stopwatch W} `{Clock W} `{JoinOrder W} `{UpstreamClient W} `{InlineUploader W} `{LogLib W} `{!RouteLib}.
Abbreviation App := (AppState W).

(** The requests that one of the two actions takes. *)
Definition is_action (request : Request) : bool :=
  String.eqb (rq_method request) "POST" &&
  match route_of (rq_path request) with
  | Some (_, ImageGenerations) => true
  | Some (_, ModelAction rest) => match path_param rest with Ok _ => true | Err _ => false end
  | _ => false
  end.

(** What any request to the server does. *)
Inductive served (page : Reply) (request : Request) (s : App) : Reply -> App -> Prop :=
| served_model rest rest' reply s' :
    route_of (rq_path request) = Some ("POST", ModelAction rest) -> path_param rest = Ok rest' ->
    is_action request = true -> model_action rest' request s = (reply, s') ->
    served page request s reply s'
| served_images reply s' :
    route_of (rq_path request) = Some ("POST", ImageGenerations) -> is_action request = true ->
    image_generations_action request s = (reply, s') -> served page request s reply s'
| served_page reply : is_action request = false -> served page request s reply s.

Lemma serve_inv page request s reply s' :
  serve page request s = (reply, s') -> served page request s reply s'.
Proof.
  unfold serve. destruct (route_of (rq_path request)) as [[method route]|] eqn:Er.
  2: { intros [= <- <-]. apply served_page. unfold is_action. rewrite Er. by rewrite andb_false_r. }
  assert (Hm := route_method _ _ _ Er).
  destruct (String.eqb_spec (rq_method request) method) as [Heq|Hne].
  - destruct route as [| | | | |rest]; simpl; try (intros [= <- <-]; apply served_page; unfold is_action;
      by rewrite Er, andb_false_r).
    + intros E. subst method. apply served_images; [done| |done]. unfold is_action. by rewrite Heq, Er.
    + destruct (path_param rest) as [rest'|rejection] eqn:Ep.
      * intros E. subst method. eapply served_model; [done|exact Ep| |exact E].
        unfold is_action. by rewrite Heq, Er, Ep.
      * intros [= <- <-]. apply served_page. unfold is_action. by rewrite Er, Ep, andb_false_r.
  - assert (Hpage : is_action request = false).
    { unfold is_action. rewrite Er. destruct route as [| | | | |rest]; rewrite ?andb_false_r; try done;
        (apply andb_false_iff; left; apply String.eqb_neq; by subst method). }
    destruct (_ && _) eqn:Eh; [|by intros [= <- <-]; apply served_page].
    apply andb_true_iff in Eh as [Hget%String.eqb_eq _].
    destruct route as [| | | | |rest]; simpl; intros E; try (injection E as <- <-; by apply served_page);
      by subst method.
Qed.
End routing.

(** * The server *)

Section server.
#[local] Set Default Proof Using "All".
Context `{HttpLib} `{JsonCompact} `{Displays} `{Base64Laws} `{ImageCodec} `{BodyLaws} {W : Type}
  `{FetchLaws W} `{DuplexLaws W} `{!SchedulerLaws W}
  `{ResponseFetcher W} `{InlineUploader W} `{Clock W} `{UpstreamClient W} `{LogLib W} `{!RouterFrames W}
  `{!RouteLib} `{Digests} `{LruLib MemoryCache.MemoryEntry} `{Directories W}.
Abbreviation App := (AppState W).

(** The identifiers of blobs are not used up: a request takes at most eight of [2 ^ 64]. *)
Definition has_room (s : App) : Prop := (next_id_counter (app_runtime s) + 8 < u64_max)%Z.

(** The states of the server and the requests it has answered. Between two requests the world may
    change, but for the blob files, which are the server's own. *)
Inductive reachable (config : Config) (page : Reply) : nat -> App -> Prop :=
| reachable_start w : reachable config page 0 (build_app_state config w)
| reachable_serve n s request reply s' :
    reachable config page n s -> has_room s -> serve page request s = (reply, s') ->
    reachable config page (if is_action request then S n else n) s'
| reachable_world n s w :
    reachable config page n s ->
    (forall p, fs_content w p = fs_content (world (app_runtime s)) p) ->
    reachable config page n (set_runtime (set_world w (app_runtime s)) s).

Definition server_ok (config : Config) (n : nat) (s : App) : Prop :=
  (exists L, rep (app_runtime s) L) /\ app_config s = config /\
  if is_empty (trim (admin_password config)) then app_admin s = None
  else exists admin, app_admin s = Some admin /\ keeps_log (admin_password config) n admin.

Lemma logged_once_ok config n a (s : App) L reply s' :
  (Z.of_nat (S n) <= i64_max)%Z -> server_ok config n s -> logged_once a s L reply s' ->
  server_ok config (S n) s'.
Proof.
  intros Hn (_ & Hc & Hadm) (rt & L' & entry & -> & Hrep & _). split; [by exists L'|]. split; [done|].
  simpl. destruct (is_empty (trim (admin_password config))); [by rewrite Hadm|].
  destruct Hadm as (admin & -> & Hk). by apply logged_in_keeps.
Qed.

Lemma reachable_ok config page n s :
  in_u64 (blob_global_hot_budget_bytes config) -> (Z.of_nat n <= i64_max)%Z ->
  reachable config page n s -> server_ok config n s.
Proof.
  intros Hb Hn Hs. induction Hs as [w|n s request reply s' Hs IH Hroom E|n s w Hs IH Hw].
  - split; [exists ∅; by apply runtime_new_rep|]. split; [done|]. simpl.
    destruct (is_empty (trim (admin_password config))); [done|].
    exists (admin_new (admin_password config)). split; [done|apply admin_new_keeps].
  - apply serve_inv in E.
    destruct E as [rest rest' reply s' _ _ Ha E|reply s' _ Ha E|reply Ha]; rewrite Ha in Hn |- *;
      [| |by apply IH]; (destruct IH as ([L Hrep] & Hok); [lia|]).
    + destruct (model_action_run _ _ _ _ _ _ Hrep Hroom E) as (c & Hl & _).
      eapply logged_once_ok; [done| |exact Hl]. split; [by exists L|done].
    + destruct (image_generations_action_run _ _ _ _ _ Hrep E) as (c & Hl & _).
      eapply logged_once_ok; [done| |exact Hl]. split; [by exists L|done].
  - destruct IH as ([L Hrep] & Hok); [done|]. split; [exists L; by apply rep_set_world_same|done].
Qed.
End server.

(** * The admin pages *)

Lemma authorize_same `{HttpLib} `{JsonCodec} `{Base64} {W} (s s' : AppState W) headers :
  password <$> app_admin s = password <$> app_admin s' -> authorize_admin s headers = authorize_admin s' headers.
Proof.
  unfold authorize_admin, check_basic_auth, enabled.
  destruct (app_admin s) as [admin|], (app_admin s') as [admin'|]; intros [=]; [|done].
  by replace (password admin') with (password admin).
Qed.

Lemma refusal_is `{HttpLib} `{JsonCodec} `{Base64} {W} (s : AppState W) headers refusal :
  authorize_admin s headers = Some refusal ->
  reply_status refusal = 404%Z \/ refusal = unauthorized_response (admin_new EmptyString).
Proof.
  unfold authorize_admin. destruct (app_admin s) as [admin|]; [|intros [= <-]; by left].
  destruct (negb _); [intros [= <-]; by right|done].
Qed.

(** * Properties *)

Section properties.
#[local] Set Default Proof Using "All".
Context `{HttpLib} `{JsonCompact} `{Displays} `{Base64Laws} `{ImageCodec} `{BodyLaws} {W : Type}
  `{FetchLaws W} `{DuplexLaws W} `{!SchedulerLaws W}
  `{ResponseFetcher W} `{InlineUploader W} `{Clock W} `{UpstreamClient W} `{LogLib W} `{!RouterFrames W}.

(** C3: What a request to a model does, whatever the network, the disk and the scheduler do: when it
    is answered, no blob is left of it, and what was sent to the upstream is the request's document
    with every image URL replaced by the image's data, to the request's URL without the output
    option, with the length of the document and the key of the upstream; the reply is what is made
    of the upstream's answer. When it fails, no blob of another request is touched; and the cache
    hits that are counted are those that are logged. *)
Theorem forward_gemini_request_correct resolved target_path request log (s : AppState W) L r s' :
  rep (app_runtime s) L -> has_room s ->
  forward_gemini_request resolved target_path request log s = (r, s') ->
  exists rt L', s' = set_admin (after_hits (length (logged_hits r)) (app_admin s)) (set_runtime rt s) /\
    rep rt L' /\ L ⊆ L' /\
    match r with
    | Ok (reply, _) => L' = L /\ led_to s resolved target_path request reply
    | Err _ => True
    end.
Proof. apply forward_gemini_request_run. Qed.

(** A request body whose exchange fails in transport leaves no blob: the images' blobs and the
    body's are gone, and no other blob is. *)
Theorem exchange_releases_blobs resolved target_path query content_type accept output_mode hits m enc
    entry doc (s : AppState W) L r s' :
  rep (app_runtime s) L -> L !! blob_id (body_blob enc) = Some (body_blob enc, doc) ->
  content_length enc = u64_wrap (blen doc) ->
  Forall (fun x => exists bs, L !! blob_id (replacement_blob x) = Some (replacement_blob x, bs))
    (replacements m) ->
  Forall (fun x => blob_id (replacement_blob x) <> blob_id (body_blob enc)) (replacements m) ->
  exchange resolved target_path query content_type accept output_mode hits m enc entry s = (r, s') ->
  exists rt L', s' = set_runtime rt s /\ rep rt L' /\ others_kept L L' (replacements m) (body_blob enc) /\
    match r with
    | Ok _ => released L' (replacements m) (body_blob enc)
    | Err f => failed_in_transport f -> released L' (replacements m) (body_blob enc)
    end.
Proof.
  intros Hrep Hl Hlen Hreps Hne E.
  destruct (exchange_run _ _ _ _ _ _ _ _ _ _ _ _ _ _ _ Hrep Hl Hlen Hreps Hne E)
    as (rt & L' & Hs & Hrep' & Hk & _ & Hr).
  exists rt, L'. split_and!; [done..|]. destruct r as [[reply entry']|f]; [by destruct Hr|done].
Qed.

(** C9: What the client of a model gets: 404 for a path that is not [:generateContent], 502 for a body
    that cannot be read or parsed, the status of the resolution's error for a bad upstream, and
    otherwise 502 or the reply that forwarding the request has led to, unchanged; and one entry is
    logged of it, with its status and the fields of the connection. *)
Theorem model_action_correct rest request (s : AppState W) L reply s' :
  rep (app_runtime s) L -> has_room s -> model_action rest request s = (reply, s') ->
  exists created_at, logged_once (arrival created_at request) s L reply s' /\
    model_reply s rest request reply.
Proof. apply model_action_run. Qed.

(** C26: What the client of the image generations gets: as for a model, with 400 for a body that is no
    image request, and a body that is normalized before it goes upstream as JSON. *)
Theorem image_generations_action_correct request (s : AppState W) L reply s' :
  rep (app_runtime s) L -> image_generations_action request s = (reply, s') ->
  exists created_at, logged_once (arrival created_at request) s L reply s' /\
    images_reply s request reply.
Proof. apply image_generations_action_run. Qed.

(** C7: After any number of requests, to any of the routes or to none, whatever they were and however
    they ended, the blob store is consistent and within its budget, the statistics have counted
    every request that was handed to an action, and the log numbers them all and holds the last
    hundred; a server without a password keeps neither. *)
Theorem server_invariant `{!RouteLib} `{Digests} `{LruLib MemoryCache.MemoryEntry} `{Directories W}
    config page n (s : AppState W) :
  in_u64 (blob_global_hot_budget_bytes config) -> (Z.of_nat n <= i64_max)%Z ->
  reachable config page n s -> server_ok config n s.
Proof. apply reachable_ok. Qed.

(** C13: Who does not know the password learns nothing from the admin pages and changes nothing: a
    request without it, unless it is for one of the two actions, leaves the server as it is, and
    gets the same reply from every server with that password, whatever its log, its statistics, its
    configuration and its blobs are. *)
Theorem admin_pages_reveal_nothing `{!RouteLib} page request (s s' : AppState W) refusal :
  is_action request = false ->
  authorize_admin s (rq_headers request) = Some refusal ->
  password <$> app_admin s = password <$> app_admin s' ->
  (serve page request s).2 = s /\ (serve page request s').1 = (serve page request s).1 /\
  (reply_status refusal = 404%Z \/ refusal = unauthorized_response (admin_new EmptyString)) /\
  forall route, route_of (rq_path request) = Some ("GET", route) -> rq_method request = "GET" ->
    (serve page request s').1 = refusal.
Proof.
  intros Ha Hr Hp.
  assert (Hr' := Hr). rewrite (authorize_same s s') in Hr' by done.
  assert (Hpages : forall route, route_of (rq_path request) = Some ("GET", route) ->
    call_handler page route request s = (refusal, s) /\ call_handler page route request s' = (refusal, s')).
  { intros route Hroute. assert (Hm := route_method _ _ _ Hroute).
    destruct route; try discriminate Hm; simpl;
      unfold admin_root, admin_logs_page, admin_logs_api, admin_stats_api; rewrite Hr, Hr'; split; reflexivity. }
  split. { destruct (serve page request s) as [reply s1] eqn:E. apply serve_inv in E.
    by destruct E as [rest rest' reply s1 _ _ Ha' _|reply s1 _ Ha' _|reply _]; [congruence..|]. }
  split; [|split; [by eapply refusal_is|]].
  - revert Ha Hpages. unfold serve, is_action. destruct (route_of (rq_path request)) as [[method route]|] eqn:Er; [|done].
    assert (Hm := route_method _ _ _ Er). intros Ha Hpages. destruct (String.eqb_spec (rq_method request) method) as [Heq|Hne].
    + destruct (decide (method = "GET")) as [->|Hpost]; [by destruct (Hpages _ eq_refl) as [-> ->]|].
      revert Ha. rewrite Heq. destruct route as [| | | | |rest]; try (by destruct Hpost); subst method; simpl; [done|].
      by destruct (path_param rest).
    + destruct (String.eqb_spec method "GET") as [->|Hget]; [|reflexivity].
      destruct (Hpages _ eq_refl) as [-> ->]. by destruct (String.eqb (rq_method request) "HEAD").
  - intros route Hroute Hget. unfold serve. rewrite Hroute, Hget. simpl.
    by destruct (Hpages _ Hroute) as [_ ->].
Qed.
End properties.

(** * A concrete server, for the witnesses *)

#[local] Existing Instance sample_codec.

(** A document with an image to fetch is what [ask] reads as. *)
Definition sample_ask : bytes := "ask".

#[local] Instance server_codec : JsonCodec := {|
  from_slice bs := if String.eqb bs sample_ask then Ok (sample_images "https://h.example/a.png")
                   else if String.eqb bs "pics" then Ok sample_images_answer
                   else if String.eqb bs "{}" then Ok (Object []) else Err "expected value";
  to_vec v := Ok (sample_print v);
  to_string_pretty v := Ok (sample_print v);
|}.
#[local] Instance server_compact : @JsonCompact server_codec.
Proof.
  refine (Build_JsonCompact server_codec sample_scalar sample_key _ _ _ _ _).
  - exact (@to_vec_str sample_json sample_json_compact).
  - exact (@to_vec_plain sample_json sample_json_compact).
  - exact (@to_vec_leaf sample_json sample_json_compact).
  - exact (@to_vec_array sample_json sample_json_compact).
  - exact (@to_vec_object sample_json sample_json_compact).
Defined.
#[local] Instance server_body : BodyLib := {|
  Body := bytes;
  to_bytes body limit := if (blen body <=? limit)%Z then Ok body else Err "length limit exceeded";
  body_from bs := bs;
|}.
#[local] Instance server_body_laws : BodyLaws.
Proof.
  split; simpl.
  - intros bs limit Hl. by rewrite (proj2 (Z.leb_le _ _)).
  - intros body limit bs. destruct (Z.leb_spec (blen body) limit); [by intros [= <-]|done].
Qed.

(** The upstream answers with an empty object or with two images; the image host is there, the clock stands still. *)
#[local] Instance server_upstream : UpstreamClient SampleFs := {|
  send_upstream request w :=
    (Ok (mkHttpResponse 200 [("content-type", "application/json")] None
           [if ends_with (req_url request) "/v1/images/generations" then "pics" else "{}"] None), w);
  json_body v := Ok (sample_print v);
|}.
#[local] Instance server_response_fetcher : ResponseFetcher SampleFs := {|
  response_fetch_url url w := (Ok (mkFetchResult "image/png" "cached" true), w);
|}.
#[local] Instance server_host : InlineUploader SampleFs := {|
  upload_inline _ _ _ w := (Ok (mkUploadResult "https://pics.example/1" "r2"), w);
|}.
#[local] Instance server_log : LogLib SampleFs := {|
  now_rfc3339 w := ("2024-01-01T00:00:00Z", w);
  warn_slow_request _ _ _ w := (tt, w);
|}.
#[local] Instance server_frames : RouterFrames SampleFs.
Proof. split; repeat intro; simpl in *; simplify_eq; done. Qed.

Definition sample_env : gmap string string :=
  {[ "ADMIN_PASSWORD" := "pw"; "UPSTREAM_API_KEY" := "key" ]}.

Definition sample_server_config : Config :=
  match from_env_map sample_env with Ok config => config | Err _ => test_config end.

Definition sample_server : AppState SampleFs := build_app_state sample_server_config ∅.

Definition sample_model_request : Request :=
  mkRequest _ "POST" "/v1beta/models/m:generateContent" (Some "output=base64&alt=json")
    [("content-type", "application/json")] sample_ask.

Definition sample_images_request : Request :=
  mkRequest _ "POST" "/v1/images/generations" None [("content-type", "application/json")] sample_ask.

Lemma sample_server_rep : rep (app_runtime sample_server) ∅.
Proof. apply runtime_new_rep. vm_compute. split; discriminate. Qed.

Lemma sample_server_room : has_room sample_server.
Proof. vm_compute. reflexivity. Qed.

Definition sample_upstream : ResolvedUpstream := mkResolvedUpstream "https://up.example" "key".

Lemma forward_gemini_request_correct_witness :
  exists reply entry s', forward_gemini_request sample_upstream "/v1beta/models/m:generateContent"
      sample_model_request None sample_server = (Ok (reply, entry), s') /\
    reply_status reply = 200%Z /\ rep (app_runtime s') ∅ /\
    led_to sample_server sample_upstream "/v1beta/models/m:generateContent" sample_model_request reply /\
    stats_cache_hits <$> (stats <$> app_admin s') = Some 1%Z.
Proof.
  destruct (forward_gemini_request sample_upstream "/v1beta/models/m:generateContent"
    sample_model_request None sample_server) as [[[reply entry]|f] s'] eqn:E;
    [|vm_compute in E; discriminate E].
  exists reply, entry, s'. split; [reflexivity|].
  destruct (forward_gemini_request_correct _ _ _ _ _ _ _ _ sample_server_rep sample_server_room E)
    as (rt & L' & Hs & Hrep & _ & HL & Hled). subst L'.
  split; [|split; [rewrite Hs; exact Hrep|split; [exact Hled|]]]; clear -E; vm_compute in E;
    injection E as <- <- <-; reflexivity.
Defined.

Definition sample_exchange_state : AppState SampleFs :=
  mkAppState sample_server_config None true true sample_roomy.

Lemma exchange_releases_blobs_witness :
  exists reply entry s', exchange sample_upstream "/x" None None None OutUrl []
      (mkMaterialized Null [] 0 0) (mkEncodedRequestBody sample_first 3) entry_default
      sample_exchange_state = (Ok (reply, entry), s') /\
    rep (app_runtime s') ∅.
Proof.
  destruct (exchange sample_upstream "/x" None None None OutUrl []
      (mkMaterialized Null [] 0 0) (mkEncodedRequestBody sample_first 3) entry_default
      sample_exchange_state) as [[[reply entry]|f] s'] eqn:E; [|vm_compute in E; discriminate E].
  exists reply, entry, s'. split; [reflexivity|].
  destruct (exchange_releases_blobs sample_upstream "/x" None None None OutUrl []
    (mkMaterialized Null [] 0 0) (mkEncodedRequestBody sample_first 3) entry_default "abc"
    sample_exchange_state sample_live1 _ _ sample_roomy_rep ltac:(reflexivity) ltac:(reflexivity) ltac:(constructor) ltac:(constructor) E)
    as (rt & L' & Hs & Hrep & [Hsub _] & [Hgone _]). clear E. subst s'.
  simpl. replace ∅ with L'; [exact Hrep|]. apply map_eq. intros id. rewrite lookup_empty.
  destruct (L' !! id) as [e|] eqn:El; [|done].
  assert (Hl := lookup_weaken _ _ _ _ El Hsub). apply lookup_singleton_Some in Hl as [<- _].
  simpl in Hgone. by rewrite Hgone in El.
Defined.

Lemma model_action_correct_witness :
  let result := model_action "m:generateContent" sample_model_request sample_server in
  exists created_at, logged_once (arrival created_at sample_model_request) sample_server ∅ result.1 result.2 /\
    model_reply sample_server "m:generateContent" sample_model_request result.1 /\
    reply_status result.1 = 200%Z.
Proof.
  intros result. destruct (model_action_correct "m:generateContent" sample_model_request sample_server ∅
    result.1 result.2 sample_server_rep sample_server_room (surjective_pairing _)) as (c & Hl & Hr).
  exists c. split_and!; [exact Hl|exact Hr|vm_compute; reflexivity].
Defined.

Lemma image_generations_action_correct_witness :
  let result := image_generations_action sample_images_request sample_server in
  exists created_at, logged_once (arrival created_at sample_images_request) sample_server ∅ result.1 result.2 /\
    images_reply sample_server sample_images_request result.1 /\ reply_status result.1 = 200%Z.
Proof.
  intros result. destruct (image_generations_action_correct sample_images_request sample_server ∅
    result.1 result.2 sample_server_rep (surjective_pairing _)) as (c & Hl & Hr).
  exists c. split_and!; [exact Hl|exact Hr|vm_compute; reflexivity].
Defined.

(** No reply of its own is made for a path, and no escape in one is undone. *)
#[local] Instance server_routes : RouteLib := {|
  unrouted _ := status_reply 404;
  without_body reply := mkReply (reply_status reply) (reply_headers reply) EmptyString;
  path_param rest := Ok rest;
|}.

Lemma server_invariant_witness :
  let result := serve (status_reply 200) sample_model_request sample_server in
  reply_status result.1 = 200%Z /\ server_ok sample_server_config 1 result.2.
Proof.
  intros result. split; [vm_compute; reflexivity|].
  apply (server_invariant sample_server_config (status_reply 200) 1 result.2);
    [vm_compute; split; discriminate|vm_compute; discriminate|].
  apply (reachable_serve sample_server_config (status_reply 200) 0 sample_server sample_model_request
    result.1 result.2 (reachable_start _ _ _) sample_server_room (surjective_pairing _)).
Defined.

Definition sample_intruder : Request :=
  mkRequest _ "GET" "/admin/api/logs" None [("authorization", "Basic d3Jvbmc6cGFzcw==")] EmptyString.

Lemma admin_pages_reveal_nothing_witness :
  let busy := (serve (status_reply 200) sample_model_request sample_server).2 in
  (serve (status_reply 200) sample_intruder busy).1 = unauthorized_response (admin_new "pw") /\
  reply_status (serve (status_reply 200) sample_intruder busy).1 = 401%Z /\
  length (log_entries (default (mkAdminLogBuffer 0 []) (logs <$> app_admin busy))) = 1%nat.
Proof.
  intros busy. split; [|split; vm_compute; reflexivity].
  destruct (admin_pages_reveal_nothing (status_reply 200) sample_intruder sample_server busy
    (unauthorized_response (admin_new "pw")) ltac:(vm_compute; reflexivity) ltac:(vm_compute; reflexivity)
    ltac:(vm_compute; reflexivity)) as (_ & _ & _ & Hpage).
  exact (Hpage AdminLogsApi eq_refl eq_refl).
Defined.

(** ** A leak: no configuration error, no blob removed

    [Config::from_env_map] does not look at UPSTREAM_BASE_URL. When it is no URL, every request to
    the Gemini upstream fails after its body is stored, and nothing removes the body's blob. *)
Definition misconfigured : Config :=
  match from_env_map (<["UPSTREAM_BASE_URL" := "nonsense"]> sample_env) with
  | Ok config => config
  | Err _ => test_config
  end.

Lemma unparsable_upstream_leaks_the_body :
  let server := build_app_state misconfigured (∅ : SampleFs) in
  let result := model_action "m:generateContent" sample_model_request server in
  upstream_base_url misconfigured = "nonsense" /\
  global_hot_bytes (app_runtime server) = 0%Z /\ reply_status result.1 = 502%Z /\
  (0 < global_hot_bytes (app_runtime result.2))%Z.
Proof. vm_compute. split_and!; reflexivity. Qed.
