(* ===== verification/PageReads.v ===== *)
(** What the admin pages show, of the states in which they look at the server: the log as it was at one
    moment while the request was handled, and counters that were read one after the other. *)

From S2P Require Import Prelude RustStr Json Pointer Ext Samples.
From S2P Require Import Config Upstream ImageIo RequestScan BlobRuntime BlobSteps RequestEncode FetchService.
From S2P Require Import RequestMaterialize RequestRewrite RequestSteps OpenaiImage Http Admin Upload.
From S2P Require Import ResponseRewrite ResponseMaterialize Query UpstreamClient UpstreamResponse.
From S2P Require Import Aiapidev Tracking Router RouterSteps ActionSteps PageSteps Server.
From S2P Require Import AdminShared Interleave Inside.
From stdpp Require Import relations options.

Section pages.
#[local] Set Default Proof Using "Type".
Context `{UrlLib} `{HttpLib} `{JsonCodec} `{Displays} `{Base64} `{ImageCodec} `{BodyLib} {W : Type}
  `{FileSystem W} `{UrlFetcher W} `{ResponseFetcher W} `{!HttpClient W} `{Runtime W} `{DuplexPipe W}
  `{Stopwatch W} `{Clock W} `{JoinOrder W} `{UpstreamClient W} `{InlineUploader W} `{LogLib W} `{!RouteLib}.
Abbreviation App := (AppState W).
Context (app : App).

(** The password never changes. *)
Definition same_password (s : App) : Prop := password <$> app_admin s = password <$> app_admin app.

Abbreviation reads := (reads same_password).

Definition counters : list (AdminStats -> Z) :=
  [stats_total_requests; stats_error_requests; stats_total_duration_ms; stats_request_parse_ms;
   stats_request_image_prepare_ms; stats_request_image_materialize_ms; stats_request_image_fetch_work_ms;
   stats_request_image_store_work_ms; stats_request_encode_ms; stats_upstream_build_ms;
   stats_response_process_ms; stats_upload_ms; stats_cache_hits].

(** The admin state was [P] in one of the states [seen]. *)
Definition admin_seen (seen : list App) (P : AdminState -> Prop) : Prop :=
  exists s admin, s ∈ seen /\ app_admin s = Some admin /\ P admin.

(** The page shows the log as it was in one of them, *)
Definition shows_log (seen : list App) (reply : Reply) : Prop :=
  admin_seen seen (fun admin => reply = admin_logs_response admin).

(** or numbers each of which was right in one of them. *)
Definition shows_stats (seen : list App) (reply : Reply) : Prop :=
  exists shown runtime_stats, reply = json_reply 200 (stats_payload shown runtime_stats) /\
    Forall (fun counter => admin_seen seen (fun admin => counter shown = counter (stats admin))) counters /\
    (exists s, s ∈ seen /\ snapshot_spill_count runtime_stats = spill_count (app_runtime s)) /\
    (exists s, s ∈ seen /\ snapshot_spill_bytes_total runtime_stats = spill_bytes_total (app_runtime s)).

Lemma reads_authorized headers page seen Q :
  authorize_admin app headers = None ->
  (forall s, reads page (s :: seen) Q) -> reads (authorized_steps headers page) seen Q.
Proof.
  intros Ha Hp. unfold authorized_steps. cbn [bind atomic Interleave.reads fst]. intros s Hs.
  rewrite (authorize_same s app headers Hs), Ha. apply Hp.
Qed.

(** A look at the log or at a counter. *)
Lemma reads_look {A B} (absent : A) (look : AdminState -> A) (f : A -> Prog App B) seen Q :
  admin_enabled app = true ->
  (forall s admin, app_admin s = Some admin -> reads (f (look admin)) (s :: seen) Q) ->
  reads (bind (atomic (on_admin absent (fun admin => (look admin, admin)))) f) seen Q.
Proof.
  unfold admin_enabled. intros Hon Hf. cbn [bind atomic Interleave.reads]. intros s Hs. unfold same_password in Hs.
  unfold on_admin. destruct (app_admin s) as [admin|] eqn:Ea; [by apply Hf|]. by destruct (app_admin app).
Qed.

Lemma authorized_on headers : authorize_admin app headers = None -> admin_enabled app = true.
Proof. unfold authorize_admin, admin_enabled. by destruct (app_admin app). Qed.

Lemma reads_logs_api headers :
  authorize_admin app headers = None -> reads (admin_logs_api_steps app headers) [] shows_log.
Proof.
  intros Ha. assert (Hon := authorized_on _ Ha). apply reads_authorized; [done|]. intros s0. rewrite Hon.
  intros s1 _. apply (reads_look _ _ Ret); [done|]. intros s admin Hs. exists s, admin. split; [by left|done].
Qed.

Lemma reads_stats_api headers :
  authorize_admin app headers = None -> reads (admin_stats_api_steps app headers) [] shows_stats.
Proof.
  intros Ha. assert (Hon := authorized_on _ Ha). apply reads_authorized; [done|]. intros s0. rewrite Hon.
  intros sc _ sb _. cbn [fst snd]. do 13 (apply reads_look; [exact Hon|]; intros ? ? ?).
  eexists _, _. split; [reflexivity|]. split; [|split].
  - unfold counters. repeat apply Forall_cons_2; [..|apply Forall_nil_2];
      (eexists _, _; split; [|split; [|simpl; reflexivity]]; [|eassumption]; repeat (first [left|right])).
  - exists sc. split; [repeat (first [left|right])|done].
  - exists sb. split; [repeat (first [left|right])|done].
Qed.

(** The page a request asks for. *)
Definition asked_page (request : Request) : option Route :=
  match route_of (rq_path request) with
  | Some (method, route) => if String.eqb (rq_method request) method then Some route else None
  | None => None
  end.

(** What those who know the password are shown, when the server was in the states [seen]. *)
Definition shows (seen : list App) (route : Route) (reply : Reply) : Prop :=
  match route with
  | AdminLogsApi => shows_log seen reply
  | AdminStatsApi => shows_stats seen reply
  | _ => True
  end.

Lemma reads_serve page request route :
  asked_page request = Some route -> route = AdminLogsApi \/ route = AdminStatsApi ->
  authorize_admin app (rq_headers request) = None ->
  reads (serve_steps app page request) [] (fun seen => shows seen route).
Proof.
  unfold asked_page, serve_steps. destruct (route_of (rq_path request)) as [[method r]|]; [|done].
  destruct (rq_method request =? method)%string; [|done]. intros [= ->] [-> | ->] Ha.
  - by apply reads_logs_api.
  - by apply reads_stats_api.
Qed.
End pages.
