(* ===== verification/ServerLogic.v ===== *)
(** What a request does to the server and to its log, when it shares them with others: the rules of
    RouterLogic.v and of AdminShared.v together, for the programs of ActionSteps.v and PageSteps.v. *)

From S2P Require Import Prelude RustStr Json Pointer Ext Samples.
From S2P Require Import Config Upstream ImageIo RequestScan BlobRuntime BlobSteps BlobLogic RequestEncode FetchService.
From S2P Require Import RequestMaterialize RequestRewrite RequestSteps RequestLogic OpenaiImage Http Admin Upload.
From S2P Require Import ResponseRewrite ResponseMaterialize Query UpstreamClient UpstreamResponse.
From S2P Require Import Aiapidev Tracking Router Forwarding RouterSteps ActionSteps PageSteps RouterLogic Handling Server PageReads.
From S2P Require Import AdminShared Interleave Inside.
From stdpp Require Import relations options.

(** * What requests share and own *)

(** The blob store's, the requests of the actions with their replies, newest first, and whether a
    request was dropped. *)
Record ServerGhost `{BodyLib} := mkServerGhost {
  store : BlobGhost;
  answered : list (Request * Reply);
  abandoned : bool;
}.
Arguments mkServerGhost {_} store answered abandoned.

Definition ghost_grows `{BodyLib} (g g' : ServerGhost) : Prop := abandoned g = true -> abandoned g' = true.

#[export] Instance ghost_grows_preorder `{BodyLib} : PreOrder ghost_grows.
Proof. split; [by intros g Hg|]. intros g1 g2 g3 H1 H2 Hg. auto. Qed.

(** A request owns blobs, and what it is doing to the log. *)
Abbreviation Owned := (Held * option Finishing)%type.

Definition in_log (l : list (option Finishing)) : list Finishing := omap (fun u => u) l.

Lemma in_log_cons u l : in_log (u :: l) = option_list u ++ in_log l.
Proof. by destruct u. Qed.

#[export] Instance in_log_proper : Proper ((≡ₚ) ==> (≡ₚ)) in_log.
Proof. intros l l' Hl. unfold in_log. by rewrite Hl. Qed.

Lemma in_log_app l l' : in_log (l ++ l') = in_log l ++ in_log l'.
Proof. apply omap_app. Qed.

Lemma adds_of_first entry : exists rest, adds_of entry = (TotalRequests, 1%Z) :: rest.
Proof. by eexists. Qed.

(** ** What the log says of a request *)

(** The entry has the fields of the request's connection. *)
Definition from_request `{HttpLib} `{BodyLib} (request : Request) (entry : AdminLogEntry) : Prop :=
  entry_method entry = rq_method request /\ entry_path entry = rq_path request /\
  entry_query entry = default EmptyString (rq_query request) /\
  entry_remote_addr entry =
    default EmptyString (header_get "x-forwarded-for" (rq_headers request) ≫= header_to_str).

(** The entry is that of the request and its reply: its status and, when it has a body, the body with
    the images taken out, and these images. *)
Definition logs_reply `{HttpLib} `{JsonCodec} `{BodyLib} (answer : Request * Reply) (entry : AdminLogEntry)
    : Prop :=
  let '(request, reply) := answer in
  from_request request entry /\ entry_status_code entry = reply_status reply /\
  (is_empty (reply_body reply) = false ->
     let sanitized := sanitize_json_for_log (reply_body reply) in
     entry_response_downstream entry = pretty_text sanitized /\
     entry_response_images entry = image_urls sanitized).

Section logged.
#[local] Set Default Proof Using "Type".
Context `{HttpLib} `{JsonCodec} `{BodyLib}.

Lemma stamped_from created_at request entry : from_request request (stamp (arrival created_at request) entry).
Proof. done. Qed.

Lemma completed_from created_at request parse_ms ms entry :
  from_request request (complete_entry (arrival created_at request) parse_ms ms entry).
Proof. done. Qed.

(** What a handler adds to an entry keeps these fields. *)
Definition keeps_request (f : AdminLogEntry -> AdminLogEntry) : Prop :=
  forall request entry, from_request request entry -> from_request request (f entry).

Lemma apply_to_entry_keeps log : keeps_request (apply_to_entry log).
Proof. intros request entry He. by destruct log. Qed.

Lemma log_response_keeps response body : keeps_request (log_response response body).
Proof.
  intros request entry He. unfold log_response, apply_admin_error_fields.
  destruct (is_empty body); [exact He|]. destruct (from_slice body) as [v|e]; [|exact He].
  destruct (value_get "error" v ≫= as_object) as [error|]; [|exact He].
  case_match; exact He.
Qed.

Lemma log_response_fields response body entry :
  is_empty body = false ->
  entry_response_downstream (log_response response body entry) = pretty_text (sanitize_json_for_log body) /\
  entry_response_images (log_response response body entry) = image_urls (sanitize_json_for_log body).
Proof.
  intros Hb. unfold log_response, apply_admin_error_fields. rewrite Hb.
  destruct (from_slice body) as [v|e]; [|done].
  destruct (value_get "error" v ≫= as_object) as [error|]; [|done]. by case_match.
Qed.

(** The entry that is recorded. *)
Lemma finalized_logs request response body entry id :
  from_request request entry ->
  logs_reply (request, mkReply (reply_status response) (reply_headers response) body)
    (with_id id (with_status_code (reply_status response) (log_response response body entry))).
Proof.
  intros He. split; [by apply (log_response_keeps response body)|]. split; [done|].
  intros Hb. exact (log_response_fields response body entry Hb).
Qed.
End logged.

Section server.
#[local] Set Default Proof Using "All".
Context `{HttpLib} `{JsonCompact} `{Displays} `{Base64Laws} `{ImageCodec} `{BodyLaws} {W : Type}
  `{FetchLaws W} `{DuplexLaws W} `{!SchedulerLaws W}
  `{ResponseFetcher W} `{InlineUploader W} `{Clock W} `{UpstreamClient W} `{LogLib W} `{!RouterFrames W} `{!RouteLib}.
Abbreviation App := (AppState W).
Context (app : App) (secret : string).
Context (secret_is : forall admin, app_admin app = Some admin -> password admin = secret).
Abbreviation c := (cfg (app_runtime app)).

(** The requests that were answered are in the log with their replies, the others are where they own to
    be; and those that
    were dropped while they waited for the lock of the log have a number only. Each of them has
    arrived, and may take eight identifiers. *)
Definition log_ok (g : ServerGhost) (s : App) (l : list (option Finishing)) : Prop :=
  match app_admin s with
  | None => True
  | Some admin => exists entries unlogged,
      logging secret admin (in_log l ++ (Recorded <$> entries) ++ (Numbered <$> unlogged)) /\
      Forall2 logs_reply (answered g) entries /\
      (unlogged = [] \/ abandoned g = true) /\
      (8 * Z.of_nat (length l + length entries + length unlogged) <= arrivals (store g))%Z
  end.

Definition server_inv : ServerGhost -> App -> list Owned -> Prop := both_inv store (app_inv app) log_ok.

Definition server_ext : relation (ServerGhost * App) := both_ext store app_ext ghost_grows.

(** A request that is dropped may leave blobs behind; it is not logging, or it waits for the lock. *)
Definition gone (r : Owned) : Prop := r.2 = None \/ exists entry, r.2 = Some (Numbered entry).

Abbreviation wps := (wp server_inv server_ext gone).

#[export] Instance server_ext_preorder : PreOrder server_ext.
Proof using Type. apply both_ext_preorder; apply _. Qed.

Lemma log_ok_hits g s s' l : counts_hits s s' -> log_ok g s l -> log_ok g s' l.
Proof.
  unfold log_ok. intros [n ->]. destruct (app_admin s) as [admin|]; [|done]. simpl.
  intros (entries & unlogged & Hlog & Hrest). exists entries, unlogged. split; [|done]. by apply (logging_hits secret n).
Qed.

Lemma log_ok_perm g s l l' : l ≡ₚ l' -> log_ok g s l -> log_ok g s l'.
Proof using Type.
  unfold log_ok. intros Hl. destruct (app_admin s) as [admin|]; [|done].
  intros (entries & unlogged & Hlog & Hrest). exists entries, unlogged.
  rewrite <- (Permutation_length Hl). split; [|exact Hrest]. eapply logging_perm; [|exact Hlog]. by rewrite Hl.
Qed.

(** ** Before it logs *)

(** What a request does that is not logging, whatever it does to the blob store. *)
Lemma server_app {A} (p : Prog App A) w r (Q : A -> Held -> Prop) :
  app_triple app r p Q -> every counts_hits p ->
  wps p w (r, None) (fun _ a ru => ru.2 = None /\ Q a ru.1).
Proof.
  intros Hp He. destruct w as [g s].
  eapply (wp_also store (app_inv app) app_ext (fun _ => True) ghost_grows log_ok counts_hits);
    [intros g1 s1 s2 l; apply log_ok_hits|apply _|exact (Hp (store g, s))|exact He|by left|done].
Qed.

Lemma server_bind {A B} (p : Prog App A) (f : A -> Prog App B) w r R Q :
  app_triple app r p R -> every counts_hits p ->
  (forall w a r', R a r' -> wps (f a) w (r', None) Q) -> wps (bind p f) w (r, None) Q.
Proof.
  intros Hp He Hf. apply wp_bind; [apply _|]. eapply wp_conseq; [apply _| |by apply server_app].
  intros w' a [r' u] [Hu HR]. simpl in Hu, HR. subst u. by apply Hf.
Qed.

Lemma server_net {A B} aw (m : St W A) (f : A -> Prog App B) w r Q :
  frames m -> (forall w a, wps (f a) w (r, None) Q) -> wps (bind (Act aw (on_net m) Ret) f) w (r, None) Q.
Proof.
  intros Hm Hf. eapply server_bind; [apply (app_net _ _ _ _ (fun _ r' => r' = r)); [exact Hm|done]|apply quiet_net|].
  by intros w' a r' ->.
Qed.

(** An await that touches nothing. *)
Lemma server_pause {B} (f : unit -> Prog App B) w r Q :
  gone r -> (forall w, wps (f tt) w r Q) -> wps (bind pause f) w r Q.
Proof. intros Hr Hf g s others _ Hi. split; [done|]. exists r. split; [done|]. split; [apply Hf|done]. Qed.

(** ** Logging *)

(** An access to the counters or to the log. *)
Lemma server_admin {A B} (absent : A) (m : St AdminState A) (f : A -> Prog App B) w r u Q :
  admin_enabled app = true ->
  (forall admin l, logging secret admin (option_list u ++ l) -> exists u',
     logging secret (m admin).2 (option_list u' ++ l) /\ forall w, wps (f (m admin).1) w (r, u') Q) ->
  wps (bind (atomic (on_admin absent m)) f) w (r, u) Q.
Proof.
  intros Hon Hm. cbn [bind atomic wp]. intros g s others _ [[Hs Hi] Hlog].
  assert (Hadm := same_admin _ _ Hs). rewrite Hon in Hadm. unfold admin_enabled in Hadm.
  unfold log_ok in Hlog. unfold on_admin. destruct (app_admin s) as [admin|] eqn:Ea; [|done].
  destruct Hlog as (entries & unlogged & Hlog & Hrest).
  cbn [fmap list_fmap snd] in Hlog. rewrite in_log_cons, <- app_assoc in Hlog.
  destruct (Hm _ _ Hlog) as (u' & Hlog' & Hf). destruct (m admin) as [a admin'] eqn:Em.
  split; [by split; [unfold app_ext|]|]. exists (r, u'). split; [|by split; [apply Hf|]].
  split; [split; [|exact Hi]|].
  - assert (Hset := same_set_admin app (fun _ => admin') s Hs). by rewrite Ea in Hset.
  - exists entries, unlogged. split; [|exact Hrest].
    change (logging secret admin'
      (in_log (u' :: others.*2) ++ (Recorded <$> entries) ++ (Numbered <$> unlogged))).
    rewrite in_log_cons, <- app_assoc. exact Hlog'.
Qed.

Lemma server_count entry todo w r :
  admin_enabled app = true ->
  wps (count_steps todo) w (r, Some (Counting entry todo)) (fun _ _ ru => ru = (r, Some (Counting entry []))).
Proof.
  intros Hon. revert w. induction todo as [|[counter v] todo IH]; intros w; cbn [count_steps]; [done|].
  apply server_admin; [done|]. intros admin l Hlog.
  exists (Some (Counting entry todo)). split; [by apply logging_add|]. apply IH.
Qed.

(** The request arrives at the log with its first addition. *)
Lemma server_counted entry w r :
  admin_enabled app = true ->
  wps (count_steps (adds_of entry)) w (r, None) (fun _ _ ru => ru = (r, Some (Counting entry []))).
Proof.
  intros Hon. destruct (adds_of_first entry) as [rest Efirst]. rewrite Efirst. cbn [count_steps].
  apply server_admin; [done|]. intros admin l Hlog.
  apply (logging_arrive _ _ _ entry) in Hlog. rewrite Efirst in Hlog.
  exists (Some (Counting entry rest)). split; [by apply logging_add|]. intros w1. by apply server_count.
Qed.

Lemma server_record entry w r :
  admin_enabled app = true ->
  wps (record_entry_steps entry) w (r, Some (Counting entry [])) (fun _ _ ru => exists id,
    ru = (r, Some (Recorded (with_id id entry)))).
Proof.
  intros Hon. apply server_admin; [done|]. intros admin l Hlog.
  exists (Some (Numbered (with_id (take_id admin).1 entry))). split; [by apply logging_number|]. intros w1.
  apply server_pause; [right; by eexists|]. clear w1. intros w1.
  assert (Hlast : forall id w, wps (bind (atomic (on_admin tt (fun a => (tt, push_entry (with_id id entry) a)))) Ret) w
    (r, Some (Numbered (with_id id entry))) (fun _ _ ru => exists id, ru = (r, Some (Recorded (with_id id entry))))).
  { intros id w2. apply server_admin; [done|]. intros admin' l' Hlog'.
    exists (Some (Recorded (with_id id entry))). split; [by apply logging_push|]. intros w3. by exists id. }
  exact (Hlast _ w1).
Qed.

(** What a request that is answered with [reply] has done to the log. *)
Definition logged_as (request : Request) (reply : Reply) (u : option Finishing) : Prop :=
  admin_enabled app = true -> exists entry, u = Some (Recorded entry) /\ logs_reply (request, reply) entry.

Lemma server_finalize request response entry w r :
  from_request request entry ->
  wps (finalize_admin_response_steps app response entry) w (r, None)
    (fun _ reply ru => ru.1 = r /\ carries response reply /\ logged_as request reply ru.2).
Proof.
  intros Hentry.
  set (body := default EmptyString (result_ok (to_bytes (body_from (reply_body response)) usize_max))).
  set (final := with_status_code (reply_status response) (log_response response body entry)).
  unfold finalize_admin_response_steps. apply server_net.
  { unfold log_slow_request. repeat case_match; first [apply frames_ret|apply warn_frame]. }
  intros w1 u. unfold logged_as. destruct (admin_enabled app) eqn:Hon; [|by split_and!].
  change (wps (bind (count_steps (adds_of final)) (fun _ => bind (record_entry_steps final) (fun _ =>
    Ret (mkReply (reply_status response) (reply_headers response) body)))) w1 (r, None)
    (fun _ reply ru => ru.1 = r /\ carries response reply /\ (true = true -> exists entry,
       ru.2 = Some (Recorded entry) /\ logs_reply (request, reply) entry))).
  apply wp_bind; [apply _|].
  eapply wp_conseq; [apply _| |by apply server_counted]. intros w2 [] ru ->. apply wp_bind; [apply _|].
  eapply wp_conseq; [apply _| |by apply server_record]. intros w3 [] ru (id & ->). simpl.
  split; [done|]. split; [|intros _; exists (with_id id final); split; [done|by apply finalized_logs]].
  split; [done|]. split; [done|]. intros Hlen. simpl. unfold body. by rewrite to_bytes_from.
Qed.

(** ** The actions *)

(** A request is answered: its reply has [P], it is in the log, and nothing is left of it unless the
    reply says that the proxy has failed. *)
Definition replied (request : Request) (P : Reply -> Prop) (reply : Reply) (ru : Owned) : Prop :=
  P reply /\ logged_as request reply ru.2 /\
  (reply_status reply = 502%Z \/ exists k, (0 <= k)%Z /\ ru.1 = mkHeld k []).

#[local] Ltac keeps := intros ? ? ?; cbv beta; first [done|by apply apply_to_entry_keeps].

Lemma server_since {B} t (f : Z -> Prog App B) w r Q :
  (forall w ms, wps (f ms) w (r, None) Q) -> wps (bind (since_step t) f) w (r, None) Q.
Proof. apply server_net, frames_elapsed. Qed.

Lemma server_now {B} (f : Z -> Prog App B) w r Q :
  (forall w t, wps (f t) w (r, None) Q) -> wps (bind now_step f) w (r, None) Q.
Proof. apply server_net, frames_now. Qed.

Lemma server_reject k request created started parsing status response describe w :
  (0 <= k)%Z -> keeps_request describe ->
  wps (reject_steps app (arrival created request) started parsing status response describe) w
    (mkHeld k [], None) (fun _ => replied request (fun reply => reply_status reply = reply_status response)).
Proof.
  intros Hk Hd. apply server_since. intros w1 d.
  assert (Hend : forall w p, wps (finalize_admin_response_steps app response
    (describe (rejected_entry (arrival created request) status d p))) w (mkHeld k [], None)
    (fun _ => replied request (fun reply => reply_status reply = reply_status response))).
  { intros w2 p. eapply wp_conseq; [apply _| |apply (server_finalize request), Hd; done].
    intros w3 reply ru (Hr & [Hst _] & Hlog). split; [done|]. split; [done|]. right. by exists k. }
  destruct parsing as [t|]; [|apply Hend]. apply server_since. intros w2 p. apply Hend.
Qed.

Lemma server_reject_status k request created started parsing status response describe w (P : Reply -> Prop) :
  (0 <= k)%Z -> keeps_request describe ->
  (forall reply, reply_status reply = reply_status response -> P reply) ->
  wps (reject_steps app (arrival created request) started parsing status response describe) w
    (mkHeld k [], None) (fun _ => replied request P).
Proof.
  intros Hk Hd HP. eapply wp_conseq; [apply _| |by apply server_reject].
  intros w1 reply ru (Hst & Hrest). split; [by apply HP|done].
Qed.

Lemma server_finish_forwarded request created started parse_ms structured (forwarded : Forwarded) w r :
  wps (finish_forwarded_steps app (arrival created request) started parse_ms structured forwarded) w (r, None)
    (fun _ reply ru => logged_as request reply ru.2 /\
       match forwarded with
       | Ok (response, _) => ru.1 = r /\ carries response reply
       | Err _ => reply_status reply = 502%Z
       end).
Proof.
  destruct forwarded as [[response entry]|failure]; apply server_since; intros w1 d.
  { eapply wp_conseq; [apply _| |by apply (server_finalize request)]. by intros w2 reply ru (Hr & Hc & Hlog). }
  assert (Hfail : forall response entry w, reply_status response = 502%Z -> from_request request entry ->
    wps (finalize_admin_response_steps app response entry) w (r, None)
      (fun _ reply ru => logged_as request reply ru.2 /\ reply_status reply = 502%Z)).
  { intros response entry w2 H502 He. eapply wp_conseq; [apply _| |by apply (server_finalize request)].
    intros w3 reply ru (_ & [Hst _] & Hlog). split; [done|]. by rewrite Hst. }
  destruct structured; [destruct (classify_standard_proxy_error_detail (failure_error failure)) as [e|]|].
  - apply Hfail; [apply json_reply_status|done].
  - destruct (classify_standard_proxy_error (failure_error failure)) as [e|];
      (apply Hfail; [apply json_reply_status|done]).
  - apply Hfail; [apply json_reply_status|done].
Qed.

(** The end of a request that was forwarded with [R] for its reply. *)
Lemma server_forwarded request created started parse_ms structured (forwarded : Forwarded) w r
    (R P : Reply -> Prop) :
  or_failed (fun re r => (exists k, (0 <= k)%Z /\ r = mkHeld k []) /\ R re.1) forwarded r ->
  (forall reply, reply_status reply = 502%Z \/ (exists response, carries response reply /\ R response) -> P reply) ->
  wps (finish_forwarded_steps app (arrival created request) started parse_ms structured forwarded) w (r, None)
    (fun _ => replied request P).
Proof.
  intros Hf HP. eapply wp_conseq; [apply _| |apply server_finish_forwarded].
  intros w1 reply ru [Hlog Hr]. destruct forwarded as [[response entry]|failure].
  - destruct Hf as [Hk HR], Hr as [Hru Hc]. rewrite <- Hru in Hk. split; [|split; [done|by right]].
    apply HP. right. by exists response.
  - split; [apply HP; by left|]. split; [done|by left].
Qed.

Lemma server_model_action rest request w :
  wps (model_action_steps app rest request) w (mkHeld 8 [], None)
    (fun _ => replied request (model_reply app rest request)).
Proof.
  unfold model_reply.
  apply server_now. intros w1 t. apply server_net; [exact rfc3339_frame|]. intros w2 created.
  destruct (negb (ends_with rest ":generateContent")).
  { apply server_reject_status; [done|keeps|]. intros reply ->. by rewrite json_reply_status. }
  apply server_now. intros w3 t1. apply server_pause; [by left|]. intros w3'.
  destruct (to_bytes (rq_body request) MAX_REQUEST_BODY_BYTES) as [raw|e].
  2: { apply server_reject_status; [done|keeps|]. intros reply ->. by rewrite proxy_error_status. }
  destruct (from_slice raw) as [body|e].
  2: { apply server_reject_status; [done|keeps|]. intros reply ->. by rewrite proxy_error_status. }
  destruct (resolve_upstream_for_request_from_header_map _ _ _ _) as [resolved|e].
  2: { apply server_reject_status; [done|keeps|]. intros reply ->. by rewrite json_reply_status. }
  apply server_since. intros w4 ms.
  eapply server_bind; [apply app_forward_gemini_request|apply quiet_forward_gemini_request|].
  intros w5 forwarded r Hr. eapply server_forwarded; [exact Hr|]. done.
Qed.

Lemma server_images_action k request w :
  (0 <= k)%Z ->
  wps (image_generations_action_steps app request) w (mkHeld k [], None)
    (fun _ => replied request (images_reply app request)).
Proof.
  intros Hk. unfold images_reply.
  apply server_now. intros w1 t. apply server_net; [exact rfc3339_frame|]. intros w2 created.
  apply server_now. intros w3 t1. apply server_pause; [by left|]. intros w3'.
  destruct (to_bytes (rq_body request) MAX_REQUEST_BODY_BYTES) as [raw|e].
  2: { apply server_reject_status; [done|keeps|]. intros reply ->. by rewrite proxy_error_status. }
  destruct (from_slice raw) as [parsed|e].
  2: { apply server_reject_status; [done|keeps|]. intros reply ->. by rewrite proxy_error_status. }
  destruct (normalize_request_body parsed) as [body|e].
  2: { apply server_reject_status; [done|keeps|]. intros reply ->. by rewrite json_reply_status. }
  destruct (resolve_upstream_for_request_from_header_map _ _ _ _) as [resolved|e].
  2: { apply server_reject_status; [done|keeps|]. intros reply ->. by rewrite json_reply_status. }
  apply server_since. intros w4 ms.
  eapply server_bind; [apply app_forward_openai|apply quiet_forward_openai|].
  intros w5 forwarded r Hr. eapply (server_forwarded _ _ _ _ _ _ _ _ (images_answered app resolved body _)).
  - destruct forwarded as [re|f]; [|done]. destruct Hr as [-> Ha]. split; [by exists k|exact Ha].
  - done.
Qed.

(** ** The admin pages *)

(** A state of the log, in which any number of requests may be in flight. *)
Definition log_state (admin : AdminState) : Prop := exists s, runs_to secret s /\ AdminShared.shared s = admin.

Lemma logging_state admin l : logging secret admin l -> log_state admin.
Proof using Type. intros (s & Hs & Ha & _). by exists s. Qed.

(** Each number was the counter's at some time; they may be of different times. *)
Definition were_counted (shown : AdminStats) : Prop :=
  Forall (fun counter => exists admin, log_state admin /\ counter shown = counter (stats admin)) counters.

(** What a page shows to those who know the password. *)
Definition shown_page (page : Reply) (route : Route) (reply : Reply) : Prop :=
  match route with
  | AdminRoot => reply = mkReply 302 (header_set "location" "/admin/logs" []) EmptyString
  | AdminLogsPage => reply = page
  | AdminLogsApi => exists admin, log_state admin /\ reply = admin_logs_response admin
  | _ => exists shown runtime_stats, were_counted shown /\
      reply = json_reply 200 (stats_payload shown runtime_stats)
  end.

Definition page_reply (page : Reply) (route : Route) (headers : HeaderMap) (reply : Reply) : Prop :=
  match authorize_admin app headers with
  | Some refusal => reply = refusal
  | None => shown_page page route reply
  end.

Lemma server_look {A B} (look : App -> A) (f : A -> Prog App B) w r Q :
  (forall g s l w, server_inv g s l -> wps (f (look s)) w r Q) ->
  wps (bind (atomic (fun s => (look s, s))) f) w r Q.
Proof. intros Hf g s others _ Hi. split; [done|]. exists r. split; [done|]. split; [by eapply Hf|done]. Qed.

Lemma server_password g (s : App) l :
  server_inv g s l -> password <$> app_admin s = password <$> app_admin app.
Proof.
  intros [[Hs _] Hlog]. assert (Hadm := same_admin _ _ Hs). unfold admin_enabled in Hadm. unfold log_ok in Hlog.
  destruct (app_admin s) as [admin|], (app_admin app) as [admin0|]; try done. simpl. f_equal.
  destruct Hlog as (entries & unlogged & Hlog & _). rewrite (logging_password _ _ _ Hlog).
  symmetry. by apply secret_is.
Qed.

Lemma server_authorized headers p (P : Reply -> Prop) w r :
  (authorize_admin app headers = None -> forall w, wps p w r (fun _ reply ru => P reply /\ ru = r)) ->
  (forall refusal, authorize_admin app headers = Some refusal -> P refusal) ->
  wps (authorized_steps headers p) w r (fun _ reply ru => P reply /\ ru = r).
Proof.
  intros Hp HP. apply server_look. intros g s l w1 Hi.
  rewrite (authorize_same s app) by (by eapply server_password).
  destruct (authorize_admin app headers) as [refusal|]; [|by apply Hp]. split; [by apply HP|done].
Qed.

Lemma authorized_enabled headers : authorize_admin app headers = None -> admin_enabled app = true.
Proof using Type. clear secret_is. unfold authorize_admin, admin_enabled. by destruct (app_admin app). Qed.

(** A look at the counters or at the log. *)
Lemma server_log_look {A B} (absent : A) (look : AdminState -> A) (f : A -> Prog App B) w r Q :
  admin_enabled app = true ->
  (forall admin w, log_state admin -> wps (f (look admin)) w (r, None) Q) ->
  wps (bind (atomic (on_admin absent (fun admin => (look admin, admin)))) f) w (r, None) Q.
Proof.
  intros Hon Hf. apply server_admin; [done|]. intros admin l Hlog. exists None. split; [exact Hlog|].
  intros w1. by eapply Hf, logging_state.
Qed.

Lemma server_load_stats {B} (f : AdminStats -> Prog App B) w r Q :
  admin_enabled app = true ->
  (forall shown w, were_counted shown -> wps (f shown) w (r, None) Q) ->
  wps (bind load_stats f) w (r, None) Q.
Proof.
  intros Hon Hf. do 13 (apply server_log_look; [exact Hon|]; intros ? ? ?). apply Hf.
  unfold were_counted, counters. repeat apply Forall_cons_2; [..|apply Forall_nil_2]; (eexists; split; [|simpl; reflexivity]; eassumption).
Qed.

Lemma server_page page route headers p w r :
  (admin_enabled app = true ->
   forall w, wps p w (r, None) (fun _ reply ru => shown_page page route reply /\ ru = (r, None))) ->
  wps (authorized_steps headers p) w (r, None)
    (fun _ reply ru => page_reply page route headers reply /\ ru = (r, None)).
Proof.
  intros Hp. unfold page_reply. apply server_authorized.
  - intros Hauth w1. rewrite Hauth. by eapply Hp, authorized_enabled.
  - intros refusal ->. done.
Qed.

Lemma server_logs_api page headers w r :
  wps (admin_logs_api_steps app headers) w (r, None)
    (fun _ reply ru => page_reply page AdminLogsApi headers reply /\ ru = (r, None)).
Proof.
  apply server_page. intros Hon w1. rewrite Hon. apply server_pause; [by left|]. intros w2.
  apply (server_log_look _ _ Ret); [done|]. intros admin w3 Ha. split; [by exists admin|done].
Qed.

Lemma app_snapshot r : app_triple app r (on_runtime_steps stats_snapshot_steps) (fun _ r' => r' = r).
Proof.
  apply app_on_runtime. intros w. do 2 (intros ? ? ? _ ?; split; [done|]; exists r; split; [assumption|]; split; [|done]).
  done.
Qed.

Lemma server_stats_api page headers w r :
  wps (admin_stats_api_steps app headers) w (r, None)
    (fun _ reply ru => page_reply page AdminStatsApi headers reply /\ ru = (r, None)).
Proof.
  apply server_page. intros Hon w1. rewrite Hon.
  eapply server_bind; [apply app_snapshot|apply quiet_on_runtime|]. intros w2 runtime_stats _ ->.
  apply server_load_stats; [done|]. intros shown w3 Hs. split; [by exists shown, runtime_stats|done].
Qed.

(** ** The router *)

(** The routes of the two actions. *)
Definition acts (route : Route) : bool :=
  match route with
  | ImageGenerations => true
  | ModelAction rest => match path_param rest with Ok _ => true | Err _ => false end
  | _ => false
  end.

Lemma is_action_acts request :
  is_action request = (rq_method request =? "POST")%string &&
    match route_of (rq_path request) with Some (_, route) => acts route | None => false end.
Proof using Type. unfold is_action. by destruct (route_of (rq_path request)) as [[method []]|]. Qed.

(** What is claimed of a handler's reply, *)
Definition handler_reply (page : Reply) (route : Route) (request : Request) (reply : Reply) : Prop :=
  match route with
  | ImageGenerations => images_reply app request reply
  | ModelAction rest =>
      match path_param rest with
      | Err rejection => reply = rejection
      | Ok rest => model_reply app rest request reply
      end
  | _ => page_reply page route (rq_headers request) reply
  end.

(** and of the server's. *)
Definition reply_of (page : Reply) (request : Request) (reply : Reply) : Prop :=
  match route_of (rq_path request) with
  | None => reply = unrouted request
  | Some (method, route) =>
      if String.eqb (rq_method request) method then handler_reply page route request reply
      else if String.eqb method "GET" && String.eqb (rq_method request) "HEAD" then
        exists full, handler_reply page route request full /\ reply = without_body full
      else reply = unrouted request
  end.

(** At its end an action has been logged, anything else has left no trace. *)
Definition ended (acted : bool) (request : Request) (P : Reply -> Prop) (reply : Reply) (ru : Owned) : Prop :=
  if acted then replied request P reply ru else P reply /\ ru = (mkHeld 8 [], None).

Lemma server_call_handler page route request w :
  wps (call_handler_steps app page route request) w (mkHeld 8 [], None)
    (fun _ => ended (acts route) request (handler_reply page route request)).
Proof.
  destruct route as [| | | | |rest].
  - by apply server_page.
  - by apply server_page.
  - apply server_logs_api.
  - apply server_stats_api.
  - by apply server_images_action.
  - unfold ended, acts, handler_reply, call_handler_steps. destruct (path_param rest) as [rest'|rejection]; [apply server_model_action|done].
Qed.

Lemma server_serve page request w :
  wps (serve_steps app page request) w (mkHeld 8 [], None)
    (fun _ => ended (is_action request) request (reply_of page request)).
Proof.
  unfold serve_steps, reply_of. rewrite is_action_acts.
  destruct (route_of (rq_path request)) as [[method route]|] eqn:Er; [|by rewrite andb_false_r].
  assert (Hm := route_method _ _ _ Er). destruct (String.eqb_spec (rq_method request) method) as [Heq|Hne].
  - eapply wp_conseq; [apply _| |apply server_call_handler]. intros w1 reply ru.
    rewrite Heq, Hm. by destruct route.
  - assert (Hno : (rq_method request =? "POST")%string && acts route = false).
    { apply andb_false_iff. destruct route; try by right. all: left; apply String.eqb_neq; congruence. }
    rewrite Hno. destruct (String.eqb_spec method "GET") as [Hget|]; [|done]. simpl.
    destruct (rq_method request =? "HEAD")%string; [|done].
    apply wp_bind; [apply _|]. eapply wp_conseq; [apply _| |apply server_call_handler].
    intros w1 reply ru. destruct route; try congruence; (intros [Hr ->]; split; [by exists reply|done]).
Qed.
End server.
