(* ===== verification/ServerShared.v ===== *)
(** The server under concurrency: any number of requests, to any of its routes, are handled at once.  Their
    accesses to the blob store, to the counters, to the log and to the world interleave freely, and
    each may be dropped at an await when its client goes away. *)

From S2P Require Import Prelude RustStr Json Pointer Ext Samples.
From S2P Require Import Config Upstream ImageIo RequestScan BlobRuntime BlobSteps BlobLogic RequestEncode FetchService.
From S2P Require Import RequestMaterialize RequestRewrite RequestSteps RequestLogic OpenaiImage Http Admin Upload.
From S2P Require Import ResponseRewrite ResponseMaterialize Query UpstreamClient UpstreamResponse.
From S2P Require Import Aiapidev Tracking Router Forwarding RouterSteps ActionSteps PageSteps RouterLogic Handling.
From S2P Require Import Server PageReads ServerLogic AdminShared Interleave Inside.
From stdpp Require Import relations options.

(** * The pool of requests *)

Section server.
#[local] Set Default Proof Using "All".
Context `{HttpLib} `{JsonCompact} `{Displays} `{Base64Laws} `{ImageCodec} `{BodyLaws} {W : Type}
  `{FetchLaws W} `{DuplexLaws W} `{!SchedulerLaws W}
  `{ResponseFetcher W} `{InlineUploader W} `{Clock W} `{UpstreamClient W} `{LogLib W} `{!RouterFrames W} `{!RouteLib}.
Abbreviation App := (AppState W).
Context (app : App) (secret : string) (page : Reply).
Abbreviation c := (cfg (app_runtime app)).
Abbreviation server_inv := (server_inv app secret).
Abbreviation wps := (wp server_inv server_ext gone).

Definition allowed_request (g : ServerGhost) (request : Request) : Prop := True.

(** A request takes at most eight identifiers: seven images and the body. *)
Definition arrive_request (request : Request) (g : ServerGhost) : ServerGhost :=
  mkServerGhost (mkBlobGhost (ever (store g)) (handed (store g)) (arrivals (store g) + 8) (leaky (store g)))
    (answered g) (abandoned g).

Definition leaves_behind (g : ServerGhost) : ServerGhost :=
  mkServerGhost (mkBlobGhost (ever (store g)) (handed (store g)) (arrivals (store g)) true)
    (answered g) (abandoned g).

Definition publish_reply (request : Request) (reply : Reply) (g : ServerGhost) : ServerGhost :=
  if is_action request then
    let g := if (reply_status reply =? 502)%Z then leaves_behind g else g in
    mkServerGhost (store g) ((request, reply) :: answered g) (abandoned g)
  else g.

Definition drop_request (request : Request) (g : ServerGhost) : ServerGhost :=
  mkServerGhost (store (leaves_behind g)) (answered g) true.

(** The world changes, but for the blob files. *)
Definition elsewhere : relation App := fun s s' =>
  exists w, s' = set_runtime (set_world w (app_runtime s)) s /\
    forall id, fs_content w (spill_path c id) = fs_content (world (app_runtime s)) (spill_path c id).

Abbreviation ServerPool := (Pool App ServerGhost Request Reply).

Definition server_step : relation ServerPool :=
  pool_step (serve_steps app page) allowed_request arrive_request publish_reply drop_request elsewhere.

Definition server_start : ServerPool := at_rest app (mkServerGhost ghost_init [] false).

(** The states that requests bring the server to. *)
Definition server_reachable (x : ServerPool) : Prop := rtc server_step server_start x.

Context (secret_is : forall admin, app_admin app = Some admin -> password admin = secret).

Definition post_request (request : Request) (w : ServerGhost * App) (reply : Reply) (ru : Owned) : Prop :=
  ended app (is_action request) request (reply_of app secret page request) reply ru.

Definition lossy (g : ServerGhost) : Prop := leaky (store g) = true /\ abandoned g = true.

Lemma server_inv_perm g s l l' : l ≡ₚ l' -> server_inv g s l -> server_inv g s l'.
Proof using Type.
  intros Hl [[Hs Hi] Hlog]. split; [split; [done|]|].
  - eapply blob_inv_perm; [|exact Hi]. by rewrite Hl.
  - eapply log_ok_perm; [|exact Hlog]. by rewrite Hl.
Qed.

(** Blobs that are forgotten: there are none, or some may be left. *)
Lemma server_inv_forget g (s : App) k B l :
  B = [] \/ leaky (store g) = true ->
  app_inv app (store g) s (mkHeld k B :: l.*1) -> app_inv app (store g) s (l : list Owned).*1.
Proof.
  intros HB [Hs Hi]. split; [done|]. apply blob_inv_cons in Hi as (Hk & Ht & Hi). split; [done|].
  assert (0 <= sumZ (tickets <$> l.*1))%Z by (by apply sumZ_nonneg, Forall_fmap).
  apply (store_inv_tickets _ _ _ (sumZ (tickets <$> l.*1))) in Hi; [|lia].
  destruct HB as [->|Hl]; [exact Hi|]. by eapply store_inv_leak.
Qed.

Lemma server_inv_leaks g (s : App) l :
  server_inv g s l -> server_ext (g, s) (leaves_behind g, s) /\ server_inv (leaves_behind g) s l.
Proof.
  intros [[Hs [Ht Hi]] Hlog]. split; [by split; [|intros Hab]|]. split; [|exact Hlog]. split; [done|]. split; [done|].
  by apply store_inv_leaks.
Qed.

(** The log without a request that was not logging, or that waited for the lock. *)
Lemma log_ok_forget g (s : App) r l :
  gone r -> abandoned g = true -> log_ok secret g s (r.2 :: l) -> log_ok secret g s l.
Proof.
  unfold log_ok. intros Hr Ha. destruct (app_admin s) as [admin|]; [|done].
  intros (entries & unlogged & Hlog & Hst & _ & Hn). cbn [length] in Hn. rewrite in_log_cons in Hlog.
  destruct Hr as [Hu|[entry Hu]]; rewrite Hu in Hlog.
  - exists entries, unlogged. split_and!; [done..|by right|lia].
  - exists entries, (entry :: unlogged). split_and!; [|done|by right|cbn [length]; lia].
    eapply logging_perm; [|exact Hlog]. simpl. by rewrite !Permutation_middle.
Qed.

Lemma log_ok_less g (s : App) l : log_ok secret g s (None :: l) -> log_ok secret g s l.
Proof.
  unfold log_ok. destruct (app_admin s) as [admin|]; [|done].
  intros (entries & unlogged & Hlog & Hst & Hu & Hn). cbn [length] in Hn.
  exists entries, unlogged. split_and!; [done..|lia].
Qed.

Lemma arrive_ok request g (s : App) l :
  ids_left (store (arrive_request request g)) -> server_inv g s l ->
  server_ext (g, s) (arrive_request request g, s) /\
  exists r, server_inv (arrive_request request g) s (r :: l) /\
    wps (serve_steps app page request) (arrive_request request g, s) r (post_request request).
Proof.
  intros Hleft [[Hs [Ht Hi]] Hlog]. split; [by split; [|intros Hab]|]. exists (mkHeld 8 [], None).
  split; [|by apply server_serve]. split.
  - split; [done|]. split; [by constructor|]. by apply store_inv_arrive.
  - revert Hlog. unfold log_ok. destruct (app_admin s) as [admin|]; [|done].
    intros (entries & unlogged & Hlog & Hst & Hu & Hn). exists entries, unlogged.
    split_and!; [done..|]. rewrite fmap_cons. cbn [length arrive_request store arrivals]. lia.
Qed.

(** The log takes note of a reply. *)
Lemma log_ok_answered g g' (s : App) request reply u l :
  same_server app s -> answered g' = (request, reply) :: answered g -> abandoned g' = abandoned g ->
  arrivals (store g') = arrivals (store g) -> logged_as app request reply u ->
  log_ok secret g s (u :: l) -> log_ok secret g' s l.
Proof.
  intros Hs Hg Hab Har Hu. unfold log_ok. assert (Hadm := same_admin _ _ Hs). unfold admin_enabled in Hadm at 1.
  destruct (app_admin s) as [admin|]; [|done]. intros (entries & unlogged & Hlog & Hst & Hleft & Hn).
  destruct (Hu (eq_sym Hadm)) as (entry & -> & Hentry). exists (entry :: entries), unlogged.
  rewrite Hg, Hab, Har. cbn [length] in *. split_and!; [|by constructor|done|lia].
  eapply logging_perm; [|exact Hlog]. rewrite in_log_cons. simpl. apply Permutation_middle.
Qed.

Lemma return_ok request reply g (s : App) r l :
  post_request request (g, s) reply r -> server_inv g s (r :: l) ->
  server_ext (g, s) (publish_reply request reply g, s) /\ server_inv (publish_reply request reply g) s l.
Proof.
  unfold post_request, ended, publish_reply. destruct (is_action request).
  2: { intros [_ ->] [Ha Hlog]. split; [done|]. split; [eapply server_inv_forget; [by left|exact Ha]|].
       by apply log_ok_less. }
  intros (_ & Hlog & Hr) Hi. destruct r as [[k B] u].
  destruct (Z.eqb_spec (reply_status reply) 502) as [H502|Hne].
  - destruct (server_inv_leaks _ _ _ Hi) as [He [Ha Hl]]. split; [exact He|].
    split; [eapply server_inv_forget; [by right|exact Ha]|]. eapply log_ok_answered; [apply Ha|done..|exact Hlog|exact Hl].
  - destruct Hr as [|(k' & _ & [= -> ->])]; [done|]. destruct Hi as [Ha Hl]. split; [by split; [|intros Hab]|].
    split; [eapply server_inv_forget; [by left|exact Ha]|]. eapply log_ok_answered; [apply Ha|done..|exact Hlog|exact Hl].
Qed.

Lemma drop_ok request g (s : App) l :
  server_inv g s l ->
  server_ext (g, s) (drop_request request g, s) /\ server_inv (drop_request request g) s l /\
  lossy (drop_request request g).
Proof.
  intros Hi. destruct (server_inv_leaks _ _ _ Hi) as [[He _] [Ha Hlog]]. split; [by split|]. split; [|done].
  split; [exact Ha|]. revert Hlog. unfold log_ok. destruct (app_admin s) as [admin|]; [|done].
  intros (entries & unlogged & Hlog & Hst & _ & Hn). exists entries, unlogged. split_and!; [done..|by right|done].
Qed.

Lemma server_pool_ok (x : ServerPool) :
  server_inv (mkServerGhost ghost_init [] false) app [] -> server_reachable x -> ids_left (store (ghost x)) ->
  pool_ok server_inv server_ext gone post_request lossy x.
Proof.
  intros Hnew Hrun.
  apply (pool_reachable_ok (serve_steps app page) allowed_request arrive_request publish_reply
    drop_request elsewhere server_inv server_ext gone post_request (fun g => ids_left (store g))
    lossy) with (s0 := app) (g0 := mkServerGhost ghost_init [] false); try done.
  - apply server_inv_perm.
  - intros g s [[k B] u] l [Hl Ha] [Hi Hlog] Hu. split; [|by eapply log_ok_forget].
    eapply server_inv_forget; [by right|exact Hi].
  - intros request g s l _. apply arrive_ok.
  - apply return_ok.
  - intros request g s l Hi. by destruct (drop_ok request g s l Hi) as (? & ? & ?).
  - intros g s g' s' [(_ & _ & He) Hg] [Hl Ha]. split; auto.
  - intros g s s' l (w & -> & Hw) [[Hs Hi] Hlog]. split; [done|]. split; [|exact Hlog].
    split; [by apply same_set_runtime|]. revert Hi. apply blob_inv_shared. intros t rest Hi.
    by apply store_inv_world.
  - intros request g. unfold ids_left. simpl. lia.
  - intros request reply g. unfold publish_reply. destruct (is_action request); [|done].
    by destruct (reply_status reply =? 502)%Z.
Qed.

(** No blob is ever given out. *)
Lemma server_pool_private (x : ServerPool) : server_reachable x -> ever (store (ghost x)) = ∅.
Proof.
  intros Hrun. assert (Hnew : ever (store (ghost server_start)) = ∅) by done.
  revert Hnew. induction Hrun as [x|x1 x2 x3 Hs _ IH]; [done|]. intros Hx. apply IH. revert Hx.
  destruct Hs as [s g ts t call Ht Ha|?|s g ts t call p out Ht Hp|?|?|?]; try done.
  simpl. unfold publish_reply. destruct (is_action call); [|done]. by destruct (reply_status out =? 502)%Z.
Qed.

Lemma returning_request (x : ServerPool) t request p reply :
  pool_ok server_inv server_ext gone post_request lossy x ->
  tasks x !! t = Some (Running request p) -> step p (shared x) = inl reply ->
  reply_of app secret page request reply.
Proof.
  intros (m & Hts & _ & Hall) Ht Hs. rewrite Hts in Ht. apply fmap_task in Ht as [r Hr].
  assert (Hwp := Hall _ _ _ Hr). simpl in Hwp. apply step_inl in Hs as ->.
  unfold wp, post_request, ended in Hwp. by destruct (is_action request), Hwp as [Hreply _].
Qed.

(** ** When no request is left *)

Lemma server_idle_store (x : ServerPool) :
  server_inv (ghost x) (shared x) [] -> ever (store (ghost x)) = ∅ -> leaky (store (ghost x)) = false ->
  rep (app_runtime (shared x)) ∅.
Proof.
  intros [[_ [_ Hi]] _] Hever Hl.
  assert (Hrep := live_rep c _ _ _ Hi Hl). unfold live in Hrep. by rewrite Hever, map_filter_empty in Hrep.
Qed.

(** The log shows, of a list of entries, the latest hundred, under numbers of their own; these are the
    entries of the requests that were answered, one of each with its reply, and of at most [n] that are
    still in flight. The counters of requests and of errors have counted those answered, those that
    were dropped while they waited for the lock of the log, with their statuses [unlogged], and at
    most [n] more. *)
Definition log_holds (n : nat) (g : ServerGhost) (admin : AdminState) : Prop :=
  NoDup (entry_id <$> log_entries (logs admin)) /\
  (exists pushed entries inflight, log_entries (logs admin) = take 100 pushed /\
     pushed ≡ₚ inflight ++ entries /\ Forall2 logs_reply (answered g) entries /\ (length inflight <= n)%nat) /\
  exists unlogged, (unlogged = [] \/ abandoned g = true) /\
    let statuses := ((fun a => reply_status a.2) <$> answered g) ++ unlogged in
    (Z.of_nat (length statuses) <= stats_total_requests (stats admin) <= Z.of_nat (length statuses + n))%Z /\
    (Z.of_nat (errors_in statuses) <= stats_error_requests (stats admin) <= Z.of_nat (errors_in statuses + n))%Z.

(** When no request is left, these are all, and the numbers have been given to them. *)
Definition log_complete (g : ServerGhost) (admin : AdminState) : Prop :=
  log_holds 0 g admin /\ length (log_entries (logs admin)) = Nat.min (length (answered g)) 100 /\
  exists unlogged, (unlogged = [] \/ abandoned g = true) /\
    let statuses := ((fun a => reply_status a.2) <$> answered g) ++ unlogged in
    log_next_id (logs admin) = Z.of_nat (length statuses) /\
    stats_total_requests (stats admin) = Z.of_nat (length statuses) /\
    stats_error_requests (stats admin) = Z.of_nat (errors_in statuses).

Lemma in_log_pushed (l : list (option Finishing)) : (length (in_log l ≫= pushed_of) <= length l)%nat.
Proof using Type.
  induction l as [|[[| |entry]|] l IH]; [done|..]; rewrite in_log_cons, bind_app, length_app; simpl; lia.
Qed.

Lemma in_log_length (l : list (option Finishing)) : (length (in_log l) <= length l)%nat.
Proof using Type. induction l as [|[u|] l IH]; [done|..]; rewrite in_log_cons, length_app; simpl; lia. Qed.

Lemma statuses_logged (l : list (Request * Reply)) entries :
  Forall2 logs_reply l entries -> entry_status_code <$> entries = (fun a => reply_status a.2) <$> l.
Proof using Type.
  induction 1 as [|[request reply] entry l entries (_ & Hst & _) _ IH]; [done|]. by rewrite !fmap_cons, IH, Hst.
Qed.

Lemma server_log_holds g s l admin :
  server_inv g s l -> app_admin s = Some admin -> ids_left (store g) -> log_holds (length l) g admin.
Proof.
  intros [_ Hlog] Ha Hids. unfold log_ok in Hlog. rewrite Ha in Hlog.
  destruct Hlog as (entries & unlogged & Hl & Hst & Hu & Hn). assert (Hle := in_log_length l.*2).
  assert (Hle' := in_log_pushed l.*2). assert (Hlen := length_fmap snd l). rewrite Hlen in Hn, Hle, Hle'.
  unfold ids_left, u64_max in Hids. unfold log_holds. split; [|split].
  - apply (logging_ids _ _ _ Hl). rewrite !length_app, !length_fmap. unfold i64_max. lia.
  - destruct (logging_pushed _ _ _ Hl) as (pushed & Hlog & Hp).
    exists pushed, entries, (in_log l.*2 ≫= pushed_of). split; [exact Hlog|]. split; [|done].
    rewrite Hp, !bind_app, !list_fmap_bind. f_equiv.
    rewrite (bind_const (pushed_of ∘ Numbered) [] unlogged) by done.
    rewrite concat_nothing, app_nil_r. change (pushed_of ∘ Recorded) with (fun x : AdminLogEntry => [x]).
    by rewrite (bind_ret_all entries).
  - exists (entry_status_code <$> unlogged). split; [by destruct Hu as [->|]; [left|right]|]. cbv zeta.
    rewrite <- (statuses_logged _ _ Hst), <- fmap_app.
    destruct (tallied_statuses (entry_status_code <$> entries ++ unlogged)) as [Htotal Herr].
    assert (Hb := fun b => logging_between _ _ _ _ _ b Hl ltac:(unfold i64_max; lia)).
    assert (Hf := Hb false). assert (Ht := Hb true). rewrite Htotal in Hf. rewrite Herr in Ht. cbn [tally] in *.
    split; lia.
Qed.

Lemma pool_log_holds (x : ServerPool) admin :
  pool_ok server_inv server_ext gone post_request lossy x ->
  app_admin (shared x) = Some admin -> ids_left (store (ghost x)) ->
  log_holds (size (tasks x)) (ghost x) admin.
Proof.
  intros (m & Hts & Hi & _) Ha Hids. assert (Hlog := server_log_holds _ _ _ _ Hi Ha Hids).
  unfold held_by in Hlog. rewrite length_fmap, length_map_to_list in Hlog. by rewrite Hts, map_size_fmap.
Qed.

Lemma server_idle_log (x : ServerPool) admin :
  server_inv (ghost x) (shared x) [] -> app_admin (shared x) = Some admin -> ids_left (store (ghost x)) ->
  log_complete (ghost x) admin.
Proof.
  intros Hi Ha Hids. split; [exact (server_log_holds _ _ _ _ Hi Ha Hids)|]. destruct Hi as [_ Hlog].
  unfold log_ok in Hlog. rewrite Ha in Hlog. destruct Hlog as (entries & unlogged & Hl & Hst & Hu & Hn).
  assert (Hlen := Forall2_length _ _ _ Hst).
  destruct (logging_done secret admin entries unlogged Hl) as (_ & Hlog & Hnext & Ht & He).
  { rewrite length_app. unfold ids_left, u64_max, i64_max in *. lia. }
  rewrite Hlog, Hlen. split; [done|]. exists (entry_status_code <$> unlogged).
  split; [by destruct Hu as [->|]; [left|right]|]. cbv zeta.
  rewrite <- (statuses_logged _ _ Hst), <- fmap_app, length_fmap. by split_and!.
Qed.
(** ** The pages *)

Lemma ids_left_back (x y : ServerPool) :
  rtc server_step x y -> ids_left (store (ghost y)) -> ids_left (store (ghost x)).
Proof using Type.
  induction 1 as [x|x y z Hs _ IH]; [done|]. intros Hz. specialize (IH Hz). revert IH. unfold ids_left.
  destruct Hs as [s g ts t request Ht Ha|?|s g ts t request p reply Ht Hs|?|?|?]; simpl; try done; [lia|].
  unfold publish_reply. destruct (is_action request); [|done]. by destruct (reply_status reply =? 502)%Z.
Qed.

Lemma answered_grows (x y : ServerPool) :
  rtc server_step x y -> answered (ghost x) `suffix_of` answered (ghost y).
Proof using Type.
  induction 1 as [x|x y z Hs _ IH]; [done|]. etrans; [|exact IH].
  destruct Hs as [s g ts t request Ht Ha|?|s g ts t request p reply Ht Hs|?|?|?]; try done.
  cbn [ghost]. unfold publish_reply. destruct (is_action request); [|done].
  destruct (reply_status reply =? 502)%Z; by apply suffix_cons_r.
Qed.

(** The admin state was [P] at some moment between [x0] and [x]. *)
Definition admin_between (x0 x : ServerPool) (P : ServerPool -> AdminState -> Prop) : Prop :=
  exists z admin, rtc server_step x0 z /\ rtc server_step z x /\ app_admin (shared z) = Some admin /\ P z admin.

(** What a page shows that is asked for after [x0] and given at [x]: the log as it was at a moment
    in between, with what [log_holds] says of that moment, and with all that were answered by [x0];
    or counters and sizes, each of which was right at such a moment. *)
Definition page_between (x0 x : ServerPool) (route : Route) (reply : Reply) : Prop :=
  match route with
  | AdminLogsApi => admin_between x0 x (fun z admin =>
      reply = admin_logs_response admin /\ log_holds (size (tasks z)) (ghost z) admin /\
      answered (ghost x0) `suffix_of` answered (ghost z))
  | AdminStatsApi => exists shown runtime_stats, reply = json_reply 200 (stats_payload shown runtime_stats) /\
      Forall (fun counter => admin_between x0 x (fun z admin =>
        counter shown = counter (stats admin) /\ log_holds (size (tasks z)) (ghost z) admin /\
        answered (ghost x0) `suffix_of` answered (ghost z))) counters /\
      (exists z, rtc server_step x0 z /\ rtc server_step z x /\
         snapshot_spill_count runtime_stats = spill_count (app_runtime (shared z))) /\
      (exists z, rtc server_step x0 z /\ rtc server_step z x /\
         snapshot_spill_bytes_total runtime_stats = spill_bytes_total (app_runtime (shared z)))
  | _ => True
  end.

Lemma returning_page (x0 x : ServerPool) t request p reply route :
  server_inv (mkServerGhost ghost_init [] false) app [] ->
  server_reachable x0 -> rtc server_step x0 x -> ids_left (store (ghost x)) ->
  tasks x0 !! t = None -> tasks x !! t = Some (Running request p) -> step p (shared x) = inl reply ->
  asked_page request = Some route -> authorize_admin app (rq_headers request) = None ->
  page_between x0 x route reply.
Proof.
  intros Hnew Hx0 Hrun Hleft Hnone Ht Hs Hroute Ha.
  assert (Hok : forall z, rtc server_step x0 z -> rtc server_step z x -> ids_left (store (ghost z)) /\
    pool_ok server_inv server_ext gone post_request lossy z).
  { intros z Hz Hzx. assert (Hzl := ids_left_back _ _ Hzx Hleft). split; [done|].
    apply server_pool_ok; [done| |done]. unfold server_reachable. by etrans. }
  assert (Hpage : route = AdminLogsApi \/ route = AdminStatsApi -> exists seen, shows seen route reply /\
    forall s, s ∈ seen -> exists z, rtc server_step x0 z /\ rtc server_step z x /\ shared z = s).
  { intros Hr. eapply (pool_reads _ _ _ _ _ _ (same_password app)
      (fun request => asked_page request = Some route /\ authorize_admin app (rq_headers request) = None)
      (fun _ seen => shows seen route)); [| |exact Hrun|exact Hnone|exact Ht|exact Hs|done].
    - intros request' [Hr' Ha']. by apply reads_serve.
    - intros z Hz Hzx. destruct (Hok z Hz Hzx) as (_ & m & _ & Hi & _).
      unfold same_password. by eapply server_password. }
  assert (Hlook : forall seen P, (forall s, s ∈ seen -> exists z, rtc server_step x0 z /\
      rtc server_step z x /\ shared z = s) -> admin_seen seen P -> admin_between x0 x (fun z admin => P admin /\
        log_holds (size (tasks z)) (ghost z) admin /\ answered (ghost x0) `suffix_of` answered (ghost z))).
  { intros seen P Hseen (s & admin & Hin & Hadm & HP). destruct (Hseen s Hin) as (z & Hz & Hzx & <-).
    destruct (Hok z Hz Hzx) as [Hzl Hzok]. exists z, admin. split_and!; try done; [by apply pool_log_holds|].
    by apply answered_grows. }
  destruct route; try done; destruct Hpage as (seen & Hshows & Hseen); [by left| |by right|].
  - by apply (Hlook seen).
  - destruct Hshows as (shown & rt & -> & Hall & (sc & Hsc & Hc) & (sb & Hsb & Hb)).
    exists shown, rt. split; [done|]. split; [|split].
    + eapply Forall_impl; [exact Hall|]. intros counter. by apply Hlook.
    + destruct (Hseen sc Hsc) as (z & ? & ? & <-). by exists z.
    + destruct (Hseen sb Hsb) as (z & ? & ? & <-). by exists z.
Qed.
End server.

Lemma build_app_inv `{HttpLib} `{JsonCompact} `{Displays} `{Base64Laws} `{ImageCodec} `{BodyLaws} {W}
    `{FetchLaws W} `{DuplexLaws W} `{!SchedulerLaws W} `{ResponseFetcher W} `{InlineUploader W} `{Clock W}
    `{UpstreamClient W} `{LogLib W} `{!RouterFrames W} `{Digests} `{LruLib MemoryCache.MemoryEntry}
    `{Directories W} config w :
  in_u64 (blob_global_hot_budget_bytes config) ->
  server_inv (build_app_state config w) (admin_password config) (mkServerGhost ghost_init [] false)
    (build_app_state config w) [].
Proof.
  intros Hc. split; [split; [done|by apply blob_inv_init]|]. unfold log_ok. simpl.
  destruct (is_empty (trim (admin_password config))); [done|]. exists [], [].
  split; [apply logging_new|]. by split_and!; [|left|].
Qed.

Lemma build_app_password `{UrlLib} `{HttpLib} `{ImageCodec} `{JsonCodec} `{Digests} `{Displays}
    `{LruLib MemoryCache.MemoryEntry} {W} `{!HttpClient W} `{FileSystem W} `{Directories W} `{Clock W}
    `{Runtime W} config (w : W) admin :
  app_admin (build_app_state config w) = Some admin -> password admin = admin_password config.
Proof. unfold build_app_state. simpl. case_match; [done|]. by intros [= <-]. Qed.

(** What a server that was built replies. *)
Lemma built_server_replies `{HttpLib} `{JsonCompact} `{Displays} `{Base64Laws} `{ImageCodec}
    `{BodyLaws} {W} `{FetchLaws W} `{DuplexLaws W} `{!SchedulerLaws W} `{ResponseFetcher W}
    `{InlineUploader W} `{Clock W} `{UpstreamClient W} `{LogLib W} `{!RouterFrames W} `{!RouteLib}
    `{Digests} `{LruLib MemoryCache.MemoryEntry} `{Directories W} config w page (x : Pool (AppState W) _ _ _)
    t request p reply :
  let server := build_app_state config w in
  in_u64 (blob_global_hot_budget_bytes config) -> server_reachable server page x ->
  ids_left (store (ghost x)) ->
  tasks x !! t = Some (Running request p) -> step p (shared x) = inl reply ->
  reply_of server (admin_password config) page request reply.
Proof.
  intros server Hc Hrun Hleft Ht Hs. assert (Hpw := build_app_password config w).
  refine (returning_request server _ page Hpw x t request p reply _ Ht Hs).
  by apply server_pool_ok; [|apply build_app_inv| |].
Qed.

(** ** Requests at once, for the witness *)

#[local] Existing Instances sample_codec server_codec server_compact server_body server_body_laws
  server_upstream server_response_fetcher server_host server_log server_frames server_routes.

#[local] Instance allowed_request_dec g request : Decision (allowed_request g request) := left I.

Definition sample_page : Reply := status_reply 200.

Abbreviation SamplePool := (Pool (AppState SampleFs) ServerGhost Request Reply).

Definition sample_played (ms : list (@Move Request)) : SamplePool :=
  played (serve_steps sample_server sample_page) allowed_request arrive_request publish_reply
    drop_request ms (server_start sample_server).

Lemma sample_played_reachable ms : server_reachable sample_server sample_page (sample_played ms).
Proof. apply played_steps. Qed.

(** Two requests to a model and one for images take turns, while one without the password asks for the
    log; the second finds that the first has taken memory between its look and its reservation, and
    tries again. *)
Definition sample_race : list (@Move Request) :=
  [Begin 0 sample_model_request; Begin 1 sample_model_request; Begin 2 sample_images_request;
   Begin 3 sample_intruder]
  ++ concat (replicate 2 [Turn 0; Turn 1; Turn 2; Turn 3]) ++ concat (replicate 24 [Turn 0; Turn 1; Turn 2])
  ++ concat (replicate 25 [Turn 0; Turn 1]).

(** The first is about to return, *)
Definition sample_busy : SamplePool := sample_played sample_race.

(** and all have returned. *)
Definition sample_idle : SamplePool :=
  sample_played (sample_race ++ [Turn 0; Turn 1; Turn 1; Turn 1; Turn 1]).

(** What a task is about to return. *)
Definition about_to_return `{BodyLib} {S G} (x : Pool S G Request Reply) (t : nat) : option (Request * Reply) :=
  match tasks x !! t with
  | Some (Running call p) => match step p (shared x) with inl out => Some (call, out) | inr _ => None end
  | _ => None
  end.

Lemma about_to_return_inv `{BodyLib} {S G} (x : Pool S G Request Reply) t call out :
  about_to_return x t = Some (call, out) ->
  exists p, tasks x !! t = Some (Running call p) /\ step p (shared x) = inl out.
Proof.
  unfold about_to_return. destruct (tasks x !! t) as [[call' p|m]|]; [|done..].
  destruct (step p (shared x)) as [out'|[]] eqn:Es; [|done]. intros [= -> ->]. by exists p.
Qed.

Lemma status_of_inv `{BodyLib} (o : option (Request * Reply)) status :
  (fun e => reply_status e.2) <$> o = Some status ->
  exists call reply, o = Some (call, reply) /\ reply_status reply = status.
Proof. destruct o as [[call reply]|]; intros [=]. by exists call, reply. Qed.

(** * Theorems *)

(** C1: The server under concurrency: however the accesses of any number of requests to any of its routes
    interleave, whatever the network, the disk and the scheduler do, and whichever requests are
    dropped at an await because their clients have gone away: the memory of the blobs stays within
    the budget; every reply is right for its own request: a request that was forwarded has sent its
    own document upstream, with every image URL replaced by the data that was downloaded for it, and
    its reply is what is made of the upstream's answer to that document, and who asks for an admin page
    without the password is refused; a request that is left alone always ends; the log has one entry
    for every request of the two actions that was answered, with the fields of this request and the
    status, body and images of its reply (the latest hundred of them are kept), and besides entries of
    requests in flight only, and the counters of requests and errors count those requests, those
    that were dropped while they waited for the lock of the log, and some of those in flight; who knows
    the password and asks for the log is shown what it was at one moment between the question and the
    reply, with all that were answered before the question, and who asks for the counters sees for each
    what it was at such a moment; and when no request is left, the log and the counters are exact, and,
    if no request was dropped or answered with 502, no blob is left in memory or on the disk. *)
Theorem concurrent_server_correct `{HttpLib} `{JsonCompact} `{Displays} `{Base64Laws} `{ImageCodec}
    `{BodyLaws} {W} `{FetchLaws W} `{DuplexLaws W} `{!SchedulerLaws W} `{ResponseFetcher W}
    `{InlineUploader W} `{Clock W} `{UpstreamClient W} `{LogLib W} `{!RouterFrames W} `{!RouteLib}
    `{Digests} `{LruLib MemoryCache.MemoryEntry} `{Directories W} config w page (x : Pool (AppState W) _ _ _) :
  let server := build_app_state config w in
  in_u64 (blob_global_hot_budget_bytes config) -> server_reachable server page x ->
  ids_left (store (ghost x)) ->
  (0 <= global_hot_bytes (app_runtime (shared x)) <= blob_global_hot_budget_bytes config)%Z /\
  (forall t request p reply, tasks x !! t = Some (Running request p) -> step p (shared x) = inl reply ->
     reply_of server (admin_password config) page request reply) /\
  (forall t request p, tasks x !! t = Some (Running request p) ->
     exists reply s', solo p (shared x) reply s') /\
  (forall admin, app_admin (shared x) = Some admin -> log_holds (size (tasks x)) (ghost x) admin) /\
  (forall x0 t request p reply route, server_reachable server page x0 -> rtc (server_step server page) x0 x ->
     tasks x0 !! t = None -> tasks x !! t = Some (Running request p) -> step p (shared x) = inl reply ->
     asked_page request = Some route -> authorize_admin server (rq_headers request) = None ->
     page_between server page x0 x route reply) /\
  (tasks x = ∅ ->
     (forall admin, app_admin (shared x) = Some admin -> log_complete (ghost x) admin) /\
     (leaky (store (ghost x)) = false ->
        rep (app_runtime (shared x)) ∅ /\ global_hot_bytes (app_runtime (shared x)) = 0%Z)).
Proof.
  intros server Hc Hrun Hleft. assert (Hnew := build_app_inv config w Hc).
  assert (Hpw := build_app_password config w).
  assert (Hok := server_pool_ok server (admin_password config) page Hpw x Hnew Hrun Hleft).
  destruct (id Hok) as (m & _ & [[_ [_ Hi]] _] & _).
  refine (conj _ (conj _ (conj _ (conj _ (conj _ _))))).
  - exact (budget_kept _ _ _ _ _ Hi).
  - intros t request p reply. by apply built_server_replies.
  - intros t request p Ht. apply ends_solo. revert t request p Ht.
    apply (pool_all_end (serve_steps server page) allowed_request arrive_request publish_reply
      drop_request (elsewhere server) server (mkServerGhost ghost_init [] false)); [|exact Hrun].
    intros request. apply ends_serve.
  - intros admin Ha. exact (pool_log_holds server _ page Hpw x admin Hok Ha Hleft).
  - intros x0 t request p reply route. intros Hx0 Hx0x.
    by apply (returning_page server (admin_password config) page Hpw).
  - intros Hq. assert (Hidle := pool_ok_quiescent _ _ _ _ _ _ Hok Hq). split.
    + intros admin Ha. exact (server_idle_log server _ page Hpw x admin Hidle Ha Hleft).
    + intros Hl. assert (Hever := server_pool_private server (admin_password config) page Hpw x Hrun).
      assert (Hrep := server_idle_store server _ page Hpw x Hidle Hever Hl).
      split; [exact Hrep|]. exact (rep_hot _ _ Hrep).
Qed.

(** Then the admin asks for the log. *)
Definition sample_admin : Request :=
  mkRequest _ "GET" "/admin/api/logs" None [("authorization", "Basic YWRtaW46cHc=")] EmptyString.

Definition sample_asked : SamplePool :=
  played (serve_steps sample_server sample_page) allowed_request arrive_request publish_reply
    drop_request [Begin 4 sample_admin; Turn 4; Turn 4; Turn 4] sample_idle.

Lemma concurrent_server_correct_witness :
  (exists request reply, about_to_return sample_busy 0 = Some (request, reply) /\
     reply_status reply = 200%Z /\ reply_of sample_server "pw" sample_page request reply) /\
  (exists reply admin, about_to_return sample_asked 4 = Some (sample_admin, reply) /\
     reply = admin_logs_response admin /\ (3 <= length (log_entries (logs admin)))%nat) /\
  rep (app_runtime (shared sample_idle)) ∅ /\
  (forall admin, app_admin (shared sample_idle) = Some admin ->
     log_complete (ghost sample_idle) admin /\ stats_total_requests (stats admin) = 3%Z).
Proof.
  assert (Hbudget : in_u64 (blob_global_hot_budget_bytes sample_server_config))
    by (vm_compute; split; discriminate).
  assert (Hidle : tasks sample_idle = ∅) by (vm_compute; reflexivity).
  assert (Hthree : length (answered (ghost sample_idle)) = 3%nat) by (vm_compute; reflexivity).
  assert (Htight : leaky (store (ghost sample_idle)) = false) by (vm_compute; reflexivity).
  assert (Hstayed : abandoned (ghost sample_idle) = false) by (vm_compute; reflexivity).
  split; [|split].
  - assert (Hstatus : (fun e => reply_status e.2) <$> about_to_return sample_busy 0 = Some 200%Z)
      by (vm_compute; reflexivity).
    apply status_of_inv in Hstatus as (request & reply & Hout & Hstatus).
    exists request, reply. split; [exact Hout|]. split; [exact Hstatus|].
    apply about_to_return_inv in Hout as (p & Ht & Hs).
    destruct (concurrent_server_correct sample_server_config ∅ sample_page sample_busy Hbudget
      (sample_played_reachable _) ltac:(vm_compute; reflexivity)) as (_ & Hret & _).
    exact (Hret _ _ _ _ Ht Hs).
  - assert (Hasked : fst <$> about_to_return sample_asked 4 = Some sample_admin) by (vm_compute; reflexivity).
    destruct (about_to_return sample_asked 4) as [[request reply]|] eqn:Hout; [|discriminate Hasked].
    injection Hasked as ->. apply about_to_return_inv in Hout as (p & Ht & Hs).
    assert (Hsteps : rtc (server_step sample_server sample_page) sample_idle sample_asked) by apply played_steps.
    assert (Hreach : server_reachable sample_server sample_page sample_asked).
    { unfold server_reachable. etrans; [apply sample_played_reachable|exact Hsteps]. }
    destruct (concurrent_server_correct sample_server_config ∅ sample_page sample_asked Hbudget
      Hreach ltac:(vm_compute; reflexivity))
      as (_ & _ & _ & _ & Hpage & _).
    destruct (Hpage sample_idle 4%nat sample_admin p reply AdminLogsApi (sample_played_reachable _) Hsteps
      ltac:(vm_compute; reflexivity) Ht Hs eq_refl ltac:(vm_compute; reflexivity))
      as (z & admin & _ & _ & _ & Hreply & Hlog & Hsuffix).
    exists reply, admin. split; [reflexivity|]. split; [exact Hreply|].
    destruct Hlog as (_ & (pushed & entries & inflight & -> & Hperm & Hall & _) & _).
    apply Permutation_length in Hperm. apply Forall2_length in Hall. apply suffix_length in Hsuffix.
    rewrite length_app in Hperm. rewrite length_take, Hperm, <- Hall. rewrite Hthree in Hsuffix. lia.
  - destruct (concurrent_server_correct sample_server_config ∅ sample_page sample_idle Hbudget
      (sample_played_reachable _) ltac:(vm_compute; reflexivity)) as (_ & _ & _ & _ & _ & Hend).
    destruct (Hend Hidle) as [Hlog Hclean]. split; [apply Hclean, Htight|]. intros admin Ha.
    assert (Hdone := Hlog admin Ha). split; [exact Hdone|].
    destruct Hdone as (_ & _ & unlogged & Hu & _ & Htotal & _). rewrite Hstayed in Hu.
    destruct Hu as [->|Hu]; [|discriminate Hu]. rewrite Htotal, app_nil_r, length_fmap, Hthree. reflexivity.
Defined.

(** The steps are the handlers: a request that is not interfered with, whatever its route, gets the
    reply, and leaves the server, of the sequential router. *)
Lemma serve_alone `{UrlLib} `{HttpLib} `{JsonCodec} `{Displays} `{Base64} `{ImageCodec}
    `{BodyLib} {W} `{FileSystem W} `{UrlFetcher W} `{ResponseFetcher W} `{!HttpClient W} `{Runtime W}
    `{DuplexPipe W} `{Stopwatch W} `{Clock W} `{JoinOrder W} `{UpstreamClient W} `{InlineUploader W}
    `{LogLib W} `{!RouteLib} page request (s : AppState W) :
  solo (serve_steps s page request) s (serve page request s).1 (serve page request s).2.
Proof. by apply (does_serve s). Qed.

(** ** A leak: nothing fails, and memory is lost

    The client goes away while its request is sent upstream: the handler is dropped at that await, and
    nothing removes the blob of the body. No task is left, and its bytes stay reserved. *)
Lemma dropped_request_leaks :
  exists x, server_reachable sample_server sample_page x /\ tasks x = ∅ /\
    (0 < global_hot_bytes (app_runtime (shared x)))%Z.
Proof.
  exists (sample_played (Begin 0 sample_model_request :: replicate 30 (Turn 0) ++ [Drop 0; Late 0])).
  split; [apply sample_played_reachable|]. split; vm_compute; reflexivity.
Qed.

(** The client goes away while its request waits for the lock of the log: the request is counted and has
    a number, but the log will never show it. *)
Lemma dropped_request_is_not_logged :
  exists x, server_reachable sample_server sample_page x /\ tasks x = ∅ /\
    (fun admin => (stats_total_requests (stats admin), log_next_id (logs admin), log_entries (logs admin)))
      <$> app_admin (shared x) = Some (1%Z, 1%Z, []).
Proof.
  exists (sample_played (Begin 0 sample_model_request :: replicate 49 (Turn 0) ++ [Drop 0; Late 0])).
  split; [apply sample_played_reachable|]. split; vm_compute; reflexivity.
Qed.
