(* ===== verification/Hosted.v ===== *)
(** The server with its two fetch services (router.rs and cache.rs together): a world in which the
    images of requests and of answers are fetched by the services of FetchService.v, as
    [build_router] makes them from the configuration, with their caches and their downloads under way.

    The services share a surrounding [C]: the network, the clock and the directory of the disk cache.
    The files of the blob store are in [W], with all else the handlers use; the directories of both
    are different ones. *)

From S2P Require Import Prelude RustStr Json Pointer Ext Samples.
From S2P Require Import Config Upstream ImageIo RequestScan BlobRuntime BlobSteps BlobLogic RequestEncode.
From S2P Require Import MemoryCache DiskCache FetchService FetchOrigin.
From S2P Require Import RequestMaterialize RequestRewrite RequestSteps RequestLogic OpenaiImage Http Admin Upload.
From S2P Require Import ResponseRewrite ResponseMaterialize Query UpstreamClient UpstreamResponse.
From S2P Require Import Aiapidev Tracking Router Forwarding RouterSteps ActionSteps PageSteps RouterLogic Handling.
From S2P Require Import Server ServerLogic ServerShared AdminShared Interleave Inside.
From stdpp Require Import relations options.

(** * The services *)

Section services.
#[local] Set Default Proof Using "Type".
Context `{UrlLib} `{HttpLib} `{ImageCodec} `{JsonCodec} `{Digests} `{Displays}
  `{LruLib MemoryCache.MemoryEntry} {C : Type} `{!HttpClient C} `{FileSystem C} `{Directories C}
  `{Clock C} `{Runtime C}.
Abbreviation Svc := (@Service _ C).

(** [s] is what the service [s0], if there is one, has become. *)
Definition has_become (s0 s : option Svc) : Prop :=
  match s0, s with
  | Some s0, Some s => service_run s0 s
  | None, None => True
  | _, _ => False
  end.

(** A service of the process, in the surroundings that it shares with the other. *)
Definition ask (url : string) (x : C) (s : option Svc) : Result Error FetchResult * (C * option Svc) :=
  match s with
  | None => (Err (Anyhow "no fetch service"), (x, None))
  | Some s => let '(r, s) := fetch url (set_s_world x s) in (r, (s_world s, Some s))
  end.

Lemma ask_become url x s0 s : has_become s0 s -> has_become s0 (ask url x s).2.2.
Proof.
  destruct s0 as [s0|], s as [s|]; try done. simpl. intros Hrun.
  assert (Hnext := run_fetch s0 _ url (run_elsewhere s0 s x Hrun)). by destruct (fetch url (set_s_world x s)).
Qed.

Lemma ask_ok url x s0 s r :
  has_become s0 s -> (ask url x s).1 = Ok r -> exists s1 s2 s3, s0 = Some s1 /\
    service_run s1 s2 /\ fetch url s2 = (Ok r, s3).
Proof.
  destruct s0 as [s0|], s as [s|]; try done. simpl. intros Hrun.
  destruct (fetch url (set_s_world x s)) as [r1 s1] eqn:E. simpl. intros ->.
  exists s0, (set_s_world x s), s1. split; [done|]. split; [by apply run_elsewhere|exact E].
Qed.

Definition Host (s0 : option Svc) : Type := { s : option Svc | has_become s0 s }.

Lemma become_self s0 : has_become s0 s0.
Proof. destruct s0 as [s0|]; [apply run_new|done]. Qed.

Definition host_new (s0 : option Svc) : Host s0 := exist _ s0 (become_self s0).

Definition ask_host {s0} (url : string) (x : C) (h : Host s0) : Result Error FetchResult * (C * Host s0) :=
  let asked := ask url x (`h) in
  (asked.1, (asked.2.1, exist _ asked.2.2 (ask_become url x s0 (`h) (proj2_sig h)))).
End services.

(** * The world *)

Section world.
#[local] Set Default Proof Using "Type".
Context `{UrlLib} `{HttpLib} `{ImageCodec} `{JsonCodec} `{Digests} `{Displays}
  `{LruLib MemoryCache.MemoryEntry} {C : Type} `{!HttpClient C} `{FileSystem C} `{Directories C}
  `{Clock C} `{Runtime C} {W : Type}.
Abbreviation Svc := (@Service _ C).
Context (config : Config) (x0 : C).

(** [request_inline_data_fetch_service] and [response_inline_data_fetch_service] as they are made. *)
Definition request_service_new : option Svc := from_config config x0 REQUEST_MAX_IMAGE_BYTES false.
Definition response_service_new : option Svc := from_response_config config x0 DEFAULT_MAX_IMAGE_BYTES false.

Record Hosted := mkHosted {
  outside : W;
  around_caches : C;
  request_host : Host request_service_new;
  response_host : Host response_service_new;
}.

Definition hosted_new (w : W) : Hosted := mkHosted w x0 (host_new _) (host_new _).

Definition in_outside {A} (m : St W A) : St Hosted A := fun h =>
  let '(a, w) := m (outside h) in (a, mkHosted w (around_caches h) (request_host h) (response_host h)).

Definition in_caches {A} (m : St C A) : St Hosted A := fun h =>
  let '(a, x) := m (around_caches h) in (a, mkHosted (outside h) x (request_host h) (response_host h)).

Lemma in_outside_inv {A} (m : St W A) h a h' :
  in_outside m h = (a, h') -> m (outside h) = (a, outside h').
Proof. unfold in_outside. destruct (m (outside h)) as [a' w]. by intros [= <- <-]. Qed.

#[export] Instance hosted_request_fetcher : UrlFetcher Hosted := {|
  fetch_url url h :=
    let asked := ask_host url (around_caches h) (request_host h) in
    (asked.1, mkHosted (outside h) asked.2.1 asked.2.2 (response_host h));
|}.
#[export] Instance hosted_response_fetcher : ResponseFetcher Hosted := {|
  response_fetch_url url h :=
    let asked := ask_host url (around_caches h) (response_host h) in
    (asked.1, mkHosted (outside h) asked.2.1 (request_host h) asked.2.2);
|}.

#[export] Instance hosted_fs `{FileSystem W} : FileSystem Hosted := {|
  fs_create_dir_all d := in_outside (fs_create_dir_all d);
  fs_write p bs := in_outside (fs_write p bs);
  file_create p := in_outside (file_create p);
  file_write_all p bs := in_outside (file_write_all p bs);
  file_flush p := in_outside (file_flush p);
  fs_metadata_len p := in_outside (fs_metadata_len p);
  fs_read p := in_outside (fs_read p);
  file_open_read p n := in_outside (file_open_read p n);
  fs_remove_file p := in_outside (fs_remove_file p);
|}.
#[export] Instance hosted_http `{!HttpClient W} : HttpClient Hosted := {| http_get u := in_outside (http_get u) |}.
#[export] Instance hosted_runtime `{Runtime W} : Runtime Hosted := {|
  timeout_elapses d := in_outside (timeout_elapses d);
  join_error := in_outside join_error;
|}.
#[export] Instance hosted_stopwatch `{Stopwatch W} : Stopwatch Hosted := {| instant_now := in_outside instant_now |}.
#[export] Instance hosted_joins `{JoinOrder W} : JoinOrder Hosted := {|
  completion_order urls := in_outside (completion_order urls);
|}.
#[export] Instance hosted_pipe `{DuplexPipe W} : DuplexPipe Hosted := {|
  duplex_chunks bs := in_outside (duplex_chunks bs);
  abort_progress bs := in_outside (abort_progress bs);
|}.
#[export] Instance hosted_uploader `{InlineUploader W} : InlineUploader Hosted := {|
  upload_inline config data mime := in_outside (upload_inline config data mime);
|}.
#[export] Instance hosted_clock `{Clock W} : Clock Hosted := {|
  now_unix_ms := in_outside now_unix_ms;
  sleep d := in_outside (sleep d);
|}.
#[export] Instance hosted_upstream `{UpstreamClient W} : UpstreamClient Hosted := {|
  send_upstream request := in_outside (send_upstream request);
  json_body := json_body (W := W);
|}.
#[export] Instance hosted_log `{LogLib W} : LogLib Hosted := {|
  now_rfc3339 := in_outside now_rfc3339;
  warn_slow_request path status ms := in_outside (warn_slow_request path status ms);
|}.
#[export] Instance hosted_directories : Directories Hosted := {|
  fs_exists p := in_caches (fs_exists p);
  fs_read_dir d := in_caches (fs_read_dir d);
|}.

(** ** The laws of its parts *)

Ltac in_outside_invs :=
  repeat match goal with E : in_outside _ _ = _ |- _ => apply in_outside_inv in E end.

#[export] Program Instance hosted_fs_laws `{FileSystemLaws W} : FileSystemLaws Hosted :=
  {| fs_content h := fs_content (outside h) |}.
Solve Obligations with
  simpl; intros; in_outside_invs;
  eauto using fs_create_dir_all_frame, fs_write_ok, fs_write_frame, file_create_ok, file_create_frame,
    file_write_all_ok, file_write_all_frame, file_flush_frame, fs_metadata_len_ok,
    fs_metadata_len_frame, fs_read_ok, fs_read_frame, file_open_read_ok, file_open_read_len,
    file_open_read_frame, fs_remove_file_frame, fs_remove_file_ok, fs_remove_file_missing.

#[export] Instance hosted_fetch_laws `{FileSystemLaws W} `{UrlFetcher W} `{!HttpClient W} `{!Runtime W}
    `{!Stopwatch W} `{!JoinOrder W} `{!FetchLaws W} : FetchLaws Hosted.
Proof.
  split; simpl; intros; in_outside_invs;
    eauto using http_get_frame, elapses_frame, joins_frame, instant_now_frame.
  - by simplify_eq.
  - by eapply completion_order_perm.
Qed.

#[export] Instance hosted_duplex_laws `{DuplexLaws W} : DuplexLaws Hosted.
Proof.
  split. simpl. intros bs h cs h'. unfold in_outside. destruct (duplex_chunks bs (outside h)) as [cs1 w] eqn:E.
  apply duplex_chunks_ok in E as [Hcs ->]. intros [= <- <-]. split; [done|]. by destruct h.
Qed.

#[export] Instance hosted_scheduler_laws `{SchedulerLaws W} : SchedulerLaws Hosted.
Proof.
  split; simpl; intros; in_outside_invs;
    eauto using timeout_elapses_frame, join_error_frame, abort_progress_frame.
Qed.
End world.

(** * The server in this world *)

Section server.
#[local] Set Default Proof Using "All".
Context `{HttpLib} `{JsonCompact} `{Displays} `{Base64Laws} `{ImageCodec} `{BodyLaws} {W : Type}
  `{FetchLaws W} `{DuplexLaws W} `{!SchedulerLaws W}
  `{ResponseFetcher W} `{InlineUploader W} `{Clock W} `{UpstreamClient W} `{LogLib W} `{!RouterFrames W}
  `{!RouteLib} `{Digests} `{LruLaws MemoryCache.MemoryEntry}
  {C : Type} `{!HttpClient C} `{!FileSystem C} `{!Directories C} `{!Clock C} `{!Runtime C}.
Context (config : Config) (x0 : C).
Abbreviation World := (Hosted (W := W) config x0).

#[export] Instance hosted_frames : RouterFrames World.
Proof.
  split; simpl; repeat intro;
    repeat match goal with E : in_outside _ _ _ _ = _ |- _ => apply in_outside_inv in E end; simpl in *;
    [by simplify_eq|by eapply upload_inline_frame|by eapply upstream_frame|by eapply unix_ms_frame
    |by eapply sleep_frame|by eapply rfc3339_frame|by eapply warn_frame].
Qed.

(** Where an image of a request comes from: from its URL, by way of the fetch service or, if the
    configuration has none, directly. *)
Definition image_source (url mime : string) (bs : bytes) : Prop :=
  let image := mkCachedInlineData mime bs in
  match request_service_new config x0 with
  | Some s0 => genuine (W := C) (s_config s0) url image \/ found_on_disk (W := C) (disk_cache s0) url image
  | None => genuine (W := W) (mkServiceConfig REQUEST_MAX_IMAGE_BYTES false
              (enable_request_image_webp_optimization config) [] 0 0 0 false) url image
  end.

Lemma genuine_outside sc url image : genuine (W := World) sc url image -> genuine (W := W) sc url image.
Proof using Type.
  intros (target & u & response & raw & h & h' & Ht & Hp & Hs & Hh & Hf & Hget & Hrest).
  apply in_outside_inv in Hget. by exists target, u, response, raw, (outside _ _ h), (outside _ _ h').
Qed.

(** The handlers have a request service when the configuration makes one. *)
Lemma built_has_service (w : World) :
  has_request_fetch_service (build_app_state config w) =
    match request_service_new (C := C) config x0 with Some _ => true | None => false end.
Proof using Type.
  unfold build_app_state, request_service_new, from_config, from_config_with_png_optimization. simpl.
  by destruct (_ && _).
Qed.

Lemma asked_service url (h : World) r h' :
  fetch_url url h = (Ok r, h') -> exists s0 s s', request_service_new config x0 = Some s0 /\
    service_run s0 s /\ fetch url s = (Ok r, s').
Proof using Type.
  intros [= Hr _]. destruct h as [o x [s Hs] resp]. by eapply ask_ok.
Qed.

Lemma downloaded_source (w : World) url mime bs :
  downloaded (W := World) (request_services (build_app_state config w)) url mime bs -> image_source url mime bs.
Proof.
  unfold downloaded, image_source. cbn [request_services has_fetch_service]. rewrite built_has_service.
  destruct (request_service_new config x0) as [s0|] eqn:Enew.
  - intros (hit & h & h' & Hf). apply asked_service in Hf as (s1 & s & s' & Es & Hrun & Hf).
    rewrite Enew in Es. injection Es as <-.
    by refine (fetch_answers_run config x0 REQUEST_MAX_IMAGE_BYTES _ _ _ _ _ _ _ _ _ _ Enew Hrun Hf).
  - intros (raw & (h & h' & Hraw) & Hopt). apply genuine_outside.
    eapply (answer_genuine (mkServiceConfig REQUEST_MAX_IMAGE_BYTES false
      (enable_request_image_webp_optimization config) [] 0 0 0 false) url url raw
      (mkFetchedInlineData mime bs)); [done|done|exact Hraw|].
    cbn [request_services enable_webp_optimization] in Hopt. revert Hopt.
    destruct (enable_request_image_webp_optimization _); [|intros ->; by left].
    intros (h1 & h2 & Hconv). exact (convert_optimizes _ _ _ _ _ Hconv).
Qed.
End server.

(** * Theorem *)

(** C2: The server with its fetch services: whatever requests are handled at once, however their accesses
    interleave, and whatever the caches hold from earlier ones, a client of a Gemini model that does
    not get a 502 gets what was made of the upstream's answer to its own document, in which each image
    URL was replaced by an answer of that very URL: one that a permitted address has given, within the
    limit, or a smaller encoding of it, or one that the disk cache has kept for this URL. *)
Theorem server_sends_genuine_images `{HttpLib} `{JsonCompact} `{Displays} `{Base64Laws} `{ImageCodec}
    `{BodyLaws} {W} `{FetchLaws W} `{DuplexLaws W} `{!SchedulerLaws W} `{ResponseFetcher W}
    `{InlineUploader W} `{Clock W} `{UpstreamClient W} `{LogLib W} `{!RouterFrames W} `{!RouteLib}
    `{Digests} `{LruLaws MemoryCache.MemoryEntry}
    {C} `{!HttpClient C} `{!FileSystem C} `{!Directories C} `{!Clock C} `{!Runtime C}
    config (x0 : C) (w : W) page (x : Pool (AppState (Hosted config x0)) _ _ _)
    t request p reply rest target raw body resolved :
  let server := build_app_state config (hosted_new config x0 w) in
  in_u64 (blob_global_hot_budget_bytes config) -> server_reachable server page x ->
  ids_left (store (ghost x)) ->
  tasks x !! t = Some (Running request p) -> step p (shared x) = inl reply ->
  route_of (rq_path request) = Some ("POST", ModelAction rest) -> rq_method request = "POST" ->
  path_param rest = Ok target -> ends_with target ":generateContent" = true ->
  to_bytes (rq_body request) MAX_REQUEST_BODY_BYTES = Ok raw -> from_slice raw = Ok body ->
  resolve_upstream_for_request_from_header_map (rq_headers request) body (upstream_base_url config)
    (upstream_api_key config) = Ok resolved ->
  is_aiapidev_base_url (base_url resolved) = false -> reply_status reply <> 502%Z ->
  exists response refs reps content doc,
    carries response reply /\ scan_request_image_urls body = Ok refs /\
    Forall2 (fun ref y => RequestEncode.json_pointer y = RequestScan.json_pointer ref /\
      image_source (W := W) config x0 (RequestScan.url ref) (RequestEncode.replacement_mime_type y)
        (content (replacement_blob y))) refs reps /\
    to_vec (encoded_document content body reps) = Ok doc /\
    exchanged server resolved ("/v1beta/models/" +:+ target) (rq_query request)
      (header_get "content-type" (rq_headers request)) (header_get "accept" (rq_headers request))
      (get_output_mode (rq_query request) body) doc response.
Proof.
  intros server Hb Hrun Hleft Ht Hs Hroute Hpost Htarget Hends Hraw Hbody Hres Hai H502.
  assert (Hreply := built_server_replies config (hosted_new config x0 w) page x t request p reply
    Hb Hrun Hleft Ht Hs).
  unfold reply_of, handler_reply in Hreply. rewrite Hroute, Hpost, Htarget in Hreply. simpl in Hreply.
  unfold model_reply in Hreply. rewrite Hends, Hraw, Hbody in Hreply.
  cbn [negb app_config build_app_state] in Hreply. rewrite Hres in Hreply.
  destruct Hreply as [|(response & Hcarries & raw' & body' & Hraw' & Hbody' & Hled)]; [done|].
  cbn [rq_body] in Hraw'. rewrite to_bytes_from in Hraw' by (by eapply to_bytes_limit).
  injection Hraw' as <-. rewrite Hbody in Hbody'. injection Hbody' as <-. cbv zeta in Hled.
  rewrite Hai in Hled. destruct Hled as (doc & (refs & reps & content & Hscan & Hall & Hdoc) & Hex).
  exists response, refs, reps, content, doc. split; [done|]. split; [done|].
  split; [|by split]. eapply Forall2_impl; [exact Hall|]. intros ref y [Hp Hd]. split; [exact Hp|].
  by eapply downloaded_source.
Qed.

(** * Two requests for the same image, for the witness *)

#[local] Existing Instances sample_codec server_codec server_compact server_body server_body_laws
  server_upstream server_response_fetcher server_host server_log server_frames server_routes.

#[local] Instance hosted_allowed_dec g request : Decision (allowed_request g request) := left I.

Abbreviation SampleWorld := (Hosted (W := SampleFs) (C := SampleFs) sample_server_config ∅).

Definition sample_hosting : AppState SampleWorld :=
  build_app_state sample_server_config (hosted_new sample_server_config ∅ ∅).

(** The second finds the image that the first has downloaded in the memory cache. *)
Definition sample_hosted : Pool (AppState SampleWorld) ServerGhost Request Reply :=
  played (serve_steps sample_hosting sample_page) allowed_request arrive_request publish_reply
    drop_request (Begin 0 sample_model_request :: replicate 56 (Turn 0) ++
                  Begin 1 sample_model_request :: replicate 51 (Turn 1)) (server_start sample_hosting).

Definition sample_body : Value := sample_images "https://h.example/a.png".

Lemma server_sends_genuine_images_witness :
  exists request reply, about_to_return sample_hosted 1 = Some (request, reply) /\
    reply_status reply = 200%Z /\
    exists refs reps content, scan_request_image_urls sample_body = Ok refs /\ length refs = 2%nat /\
      Forall2 (fun ref y => RequestEncode.json_pointer y = RequestScan.json_pointer ref /\
        image_source (W := SampleFs) (C := SampleFs) sample_server_config ∅ (RequestScan.url ref)
          (RequestEncode.replacement_mime_type y) (content (replacement_blob y))) refs reps.
Proof.
  assert (Hrequest : fst <$> about_to_return sample_hosted 1 = Some sample_model_request)
    by (vm_compute; reflexivity).
  assert (Hstatus : (fun e => reply_status e.2) <$> about_to_return sample_hosted 1 = Some 200%Z)
    by (vm_compute; reflexivity).
  apply status_of_inv in Hstatus as (request & reply & Hout & Hstatus).
  rewrite Hout in Hrequest. injection Hrequest as ->.
  exists sample_model_request, reply. split; [exact Hout|]. split; [exact Hstatus|].
  apply about_to_return_inv in Hout as (p & Ht & Hs).
  destruct (server_sends_genuine_images sample_server_config ∅ ∅ sample_page sample_hosted 1
    sample_model_request p reply "m:generateContent" "m:generateContent" sample_ask sample_body
    (mkResolvedUpstream "https://magic666.top" "key"))
    as (response & refs & reps & content & doc & _ & Hscan & Hall & _).
  - vm_compute. split; discriminate.
  - apply played_steps.
  - vm_compute. reflexivity.
  - exact Ht.
  - exact Hs.
  - reflexivity.
  - reflexivity.
  - reflexivity.
  - reflexivity.
  - reflexivity.
  - reflexivity.
  - vm_compute. reflexivity.
  - reflexivity.
  - rewrite Hstatus. discriminate.
  - exists refs, reps, content. split; [exact Hscan|]. split; [|exact Hall].
    assert (Htwo : length <$> result_ok (scan_request_image_urls sample_body) = Some 2%nat)
      by (vm_compute; reflexivity).
    rewrite Hscan in Htwo. injection Htwo as Htwo. exact Htwo.
Defined.
