(* ===== verification/Main.v ===== *)
(** main.rs: the start of the process, from the environment to the server, the signals it waits for, and
    what its requests in flight can still do when no more come: all can be answered.  How
    [axum::serve] stops taking requests and waits for those in flight is not modelled. *)

From S2P Require Import Prelude RustStr Json Pointer Ext Samples.
From S2P Require Import Config Upstream ImageIo RequestScan BlobRuntime BlobSteps BlobLogic RequestEncode.
From S2P Require Import MemoryCache FetchService.
From S2P Require Import RequestMaterialize RequestRewrite RequestSteps RequestLogic OpenaiImage Http Admin Upload.
From S2P Require Import ResponseRewrite ResponseMaterialize Query UpstreamClient UpstreamResponse.
From S2P Require Import Aiapidev Tracking Router Forwarding RouterSteps ActionSteps PageSteps RouterLogic Handling.
From S2P Require Import Server PageReads ServerLogic ServerShared AdminShared Interleave Inside.
From stdpp Require Import relations options.

(** * The environment *)

(** [Config::from_process_env]: of a variable that is there twice, the last counts. *)
Definition from_process_env `{UrlLib} (vars : list (string * string)) : Result Error Config :=
  from_env_map (foldl (fun env_map kv => <[kv.1 := kv.2]> env_map) ∅ vars).

(** * Signals *)

(** Where the wait for a signal stands; it may also fail at once. *)
Inductive Listening := Waiting | SignalCame | ListenFailed.

(** The [ctrl_c] branch is done when the signal comes, and when the wait has failed, *)
Definition ctrl_c_done (l : Listening) : bool :=
  match l with Waiting => false | SignalCame | ListenFailed => true end.

(** the [terminate] branch waits forever when it cannot listen. *)
Definition terminate_done (l : Listening) : bool :=
  match l with SignalCame => true | Waiting | ListenFailed => false end.

(** [tokio::select!] on both. *)
Definition shutdown_signal (ctrl_c terminate : Listening) : bool :=
  ctrl_c_done ctrl_c || terminate_done terminate.

(** A wait for ctrl-c that fails counts as the signal, one for SIGTERM does not. *)
Lemma listen_failures :
  shutdown_signal ListenFailed Waiting = true /\ shutdown_signal Waiting ListenFailed = false.
Proof. done. Qed.

(** [compiled_allocator_name] (allocator.rs), on the target it is compiled for. *)
Definition compiled_allocator_name (target_os target_env : string) : string :=
  if String.eqb target_os "linux" && String.eqb target_env "gnu" then "jemalloc" else "system".

(** * The process *)

Section process.
#[local] Set Default Proof Using "Type".
Context `{UrlLib} `{HttpLib} `{JsonCodec} `{Displays} `{Base64} `{ImageCodec} `{BodyLib} {W : Type}
  `{FileSystemLaws W} `{UrlFetcher W} `{ResponseFetcher W} `{!HttpClient W} `{Runtime W} `{DuplexPipe W}
  `{Stopwatch W} `{Clock W} `{JoinOrder W} `{UpstreamClient W} `{InlineUploader W} `{LogLib W} `{!RouteLib}
  `{Digests} `{LruLib MemoryCache.MemoryEntry} `{Directories W}.
Abbreviation ServerPool := (Pool (AppState W) ServerGhost Request Reply).

(** [main], up to the point where requests are served; [bind] is [TcpListener::bind]. *)
Definition start (bind : Z -> Result Error unit) (vars : list (string * string)) (w : W)
    : Result Error (Config * AppState W) :=
  let? config := from_process_env vars in
  let? _ := bind (port config) in
  Ok (config, build_app_state config w).

(** ** Draining *)

(** A request that will be in the log. *)
Definition counts (task : Task (AppState W) Request Reply) : bool :=
  match task with Running request _ => is_action request | Detached _ => false end.

Definition actions_in_flight (x : ServerPool) : nat :=
  size (filter (fun kv => counts kv.2 = true) (tasks x)).

(** No request comes, and none is dropped. *)
Definition drains : relation ServerPool := rtc (drain_step publish_reply).

Lemma actions_insert (ts : gmap nat (Task (AppState W) Request Reply)) t task :
  size (filter (fun kv => counts kv.2 = true) (<[t := task]> ts)) =
    ((if counts task then 1 else 0) + size (filter (fun kv => counts kv.2 = true) (delete t ts)))%nat.
Proof.
  rewrite <- insert_delete_eq. destruct (counts task) eqn:E.
  - rewrite map_filter_insert_True by done. rewrite map_size_insert_None; [done|].
    apply map_lookup_filter_None. left. apply lookup_delete_eq.
  - rewrite map_filter_insert_not' by (simpl; congruence || by rewrite lookup_delete_eq). done.
Qed.

Lemma drained x y :
  drains x y -> (length (answered (ghost y)) + actions_in_flight y =
                 length (answered (ghost x)) + actions_in_flight x)%nat /\
    arrivals (store (ghost y)) = arrivals (store (ghost x)) /\ abandoned (ghost y) = abandoned (ghost x).
Proof.
  unfold drains. induction 1 as [x|x1 x2 x3 Hs _ IH]; [done|]. destruct IH as (Hn & -> & ->). rewrite Hn. clear Hn.
  destruct Hs as [s g ts t c p p' s' Ht Hs|s g ts t c p a Ht Hs|s g ts t m Ht]; unfold actions_in_flight;
    cbn [ghost tasks].
  - split; [|done]. rewrite <- (insert_id ts t _ Ht) at 2. by rewrite !actions_insert.
  - rewrite <- (insert_id ts t _ Ht) at 2. rewrite actions_insert. simpl. unfold publish_reply.
    destruct (is_action c); [|split; [lia|done]]. destruct (reply_status a =? 502)%Z; simpl; (split; [lia|done]).
  - split; [|done]. rewrite <- (insert_id ts t _ Ht) at 2. by rewrite actions_insert.
Qed.
End process.

(** * The whole run *)

Section run.
#[local] Set Default Proof Using "All".
Context `{HttpLib} `{JsonCompact} `{Displays} `{Base64Laws} `{ImageCodec} `{BodyLaws} {W : Type}
  `{FetchLaws W} `{DuplexLaws W} `{!SchedulerLaws W}
  `{ResponseFetcher W} `{InlineUploader W} `{Clock W} `{UpstreamClient W} `{LogLib W} `{!RouterFrames W} `{!RouteLib}
  `{Digests} `{LruLib MemoryCache.MemoryEntry} `{Directories W}.
Context (bind : Z -> Result Error unit) (page : Reply) (vars : list (string * string)) (w : W).
Context (config : Config) (server : AppState W).
Context (started : start bind vars w = Ok (config, server)).
Abbreviation ServerPool := (Pool (AppState W) ServerGhost Request Reply).

Lemma started_inv :
  in_u64 (blob_global_hot_budget_bytes config) /\ bind (port config) = Ok tt /\
  server = build_app_state config w.
Proof.
  assert (Hstart := started). unfold start in Hstart.
  apply and_then_ok_inv in Hstart as (c & Hc & Hrest). destruct (bind (port c)) as [[]|e] eqn:Hb; [|done].
  injection Hrest as -> <-. split; [|done].
  apply from_env_map_run in Hc. assert (Hall := ok_u64 _ Hc). rewrite !Forall_cons in Hall. naive_solver.
Qed.

Lemma drain_reachable x y : server_reachable server page x -> drains x y -> server_reachable server page y.
Proof using -(bind vars w config started).
  intros Hx Hd. unfold server_reachable in *. etrans; [exact Hx|]. unfold drains in Hd. revert Hd.
  apply rtc_subrel. intros ? ?. apply drain_pool_step.
Qed.

(** When no request is left, the admin's numbers are right, and no blob is, unless a request was dropped
    or answered with 502. *)
Definition left_clean (x : ServerPool) : Prop :=
  (forall admin, app_admin (shared x) = Some admin -> log_complete (ghost x) admin) /\
  (leaky (store (ghost x)) = false -> rep (app_runtime (shared x)) ∅).

Lemma drained_clean x :
  server_reachable server page x -> ids_left (store (ghost x)) -> tasks x = ∅ -> left_clean x.
Proof.
  intros Hreach Hleft Hq. destruct started_inv as (Hc & _ & Hserver).
  assert (Hpw := build_app_password config w). rewrite <- Hserver in Hpw.
  assert (Hnew := build_app_inv config w Hc). rewrite <- Hserver in Hnew.
  assert (Hok := server_pool_ok server (admin_password config) page Hpw x Hnew Hreach Hleft).
  assert (Hidle := pool_ok_quiescent _ _ _ _ _ _ Hok Hq). split.
  - intros admin Ha. exact (server_idle_log server _ page Hpw x admin Hidle Ha Hleft).
  - intros Hl. exact (server_idle_store server _ page Hpw x Hidle
      (server_pool_private server (admin_password config) page Hpw x Hreach) Hl).
Qed.

(** However the requests in flight stand, all can be brought to their end. *)
Lemma can_drain x : server_reachable server page x -> exists y, drains x y /\ tasks y = ∅.
Proof using -(bind vars w config started).
  intros Hreach. apply (pool_drains (serve_steps server page) allowed_request arrive_request publish_reply
    drop_request (elsewhere server)).
  apply (pool_all_end (serve_steps server page) allowed_request arrive_request publish_reply
    drop_request (elsewhere server) server (mkServerGhost ghost_init [] false)); [|exact Hreach].
  intros request. apply ends_serve.
Qed.
End run.

(** * Theorem *)


(** ** A run, for the witness *)

#[local] Existing Instances sample_codec server_codec server_compact server_body server_body_laws
  server_upstream server_response_fetcher server_host server_log server_frames server_routes.

Definition sample_vars : list (string * string) :=
  [("UPSTREAM_API_KEY", "old"); ("ADMIN_PASSWORD", "pw"); ("UPSTREAM_API_KEY", "key")].

Definition sample_bind (port : Z) : Result Error unit := Ok tt.

Lemma sample_started : start sample_bind sample_vars ∅ = Ok (sample_server_config, sample_server).
Proof.
  assert (Hc : from_process_env sample_vars = Ok sample_server_config) by (vm_compute; reflexivity).
  unfold start. by rewrite Hc.
Qed.

